(* ===== verification/_CoqProject ===== *)
-Q . S2P
Prelude.v
Gob.v
LabRpc.v
LabRpcFacts.v
LabRpcTheory.v
LabRpcLive.v
LabRpcMain.v
ConfigBase.v
Raft.v
RaftFacts.v
RaftHandlers.v
RaftSpec.v
RaftReplicate.v
Cluster.v
ClusterStep.v
Election.v
ElectionSafety.v
Leaders.v
Apply.v
RaftTraces.v
RaftSafety.v
RaftAck.v
RaftAckStep.v
RaftCommit.v
RaftMachine.v
RaftLog.v
RaftElect.v
RaftProgress.v
Testbed.v
TestbedTheory.v
SvcConfig.v
SvcTheory.v
SvcSteps.v
SvcMain.v
RaftConfig.v
RaftConfigTheory.v
RaftConfigMain.v
RaftCheck.v
RaftAgree.v
RaftConfigRuns.v
KVServer.v
KVTheory.v
KVTraces.v
Clerk.v
KvConfig.v
Bitset.v
LinHeap.v
LinCheck.v
LinSpec.v
LinHistory.v
LinOps.v
LinKv.v
LinStore.v
LinEvents.v
KvSystem.v
KvSystemInv.v
KvLinear.v
KvRaft.v
KvNet.v
Shard.v
SmConfig.v
Utf8.v
Labgob.v
LabgobMain.v
LabgobConc.v
MapReduce.v
MRFacts.v
ShardkvConfig.v
ShardkvTheory.v
ShardkvMain.v
MRTheory.v
MRJobs.v
WordCount.v
InvertedIndex.v
Schedule.v
ScheduleTheory.v
MRMaster.v
Distributed.v
MRMasterTheory.v
Programs.v
