(* ===== verification/Prelude.v ===== *)
(** * A verification development of the mit6824 code base

    The repository (Go) holds the labs of a course on distributed systems: a
    MapReduce library with two programs on it, the Raft consensus protocol, a
    replicated key/value service on Raft with its client, a checker of
    linearizability that the tests of the service use, the clients and stub
    servers of a sharded service, and the simulated network and testers they are
    run on.  This library models these programs in Rocq and
    proves what makes them correct; where the code does not keep a promise, a
    theorem exhibits the run.

    ** The parts and how they interact

    - src/raft: a peer ([Raft]) elects leaders and replicates a log through the
      RPCs RequestVote and AppendEntries, persists its term, vote and log with a
      [Persister] and delivers committed entries on applyCh.
    - src/kvraft: [KVServer] passes client requests to [Raft.Start], waits until
      the entry is applied and answers; [Clerk] retries requests on the servers
      until one accepts.
    - src/linearizability: [CheckOperations] and [CheckEvents] search for an order
      of a recorded history that explains it.
    - src/mapreduce, src/main/wc.go, src/main/ii.go: a master runs map and reduce
      tasks, itself or on workers, that exchange files.
    - src/shardmaster, src/shardkv: clients that find the group of a key; the
      servers are stubs.
    - src/labrpc, src/labgob: a network that loses, delays and reorders calls and
      can be partitioned, and the checks around encoding/gob.  All RPCs of the
      above but those of MapReduce go through it.
    - config.go of src/raft, src/kvraft, src/shardmaster and src/shardkv: the
      testers, which set up servers on the network, cut and restore connections,
      crash and restart servers on the state they persisted, and check what the
      servers do.

    ** Files

    Prelude.v: Go results that may panic ([res]), slices, tactics, hints, counting.
    Gob.v: the codec interface [Gob] of encoding/gob (wrapped by src/labgob), with
    an instance, and the interface [GobVar] of decoding into a variable, whose fields
    keep their values where the sent value has defaults.

    LabRpc.v models src/labrpc/labrpc.go: the tables of the network, services and
    dispatch as functions, the goroutines of a call as an executable step function.
    LabRpcFacts.v: what a step does to one call; LabRpcTheory.v, LabRpcLive.v:
    execution, silence, progress, counters; LabRpcMain.v: the guarantees and runs.
    Labgob.v models src/labgob/labgob.go on a graph of types; LabgobMain.v: what the
    checks count; LabgobConc.v: the same checks, of types and of variables, made by
    goroutines at once.

    ConfigBase.v: the helpers every config.go repeats (loops, [randstring],
    [random_handles]).  Testbed.v: servers on the network with their ends and
    persisters, objects and persisters in stores, since a killed server runs on;
    the class [TestServer] is what a tester needs of the servers it tests.
    TestbedTheory.v: names, persisters and servers stay apart.  RaftConfig.v models
    src/raft/config.go; RaftConfigTheory.v and RaftConfigMain.v: connectivity,
    crash and start; RaftCheck.v: the apply readers and [checkOneLeader] on a Raft
    cluster; RaftAgree.v: [one] and [wait]; RaftConfigRuns.v: a concrete tester.
    SvcConfig.v models src/kvraft/config.go for any [TestServer], since
    src/shardmaster/config.go is the same code for other servers; SvcTheory.v,
    SvcSteps.v, SvcMain.v: its theorems; KvConfig.v and SmConfig.v:
    the instances with [KVServer] and [ShardMaster].  ShardkvConfig.v models
    src/shardkv/config.go; ShardkvTheory.v, ShardkvMain.v: its theorems.

    Raft.v models src/raft except config.go: one function on the state of a peer
    per critical section of the source ([RequestVote], [AppendEntries], [Start],
    [startElection], [broadcastHeartbeat], the bodies of their goroutines, [Make],
    [persist], ...).  Goroutines, the select loop and timer channels are data of
    the peer.  RaftFacts.v and RaftHandlers.v: lemmas per operation.  RaftSpec.v:
    the handlers against the receiver rules of the protocol.  RaftReplicate.v: the
    commit rule and the repair of a follower's log.  Cluster.v: peers, network and
    crashes as an executable transition system (crash1 and start1 of config.go,
    RPC loss, delay and reordering as in src/labrpc).  ClusterStep.v: the
    well-formedness invariant and a digest of each step.  Election.v,
    ElectionSafety.v, Leaders.v, Apply.v: votes, quorums, Election Safety, Log
    Matching and the order of delivery.  RaftTraces.v: concrete runs.
    RaftSafety.v: the guarantees of a cluster.  RaftAck.v,
    RaftAckStep.v: what an acknowledgement of AppendEntries says of the follower's
    log, as ghost state of a run; RaftCommit.v: Leader Completeness from it, and
    what a leader counts when it commits; RaftMachine.v: State
    Machine Safety and the run that shows what it needs; RaftLog.v: the agreed log
    [astep] as an abstract machine and the refinement.  RaftElect.v: steps of some
    servers whose messages arrive, timers that stay armed, and a campaign that is
    won; RaftProgress.v: a leader brings the others up to date, commits and
    delivers.

    KVServer.v models src/kvraft/server.go: its maps, channels, waiting handlers
    and apply goroutine as steps.  KVTheory.v: the abstract service [spec_db] and
    the refinement; KVTraces.v: runs.  Clerk.v: src/kvraft/client.go.  KvSystem.v:
    clerks, servers and the recorded operations of a test on one agreed log, with
    messages that are lost, delayed and repeated; KvSystemInv.v: its invariant;
    KvLinear.v: its histories are linearizable.  KvRaft.v: the same system where
    the log is the cluster of Cluster.v and each server reads the applyCh of its
    own peer.  KvNet.v: that system where the clerks call through LabRpc.v, on a
    network that the tester of SvcConfig.v has set up, and servers are shut down and
    started as in src/kvraft/config.go.

    Bitset.v, LinHeap.v, LinCheck.v, LinHistory.v, LinKv.v model
    src/linearizability (bitset.go; the doubly linked history with [lift] and
    [unlift] on a heap; [checkSingle]; the conversions; [CheckOperations] and
    models.go).  LinSpec.v, LinOps.v: linearizability as a definition and
    the proof that the search decides it.  LinStore.v: locality, checking the
    keys one by one is checking the store.  LinEvents.v: [CheckEvents], the
    timeouts, and default functions.

    Shard.v: the clients of src/shardmaster and src/shardkv and the stub servers.

    Utf8.v: runes and [strings.FieldsFunc].  MapReduce.v: src/mapreduce/common.go,
    common_map.go, common_reduce.go, master.go, master_splitmerge.go.  MRFacts.v,
    MRTheory.v, MRJobs.v: what a task does and what a sequential job computes.
    WordCount.v and InvertedIndex.v: the two programs.  Schedule.v: schedule.go and
    worker.go (the processes, the sockets they listen on under names that may come
    again, their accept loops) as a step relation; ScheduleTheory.v: its invariants; Distributed.v: what the two phases of a job
    leave.  MRMaster.v: [Distributed] and [run] of master.go with the RPC server of
    master_rpc.go, from start to Wait; MRMasterTheory.v: a distributed job and the
    sequential job are the same.  Programs.v: main of wc.go and ii.go.

    ** What the theorems show

    Raft.  In every run: one vote per server and term across crashes, terms and
    votes are kept, recovery restores the persisted state, an index is delivered
    first only after all before it; the handlers implement the receiver rules and
    do not panic.  In timely runs, which exclude three races that Cluster.v names:
    Election Safety, Log Matching and Leader Completeness (an entry of a leader's
    term that a majority holds is in the log of every later leader).  In
    runs that are also prudent (RaftCommit.v: a leader handles a reply in the term
    it asked in and commits by counting entries of its own term): State Machine
    Safety, and the cluster refines one agreed log that every server delivers a
    prefix of.  From every state such a run reaches, a majority whose messages
    arrive can elect a leader, commit a new command and deliver it; a cluster of one
    server never elects itself.  Runs show that the races break Election Safety, that a stale reply
    or counting replicas of old entries commits entries too early, and that a
    command can be delivered twice.
    Key/value service.  The database is a function of a prefix of the log, each
    request is executed exactly once in spite of retries and repeated delivery,
    acknowledged requests were executed; the apply goroutine can block.  The clerk
    returns, and its retries keep the request id, which is what exactly-once asks
    of it.  When the clerks have drawn different ids, on an agreed log every history a
    test records is linearizable in the sense of the checker; on the Raft cluster, in
    timely and prudent runs; and so over the simulated network, with clerks whose
    handles are shuffled and with handlers that outlive their server.  Two clerks with
    the same id lose an update.
    Checker.  [checkSingle] terminates and decides linearizability;
    [CheckOperations] combines the partitions, and with the key/value model
    decides linearizability of the whole store; the bit tricks of the bitset and the
    in-place unlinking are correct.  [CheckEvents] decides linearizability whatever
    the ids of the events are; a timeout never makes a check answer false.
    MapReduce.  A sequential job writes one line per key in order with the reduce
    function applied to all values; a distributed job with at most as many reduce
    tasks as input files, with workers that fail, start again and register again and
    tasks that are run again, leaves the same files and can always be completed while a
    worker is alive ([job_ok] says which jobs can run); with more reduce tasks the
    master panics.  No worker gets two tasks at once, unless its name is registered
    twice: then it may, and ends.  A worker that is shut down exits only after one more
    connection; wc and ii count words and list documents, as sequential job and as
    master.
    Sharded service.  A clerk sends a request only to the group of its key and
    returns once that group answers.

    Network.  A call runs its handler at most once, on the arguments that were
    sent, and returns true only with what the handler returned, decoded over what the
    reply variable held; a server that was deleted or replaced answers no call; ten steps of its own goroutines bring
    a call back from anywhere; the counters count, the total at 32 bits.
    Encoding.  [checkType] terminates on recursive types and complains about
    every lower-case field of every reachable type once, also when goroutines check
    types and variables at the same time.
    Testers.  In every configuration a test can reach, ends are distinct, lead
    where they should, and are enabled exactly between connected servers;
    partitions separate; a crash cuts a server off from the network and from the
    state that is saved, and its successor starts from what was persisted last,
    which for Raft is the restart of Cluster.v; [checkOneLeader] on a timely cluster
    finds a leader of the greatest term and never two; [one] and [wait] come back
    in bounded time, and only with what enough servers have delivered; the shardkv
    tester puts all servers up, for groups of three servers and no other size.

    ** Bounds and fuel

    Loops of the source that may run for ever take fuel: the clerks ([retry],
    [master_call], [shard_call]) and [search_loop].  The theorems give the fuel
    that is enough (a number of RPCs that depends on when a server begins to
    answer; for the search, some number beyond which the answer does not change).
    The scans of the leader over its log ([commitScan], [conflictScan]) take the
    length of the log; the decoding loop takes the length of the file, which is
    enough since a value has at least one byte.  The loops of [one] have fuel 201
    (10 seconds in steps of at least 50 milliseconds) and 101 (2 seconds in steps
    of 20), which [one_agrees] shows to be enough; [checkOneLeader] and [wait] make
    10 and 30 rounds, as the code does.  [checkType] needs one unit more than there
    are unchecked types.  Integers are [Z]; the words of a bitset are kept at 64
    bits, the hash of MapReduce and the counters of RPCs and operations at 32.
    Terms, indexes
    and counters are Go [int]s that stay far below 2^63 and are not wrapped.

    ** What is not modelled

    The test functions; the wall clock (timers fire in any order, durations are
    numbers; the clock of the testers' checks counts their sleeps, not the time that
    looking at the servers takes); the body of encoding/gob, crypto/rand, math/rand and reflection,
    which are interfaces or arguments; the Unix sockets and net/rpc under MapReduce
    (a call or a connection succeeds or fails; [call] of MapReduce has no timeout in
    the code, and none here); the daemons of src/main whose
    packages are not in the repository; debug output.

    ** Left open

    The RPCs of the Raft peers through LabRpc.v as well (KvNet.v leaves
    them in the network of Cluster.v, which loses, delays and reorders the same way),
    and progress of the whole service, clerks included, from that of Raft. *)

From Stdlib Require Export ZArith Lia.
From stdpp Require Export base tactics numbers countable list gmap strings.

(** ** Results of Go code that may panic

    A function of the source that indexes or slices can stop with a run-time
    panic.  [res A] is the result of such a function: a value or the panic. *)

Inductive res (A : Type) : Type :=
| Ret (a : A)
| Panic.
Arguments Ret {A} a.
Arguments Panic {A}.

Global Instance res_ret : MRet res := fun A a => Ret a.
Global Instance res_bind : MBind res := fun A B f m =>
  match m with
  | Ret a => f a
  | Panic => Panic
  end.

Definition res_of_option {A} (o : option A) : res A :=
  match o with
  | Some a => Ret a
  | None => Panic
  end.

(** ** Go slices indexed by [int]

    [len l], [l[i]], [l[i] = v], [l[lo:hi]].  An index below zero or beyond
    the length panics.  (Reslicing between length and capacity does not occur
    in the modelled code.) *)

Definition len {A} (l : list A) : Z := Z.of_nat (length l).

Definition idx {A} (l : list A) (i : Z) : res A :=
  if (0 <=? i)%Z then res_of_option (l !! Z.to_nat i) else Panic.

Definition upd {A} (l : list A) (i : Z) (v : A) : res (list A) :=
  if ((0 <=? i) && (i <? len l))%Z then Ret (<[Z.to_nat i := v]> l) else Panic.

Definition slice {A} (l : list A) (lo hi : Z) : res (list A) :=
  if ((0 <=? lo) && (lo <=? hi) && (hi <=? len l))%Z
  then Ret (take (Z.to_nat hi - Z.to_nat lo) (drop (Z.to_nat lo) l))
  else Panic.

(** ** Tactics of the development *)

(** Invert every equation between results in the context. *)
Ltac inv_res :=
  repeat match goal with
  | H : Ret _ = Ret _ |- _ => injection H; clear H; intros
  | H : Panic = Ret _ |- _ => discriminate H
  | H : Ret _ = Panic |- _ => discriminate H
  | H : (_, _) = (_, _) |- _ => injection H; clear H; intros
  end; subst.

(** Step through one bind of an equation [e = Ret v]. *)
Ltac bind_inv H :=
  match type of H with
  | mbind _ ?m = Ret _ =>
      let x := fresh "x" in let E := fresh "E" in
      destruct m as [x|] eqn:E; [cbn in H | discriminate H]
  end.

(** Case analysis on the boolean comparisons of integers in the context. *)
Ltac zbool :=
  repeat match goal with
  | H : (_ && _) = true |- _ => apply andb_true_iff in H as [? ?]
  | H : (_ || _) = false |- _ => apply orb_false_iff in H as [? ?]
  | H : (_ <? _)%Z = true |- _ => apply Z.ltb_lt in H
  | H : (_ <? _)%Z = false |- _ => apply Z.ltb_ge in H
  | H : (_ <=? _)%Z = true |- _ => apply Z.leb_le in H
  | H : (_ <=? _)%Z = false |- _ => apply Z.leb_gt in H
  | H : (_ =? _)%Z = true |- _ => apply Z.eqb_eq in H
  | H : (_ =? _)%Z = false |- _ => apply Z.eqb_neq in H
  | H : negb _ = true |- _ => apply negb_true_iff in H
  | H : negb _ = false |- _ => apply negb_false_iff in H
  end.

(** Destruct the first [if] of the goal or of a hypothesis and read the test. *)
Ltac case_if :=
  match goal with
  | |- context [if ?b then _ else _] => destruct b eqn:?
  | H : context [if ?b then _ else _] |- _ => destruct b eqn:?
  end; zbool.

(** ** Lemmas on slices *)

Section slices.
Context {A : Type}.
Implicit Types (l : list A) (i : Z).
Local Open Scope Z_scope.

Lemma len_nonneg l : 0 <= len l.
Proof. unfold len; lia. Qed.

Lemma len_app l1 l2 : len (l1 ++ l2) = len l1 + len l2.
Proof. unfold len. rewrite length_app. lia. Qed.

Lemma idx_Ret l i x : idx l i = Ret x <-> 0 <= i /\ l !! Z.to_nat i = Some x.
Proof.
  unfold idx, res_of_option. destruct (Z.leb_spec 0 i).
  - destruct (l !! Z.to_nat i) eqn:E; split; intros; destruct_and?; inv_res; try done.
    by simplify_eq.
  - split; [done|lia].
Qed.

Lemma idx_range l i x : idx l i = Ret x -> 0 <= i < len l.
Proof.
  rewrite idx_Ret. intros [? Hl%lookup_lt_Some]. unfold len. lia.
Qed.

Lemma idx_in_range l i : 0 <= i < len l -> exists x, idx l i = Ret x.
Proof.
  intros [? ?]. destruct (lookup_lt_is_Some_2 l (Z.to_nat i)) as [x Hx].
  { unfold len in *. lia. }
  exists x. by apply idx_Ret.
Qed.

Lemma idx_of_nat l (k : nat) x : l !! k = Some x -> idx l (Z.of_nat k) = Ret x.
Proof. intros. apply idx_Ret. rewrite Nat2Z.id. split; [lia|done]. Qed.

Lemma upd_Ret l i v l' :
  upd l i v = Ret l' <-> 0 <= i < len l /\ l' = <[Z.to_nat i := v]> l.
Proof.
  unfold upd. destruct (Z.leb_spec 0 i), (Z.ltb_spec i (len l)); cbn;
    split; intros; destruct_and?; inv_res; auto; try done; try lia.
Qed.

Lemma upd_of_nat l (k : nat) v : (k < length l)%nat -> upd l (Z.of_nat k) v = Ret (<[k := v]> l).
Proof. intros Hk. apply upd_Ret. rewrite Nat2Z.id. unfold len. split; [lia|done]. Qed.

Lemma upd_length l i v l' : upd l i v = Ret l' -> length l' = length l.
Proof. intros [_ ->]%upd_Ret. apply length_insert. Qed.

Lemma upd_in_range l i v : 0 <= i < len l -> exists l', upd l i v = Ret l'.
Proof. intros. eexists. apply upd_Ret. eauto. Qed.

Lemma upd_lookup l i v l' (k : nat) :
  upd l i v = Ret l' ->
  l' !! k = if decide (k = Z.to_nat i) then Some v else l !! k.
Proof.
  intros [? ->]%upd_Ret. unfold len in *. case_decide; subst.
  - apply list_lookup_insert_eq. lia.
  - by apply list_lookup_insert_ne.
Qed.

Lemma slice_Ret l lo hi r :
  slice l lo hi = Ret r <->
  0 <= lo <= hi /\ hi <= len l /\
  r = take (Z.to_nat hi - Z.to_nat lo) (drop (Z.to_nat lo) l).
Proof.
  unfold slice.
  destruct (Z.leb_spec 0 lo), (Z.leb_spec lo hi), (Z.leb_spec hi (len l)); cbn;
    split; intros; destruct_and?; inv_res; try done; try lia.
Qed.

Lemma slice_to l hi : 0 <= hi <= len l -> slice l 0 hi = Ret (take (Z.to_nat hi) l).
Proof.
  intros. apply slice_Ret. repeat split; try lia.
  rewrite Z2Nat.inj_0, drop_0. f_equal. lia.
Qed.

Lemma slice_from l lo : 0 <= lo <= len l -> slice l lo (len l) = Ret (drop (Z.to_nat lo) l).
Proof.
  intros. apply slice_Ret. repeat split; try lia.
  unfold len. rewrite Nat2Z.id. rewrite take_ge; [done|]. rewrite length_drop. lia.
Qed.
End slices.

(** ** Lists from which one element is removed *)

Lemma delete_insert_list {A} (l : list A) k x : delete k (<[k := x]> l) = delete k l.
Proof. revert k. induction l as [|y l IH]; intros [|k]; cbn; [done..|]. by rewrite IH. Qed.

Lemma elem_of_delete {A} (l : list A) k x : x ∈ delete k l -> x ∈ l.
Proof.
  rewrite delete_take_drop, elem_of_app. intros [Hx|Hx].
  - rewrite <- (take_drop k l). apply elem_of_app. by left.
  - rewrite <- (take_drop (S k) l). apply elem_of_app. by right.
Qed.

(** [cnt P l]: how many elements of [l] satisfy [P]. *)
Definition cnt {A} (P : A -> Prop) `{!forall x, Decision (P x)} (l : list A) : nat :=
  length (filter P l).

Section cnt.
Context {A : Type} (P : A -> Prop) `{!forall x, Decision (P x)}.

Lemma cnt_app l1 l2 : cnt P (l1 ++ l2) = cnt P l1 + cnt P l2.
Proof. unfold cnt. by rewrite filter_app, length_app. Qed.

Lemma cnt_cons x l : cnt P (x :: l) = (if decide (P x) then 1 else 0) + cnt P l.
Proof. unfold cnt. rewrite filter_cons. by case_decide. Qed.

Lemma cnt_delete l k x :
  l !! k = Some x -> cnt P l = (if decide (P x) then 1 else 0) + cnt P (delete k l).
Proof.
  intros Hk. rewrite delete_take_drop, cnt_app.
  rewrite <- (take_drop_middle l k x Hk) at 1. rewrite cnt_app, cnt_cons. lia.
Qed.

Lemma cnt_delete_le l k : cnt P (delete k l) <= cnt P l.
Proof.
  destruct (l !! k) as [x|] eqn:E.
  - rewrite (cnt_delete l k x E). lia.
  - rewrite delete_take_drop. apply lookup_ge_None in E.
    rewrite take_ge, drop_ge, app_nil_r by lia. lia.
Qed.

Lemma cnt_nil : cnt P [] = 0.
Proof. done. Qed.

Lemma cnt_snoc l x : cnt P (l ++ [x]) = (if decide (P x) then 1 else 0) + cnt P l.
Proof. rewrite cnt_app, cnt_cons, cnt_nil. lia. Qed.

Lemma cnt_snoc_not l x : ~ P x -> cnt P (l ++ [x]) = cnt P l.
Proof. intros Hn. by rewrite cnt_snoc, decide_False. Qed.

Lemma cnt_zero l : cnt P l = 0 <-> forall x, x ∈ l -> ~ P x.
Proof.
  unfold cnt. split.
  - intros Hz x Hx HP. assert (x ∈ filter P l) as Hf by (by apply list_elem_of_filter).
    apply length_zero_iff_nil in Hz. rewrite Hz in Hf. by apply not_elem_of_nil in Hf.
  - intros Hn. apply length_zero_iff_nil. destruct (filter P l) as [|x r] eqn:E; [done|].
    assert (x ∈ filter P l) as Hf by (rewrite E; constructor).
    apply list_elem_of_filter in Hf as [? Hx]. by edestruct Hn.
Qed.

Lemma cnt_pos l x : x ∈ l -> P x -> 1 <= cnt P l.
Proof.
  intros Hx HP. destruct (cnt P l) eqn:E; [|lia].
  rewrite cnt_zero in E. by edestruct E.
Qed.
End cnt.
Arguments cnt : simpl never.

(** Hints shared by the component files. *)
Create HintDb go.
#[export] Hint Resolve len_nonneg idx_range idx_of_nat upd_length : go.
