(* ===== verification/Gob.v ===== *)
(** * Gob: the encoder and decoder that labgob wraps

    [labgob.LabEncoder] and [labgob.LabDecoder] (src/labgob/labgob.go) forward
    to [encoding/gob].  A gob stream is self-describing: the bytes an encoder
    writes for a value may depend on what it has written before (type
    descriptions are sent once per stream), and a decoder that reads the stream
    from its start gets the values back in the order they were written.  The
    class [Gob V] states exactly that for a universe [V] of encodable values;
    everything that persists or sends data is proved against this class.

    [countable_gob] is one codec that satisfies the interface, so that the
    development's examples can run. *)

From S2P Require Import Prelude.

Abbreviation bytes := (list Byte.byte).

(** ** The interface *)

Class Gob (V : Type) := {
  enc_state : Type;
  dec_state : Type;
  NewEncoder : enc_state;
  NewDecoder : dec_state;
  Encode : enc_state -> V -> enc_state * bytes;
  Decode : dec_state -> bytes -> option (dec_state * V * bytes);
  (** [gob_sync e d]: the decoder has read what the encoder has written. *)
  gob_sync : enc_state -> dec_state -> Prop;
  gob_sync_init : gob_sync NewEncoder NewDecoder;
  gob_Decode_Encode : forall e d v e' bs rest,
    gob_sync e d -> Encode e v = (e', bs) ->
    exists d', Decode d (bs ++ rest) = Some (d', v, rest) /\ gob_sync e' d';
  gob_Encode_nonempty : forall e v e' bs, Encode e v = (e', bs) -> bs <> [];
}.

(** ** Decoding into a variable

    [Decode] above gives the value on the wire.  gob writes it into the variable that
    the caller passes: fields with default values are not transmitted, so they leave
    the fields of the variable as they were (the comment of [checkDefault] in
    src/labgob/labgob.go and [TestDefault] of its tests).  [decode_into x v] is what
    a variable that held [x] holds afterwards, [zero_of v] the zero value of the type
    of [v], which [reflect.New] allocates and a [var] declares. *)
Class GobVar (V : Type) := {
  zero_of : V -> V;
  decode_into : V -> V -> V;
  decode_into_zero : forall v, decode_into (zero_of v) v = v;
}.

(** What gob does to one field: a default value leaves it. *)
Definition field_into {A} `{EqDecision A} (d x v : A) : A := if decide (v = d) then x else v.

Lemma field_into_default {A} `{EqDecision A} (d v : A) : field_into d d v = v.
Proof. unfold field_into. by case_decide. Qed.

Section stream.
Context {V : Type} `{!Gob V}.

(** Encode the values of [vs] one after the other to a buffer. *)
Fixpoint encode_from (e : enc_state) (vs : list V) : bytes :=
  match vs with
  | [] => []
  | v :: vs => let '(e', bs) := Encode e v in bs ++ encode_from e' vs
  end.

Definition encode_all (vs : list V) : bytes := encode_from NewEncoder vs.

Lemma encode_from_cons_nonempty e v vs : encode_from e (v :: vs) <> [].
Proof.
  cbn. destruct (Encode e v) as [e' bs] eqn:E.
  intros [-> _]%app_eq_nil. by eapply gob_Encode_nonempty.
Qed.

(** One decoding step undoes one encoding step, whatever follows. *)
Lemma decode_encode_from e d v vs rest :
  gob_sync e d ->
  exists e' d', Decode d (encode_from e (v :: vs) ++ rest)
                = Some (d', v, encode_from e' vs ++ rest) /\ gob_sync e' d'.
Proof.
  intros Hs. cbn. destruct (Encode e v) as [e' bs] eqn:E.
  destruct (gob_Decode_Encode e d v e' bs (encode_from e' vs ++ rest) Hs E)
    as (d' & Hd & Hs').
  exists e', d'. by rewrite <- app_assoc.
Qed.
End stream.

Arguments encode_all : simpl never.

(** ** A codec for countable values

    A value is written as the bits of its code, one byte each, closed by the
    byte 2. *)

Section countable_codec.
Context {V : Type} `{Countable V}.

Fixpoint pos_bytes (p : positive) : bytes :=
  match p with
  | xH => [Byte.x02]
  | xO p => Byte.x00 :: pos_bytes p
  | xI p => Byte.x01 :: pos_bytes p
  end.

Fixpoint bytes_pos (bs : bytes) : option (positive * bytes) :=
  match bs with
  | Byte.x00 :: bs => '(p, r) ← bytes_pos bs; Some (xO p, r)
  | Byte.x01 :: bs => '(p, r) ← bytes_pos bs; Some (xI p, r)
  | Byte.x02 :: bs => Some (xH, bs)
  | _ => None
  end.

Lemma bytes_pos_bytes p rest : bytes_pos (pos_bytes p ++ rest) = Some (p, rest).
Proof. induction p; cbn; by rewrite ?IHp. Qed.

Definition countable_decode (bs : bytes) : option (unit * V * bytes) :=
  '(p, r) ← bytes_pos bs; v ← decode p; Some (tt, v, r).

Lemma countable_decode_encode v rest :
  countable_decode (pos_bytes (encode v) ++ rest) = Some (tt, v, rest).
Proof. unfold countable_decode. rewrite bytes_pos_bytes. cbn. by rewrite decode_encode. Qed.

Definition countable_gob : Gob V.
Proof.
  refine {| enc_state := unit; dec_state := unit; NewEncoder := tt; NewDecoder := tt;
            Encode := fun _ v => (tt, pos_bytes (encode v));
            Decode := fun _ bs => countable_decode bs;
            gob_sync := fun _ _ => True |}.
  - done.
  - intros e d v e' bs rest _ [= <- <-]. exists tt. split; [|done].
    apply countable_decode_encode.
  - intros e v e' bs [= <- <-]. by destruct (encode v).
Defined.
End countable_codec.
