(* ===== verification/LabRpc.v ===== *)
(** * LabRpc: the simulated network of src/labrpc/labrpc.go

    The tables of the network ([Network]), its servers and their services, and
    the operations of the tests on them are functions on records.  Names of ends
    and servers are [interface{}] values: [Name] holds the integers and strings
    the code base uses, [None] is nil.  A [*Server] is compared by address in
    [IsServerDead], so servers live in a store ([srv_heap]) and are named by
    their location.

    One [Call] involves four goroutines: the caller, the goroutine of
    [MakeNetwork], [ProcessReq] and the goroutine that runs [dispatch].  [Phase]
    is the position of the first three, [Disp] that of the last.  A [Label]
    picks the next step; [step] is executable, [None] means not enabled and
    [Some Panic] that the process ends (a panic or [log.Fatalf]).  Random draws
    are arguments of the labels, durations are kept as numbers of milliseconds,
    and a sleep may last any time.  What a handler does is not part of the
    network: a label says which value it returns, and when.

    Values are sent through the interface [Gob].  The third argument of [Call] is the
    variable the reply is decoded into ([decode_into] of [GobVar]); the handler's
    arguments are decoded into a fresh variable.  The variable has the type of what
    the handler returns: with another type [Decode] fails, which is fatal, and no
    caller of the code base does that.  [trace] records the starts and ends of
    handlers; no step reads it. *)

From S2P Require Import Prelude Gob.
From Stdlib Require Import Ascii.
Local Open Scope Z_scope.

(** ** Names *)

Inductive Name := NInt (z : Z) | NStr (s : string).

Global Instance Name_eq_dec : EqDecision Name.
Proof. solve_decision. Defined.
Global Instance Name_countable : Countable Name.
Proof.
  refine (inj_countable' (fun n => match n with NInt z => inl z | NStr s => inr s end)
            (fun x => match x with inl z => NInt z | inr s => NStr s end) _).
  by intros [].
Defined.

(** ** Services: methods found by reflection *)

Inductive Kind := KPtr | KOther.

Global Instance Kind_eq_dec : EqDecision Kind.
Proof. solve_decision. Defined.

(** What [MakeService] reads of a [reflect.Method]: its name and package path,
    the kinds of its parameters (the receiver first) and how many results. *)
Record Method := {
  m_Name : string;
  m_PkgPath : string;
  m_In : list Kind;
  m_NumOut : nat;
}.

Record Service := { sv_name : string; sv_methods : gmap string Method }.

(** The test of [MakeService]: exported, two parameters of which the second is
    a pointer, no result. *)
Definition suitable (m : Method) : bool :=
  bool_decide (m.(m_PkgPath) = "") && bool_decide (length m.(m_In) = 3%nat)
  && bool_decide (m.(m_In) !! 2%nat = Some KPtr) && bool_decide (m.(m_NumOut) = 0%nat).

Definition add_method (ms : gmap string Method) (m : Method) : gmap string Method :=
  if suitable m then <[m.(m_Name) := m]> ms else ms.

Definition MakeService (name : string) (methods : list Method) : Service :=
  {| sv_name := name; sv_methods := foldl add_method ∅ methods |}.

(** ** Servers *)

Record Server := { services : gmap string Service; srv_count : Z }.

Definition MakeServer : Server := {| services := ∅; srv_count := 0 |}.

Definition AddService (svc : Service) (rs : Server) : Server :=
  {| services := <[svc.(sv_name) := svc]> rs.(services); srv_count := rs.(srv_count) |}.

(** [strings.LastIndex(s, ".")]: [i] is the position of [s], [acc] the answer
    so far. *)
Fixpoint LastIndexDot_from (s : string) (i acc : Z) : Z :=
  match s with
  | EmptyString => acc
  | String c s => LastIndexDot_from s (i + 1) (if bool_decide (c = "."%char) then i else acc)
  end.

Definition LastIndexDot (s : string) : Z := LastIndexDot_from s 0 (-1).

(** [svcMeth[:dot]] and [svcMeth[dot+1:]]: slicing up to a negative index
    panics. *)
Definition split_svcMeth (svcMeth : string) : res (string * string) :=
  let dot := LastIndexDot svcMeth in
  if dot <? 0 then Panic
  else Ret (String.substring 0 (Z.to_nat dot) svcMeth,
            String.substring (Z.to_nat (dot + 1))
              (String.length svcMeth - Z.to_nat (dot + 1)) svcMeth).

(** [Server.dispatch] up to the call of the handler: the service and method,
    and the server with its count.  An unknown service or method is fatal. *)
Definition dispatch (svcMeth : string) (rs : Server) : res (Server * (string * string)) :=
  let rs := {| services := rs.(services); srv_count := rs.(srv_count) + 1 |} in
  '(serviceName, methodName) ← split_svcMeth svcMeth;
  service ← res_of_option (rs.(services) !! serviceName);
  _ ← res_of_option (service.(sv_methods) !! methodName);
  Ret (rs, (serviceName, methodName)).

(** ** The tables of the network *)

Record reqMsg := { endname : Name; svcMeth : string; args : bytes }.
Record replyMsg := { ok : bool; reply : bytes }.

Definition failed : replyMsg := {| ok := false; reply := [] |}.

(** The goroutine of [MakeNetwork]: in its select, between the receive of
    request [k] and [go rn.ProcessReq], or returned. *)
Inductive Receiver := RSelect | RGot (k : nat) | RReturned.

Record Network := mkNetwork {
  reliable : bool;
  longDelays : bool;
  longReordering : bool;
  ends : gset Name;
  enabled : gmap Name bool;
  servers : gmap Name (option nat);
  connections : gmap Name (option Name);
  receiver : Receiver;
  done : bool;          (* closed *)
  count : Z;            (* int32 *)
  srv_heap : list Server; (* the servers allocated by MakeServer *)
}.

Definition MakeNetwork : Network :=
  mkNetwork true false false ∅ ∅ ∅ ∅ RSelect false 0 [].

Definition set_tables (rn : Network) (es : gset Name) (en : gmap Name bool)
    (sv : gmap Name (option nat)) (co : gmap Name (option Name)) : Network :=
  mkNetwork rn.(reliable) rn.(longDelays) rn.(longReordering) es en sv co
    rn.(receiver) rn.(done) rn.(count) rn.(srv_heap).
Definition set_flags (rn : Network) (r d o : bool) : Network :=
  mkNetwork r d o rn.(ends) rn.(enabled) rn.(servers) rn.(connections)
    rn.(receiver) rn.(done) rn.(count) rn.(srv_heap).
Definition set_receiver (rn : Network) (r : Receiver) (d : bool) (c : Z) : Network :=
  mkNetwork rn.(reliable) rn.(longDelays) rn.(longReordering) rn.(ends) rn.(enabled)
    rn.(servers) rn.(connections) r d c rn.(srv_heap).
Definition set_srv_heap (rn : Network) (h : list Server) : Network :=
  mkNetwork rn.(reliable) rn.(longDelays) rn.(longReordering) rn.(ends) rn.(enabled)
    rn.(servers) rn.(connections) rn.(receiver) rn.(done) rn.(count) h.

(** Closing a closed channel panics. *)
Definition Cleanup (rn : Network) : res Network :=
  if rn.(done) then Panic else Ret (set_receiver rn rn.(receiver) true rn.(count)).

Definition Reliable (yes : bool) (rn : Network) : Network :=
  set_flags rn yes rn.(longDelays) rn.(longReordering).
Definition LongReordering (yes : bool) (rn : Network) : Network :=
  set_flags rn rn.(reliable) rn.(longDelays) yes.
Definition LongDelays (yes : bool) (rn : Network) : Network :=
  set_flags rn rn.(reliable) yes rn.(longReordering).

(** [rn.enabled[e]], [rn.connections[e]], [rn.servers[s]]: a missing key gives
    the zero value. *)
Definition is_enabled (rn : Network) (e : Name) : bool := default false (rn.(enabled) !! e).
Definition connection (rn : Network) (e : Name) : option Name := mjoin (rn.(connections) !! e).
Definition server_at (rn : Network) (s : Name) : option nat := mjoin (rn.(servers) !! s).

Record EndInfo := {
  i_enabled : bool;
  i_servername : option Name;
  i_server : option nat;
  i_reliable : bool;
  i_longreordering : bool;
}.

Definition ReadEndnameInfo (rn : Network) (e : Name) : EndInfo :=
  let servername := connection rn e in
  {| i_enabled := is_enabled rn e;
     i_servername := servername;
     i_server := s ← servername; server_at rn s;
     i_reliable := rn.(reliable);
     i_longreordering := rn.(longReordering) |}.

Definition IsServerDead (rn : Network) (e servername : Name) (server : nat) : bool :=
  negb (is_enabled rn e) || negb (bool_decide (server_at rn servername = Some server)).

(** An end that exists already is fatal. *)
Definition MakeEnd (e : Name) (rn : Network) : res Network :=
  if bool_decide (e ∈ rn.(ends)) then Panic
  else Ret (set_tables rn ({[e]} ∪ rn.(ends)) (<[e := false]> rn.(enabled)) rn.(servers)
              (<[e := None]> rn.(connections))).

Definition AddServer (s : Name) (rs : nat) (rn : Network) : Network :=
  set_tables rn rn.(ends) rn.(enabled) (<[s := Some rs]> rn.(servers)) rn.(connections).
Definition DeleteServer (s : Name) (rn : Network) : Network :=
  set_tables rn rn.(ends) rn.(enabled) (<[s := None]> rn.(servers)) rn.(connections).
Definition Connect (e s : Name) (rn : Network) : Network :=
  set_tables rn rn.(ends) rn.(enabled) rn.(servers) (<[e := Some s]> rn.(connections)).
Definition Enable (e : Name) (b : bool) (rn : Network) : Network :=
  set_tables rn rn.(ends) (<[e := b]> rn.(enabled)) rn.(servers) rn.(connections).

(** [&Server{}] with services: a fresh location. *)
Definition new_server (rs : Server) (rn : Network) : Network * nat :=
  (set_srv_heap rn (rn.(srv_heap) ++ [rs]), length rn.(srv_heap)).

(** [GetCount] of a name that has no server calls a method of a nil pointer
    that locks its mutex. *)
Definition GetCount (rn : Network) (s : Name) : res Z :=
  p ← res_of_option (server_at rn s);
  rs ← res_of_option (rn.(srv_heap) !! p);
  Ret rs.(srv_count).

Definition wrap32 (z : Z) : Z := (z + 2 ^ 31) mod 2 ^ 32 - 2 ^ 31.

Definition GetTotalCount (rn : Network) : Z := rn.(count).

(** ** Calls *)

Section calls.
Context {V : Type} `{!Gob V} `{!GobVar V}.

(** Where the caller, the receiver and [ProcessReq] are with a request. *)
Inductive Phase :=
| PSelect                                   (* Call: in its select *)
| PTaken                                    (* received, before go ProcessReq *)
| PProcess                                  (* ProcessReq, before ReadEndnameInfo *)
| PUp (servername : Name) (server : nat) (rel lr : bool) (ms : Z)
                                            (* in the short delay *)
| PWait (servername : Name) (server : nat) (rel lr : bool)
                                            (* in the loop that waits for ech *)
| PGot (servername : Name) (server : nat) (rel lr : bool) (r : replyMsg)
                                            (* left the loop with replyOK *)
| PLost (servername : Name) (server : nat) (rel lr : bool)
                                            (* left the loop with serverDead *)
| PFinal (r : replyMsg) (ms : Z)            (* about to send r on replyCh after ms *)
| PRet (o : option V).                      (* Call returned; Some v: true, the variable holds v *)

(** Where the goroutine that runs the handler is. *)
Inductive Disp :=
| DStart (server : nat)                     (* about to call server.dispatch *)
| DRun (server : nat) (service method : string) (v : V)  (* in the handler *)
| DSend (r : replyMsg)                      (* about to send on ech *)
| DDone.

Inductive Event :=
| EStart (k server : nat) (service method : string) (v : V)
| EReturn (k : nat) (v : V).

Record CallState := mkCall {
  req : reqMsg;
  sent : V;                (* the arguments of Call *)
  rvar : V;                (* what its reply variable holds *)
  phase : Phase;
  disp : option Disp;
}.

Record Rpc := mkRpc { rn : Network; calls : list CallState; trace : list Event }.

Definition put_rn (r : Network) (w : Rpc) : Rpc := mkRpc r w.(calls) w.(trace).
Definition put_call (k : nat) (c : CallState) (w : Rpc) : Rpc :=
  mkRpc w.(rn) (<[k := c]> w.(calls)) w.(trace).
Definition emit (e : Event) (w : Rpc) : Rpc := mkRpc w.(rn) w.(calls) (w.(trace) ++ [e]).
Definition at_phase (p : Phase) (c : CallState) : CallState :=
  mkCall c.(req) c.(sent) c.(rvar) p c.(disp).
Definition at_disp (d : Disp) (c : CallState) : CallState :=
  mkCall c.(req) c.(sent) c.(rvar) c.(phase) (Some d).

(** What the tests do to the network. *)
Inductive Admin :=
| AReliable (b : bool)
| ALongReordering (b : bool)
| ALongDelays (b : bool)
| AMakeEnd (e : Name)
| AMakeServer (svcs : list Service)
| AAddServer (s : Name) (p : nat)
| ADeleteServer (s : Name)
| AConnect (e s : Name)
| AEnable (e : Name) (b : bool)
| ACleanup.

Definition admin (a : Admin) (r : Network) : res Network :=
  match a with
  | AReliable b => Ret (Reliable b r)
  | ALongReordering b => Ret (LongReordering b r)
  | ALongDelays b => Ret (LongDelays b r)
  | AMakeEnd e => MakeEnd e r
  | AMakeServer svcs => Ret (new_server (foldl (fun s v => AddService v s) MakeServer svcs) r).1
  | AAddServer s p => Ret (AddServer s p r)
  | ADeleteServer s => Ret (DeleteServer s r)
  | AConnect e s => Ret (Connect e s r)
  | AEnable e b => Ret (Enable e b r)
  | ACleanup => Cleanup r
  end.

(** A [*Server] points to an allocated server. *)
Definition allocated (a : Admin) (r : Network) : bool :=
  match a with
  | AAddServer _ p => bool_decide (p < length r.(srv_heap))%nat
  | _ => true
  end.

Inductive Label :=
| LAdmin (a : Admin)
| LCall (e : Name) (m : string) (v rv : V)  (* a goroutine calls Call *)
| LTake (k : nat)                        (* e.ch <- req meets xreq := <-rn.endCh *)
| LSpawn                                 (* count and go rn.ProcessReq *)
| LStop                                  (* the receiver sees done *)
| LDone (k : nat)                        (* Call sees done *)
| LRead (k : nat) (r : Z)                (* ReadEndnameInfo *)
| LDrop (k : nat) (r : Z)                (* lose the request or start the dispatch *)
| LDispatch (k : nat)
| LReturn (k : nat) (v : V)              (* the handler returns v *)
| LRecv (k : nat)                        (* reply = <-ech *)
| LTimeout (k : nat)                     (* time.After *)
| LDrain (k : nat)                       (* <-ech of the draining goroutine *)
| LFinish (k : nat) (r r1 r2 r3 : Z)     (* decide what to answer *)
| LReply (k : nat).                      (* replyCh, and Call returns *)

(** [rand.Int()] is not negative, [rand.Intn(n)] is below [n]. *)
Definition Int_ok (r : Z) : bool := 0 <=? r.
Definition Intn_ok (r n : Z) : bool := (0 <=? r) && (r <? n).

(** The beginning of [Call] with a reply variable that holds [rv]. *)
Definition Call (e : Name) (m : string) (v rv : V) : CallState :=
  mkCall {| endname := e; svcMeth := m; args := encode_all [v] |} v rv PSelect None.

(** [ProcessReq] up to its first sleep. *)
Definition ProcessReq (r : Network) (q : reqMsg) (rand : Z) : Phase :=
  let i := ReadEndnameInfo r q.(endname) in
  match i.(i_enabled), i.(i_servername), i.(i_server) with
  | true, Some servername, Some server =>
      PUp servername server i.(i_reliable) i.(i_longreordering)
        (if i.(i_reliable) then 0 else rand mod 27)
  | _, _, _ => PFinal failed (if r.(longDelays) then rand mod 7000 else rand mod 100)
  end.

(** After the loop: [serverDead] again, then the answer. *)
Definition finish (r : Network) (e servername : Name) (server : nat) (rel lr : bool)
    (got : option replyMsg) (r0 r1 r2 : Z) : Phase :=
  let serverDead := IsServerDead r e servername server in
  match got with
  | None => PFinal failed 0
  | Some rep =>
      if serverDead then PFinal failed 0
      else if negb rel && (r0 mod 1000 <? 100) then PFinal failed 0
      else if lr && (r1 <? 600) then PFinal rep (200 + r2)
      else PFinal rep 0
  end.

(** [args := reflect.New(req.argsType)], [ad.Decode(args.Interface())]: the error is
    ignored. *)
Definition decode_args (q : reqMsg) (v : V) : V :=
  match Decode NewDecoder q.(args) with
  | Some (_, x, _) => decode_into (zero_of v) x
  | None => zero_of v
  end.

Definition with_call (k : nat) (w : Rpc) (f : CallState -> option (res Rpc))
    : option (res Rpc) := c ← w.(calls) !! k; f c.

Definition step (lbl : Label) (w : Rpc) : option (res Rpc) :=
  match lbl with
  | LAdmin a =>
      if allocated a w.(rn) then Some (r ← admin a w.(rn); Ret (put_rn r w)) else None
  | LCall e m v rv =>
      if bool_decide (e ∈ w.(rn).(ends))
      then Some (Ret (mkRpc w.(rn) (w.(calls) ++ [Call e m v rv]) w.(trace)))
      else None
  | LTake k => with_call k w (fun c =>
      match c.(phase), w.(rn).(receiver) with
      | PSelect, RSelect =>
          Some (Ret (put_rn (set_receiver w.(rn) (RGot k) w.(rn).(done) w.(rn).(count))
                       (put_call k (at_phase PTaken c) w)))
      | _, _ => None
      end)
  | LSpawn =>
      match w.(rn).(receiver) with
      | RGot k => with_call k w (fun c =>
          match c.(phase) with
          | PTaken =>
              Some (Ret (put_rn (set_receiver w.(rn) RSelect w.(rn).(done)
                                   (wrap32 (w.(rn).(count) + 1)))
                           (put_call k (at_phase PProcess c) w)))
          | _ => None
          end)
      | _ => None
      end
  | LStop =>
      match w.(rn).(receiver), w.(rn).(done) with
      | RSelect, true =>
          Some (Ret (put_rn (set_receiver w.(rn) RReturned true w.(rn).(count)) w))
      | _, _ => None
      end
  | LDone k => with_call k w (fun c =>
      match c.(phase), w.(rn).(done) with
      | PSelect, true => Some (Ret (put_call k (at_phase (PRet None) c) w))
      | _, _ => None
      end)
  | LRead k r => with_call k w (fun c =>
      match c.(phase) with
      | PProcess =>
          if Int_ok r then Some (Ret (put_call k (at_phase (ProcessReq w.(rn) c.(req) r) c) w))
          else None
      | _ => None
      end)
  | LDrop k r => with_call k w (fun c =>
      match c.(phase) with
      | PUp s p rel lr _ =>
          if Int_ok r then
            if negb rel && (r mod 1000 <? 100)
            then Some (Ret (put_call k (at_phase (PFinal failed 0) c) w))
            else Some (Ret (put_call k (at_disp (DStart p) (at_phase (PWait s p rel lr) c)) w))
          else None
      | _ => None
      end)
  | LDispatch k => with_call k w (fun c =>
      match c.(disp) with
      | Some (DStart p) =>
          rs ← w.(rn).(srv_heap) !! p;
          Some ('(rs, (sv, m)) ← dispatch c.(req).(svcMeth) rs;
                let v := decode_args c.(req) c.(sent) in
                Ret (emit (EStart k p sv m v)
                       (put_rn (set_srv_heap w.(rn) (<[p := rs]> w.(rn).(srv_heap)))
                          (put_call k (at_disp (DRun p sv m v) c) w))))
      | _ => None
      end)
  | LReturn k v => with_call k w (fun c =>
      match c.(disp) with
      | Some (DRun _ _ _ _) =>
          Some (Ret (emit (EReturn k v)
                       (put_call k (at_disp (DSend {| ok := true; reply := encode_all [v] |}) c)
                          w)))
      | _ => None
      end)
  | LRecv k => with_call k w (fun c =>
      match c.(phase), c.(disp) with
      | PWait s p rel lr, Some (DSend r) =>
          Some (Ret (put_call k (at_disp DDone (at_phase (PGot s p rel lr r) c)) w))
      | _, _ => None
      end)
  | LTimeout k => with_call k w (fun c =>
      match c.(phase) with
      | PWait s p rel lr =>
          if IsServerDead w.(rn) c.(req).(endname) s p
          then Some (Ret (put_call k (at_phase (PLost s p rel lr) c) w))
          else Some (Ret w)
      | _ => None
      end)
  | LDrain k => with_call k w (fun c =>
      match c.(phase), c.(disp) with
      | (PLost _ _ _ _ | PFinal _ _ | PRet _), Some (DSend _) =>
          Some (Ret (put_call k (at_disp DDone c) w))
      | _, _ => None
      end)
  | LFinish k r0 r1 r2 r3 => with_call k w (fun c =>
      if Int_ok r0 && Intn_ok r1 900 && Intn_ok r3 2000 && Intn_ok r2 (1 + r3) then
        match c.(phase) with
        | PGot s p rel lr r =>
            Some (Ret (put_call k
              (at_phase (finish w.(rn) c.(req).(endname) s p rel lr (Some r) r0 r1 r2) c) w))
        | PLost s p rel lr =>
            Some (Ret (put_call k
              (at_phase (finish w.(rn) c.(req).(endname) s p rel lr None r0 r1 r2) c) w))
        | _ => None
        end
      else None)
  | LReply k => with_call k w (fun c =>
      match c.(phase) with
      | PFinal r _ =>
          if r.(ok)
          then Some ('(_, v, _) ← res_of_option (Decode NewDecoder r.(reply));
                     Ret (put_call k (at_phase (PRet (Some (decode_into c.(rvar) v))) c) w))
          else Some (Ret (put_call k (at_phase (PRet None) c) w))
      | _ => None
      end)
  end.

Definition init : Rpc := mkRpc MakeNetwork [] [].

Fixpoint run (ls : list Label) (w : Rpc) : option Rpc :=
  match ls with
  | [] => Some w
  | lbl :: ls =>
      match step lbl w with
      | Some (Ret w') => run ls w'
      | _ => None
      end
  end.

Inductive reachable : Rpc -> Prop :=
| reach_init : reachable init
| reach_step lbl w w' : reachable w -> step lbl w = Some (Ret w') -> reachable w'.
End calls.

Arguments Phase : clear implicits.
Arguments Disp : clear implicits.
Arguments Event : clear implicits.
Arguments CallState : clear implicits.
Arguments Rpc : clear implicits.
Arguments Label : clear implicits.
