(* ===== verification/LabRpcFacts.v ===== *)
(** * LabRpcFacts: what a step of the network does to one call

    [cstep] lists the changes a step can make to the state of a call, and
    [step_change] proves that every step of LabRpc.v makes one of them, adds a
    call, or touches no call.  The invariant [call_inv] relates the position of
    a call to the starts and ends of its handler in the trace. *)

From S2P Require Import Prelude Gob LabRpc.
Local Open Scope Z_scope.

(** Split a step into its cases. *)
Ltac step_cases H :=
  cbn [step] in H; unfold with_call in H;
  repeat match type of H with
  | mbind _ (?l !! ?k) = Some _ =>
      let E := fresh "Ec" in destruct (l !! k) eqn:E; cbn [mbind option_bind] in H; [|discriminate H]
  | (if ?b then _ else _) = Some _ => let E := fresh "Eb" in destruct b eqn:E; try discriminate H
  | match ?x with _ => _ end = Some _ => let E := fresh "Ep" in destruct x eqn:E; try discriminate H
  | Some (mbind _ ?m) = Some _ =>
      let E := fresh "Em" in destruct m eqn:E; cbn [mbind res_bind] in H; try discriminate H
  | Some (match ?x with _ => _ end) = Some _ =>
      let E := fresh "Ep" in destruct x eqn:E; try discriminate H
  | Some (Ret _) = Some (Ret _) => injection H as <-
  end.

Section facts.
Context {V : Type} `{!Gob V} `{!GobVar V}.
Implicit Types (w : Rpc V) (c : CallState V) (r : Network).

(** A value that was encoded alone is decoded. *)
Lemma decode_encode_one (v : V) : exists d,
  Decode NewDecoder (encode_all [v]) = Some (d, v, []).
Proof.
  destruct (decode_encode_from NewEncoder NewDecoder v [] [] gob_sync_init)
    as (e' & d' & Hd & _).
  exists d'. cbn [app encode_from] in Hd. rewrite app_nil_r in Hd. exact Hd.
Qed.

(** ** Changes of a call *)

Definition answer (v : V) : replyMsg := {| ok := true; reply := encode_all [v] |}.

Inductive cstep r (k : nat) c : CallState V -> list (Event V) -> Prop :=
| cs_take : c.(phase) = PSelect -> cstep r k c (at_phase PTaken c) []
| cs_spawn : c.(phase) = PTaken -> cstep r k c (at_phase PProcess c) []
| cs_done : c.(phase) = PSelect -> r.(done) = true -> cstep r k c (at_phase (PRet None) c) []
| cs_read z : c.(phase) = PProcess -> 0 <= z -> cstep r k c (at_phase (ProcessReq r c.(req) z) c) []
| cs_lose s p lr ms : c.(phase) = PUp s p false lr ms ->
    cstep r k c (at_phase (PFinal failed 0) c) []
| cs_go s p rel lr ms : c.(phase) = PUp s p rel lr ms ->
    cstep r k c (at_disp (DStart p) (at_phase (PWait s p rel lr) c)) []
| cs_dispatch p rs rs' sv m : c.(disp) = Some (DStart p) -> r.(srv_heap) !! p = Some rs ->
    dispatch c.(req).(svcMeth) rs = Ret (rs', (sv, m)) ->
    cstep r k c (at_disp (DRun p sv m (decode_args c.(req) c.(sent))) c)
      [EStart k p sv m (decode_args c.(req) c.(sent))]
| cs_return p sv m a v : c.(disp) = Some (DRun p sv m a) ->
    cstep r k c (at_disp (DSend (answer v)) c) [EReturn k v]
| cs_recv s p rel lr rep : c.(phase) = PWait s p rel lr -> c.(disp) = Some (DSend rep) ->
    cstep r k c (at_disp DDone (at_phase (PGot s p rel lr rep) c)) []
| cs_timeout s p rel lr : c.(phase) = PWait s p rel lr ->
    IsServerDead r c.(req).(endname) s p = true ->
    cstep r k c (at_phase (PLost s p rel lr) c) []
| cs_drain rep : c.(disp) = Some (DSend rep) ->
    match c.(phase) with PLost _ _ _ _ | PFinal _ _ | PRet _ => True | _ => False end ->
    cstep r k c (at_disp DDone c) []
| cs_finish s p rel lr rep d0 d1 d2 : c.(phase) = PGot s p rel lr rep -> 0 <= d2 < 2000 ->
    cstep r k c (at_phase (finish r c.(req).(endname) s p rel lr (Some rep) d0 d1 d2) c) []
| cs_finish_lost s p rel lr : c.(phase) = PLost s p rel lr ->
    cstep r k c (at_phase (PFinal failed 0) c) []
| cs_reply rep ms d v rest : c.(phase) = PFinal rep ms -> rep.(ok) = true ->
    Decode NewDecoder rep.(reply) = Some (d, v, rest) ->
    cstep r k c (at_phase (PRet (Some (decode_into c.(rvar) v))) c) []
| cs_reply_failed rep ms : c.(phase) = PFinal rep ms -> rep.(ok) = false ->
    cstep r k c (at_phase (PRet None) c) [].

(** What a step does to the calls and the trace. *)
Inductive change w w' : Prop :=
| ch_none : w'.(calls) = w.(calls) -> w'.(trace) = w.(trace) -> change w w'
| ch_new e m v rv : w'.(calls) = w.(calls) ++ [Call e m v rv] -> w'.(trace) = w.(trace) ->
    e ∈ w.(rn).(ends) -> change w w'
| ch_call k c c' es : w.(calls) !! k = Some c -> cstep w.(rn) k c c' es ->
    w'.(calls) = <[k := c']> w.(calls) -> w'.(trace) = w.(trace) ++ es -> change w w'.

Ltac call_change tac :=
  eapply ch_call; [eassumption|solve [tac]|reflexivity|cbn; by rewrite ?app_nil_r].

Lemma step_change lbl w w' : step lbl w = Some (Ret w') -> change w w'.
Proof.
  destruct lbl; intros H; step_cases H; subst.
  all: try (by apply ch_none).
  all: try (eapply ch_new; [done|done|by eapply bool_decide_eq_true_1]).
  all: try (call_change ltac:(econstructor; (eassumption || done))).
  - unfold Int_ok in Eb. zbool. call_change ltac:(by apply cs_read).
  - apply andb_true_iff in Eb0 as [?%negb_true_iff _]. subst.
    call_change ltac:(by eapply cs_lose).
  - call_change ltac:(eapply cs_drain; [done|by rewrite Ep]).
  - call_change ltac:(eapply cs_drain; [done|by rewrite Ep]).
  - call_change ltac:(eapply cs_drain; [done|by rewrite Ep]).
  - unfold Intn_ok, Int_ok in Eb. zbool.
    call_change ltac:(apply (cs_finish _ _ _ _ _ _ _ _ r r1 r2 Ep); lia).
  - unfold res_of_option in Em. destruct (Decode _ _) as [x|] eqn:Ed; [|done].
    injection Em as ->. call_change ltac:(eapply cs_reply; eassumption).
Qed.

(** ** The invariant of a call *)

Definition ev_call (e : Event V) : nat :=
  match e with EStart k _ _ _ _ | EReturn k _ => k end.

(** The events of call [k]. *)
Definition evs (k : nat) (tr : list (Event V)) : list (Event V) :=
  filter (fun e => ev_call e = k) tr.

(** The handler of method [m] ran on [p] with argument [a] and returned [v];
    nothing else was run for the call. *)
Definition executed (k : nat) (m : string) (a : V) (p : nat) (v : V) (es : list (Event V))
    : Prop :=
  exists sv n, split_svcMeth m = Ret (sv, n) /\ es = [EStart k p sv n a; EReturn k v].

Definition disp_ok (k : nat) (m : string) (a : V) (p : nat) (d : option (Disp V))
    (es : list (Event V)) : Prop :=
  match d with
  | None => es = []
  | Some (DStart q) => q = p /\ es = []
  | Some (DRun q sv n _) => q = p /\ split_svcMeth m = Ret (sv, n) /\ es = [EStart k p sv n a]
  | Some (DSend rep) => exists v, rep = answer v /\ executed k m a p v es
  | Some DDone => exists v, executed k m a p v es
  end.

Definition phase_ok (k : nat) (m : string) (a rv : V) (p : nat) (ph : Phase V)
    (d : option (Disp V)) (es : list (Event V)) : Prop :=
  match ph with
  | PSelect | PTaken | PProcess => d = None
  | PUp _ q _ _ _ => q = p /\ d = None
  | PWait _ q _ _ => q = p /\ d <> None /\ d <> Some DDone
  | PGot _ q _ _ rep => q = p /\ exists v, rep = answer v /\ executed k m a p v es
  | PLost _ q _ _ => q = p /\ d <> None
  | PFinal rep ms => (if rep.(ok) then exists v, rep = answer v /\ executed k m a p v es
                      else rep = failed) /\ 0 <= ms < 7000
  | PRet None => True
  | PRet (Some x) => exists v, x = decode_into rv v /\ executed k m a p v es
  end.

Definition call_inv (k : nat) c (es : list (Event V)) : Prop :=
  c.(req).(args) = encode_all [c.(sent)] /\
  exists p, disp_ok k c.(req).(svcMeth) c.(sent) p c.(disp) es /\
    phase_ok k c.(req).(svcMeth) c.(sent) c.(rvar) p c.(phase) c.(disp) es.

Lemma decode_args_sent q (a : V) : q.(args) = encode_all [a] -> decode_args q a = a.
Proof.
  intros Ha. unfold decode_args. rewrite Ha. destruct (decode_encode_one a) as [d ->].
  apply decode_into_zero.
Qed.

Lemma dispatch_split m rs rs' sv n :
  dispatch m rs = Ret (rs', (sv, n)) -> split_svcMeth m = Ret (sv, n) /\
    rs' = {| services := rs.(services); srv_count := rs.(srv_count) + 1 |}.
Proof.
  unfold dispatch. intros H. repeat (bind_inv H). 
  destruct x as [sv' n']. cbn in H. repeat bind_inv H. by inv_res.
Qed.

Lemma executed_nil k m a p v : ~ executed k m a p v [].
Proof. by intros (? & ? & _ & ?). Qed.

Lemma executed_one k m a p v e : ~ executed k m a p v [e].
Proof. by intros (? & ? & _ & ?). Qed.

Lemma ProcessReq_ok r q z k m a rv p es : 0 <= z ->
  exists p', phase_ok k m a rv p' (ProcessReq r q z) None es /\
    (disp_ok k m a p None es -> disp_ok k m a p' None es).
Proof.
  intros Hz. unfold ProcessReq.
  assert (0 <= z mod 7000 < 7000 /\ 0 <= z mod 100 < 100) by (split; apply Z.mod_pos_bound; lia).
  destruct (ReadEndnameInfo r (endname q)) as [[] [s|] [q'|] rel lr]; cbn;
    first [by exists q' | exists p; repeat split; try case_match; lia || done].
Qed.

Lemma finish_ok r e s p rel lr rep d0 d1 d2 k m a rv d es :
  0 <= d2 < 2000 -> phase_ok k m a rv p (PGot s p rel lr rep) d es ->
  phase_ok k m a rv p (finish r e s p rel lr (Some rep) d0 d1 d2) d es.
Proof.
  intros Hd2 (_ & v & -> & Hx). unfold finish.
  repeat case_match; cbn; split; first [lia | by eauto].
Qed.

(** A handler that has not returned leaves only these phases. *)
Lemma phase_ok_running k m a rv p ph d d' es es' :
  (forall v, ~ executed k m a p v es) -> d <> None -> d' <> None -> d' <> Some DDone ->
  phase_ok k m a rv p ph d es -> phase_ok k m a rv p ph d' es'.
Proof.
  intros Hn Hd Hd' Hdone. destruct ph as [| | | | | | |rep ms|[v|]]; cbn; try naive_solver.
  destruct (ok rep); naive_solver.
Qed.

Lemma call_inv_step r k c c' es es' :
  cstep r k c c' es' -> call_inv k c es -> call_inv k c' (es ++ es').
Proof.
  destruct c as [q a rv ph d]. intros Hs (Ha & p & Hd & Hp). cbn in Ha, Hd, Hp.
  inversion Hs; subst; cbn in *; subst; cbn in Hd, Hp; rewrite ?app_nil_r;
    (split; [exact Ha|]); cbn.
  - exists p. by split.
  - exists p. by split.
  - exists p. by split.
  - subst d. destruct (ProcessReq_ok r q z k (svcMeth q) a rv p es)
      as (p' & ? & Hd'); [lia|].
    exists p'. split; [by apply Hd'|done].
  - exists p. repeat split; [done|lia..].
  - exists p0. destruct Hp as [<- ->]. by repeat split.
  - destruct Hd as [<- ->]. exists p0.
    apply dispatch_split in H1 as [Hsp _].
    rewrite (decode_args_sent q a) by done.
    split; [done|]. eapply phase_ok_running, Hp; [apply executed_nil|done..].
  - destruct Hd as (<- & Hsp & ->). exists p0. split.
    + exists v. split; [done|]. by exists sv, m.
    + eapply phase_ok_running, Hp; [intros ?; apply executed_one|done..].
  - destruct Hp as (<- & _), Hd as (v & -> & Hx). exists p0. repeat split; cbn; eauto.
  - destruct Hp as (<- & ? & _). exists p0. by split.
  - destruct Hd as (v & -> & Hx). exists p. split; [by exists v|].
    destruct ph as [| | | | | | | |]; naive_solver.
  - exists p. destruct Hp as (<- & Hx). split; [done|]. by apply finish_ok.
  - exists p. repeat split; [done|lia..].
  - rewrite H0 in Hp. destruct Hp as ((v' & -> & Hx) & _). exists p. split; [done|].
    destruct (decode_encode_one v') as [d' Hd']. cbn in *. simplify_eq. eauto.
  - exists p. by split.
Qed.

(** ** The invariant of the network *)

Record rpc_inv w : Prop := {
  inv_calls : forall k c, w.(calls) !! k = Some c -> call_inv k c (evs k w.(trace));
  inv_trace : forall e, e ∈ w.(trace) -> (ev_call e < length w.(calls))%nat;
}.

Lemma evs_app k tr tr' : evs k (tr ++ tr') = evs k tr ++ evs k tr'.
Proof. apply filter_app. Qed.

Lemma evs_none k tr : (forall e, e ∈ tr -> ev_call e <> k) -> evs k tr = [].
Proof.
  intros Hn. unfold evs. induction tr as [|e tr IH]; [done|].
  rewrite filter_cons_False by (apply Hn; constructor).
  apply IH. intros. apply Hn. by constructor.
Qed.

Lemma evs_all k tr : (forall e, e ∈ tr -> ev_call e = k) -> evs k tr = tr.
Proof.
  intros Hn. unfold evs. induction tr as [|e tr IH]; [done|].
  rewrite filter_cons_True by (apply Hn; constructor). f_equal.
  apply IH. intros. apply Hn. by constructor.
Qed.

Lemma cstep_events r k c c' es e : cstep r k c c' es -> e ∈ es -> ev_call e = k.
Proof. destruct 1; rewrite ?elem_of_nil, ?list_elem_of_singleton; intros; by subst. Qed.

Lemma change_inv w w' : change w w' -> rpc_inv w -> rpc_inv w'.
Proof.
  intros [Hc Ht|e m v rv Hc Ht _|k c c' es Hk Hs Hc Ht] [Ic It]; split; rewrite Hc, Ht; try done.
  - intros k c [[_ Hk]|[-> <-]]%lookup_snoc_Some; [by apply Ic|].
    rewrite evs_none by (intros ev Hev Heq; apply It in Hev; lia).
    split; [done|]. by exists 0%nat.
  - intros ev Hev%It. rewrite length_app. lia.
  - intros j d Hj. rewrite evs_app. destruct (decide (j = k)) as [->|Hne].
    + rewrite list_lookup_insert_eq in Hj by (eapply lookup_lt_Some, Hk). simplify_eq.
      rewrite (evs_all k es) by (intros; by eapply cstep_events).
      eapply call_inv_step; eauto.
    + rewrite list_lookup_insert_ne in Hj by done.
      rewrite (evs_none j es), app_nil_r; [by apply Ic|].
      intros ev Hev Heq. apply Hne. rewrite <- Heq. by eapply cstep_events.
  - intros ev [Hev|Hev]%elem_of_app; rewrite length_insert; [by apply It|].
    rewrite (cstep_events _ _ _ _ _ _ Hs Hev). by eapply lookup_lt_Some.
Qed.

Lemma reachable_inv w : reachable w -> rpc_inv w.
Proof.
  induction 1 as [|lbl w w' _ IH Hs].
  - split; [by intros k c ?|]. intros e He. by apply not_elem_of_nil in He.
  - eapply change_inv, IH. by eapply step_change.
Qed.

Lemma rpc_run_reachable ls w w' : reachable w -> run ls w = Some w' -> reachable w'.
Proof.
  revert w. induction ls as [|lbl ls IH]; cbn; intros w Hr E; [by simplify_eq|].
  destruct (step lbl w) as [[w1|]|] eqn:Hs; [|done..]. eauto using reachable.
Qed.

(** A call keeps its number, end, method, arguments and reply variable. *)
Lemma change_call w w' k c : change w w' -> w.(calls) !! k = Some c ->
  exists c', w'.(calls) !! k = Some c' /\ c'.(req) = c.(req) /\ c'.(sent) = c.(sent) /\ c'.(rvar) = c.(rvar) /\
    (c' = c \/ exists es, cstep w.(rn) k c c' es /\ w'.(trace) = w.(trace) ++ es).
Proof.
  intros [Hc Ht|e m v rv Hc Ht _|j d d' es Hj Hs Hc Ht] Hk; rewrite Hc.
  - eauto 10.
  - exists c. split; [by apply lookup_app_l_Some|auto 10].
  - destruct (decide (j = k)) as [->|Hne].
    + simplify_eq. exists d'. rewrite list_lookup_insert_eq by (by eapply lookup_lt_Some).
      split; [done|]. assert (req d' = req d /\ sent d' = sent d /\ rvar d' = rvar d) as (? & ? & ?) by by destruct Hs.
      repeat (split; [done|]). eauto.
    + exists c. rewrite list_lookup_insert_ne by done. auto 10.
Qed.
End facts.
