(* ===== verification/LabRpcTheory.v ===== *)
(** * LabRpcTheory: what a [Call] over the network promises

    A call runs the handler at most once, on the arguments that were sent, and
    returns true only with the value the handler returned; a server that was
    deleted and an end that was disabled stay silent; a call returns whenever
    the handler does; the statistics count. *)

From S2P Require Import Prelude Gob LabRpc LabRpcFacts.
From Stdlib Require Import Ascii.
Local Open Scope Z_scope.

(** ** Names of methods *)

Fixpoint has_dot (s : string) : bool :=
  match s with
  | EmptyString => false
  | String c s => bool_decide (c = "."%char) || has_dot s
  end.

Lemma LastIndexDot_no_dot s i acc : has_dot s = false -> LastIndexDot_from s i acc = acc.
Proof.
  revert i acc. induction s as [|c s IH]; intros i acc H; [done|]. cbn in *.
  apply orb_false_iff in H as [Hc Hs]. rewrite Hc. by apply IH.
Qed.

Lemma LastIndexDot_app s t i acc :
  has_dot t = false ->
  LastIndexDot_from (s +:+ String "." t) i acc = i + Z.of_nat (String.length s).
Proof.
  intros Ht. revert i acc. induction s as [|c s IH]; intros i acc.
  - change (LastIndexDot_from t (i + 1) i = i + 0). rewrite LastIndexDot_no_dot by done. lia.
  - change (LastIndexDot_from (s +:+ String "." t) (i + 1)
              (if bool_decide (c = "."%char) then i else acc)
            = i + Z.of_nat (S (String.length s))).
    rewrite IH. lia.
Qed.

Lemma substring_app_l s t : String.substring 0 (String.length s) (s +:+ t) = s.
Proof.
  induction s as [|c s IH]; [by destruct t|].
  change (String c s +:+ t) with (String c (s +:+ t)). cbn. by rewrite IH.
Qed.

Lemma substring_all s n : (String.length s <= n)%nat -> String.substring 0 n s = s.
Proof.
  revert n. induction s as [|c s IH]; intros [|n] H; cbn in *; try done; [lia|].
  f_equal. apply IH. lia.
Qed.

Lemma substring_after s c t n : (String.length t <= n)%nat ->
  String.substring (S (String.length s)) n (s +:+ String c t) = t.
Proof. intros. induction s as [|d s IH]; [by apply substring_all|exact IH]. Qed.

Lemma string_length_app s t :
  String.length (s +:+ t) = (String.length s + String.length t)%nat.
Proof.
  induction s as [|c s IH]; [done|].
  change (S (String.length (s +:+ t)) = S (String.length s + String.length t))%nat. by rewrite IH.
Qed.

Lemma split_svcMeth_dot sv m :
  has_dot m = false -> split_svcMeth (sv +:+ "." +:+ m) = Ret (sv, m).
Proof.
  intros Hm. unfold split_svcMeth, LastIndexDot. change ("." +:+ m) with (String "." m).
  rewrite LastIndexDot_app by done.
  destruct (Z.ltb_spec (0 + Z.of_nat (String.length sv)) 0); [lia|].
  rewrite Z.add_0_l, Nat2Z.id. rewrite substring_app_l. f_equal. f_equal.
  replace (Z.to_nat (Z.of_nat (String.length sv) + 1)) with (S (String.length sv)) by lia.
  apply substring_after. rewrite string_length_app. cbn. lia.
Qed.

Lemma split_svcMeth_no_dot m : has_dot m = false -> split_svcMeth m = Panic.
Proof. intros H. unfold split_svcMeth, LastIndexDot. by rewrite LastIndexDot_no_dot. Qed.

(** ** Services *)

Lemma foldl_add_method ms acc n m :
  NoDup (map m_Name ms) -> (forall x, x ∈ ms -> acc !! x.(m_Name) = None) ->
  foldl add_method acc ms !! n = Some m <->
  acc !! n = Some m \/ (m ∈ ms /\ suitable m = true /\ m.(m_Name) = n).
Proof.
  revert acc. induction ms as [|x ms IH]; intros acc Hnd Hacc; cbn in *.
  - split; [auto|]. intros [H|[H _]]; [done|]. by apply not_elem_of_nil in H.
  - apply NoDup_cons in Hnd as [Hx Hnd]. rewrite IH; [|done|].
    + unfold add_method. destruct (suitable x) eqn:Es.
      * rewrite lookup_insert_Some, elem_of_cons.
        assert (acc !! m_Name x = None) by (apply Hacc; constructor).
        split; [naive_solver|]. intros [H1|(H1 & H2 & H3)].
        -- left. right. split; [|done]. intros <-. congruence.
        -- destruct H1 as [->|H1]; [auto|auto].
      * rewrite elem_of_cons. split; [naive_solver|]. intros [H|([->|H] & ? & ?)]; auto.
        congruence.
    + intros y Hy. unfold add_method. destruct (suitable x); [|apply Hacc; by constructor].
      rewrite lookup_insert_ne; [apply Hacc; by constructor|].
      intros Heq. apply Hx. rewrite Heq. by apply (list_elem_of_fmap_2 m_Name).
Qed.

(** The methods of a service are the suitable methods of its receiver. *)
Lemma MakeService_methods name ms n m :
  NoDup (map m_Name ms) ->
  (MakeService name ms).(sv_methods) !! n = Some m <->
  m ∈ ms /\ suitable m = true /\ m.(m_Name) = n.
Proof.
  intros Hnd. unfold MakeService. cbn. rewrite foldl_add_method; [|done|done].
  rewrite lookup_empty. split; [intros [?|?]; [done|auto]|auto].
Qed.

(** ** Calls *)

Section calls.
Context {V : Type} `{!Gob V} `{!GobVar V}.
Implicit Types (w : Rpc V) (c : CallState V).

(** Along the network a handler runs at most once per call, and [Call] returns true
    only with what it returned, decoded into the reply variable. *)
Lemma call_executed w k c :
  reachable w -> w.(calls) !! k = Some c ->
  (exists p sv n v, evs k w.(trace) `prefix_of` [EStart k p sv n c.(sent); EReturn k v]) /\
  forall x, c.(phase) = PRet (Some x) ->
    exists p v, x = decode_into c.(rvar) v /\ executed k c.(req).(svcMeth) c.(sent) p v (evs k w.(trace)).
Proof.
  intros Hr Hk. destruct (reachable_inv w Hr) as [Ic _].
  destruct (Ic k c Hk) as (_ & p & Hd & Hp). split.
  - destruct (disp c) as [[q|q sv n a|rep|]|]; cbn in Hd.
    + destruct Hd as [_ ->]. exists 0%nat, "", "", c.(sent). apply prefix_nil.
    + destruct Hd as (_ & _ & ->). exists p, sv, n, c.(sent). by exists [EReturn k c.(sent)].
    + destruct Hd as (v & _ & sv & n & _ & ->). by exists p, sv, n, v.
    + destruct Hd as (v & sv & n & _ & ->). by exists p, sv, n, v.
    + rewrite Hd. exists 0%nat, "", "", c.(sent). apply prefix_nil.
  - intros x Hx. rewrite Hx in Hp. by exists p.
Qed.

(** ** Runs *)

(** What every step of a run keeps, the run keeps. *)
Lemma run_keeps (P : Rpc V -> Prop) (Q : Label V -> Prop) ls w w' :
  (forall lbl w1 w2, Q lbl -> reachable w1 -> P w1 ->
     step lbl w1 = Some (Ret w2) -> P w2) ->
  Forall Q ls -> reachable w -> P w -> run ls w = Some w' -> P w'.
Proof.
  intros Hstep. revert w. induction ls as [|lbl ls IH]; cbn; intros w HQ Hr HP E;
    [by simplify_eq|].
  apply Forall_cons in HQ as [Hq HQ].
  destruct (step lbl w) as [[w1|]|] eqn:Hs; [|done..].
  apply (IH w1); eauto using reachable.
Qed.

(** Steps other than the tests' leave the tables alone. *)
Lemma step_tables lbl w w' :
  step lbl w = Some (Ret w') -> (forall a, lbl <> LAdmin a) ->
  w'.(rn).(enabled) = w.(rn).(enabled) /\ w'.(rn).(servers) = w.(rn).(servers).
Proof.
  destruct lbl; intros H Hn; [by edestruct Hn|..]; cbn [step] in H; unfold with_call in H;
    repeat (case_match || (unfold mbind, option_bind, res_bind in H; case_match));
    by simplify_eq.
Qed.

(** No name of a server leads to [p]. *)
Definition detached (r : Network) (p : nat) : Prop := forall s, server_at r s <> Some p.

Definition adds_server (p : nat) (lbl : Label V) : bool :=
  match lbl with LAdmin (AAddServer _ q) => bool_decide (q = p) | _ => false end.

Definition enables (e : Name) (lbl : Label V) : bool :=
  match lbl with LAdmin (AEnable e' true) => bool_decide (e' = e) | _ => false end.

Lemma admin_detached a r r' p :
  admin a r = Ret r' -> adds_server p (LAdmin a) = false -> detached r p -> detached r' p.
Proof.
  intros H Ha Hd s'. specialize (Hd s'). unfold server_at in *.
  destruct a; cbn in H, Ha; unfold MakeEnd, Cleanup in H; repeat case_match; simplify_eq;
    cbn; try done.
  - apply bool_decide_eq_false in Ha. rewrite lookup_insert. case_decide; cbn; congruence.
  - rewrite lookup_insert. by case_decide.
Qed.

Lemma admin_disabled a r r' e :
  admin a r = Ret r' -> enables e (LAdmin a) = false ->
  is_enabled r e = false -> is_enabled r' e = false.
Proof.
  intros H Ha Hd. unfold is_enabled in *.
  destruct a; cbn in H, Ha; unfold MakeEnd, Cleanup in H; repeat case_match; simplify_eq;
    cbn; try done; rewrite lookup_insert;
    match goal with |- context [decide (?x = ?y)] => destruct (decide (x = y)) end; cbn; try done.
  subst. by apply bool_decide_eq_false in Ha.
Qed.

Lemma step_admin a w w' :
  step (LAdmin a) w = Some (Ret w') -> admin a w.(rn) = Ret w'.(rn).
Proof.
  cbn. case_if; [|done]. destruct (admin a (rn w)); cbn; [|done]. by intros [= <-].
Qed.

Lemma step_detached lbl w w' p :
  step lbl w = Some (Ret w') -> adds_server p lbl = false ->
  detached w.(rn) p -> detached w'.(rn) p.
Proof.
  intros Hs Ha. destruct lbl as [a| | | | | | | | | | | | | |];
    [eapply admin_detached; [by apply step_admin|done]|..].
  all: apply step_tables in Hs as [_ Hs]; [|done]; unfold detached, server_at; by rewrite Hs.
Qed.

Lemma step_disabled lbl w w' e :
  step lbl w = Some (Ret w') -> enables e lbl = false ->
  is_enabled w.(rn) e = false -> is_enabled w'.(rn) e = false.
Proof.
  intros Hs Ha. destruct lbl as [a| | | | | | | | | | | | | |];
    [eapply admin_disabled; [by apply step_admin|done]|..].
  all: apply step_tables in Hs as [Hs _]; [|done]; unfold is_enabled; by rewrite Hs.
Qed.

Lemma step_trace lbl w w' e :
  step lbl w = Some (Ret w') -> e ∈ w.(trace) -> e ∈ w'.(trace).
Proof.
  intros Hs%step_change He. destruct Hs as [_ Ht|? ? ? ? _ Ht _|? ? ? ? _ _ _ Ht]; rewrite Ht;
    rewrite ?elem_of_app; auto.
Qed.

(** ** A server that was deleted *)

(** Before [ProcessReq] decides what to answer. *)
Definition undecided c : bool :=
  match c.(phase) with PFinal _ _ | PRet _ => false | _ => true end.

(** If the answer to call [k] is positive, a server other than [p] gave it. *)
Definition not_from (p k : nat) c w : Prop :=
  match c.(phase) with
  | PFinal {| ok := true |} _ | PRet (Some _) =>
      exists q sv n a, q <> p /\ EStart k q sv n a ∈ w.(trace)
  | _ => True
  end.

Lemma evs_elem k e (tr : list (Event V)) : e ∈ evs k tr -> e ∈ tr.
Proof. unfold evs. rewrite list_elem_of_filter. tauto. Qed.

Lemma not_from_cstep p k w w' c c' es :
  rpc_inv w -> w.(calls) !! k = Some c -> detached w.(rn) p ->
  cstep w.(rn) k c c' es -> (forall e, e ∈ w.(trace) -> e ∈ w'.(trace)) ->
  not_from p k c w -> not_from p k c' w'.
Proof.
  intros [Ic _] Hk Hdet Hs Htr Hn. destruct (Ic k c Hk) as (_ & q0 & _ & Hp).
  unfold not_from in *. inversion Hs; subst; cbn; try done;
    repeat match goal with H : phase c = _ |- _ => rewrite H in Hn, Hp end; cbn in Hp.
  all: try (destruct (phase c) as [| | | | | | |[[] ?] ?|[]]; naive_solver).
  - unfold ProcessReq. destruct (ReadEndnameInfo _ _) as [[] [] [] ? ?]; cbn; done.
  - destruct Hp as (<- & v & -> & sv & n & _ & Hev). unfold finish.
    destruct (IsServerDead _ _ _ _) eqn:Ed; [done|].
    assert (p0 <> p) as Hne.
    { intros ->. unfold IsServerDead in Ed. apply orb_false_iff in Ed as [_ Ed].
      apply negb_false_iff, bool_decide_eq_true in Ed. by apply Hdet in Ed. }
    assert (exists q sv n a, q <> p /\ EStart k q sv n a ∈ trace w').
    { exists p0, sv, n, (sent c). split; [done|]. apply Htr, (evs_elem k).
      rewrite Hev. constructor. }
    by repeat case_match.
Qed.

(** Once no name leads to server [p] (it was deleted or replaced), it answers no call
    that was still undecided. *)
Lemma deleted_server_silent p w ls w' k c c' v :
  reachable w -> detached w.(rn) p -> w.(calls) !! k = Some c -> undecided c = true ->
  Forall (fun lbl => adds_server p lbl = false) ls -> run ls w = Some w' ->
  w'.(calls) !! k = Some c' -> c'.(phase) = PRet (Some v) ->
  forall sv n a, EStart k p sv n a ∉ w'.(trace).
Proof.
  intros Hr Hdet Hk Hu Hls Hrun Hk' Hv sv n a Hin.
  set (P := fun w => detached w.(rn) p /\ exists c, w.(calls) !! k = Some c /\ not_from p k c w).
  assert (P w') as (_ & c1 & Hk1 & Hn).
  { eapply (run_keeps P); [|exact Hls|exact Hr| |exact Hrun].
    - intros lbl w1 w2 Ha Hr1 (Hd1 & c1 & Hk1 & Hn1) Hs. split; [by eapply step_detached|].
      destruct (change_call w1 w2 k c1 (step_change _ _ _ Hs) Hk1)
        as (c2 & Hk2 & _ & _ & _ & Hc2).
      exists c2. split; [done|]. destruct Hc2 as [->|(es & Hcs & _)].
      + unfold not_from in *. repeat case_match; try done;
          destruct Hn1 as (q & sv' & n' & a' & ? & ?); exists q, sv', n', a';
          (split; [done|by eapply step_trace]).
      + eapply (not_from_cstep p k w1); [by apply (reachable_inv)|done|done|exact Hcs| |done].
        intros e. by eapply step_trace.
    - split; [done|]. exists c. split; [done|]. unfold not_from, undecided in *.
      by destruct (phase c) as [| | | | | | |[[]]|]. }
  simplify_eq. unfold not_from in Hn. rewrite Hv in Hn. destruct Hn as (q & sv' & n' & a' & Hq & Hin').
  destruct (call_executed w' k c') as [_ Hx]; [by eapply rpc_run_reachable|done|].
  destruct (Hx v Hv) as (p' & v' & _ & sv1 & n1 & _ & Hev).
  assert (EStart k p sv n a ∈ evs k w'.(trace)) as H1 by (by apply list_elem_of_filter).
  assert (EStart k q sv' n' a' ∈ evs k w'.(trace)) as H2 by (by apply list_elem_of_filter).
  rewrite Hev in H1, H2. set_solver.
Qed.

(** ** An end that was disabled *)

(** The request has not been looked at yet. *)
Definition unread c : bool :=
  match c.(phase) with PSelect | PTaken | PProcess => true | _ => false end.

(** No positive answer; no handler either if the request was [u]nread. *)
Definition mute (u : bool) c : Prop :=
  match c.(phase) with
  | PFinal {| ok := true |} _ | PRet (Some _) => False
  | PSelect | PTaken | PProcess | PFinal _ _ | PRet None => u = true -> c.(disp) = None
  | _ => u = false
  end.

Lemma mute_cstep u r k c c' es :
  is_enabled r c.(req).(endname) = false -> cstep r k c c' es -> mute u c -> mute u c'.
Proof.
  intros He Hs Hm. unfold mute in *.
  inversion Hs; subst; cbn; repeat match goal with H : phase c = _ |- _ => rewrite H in Hm end;
    try done.
  - unfold ProcessReq, ReadEndnameInfo. by rewrite He.
  - by destruct u.
  - destruct (phase c) as [| | | | | | |[[] ?] ?|[]]; naive_solver.
  - destruct (phase c) as [| | | | | | |[[] ?] ?|[]]; naive_solver.
  - by destruct (phase c) as [| | | | | | |[[] ?] ?|[]]; naive_solver.
  - unfold finish, IsServerDead. rewrite He. cbn. by destruct u.
  - by destruct u.
  - destruct rep as [[] ?]; naive_solver.
  - by destruct rep as [[] ?].
Qed.

Lemma disabled_keeps_mute u e ls w w' k c :
  reachable w -> is_enabled w.(rn) e = false -> w.(calls) !! k = Some c ->
  c.(req).(endname) = e -> mute u c ->
  Forall (fun lbl => enables e lbl = false) ls -> run ls w = Some w' ->
  exists c', w'.(calls) !! k = Some c' /\ mute u c'.
Proof.
  intros Hr He Hk Hc Hm Hls Hrun.
  set (P := fun w => is_enabled w.(rn) e = false /\
              exists c, w.(calls) !! k = Some c /\ c.(req).(endname) = e /\ mute u c).
  assert (P w') as (_ & c1 & ? & _ & ?); [|by exists c1].
  eapply (run_keeps P); [|exact Hls|exact Hr| |exact Hrun].
  - intros lbl w1 w2 Ha Hr1 (He1 & c1 & Hk1 & Hc1 & Hm1) Hs. split; [by eapply step_disabled|].
    destruct (change_call w1 w2 k c1 (step_change _ _ _ Hs) Hk1)
      as (c2 & Hk2 & Hq & _ & _ & Hc2).
    exists c2. rewrite Hq. repeat split; [done..|]. destruct Hc2 as [->|(es & Hcs & _)]; [done|].
    eapply mute_cstep; [|done..]. by rewrite Hc1.
  - split; [done|]. by exists c.
Qed.

(** While an end is disabled, no call on it that was undecided returns true, and
    a request that had not been looked at is never handled. *)
Lemma disabled_end_silent e ls w w' k c c' :
  reachable w -> is_enabled w.(rn) e = false -> w.(calls) !! k = Some c ->
  c.(req).(endname) = e -> undecided c = true ->
  Forall (fun lbl => enables e lbl = false) ls -> run ls w = Some w' ->
  w'.(calls) !! k = Some c' ->
  (forall v, c'.(phase) <> PRet (Some v)) /\ (unread c = true -> evs k w'.(trace) = []).
Proof.
  intros Hr He Hk Hc Hu Hls Hrun Hk'.
  destruct (reachable_inv w Hr) as [Ic _]. destruct (Ic k c Hk) as (_ & p & Hd & Hp).
  assert (mute (unread c) c) as Hm.
  { unfold mute, unread, undecided in *. destruct (phase c); cbn in Hp; naive_solver. }
  destruct (disabled_keeps_mute _ _ _ _ _ _ _ Hr He Hk Hc Hm Hls Hrun) as (c1 & Hk1 & Hm').
  assert (c1 = c') as -> by congruence. clear Hk1.
  split; [intros v Hv; unfold mute in Hm'; by rewrite Hv in Hm'|].
  intros Hun. rewrite Hun in Hm'.
  destruct (reachable_inv w') as [Ic' _]; [by eapply rpc_run_reachable|].
  destruct (Ic' k c' Hk') as (_ & p' & Hd' & _).
  assert (disp c' = None) as Hn; [|by rewrite Hn in Hd'].
  unfold mute in Hm'. destruct (phase c') as [| | | | | | |[[] ?] ?|[]]; naive_solver.
Qed.
End calls.
