(* ===== verification/LabRpcLive.v ===== *)
(** * LabRpcLive: calls return, and the statistics

    Where a call can be, and that some step of its own goroutines is always
    possible until it has returned; the counters of the network and its servers. *)

From S2P Require Import Prelude Gob LabRpc LabRpcFacts LabRpcTheory.
Local Open Scope Z_scope.

Section live.
Context {V : Type} `{!Gob V} `{!GobVar V}.
Implicit Types (w : Rpc V) (c : CallState V).

(** ** The receiver holds exactly the request that was taken *)

Definition taken w (j : nat) : Prop :=
  exists c, w.(calls) !! j = Some c /\ c.(phase) = PTaken.

Lemma taken_put w k c c' j :
  w.(calls) !! k = Some c -> (c'.(phase) = PTaken <-> c.(phase) = PTaken) ->
  taken (put_call k c' w) j <-> taken w j.
Proof.
  intros Hk Hp. unfold taken, put_call. cbn. destruct (decide (j = k)) as [->|Hne].
  - rewrite list_lookup_insert_eq by (by eapply lookup_lt_Some).
    split; intros (d & ? & ?); simplify_eq; eexists; split; eauto; tauto.
  - by rewrite list_lookup_insert_ne.
Qed.

Lemma ProcessReq_not_taken r q z : @ProcessReq V r q z <> PTaken.
Proof. unfold ProcessReq. by destruct (ReadEndnameInfo _ _) as [[] [] [] ? ?]. Qed.

Lemma finish_not_taken r e s p rel lr got d0 d1 d2 :
  @finish V r e s p rel lr got d0 d1 d2 <> PTaken.
Proof. unfold finish. by repeat case_match. Qed.

Definition moves_receiver (lbl : Label V) : bool :=
  match lbl with LTake _ | LSpawn | LStop => true | _ => false end.

Lemma step_receiver lbl w w' :
  step lbl w = Some (Ret w') -> moves_receiver lbl = false ->
  w'.(rn).(receiver) = w.(rn).(receiver) /\
  (w.(rn).(done) = true -> w'.(rn).(done) = true) /\
  forall j, taken w' j <-> taken w j.
Proof.
  destruct lbl; intros H Hm; try discriminate Hm; step_cases H; subst.
  1: destruct a; cbn in Em; unfold MakeEnd, Cleanup in Em; repeat case_match; by simplify_eq.
  1: repeat split; try done; unfold taken; cbn;
     [ intros (c & [[_ ?]|[_ <-]]%lookup_snoc_Some & ?); [by exists c|done]
     | intros (c & ? & ?); exists c; split; [by apply lookup_app_l_Some|done] ].
  all: split; [done|split; [done|]]; intros j; try done.
  all: try (eapply (taken_put _ _ _ _ _ Ec); cbn; split; intros; congruence).
  - eapply (taken_put _ _ _ _ _ Ec); cbn; split; intros Hx; [|congruence].
    by apply ProcessReq_not_taken in Hx.
  - eapply (taken_put _ _ _ _ _ Ec); cbn; split; intros Hx; [|congruence].
    by repeat case_match.
Qed.

Record live_inv w : Prop := {
  li_taken : forall j, taken w j <-> w.(rn).(receiver) = RGot j;
  li_returned : w.(rn).(receiver) = RReturned -> w.(rn).(done) = true;
}.

Lemma taken_only w k c c' j :
  w.(calls) !! k = Some c -> c'.(phase) = PTaken -> (forall i, ~ taken w i) ->
  taken (put_call k c' w) j <-> j = k.
Proof.
  intros Hk Hp Hn. unfold taken, put_call. cbn. destruct (decide (j = k)) as [->|Hne].
  - rewrite list_lookup_insert_eq by (by eapply lookup_lt_Some). naive_solver.
  - rewrite list_lookup_insert_ne by done. split; [|done]. intros ?. by edestruct Hn.
Qed.

Lemma taken_none w k c c' j :
  w.(calls) !! k = Some c -> c'.(phase) <> PTaken -> (forall i, taken w i <-> i = k) ->
  ~ taken (put_call k c' w) j.
Proof.
  intros Hk Hp Hn. unfold taken at 1, put_call. cbn. destruct (decide (j = k)) as [->|Hne].
  - rewrite list_lookup_insert_eq by (by eapply lookup_lt_Some). naive_solver.
  - rewrite list_lookup_insert_ne by done. intros Ht. by apply Hn in Ht.
Qed.

Lemma step_live lbl w w' : step lbl w = Some (Ret w') -> live_inv w -> live_inv w'.
Proof.
  intros Hs [It Ir]. destruct (moves_receiver lbl) eqn:Em.
  - destruct lbl; try discriminate Em; step_cases Hs; subst; split; cbn; try done.
    + intros j. transitivity (j = k); [|split; [by intros ->|by intros [=]]].
      apply (taken_only w k c (at_phase PTaken c)); [done|done|].
      intros i Hi%It. congruence.
    + intros j. split; [|done]. intros Ht. exfalso. revert Ht.
      apply (taken_none w k c (at_phase PProcess c)); [done|done|].
      intros i. rewrite It. split; congruence.
    + intros j. split; [|done]. intros Ht%It. congruence.
  - destruct (step_receiver lbl w w' Hs Em) as (Hr & Hd & Ht).
    split; [intros j; by rewrite Ht, Hr|]. rewrite Hr. auto.
Qed.

Lemma reachable_live w : reachable w -> live_inv w.
Proof.
  induction 1 as [|lbl w w' _ IH Hs]; [|by eapply step_live].
  split; [|done]. intros j. split; [|done]. by intros (c & ? & _).
Qed.

(** ** Pointers to servers are allocated *)

Definition ptr_ok (n : nat) c : Prop :=
  match c.(phase) with PUp _ p _ _ _ => (p < n)%nat | _ => True end /\
  match c.(disp) with Some (DStart p) => (p < n)%nat | _ => True end.

Record heap_inv w : Prop := {
  hi_table : forall s p, server_at w.(rn) s = Some p -> (p < length w.(rn).(srv_heap))%nat;
  hi_calls : forall k c, w.(calls) !! k = Some c -> ptr_ok (length w.(rn).(srv_heap)) c;
}.

Lemma step_heap lbl w w' : step lbl w = Some (Ret w') ->
  (length w.(rn).(srv_heap) <= length w'.(rn).(srv_heap))%nat.
Proof.
  destruct lbl; intros H; step_cases H; subst; cbn; rewrite ?length_insert; try done.
  destruct a; cbn in Em; unfold MakeEnd, Cleanup in Em; repeat case_match; simplify_eq;
    cbn; rewrite ?length_app; lia.
Qed.

Lemma admin_table a r r' s p :
  admin a r = Ret r' -> allocated a r = true -> server_at r' s = Some p ->
  server_at r s = Some p \/ (p < length r.(srv_heap))%nat.
Proof.
  intros H Ha Hs. unfold server_at in *.
  destruct a; cbn in H, Ha; unfold MakeEnd, Cleanup in H; repeat case_match; simplify_eq;
    cbn in Hs; auto; rewrite lookup_insert in Hs; case_decide; cbn in Hs; simplify_eq; auto.
  by apply bool_decide_eq_true in Ha; right.
Qed.

Lemma ptr_ok_mono n n' c : (n <= n')%nat -> ptr_ok n c -> ptr_ok n' c.
Proof.
  intros Hle [H1 H2]. split; [destruct (phase c)|destruct (disp c) as [[]|]]; cbn in *; (lia || done).
Qed.

Lemma ptr_ok_cstep r k c c' es :
  (forall s p, server_at r s = Some p -> (p < length r.(srv_heap))%nat) ->
  cstep r k c c' es -> ptr_ok (length r.(srv_heap)) c -> ptr_ok (length r.(srv_heap)) c'.
Proof.
  intros Ht Hs [Hp Hd]. destruct Hs; split; cbn; try done;
    repeat match goal with H : phase c = _ |- _ => rewrite H in Hp end; try done.
  - unfold ProcessReq. destruct (ReadEndnameInfo r (endname (req c))) as [[] [] [] ? ?] eqn:E;
      cbn; try done.
    unfold ReadEndnameInfo in E. destruct (connection r (endname (req c))); [|done].
    cbn in E. injection E. intros. eapply Ht. eauto.
  - unfold finish. by repeat case_match.
Qed.

Lemma step_heap_inv lbl w w' : step lbl w = Some (Ret w') -> heap_inv w -> heap_inv w'.
Proof.
  intros Hs [Ht Hc]. pose proof (step_heap _ _ _ Hs) as Hle. split.
  - intros s p Hp. destruct lbl as [a| | | | | | | | | | | | | |].
    { assert (allocated a (rn w) = true) as Ha by (cbn in Hs; by case_if).
      destruct (admin_table a _ _ s p (step_admin a _ _ Hs) Ha Hp) as [Hs'%Ht|]; lia. }
    all: destruct (step_tables _ _ _ Hs) as [_ He]; [done|];
         unfold server_at in Hp; rewrite He in Hp; apply Ht in Hp; lia.
  - intros k c Hk. eapply ptr_ok_mono; [exact Hle|].
    destruct (step_change _ _ _ Hs) as [He _|e m v rv He _ _|j d d' es Hj Hcs He _];
      rewrite He in Hk.
    + by apply (Hc k).
    + apply lookup_snoc_Some in Hk as [[_ Hk]|[_ <-]]; [by apply (Hc k)|by split].
    + destruct (decide (j = k)) as [->|Hne].
      * rewrite list_lookup_insert_eq in Hk by (by eapply lookup_lt_Some). simplify_eq.
        eapply ptr_ok_cstep; eauto.
      * rewrite list_lookup_insert_ne in Hk by done. by apply (Hc k).
Qed.

Lemma reachable_heap w : reachable w -> heap_inv w.
Proof.
  induction 1 as [|lbl w w' _ IH Hs]; [|by eapply step_heap_inv].
  split; [|done]. intros s p. unfold server_at. cbn. by rewrite lookup_empty.
Qed.

(** ** A call returns *)

(** The steps of the goroutines of call [k], and of the receiver. *)
Definition own (k : nat) (lbl : Label V) : bool :=
  match lbl with
  | LTake j | LDone j | LRead j _ | LDrop j _ | LDispatch j | LReturn j _ | LRecv j
  | LTimeout j | LDrain j | LFinish j _ _ _ _ | LReply j => bool_decide (j = k)
  | LSpawn => true
  | _ => false
  end.

Definition returns_in (n : nat) w (k : nat) : Prop :=
  exists ls w' c o, run ls w = Some w' /\ (length ls <= n)%nat /\
    Forall (fun lbl => own k lbl = true) ls /\ w'.(calls) !! k = Some c /\ c.(phase) = PRet o.

(** Every server has the service and the method. *)
Definition served w (m : string) : Prop :=
  forall p rs, w.(rn).(srv_heap) !! p = Some rs -> exists x, dispatch m rs = Ret x.

Lemma returns_step n w w' k lbl :
  step lbl w = Some (Ret w') -> own k lbl = true -> returns_in n w' k ->
  returns_in (S n) w k.
Proof.
  intros Hs Ho (ls & w1 & c & o & Hrun & Hlen & Hown & ?).
  exists (lbl :: ls), w1, c, o. cbn. rewrite Hs.
  split; [done|split; [lia|split; [by constructor|done]]].
Qed.

Lemma returned n w k c o :
  w.(calls) !! k = Some c -> c.(phase) = PRet o -> returns_in n w k.
Proof. intros. exists [], w, c, o. repeat split; try done; cbn; lia || constructor. Qed.

Lemma returns_mono n n' w k : (n <= n')%nat -> returns_in n w k -> returns_in n' w k.
Proof. intros ? (ls & w' & c & o & ? & ? & ?). exists ls, w', c, o. split; [done|]. split; [lia|done]. Qed.

Lemma put_call_same k c w x :
  w.(calls) !! k = Some x -> (put_call k c w).(calls) !! k = Some c.
Proof. intros. apply list_lookup_insert_eq. by eapply lookup_lt_Some. Qed.

(** One step of call [k], then the rest. *)
Lemma returns_by n w w' k lbl :
  reachable w -> step lbl w = Some (Ret w') -> own k lbl = true ->
  (reachable w' -> returns_in n w' k) -> returns_in (S n) w k.
Proof. intros Hr Hs Ho Hn. eapply returns_step; eauto. apply Hn. by eapply reach_step. Qed.

Ltac take_step Hk Ep :=
  cbn [step]; unfold with_call; rewrite Hk; cbn [mbind option_bind]; rewrite ?Ep; reflexivity.

Lemma own_self (k : nat) : bool_decide (k = k) = true.
Proof. by apply bool_decide_true. Qed.

Lemma final_returns w k c r ms :
  reachable w -> w.(calls) !! k = Some c -> c.(phase) = PFinal r ms -> returns_in 1 w k.
Proof.
  intros Hr Hk Hp. destruct (reachable_inv w Hr) as [Ic _].
  destruct (Ic k c Hk) as (_ & p & _ & Hpp). rewrite Hp in Hpp. cbn in Hpp.
  destruct Hpp as [Hok _]. destruct r as [[] b]; cbn in Hok.
  - destruct Hok as (v & [= ->] & _). destruct (decode_encode_one v) as [d Hd].
    eapply (returns_step 0 _ _ _ (LReply k)); [|apply own_self|].
    + cbn [step]. unfold with_call. rewrite Hk. cbn [mbind option_bind]. rewrite Hp. cbn.
      rewrite Hd. reflexivity.
    + eapply returned; [by eapply put_call_same|done].
  - eapply (returns_step 0 _ _ _ (LReply k)); [take_step Hk Hp|apply own_self|].
    eapply returned; [by eapply put_call_same|done].
Qed.

Lemma finish_final r e s p rel lr got d0 d1 d2 :
  exists rep ms, @finish V r e s p rel lr got d0 d1 d2 = PFinal rep ms.
Proof. unfold finish. repeat case_match; eauto. Qed.

Lemma answer_returns w k c :
  reachable w -> w.(calls) !! k = Some c ->
  match c.(phase) with PGot _ _ _ _ _ | PLost _ _ _ _ => True | _ => False end ->
  returns_in 2 w k.
Proof.
  intros Hr Hk Hp. destruct (phase c) eqn:Ep; try done.
  all: eapply (returns_by 1 _ _ _ (LFinish k 0 0 0 0)); [done|take_step Hk Ep|apply own_self|].
  - intros Hr'. destruct (finish_final (rn w) (endname (req c)) servername server rel lr
      (Some r) 0 0 0) as (rep & ms & Hf).
    eapply final_returns; [done|by eapply put_call_same|exact Hf].
  - intros Hr'. eapply final_returns; [done|by eapply put_call_same|done].
Qed.

Lemma wait_returns w k c s p rel lr (v : V) :
  reachable w -> w.(calls) !! k = Some c -> served w c.(req).(svcMeth) ->
  c.(phase) = PWait s p rel lr -> returns_in 5 w k.
Proof.
  intros Hr Hk Hsv Ep. destruct (reachable_inv w Hr) as [Ic _].
  destruct (Ic k c Hk) as (_ & p0 & _ & Hpp). rewrite Ep in Hpp. cbn in Hpp.
  assert (forall w c r, reachable w -> w.(calls) !! k = Some c ->
    c.(phase) = PWait s p rel lr -> c.(disp) = Some (DSend r) -> returns_in 3 w k) as Hsend.
  { clear. intros w c r Hr Hk Ep Ed.
    eapply (returns_by 2 _ _ _ (LRecv k)); [done| |apply own_self|].
    - cbn [step]. unfold with_call. rewrite Hk. cbn [mbind option_bind]. by rewrite Ep, Ed.
    - intros Hr'. eapply answer_returns; [done|by eapply put_call_same|done]. }
  assert (forall w c q sv n a, reachable w -> w.(calls) !! k = Some c ->
    c.(phase) = PWait s p rel lr -> c.(disp) = Some (DRun q sv n a) -> returns_in 4 w k) as Hrun.
  { clear - Hsend v. intros w c q sv n a Hr Hk Ep Ed.
    eapply (returns_by 3 _ _ _ (LReturn k v)); [done|take_step Hk Ed|apply own_self|].
    intros Hr'. eapply Hsend; [done|by eapply put_call_same|exact Ep|done]. }
  destruct (disp c) as [[q|q sv n a|r|]|] eqn:Ed;
    try (by destruct Hpp as (_ & ? & ?)).
  - destruct (reachable_heap w Hr) as [_ Hh]. apply Hh in Hk as Hq. unfold ptr_ok in Hq.
    rewrite Ed in Hq. destruct Hq as [_ Hq].
    apply lookup_lt_is_Some in Hq as [rs Hrs]. destruct (Hsv q rs Hrs) as [[rs' [sv n]] Hx].
    eapply (returns_by 4 _ _ _ (LDispatch k)); [done| |apply own_self|].
    + cbn [step]. unfold with_call. rewrite Hk. cbn [mbind option_bind]. rewrite Ed.
      rewrite Hrs. cbn. rewrite Hx. reflexivity.
    + intros Hr'. eapply Hrun; [done|by eapply put_call_same|exact Ep|done].
  - eapply returns_mono, Hrun; eauto.
  - eapply returns_mono, Hsend; eauto.
Qed.

Lemma up_returns w k c s p rel lr ms (v : V) :
  reachable w -> w.(calls) !! k = Some c -> served w c.(req).(svcMeth) ->
  c.(phase) = PUp s p rel lr ms -> returns_in 6 w k.
Proof.
  intros Hr Hk Hsv Ep.
  eapply (returns_by 5 _ _ _ (LDrop k 500)); [done| |apply own_self|].
  - cbn [step]. unfold with_call. rewrite Hk. cbn [mbind option_bind]. rewrite Ep.
    replace (negb rel && (500 mod 1000 <? 100)) with false by (by destruct rel). reflexivity.
  - intros Hr'. eapply wait_returns; [exact v|done|by eapply put_call_same|exact Hsv|done].
Qed.

Lemma process_returns w k c (v : V) :
  reachable w -> w.(calls) !! k = Some c -> served w c.(req).(svcMeth) ->
  c.(phase) = PProcess -> returns_in 7 w k.
Proof.
  intros Hr Hk Hsv Ep.
  eapply (returns_by 6 _ _ _ (LRead k 0)); [done|take_step Hk Ep|apply own_self|].
  intros Hr'. destruct (ProcessReq (rn w) (req c) 0) eqn:E.
  all: try (unfold ProcessReq in E;
            destruct (ReadEndnameInfo _ _) as [[] [] [] ? ?]; discriminate E).
  - eapply up_returns; [exact v|done|by eapply put_call_same|exact Hsv|done].
  - eapply returns_mono, final_returns; [lia|done|by eapply put_call_same|done].
Qed.

Lemma taken_returns w k c (v : V) :
  reachable w -> w.(calls) !! k = Some c -> served w c.(req).(svcMeth) ->
  c.(phase) = PTaken -> returns_in 8 w k.
Proof.
  intros Hr Hk Hsv Ep. destruct (reachable_live w Hr) as [Ht _].
  assert (w.(rn).(receiver) = RGot k) as Hg by (apply Ht; by exists c).
  eapply (returns_by 7 _ _ _ LSpawn); [done| |done|].
  - cbn [step]. rewrite Hg. unfold with_call. rewrite Hk. cbn [mbind option_bind].
    rewrite Ep. reflexivity.
  - intros Hr'. eapply process_returns; [exact v|done|by eapply put_call_same|exact Hsv|done].
Qed.

Lemma select_returns w k c (v : V) :
  reachable w -> w.(calls) !! k = Some c -> served w c.(req).(svcMeth) ->
  c.(phase) = PSelect -> returns_in 10 w k.
Proof.
  intros Hr Hk Hsv Ep.
  assert (forall w, reachable w -> w.(calls) !! k = Some c -> served w c.(req).(svcMeth) ->
    w.(rn).(receiver) = RSelect -> returns_in 9 w k) as Hsel.
  { clear - Ep v. intros w Hr Hk Hsv Hg.
    eapply (returns_by 8 _ _ _ (LTake k)); [done| |apply own_self|].
    - cbn [step]. unfold with_call. rewrite Hk. cbn [mbind option_bind]. rewrite Ep, Hg.
      reflexivity.
    - intros Hr'. eapply taken_returns; [exact v|done|by eapply put_call_same|exact Hsv|done]. }
  destruct (reachable_live w Hr) as [Ht Hd]. destruct (w.(rn).(receiver)) as [|j|] eqn:Hg.
  - eapply returns_mono, Hsel; eauto.
  - destruct (proj2 (Ht j)) as (d & Hj & Hpj); [done|].
    eapply (returns_by 9 _ _ _ LSpawn); [done| |done|].
    + cbn [step]. rewrite Hg. unfold with_call. rewrite Hj. cbn [mbind option_bind].
      rewrite Hpj. reflexivity.
    + intros Hr'. apply Hsel; [done| |exact Hsv|done].
      cbn. rewrite list_lookup_insert_ne; [done|]. intros ->. congruence.
  - apply (returns_mono 1); [lia|].
    eapply (returns_step 0 _ _ _ (LDone k)); [|apply own_self|].
    + cbn [step]. unfold with_call. rewrite Hk. cbn [mbind option_bind].
      rewrite Ep, Hd by done. reflexivity.
    + eapply returned; [by eapply put_call_same|done].
Qed.

(** A call that the servers can serve returns after at most ten steps of its own
    goroutines and the receiver, one of them the return of the handler. *)
Lemma call_returns w k c (v : V) :
  reachable w -> w.(calls) !! k = Some c -> served w c.(req).(svcMeth) ->
  returns_in 10 w k.
Proof.
  intros Hr Hk Hsv. destruct (phase c) eqn:Ep.
  - by eapply select_returns.
  - by eapply returns_mono, taken_returns; [lia|..].
  - by eapply returns_mono, process_returns; [lia|..].
  - by eapply returns_mono, up_returns; [lia|..].
  - by eapply returns_mono, wait_returns; [lia|..].
  - eapply returns_mono, answer_returns; [lia|done..|by rewrite Ep].
  - eapply returns_mono, answer_returns; [lia|done..|by rewrite Ep].
  - by eapply returns_mono, final_returns; [lia|..].
  - by eapply returned.
Qed.

(** ** Returns of the handler *)

Definition is_return (lbl : Label V) : Prop := match lbl with LReturn _ _ => True | _ => False end.
Global Instance is_return_dec lbl : Decision (is_return lbl).
Proof. destruct lbl; cbn; apply _. Defined.

Definition return_of (k : nat) (e : Event V) : Prop :=
  match e with EReturn j _ => j = k | EStart _ _ _ _ _ => False end.
Global Instance return_of_dec k e : Decision (return_of k e).
Proof. destruct e; cbn; apply _. Defined.

Lemma step_return_of lbl w w' k : step lbl w = Some (Ret w') -> own k lbl = true ->
  cnt (return_of k) w'.(trace) = (cnt (return_of k) w.(trace) + if decide (is_return lbl) then 1 else 0)%nat.
Proof.
  intros H Ho. destruct lbl; step_cases H; subst; cbn in *; try done; rewrite ?Nat.add_0_r; try done.
  - rewrite cnt_snoc_not by (cbn; tauto). done.
  - apply bool_decide_eq_true_1 in Ho as ->. rewrite cnt_snoc, decide_True by done.
    rewrite decide_True by done. lia.
Qed.

Lemma run_returns ls w w' k : run ls w = Some w' -> Forall (fun lbl => own k lbl = true) ls ->
  cnt (return_of k) w'.(trace) = (cnt (return_of k) w.(trace) + cnt is_return ls)%nat.
Proof.
  revert w. induction ls as [|lbl ls IH]; cbn; intros w Hrun Ho; [simplify_eq; rewrite cnt_nil; lia|].
  apply Forall_cons in Ho as [Ho1 Ho]. destruct (step lbl w) as [[w1|]|] eqn:Hs; [|done..].
  rewrite (IH w1 Hrun Ho), (step_return_of _ _ _ _ Hs Ho1), cnt_cons. lia.
Qed.

(** The handler of a call returns once. *)
Lemma returns_once w k c : reachable w -> w.(calls) !! k = Some c -> (cnt (return_of k) w.(trace) <= 1)%nat.
Proof.
  intros Hr Hk. destruct (call_executed w k c Hr Hk) as [(p & sv & n & v & l & Hl) _].
  assert (cnt (return_of k) w.(trace) = cnt (return_of k) (evs k w.(trace))) as ->.
  { clear. induction (trace w) as [|e tr IH]; [done|]. unfold evs. rewrite filter_cons, cnt_cons, IH.
    destruct (decide (ev_call e = k)) as [Hd|Hd]; [by rewrite cnt_cons|].
    by rewrite decide_False by (destruct e; cbn in *; tauto). }
  apply (f_equal (cnt (return_of k))) in Hl. rewrite cnt_app in Hl.
  rewrite !cnt_cons, cnt_nil, decide_False, decide_True in Hl by (cbn; tauto). lia.
Qed.

Lemma own_returns ls w w' k c : reachable w -> w.(calls) !! k = Some c -> run ls w = Some w' ->
  Forall (fun lbl => own k lbl = true) ls -> (cnt is_return ls <= 1)%nat.
Proof.
  intros Hr Hk Hrun Ho. assert (exists c', w'.(calls) !! k = Some c') as [c' Hk'].
  { clear Hr Ho. revert w c Hk Hrun. induction ls as [|lbl ls IH]; cbn; intros w c Hk Hrun; [simplify_eq; eauto|].
    destruct (step lbl w) as [[w1|]|] eqn:Hs; [|done..].
    destruct (change_call _ _ _ _ (step_change _ _ _ Hs) Hk) as (c1 & Hk1 & _). eauto. }
  pose proof (returns_once w' k c' (rpc_run_reachable _ _ _ Hr Hrun) Hk').
  pose proof (run_returns _ _ _ _ Hrun Ho). lia.
Qed.

(** A call whose server was deleted returns false even if the handler never
    returns. *)
Lemma call_returns_killed w k c s p rel lr :
  w.(calls) !! k = Some c -> c.(phase) = PWait s p rel lr ->
  IsServerDead w.(rn) c.(req).(endname) s p = true ->
  exists w' c', run [LTimeout k; LFinish k 0 0 0 0; LReply k] w = Some w' /\
    w'.(calls) !! k = Some c' /\ c'.(phase) = PRet None.
Proof.
  intros Hk Ep Hd. set (w1 := put_call k (at_phase (PLost s p rel lr) c) w).
  set (w2 := put_call k (at_phase (PFinal failed 0) c) w1).
  assert (step (LTimeout k) w = Some (Ret w1)) as H1.
  { cbn [step]. unfold with_call. rewrite Hk. cbn [mbind option_bind]. by rewrite Ep, Hd. }
  assert (w1.(calls) !! k = Some (at_phase (PLost s p rel lr) c)) as Hk1
    by (by eapply put_call_same).
  assert (step (LFinish k 0 0 0 0) w1 = Some (Ret w2)) as H2.
  { cbn [step]. unfold with_call. by rewrite Hk1. }
  assert (w2.(calls) !! k = Some (at_phase (PFinal failed 0) c)) as Hk2
    by (by eapply put_call_same).
  exists (put_call k (at_phase (PRet None) c) w2), (at_phase (PRet None) c).
  split; [|split; [by eapply put_call_same|done]].
  cbn [run]. rewrite H1, H2. cbn [step]. unfold with_call. by rewrite Hk2.
Qed.

(** ** Statistics *)

Definition starts_on (p : nat) (e : Event V) : Prop :=
  match e with EStart _ q _ _ _ => q = p | EReturn _ _ => False end.
Global Instance starts_on_dec p e : Decision (starts_on p e).
Proof. destruct e; cbn; apply _. Defined.

Record count_inv w : Prop := {
  ci_count : forall p rs, w.(rn).(srv_heap) !! p = Some rs ->
    rs.(srv_count) = Z.of_nat (cnt (starts_on p) w.(trace));
  ci_bound : forall e p, e ∈ w.(trace) -> starts_on p e ->
    (p < length w.(rn).(srv_heap))%nat;
}.

Lemma AddService_count svcs rs :
  srv_count (foldl (fun s v => AddService v s) rs svcs) = srv_count rs.
Proof. revert rs. induction svcs as [|v svcs IH]; intros rs; [done|]. cbn. by rewrite IH. Qed.

Lemma admin_heap a r r' : admin a r = Ret r' ->
  r'.(srv_heap) = r.(srv_heap) \/
  exists rs, srv_count rs = 0 /\ r'.(srv_heap) = r.(srv_heap) ++ [rs].
Proof.
  destruct a; cbn; unfold MakeEnd, Cleanup; intros; repeat case_match; simplify_eq; auto.
  right. eexists. split; [|done]. by rewrite AddService_count.
Qed.

Lemma step_count lbl w w' : step lbl w = Some (Ret w') -> count_inv w -> count_inv w'.
Proof.
  intros H [Ic Ib]. destruct lbl; step_cases H; subst; try (by split).
  - apply admin_heap in Em as [He|(rs & Hz & He)]; split; cbn; rewrite He; try done.
    + intros p rs' [[_ Hp]|[-> <-]]%lookup_snoc_Some; [by apply Ic|].
      rewrite Hz. symmetry. change 0 with (Z.of_nat 0). f_equal. apply cnt_zero.
      intros e He1 He2. apply (Ib e) in He2; [lia|done].
    + intros e p He1 He2. rewrite length_app. apply (Ib e p He1) in He2. lia.
  - rename s0 into rs'. apply dispatch_split in Em as [_ ->]. split; cbn.
    + intros p rs. rewrite cnt_snoc. destruct (decide (p = server)) as [->|Hne].
      * rewrite list_lookup_insert_eq by (by eapply lookup_lt_Some). intros [= <-]. cbn.
        rewrite (Ic server) by done. rewrite decide_True by done. lia.
      * rewrite list_lookup_insert_ne by done. intros Hp. rewrite decide_False by (cbn; congruence).
        by apply Ic.
    + intros e p [He|He]%elem_of_app Hs; rewrite length_insert; [by eapply Ib|].
      apply list_elem_of_singleton in He as ->. cbn in Hs. subst. by eapply lookup_lt_Some.
  - split; cbn.
    + intros p rs Hp. rewrite cnt_snoc_not by (cbn; tauto). by apply Ic.
    + intros e p [He|He]%elem_of_app Hs; [by eapply Ib|].
      by apply list_elem_of_singleton in He as ->.
Qed.

Lemma reachable_count w : reachable w -> count_inv w.
Proof.
  induction 1 as [|lbl w w' _ IH Hs]; [|by eapply step_count].
  split; [done|]. intros e p He. by apply not_elem_of_nil in He.
Qed.

Lemma wrap32_succ z : wrap32 (wrap32 z + 1) = wrap32 (z + 1).
Proof.
  unfold wrap32. replace ((z + 2 ^ 31) mod 2 ^ 32 - 2 ^ 31 + 1 + 2 ^ 31)
    with ((z + 2 ^ 31) mod 2 ^ 32 + 1) by lia.
  rewrite Zplus_mod_idemp_l. f_equal. f_equal. lia.
Qed.

Lemma wrap32_id z : - 2 ^ 31 <= z < 2 ^ 31 -> wrap32 z = z.
Proof. intros. unfold wrap32. rewrite Z.mod_small; lia. Qed.

Definition is_spawn (lbl : Label V) : Prop := lbl = LSpawn.
Global Instance is_spawn_dec lbl : Decision (is_spawn lbl).
Proof. unfold is_spawn. destruct lbl; (by left) || (by right). Defined.

Lemma step_total lbl w w' : step lbl w = Some (Ret w') ->
  w'.(rn).(count) = if decide (is_spawn lbl) then wrap32 (w.(rn).(count) + 1) else w.(rn).(count).
Proof.
  intros H. destruct lbl; step_cases H; subst; cbn; try done.
  destruct a; cbn in Em; unfold MakeEnd, Cleanup in Em; repeat case_match; by simplify_eq.
Qed.

Lemma run_total ls w w' z : run ls w = Some w' -> w.(rn).(count) = wrap32 z ->
  w'.(rn).(count) = wrap32 (z + Z.of_nat (cnt is_spawn ls)).
Proof.
  revert w z. induction ls as [|lbl ls IH]; cbn; intros w z Hrun Hz.
  - simplify_eq. rewrite Hz. f_equal. rewrite cnt_nil. lia.
  - destruct (step lbl w) as [[w1|]|] eqn:Hs; [|done..].
    apply step_total in Hs. rewrite cnt_cons. rewrite Nat2Z.inj_add. case_decide.
    + rewrite Hz, wrap32_succ in Hs. rewrite (IH w1 _ Hrun Hs). f_equal. lia.
    + rewrite Hz in Hs. rewrite (IH w1 _ Hrun Hs). f_equal; lia.
Qed.
End live.
