(* ===== verification/LabRpcMain.v ===== *)
(** * LabRpcMain: the guarantees of the network, and concrete runs

    The theorems of the network that its users rely on, and runs of one call
    that show that their hypotheses are met: a call that is answered, a server
    that is deleted while its handler runs, an end that is disabled. *)

From S2P Require Import Prelude Gob LabRpc LabRpcFacts LabRpcTheory LabRpcLive.
Local Open Scope Z_scope.

Section main.
Context {V : Type} `{!Gob V} `{!GobVar V}.
Implicit Types (w : Rpc V) (c : CallState V).


(** C20. After a server was deleted or replaced (no name leads to it any more), and
    unless it is added again, no call that [ProcessReq] had not decided yet
    returns true on its account: a call that does return true was handled by
    another server. *)
Theorem rpc_deleted_server_silent p w ls w' k c c' v :
  reachable w -> detached w.(rn) p -> w.(calls) !! k = Some c -> undecided c = true ->
  Forall (fun lbl => adds_server p lbl = false) ls -> run ls w = Some w' ->
  w'.(calls) !! k = Some c' -> c'.(phase) = PRet (Some v) ->
  forall sv n a, EStart k p sv n a ∉ w'.(trace).
Proof. apply deleted_server_silent. Qed.

(** While an end stays disabled, no call on it that was still undecided
    returns true, and no handler is ever run for a request that had not been
    looked at when the end was disabled. *)
Theorem rpc_disabled_end_silent e ls w w' k c c' :
  reachable w -> is_enabled w.(rn) e = false -> w.(calls) !! k = Some c ->
  c.(req).(endname) = e -> undecided c = true ->
  Forall (fun lbl => enables e lbl = false) ls -> run ls w = Some w' ->
  w'.(calls) !! k = Some c' ->
  (forall v, c'.(phase) <> PRet (Some v)) /\ (unread c = true -> evs k w'.(trace) = []).
Proof. apply disabled_end_silent. Qed.

(** C21. [Call] returns: wherever a call is, ten steps of its own goroutines and of
    the receiving goroutine are enough, at most one of these steps is the return of
    the handler, provided the servers have the service and method it names. *)
Theorem rpc_call_returns w k c (v : V) :
  reachable w -> w.(calls) !! k = Some c -> served w c.(req).(svcMeth) ->
  exists ls w' c' o, run ls w = Some w' /\ (length ls <= 10)%nat /\
    Forall (fun lbl => own k lbl = true) ls /\ (cnt is_return ls <= 1)%nat /\
    w'.(calls) !! k = Some c' /\ c'.(phase) = PRet o.
Proof.
  intros Hr Hk Hs. destruct (call_returns w k c v Hr Hk Hs) as (ls & w' & c' & o & Hrun & Hl & Ho & Hk' & Hp).
  exists ls, w', c', o. repeat split; try done. by eapply own_returns.
Qed.

(** The statistics: the count of a server is the number of handlers started on
    it, and the total is the number of requests the network has taken, as a
    32-bit integer: exact below 2^31 and never out of that range. *)
Theorem rpc_counts ls w :
  run ls init = Some w ->
  (forall s p, server_at w.(rn) s = Some p ->
     GetCount w.(rn) s = Ret (Z.of_nat (cnt (starts_on p) w.(trace)))) /\
  - 2 ^ 31 <= GetTotalCount w.(rn) < 2 ^ 31 /\
  (Z.of_nat (cnt is_spawn ls) < 2 ^ 31 ->
   GetTotalCount w.(rn) = Z.of_nat (cnt is_spawn ls)).
Proof.
  intros Hrun. assert (reachable w) as Hr by (eapply rpc_run_reachable; [constructor|done]).
  assert (GetTotalCount w.(rn) = wrap32 (Z.of_nat (cnt is_spawn ls))) as Ht
    by (by apply (run_total ls init w 0)).
  split; [|split].
  - intros s p Hs. unfold GetCount. rewrite Hs. cbn.
    destruct (reachable_heap w Hr) as [Hp _]. apply Hp in Hs.
    apply lookup_lt_is_Some in Hs as [rs Hrs]. rewrite Hrs. cbn.
    destruct (reachable_count w Hr) as [Hc _]. by rewrite (Hc p rs Hrs).
  - rewrite Ht. unfold wrap32.
    pose proof (Z.mod_pos_bound (Z.of_nat (cnt is_spawn ls) + 2 ^ 31) (2 ^ 32)). lia.
  - intros Hb. rewrite Ht. apply wrap32_id. lia.
Qed.
End main.

(** ** Runs *)

Section runs.
Local Instance string_gob : Gob string := countable_gob.
Local Instance string_var : GobVar string :=
  {| zero_of _ := ""; decode_into := field_into ""; decode_into_zero := field_into_default "" |}.

(** One end, one server with [Raft.Echo], connected and enabled. *)
Definition echo : Method :=
  {| m_Name := "Echo"; m_PkgPath := ""; m_In := [KPtr; KPtr; KPtr]; m_NumOut := 0 |}.
Definition net_setup : list (Label string) :=
  [LAdmin (AMakeEnd (NStr "e")); LAdmin (AMakeServer [MakeService "Raft" [echo]]);
   LAdmin (AAddServer (NInt 1) 0); LAdmin (AConnect (NStr "e") (NInt 1));
   LAdmin (AEnable (NStr "e") true); LCall (NStr "e") "Raft.Echo" "ping" ""].
Definition net_running : list (Label string) :=
  net_setup ++ [LTake 0; LSpawn; LRead 0 0; LDrop 0 0; LDispatch 0].
Definition net_answered : list (Label string) :=
  net_running ++ [LReturn 0 "pong"; LRecv 0; LFinish 0 0 0 0 0; LReply 0].

Definition after (ls : list (Label string)) : Rpc string :=
  default init (run ls init).

Lemma after_reachable ls : reachable (after ls).
Proof.
  unfold after. destruct (run ls init) eqn:E; cbn; [|constructor].
  eapply rpc_run_reachable; [constructor|done].
Qed.

Definition call_phase (ls : list (Label string)) : option (Phase string) :=
  phase <$> (after ls).(calls) !! 0%nat.

Example net_answered_phase : call_phase net_answered = Some (PRet (Some "pong")).
Proof. vm_compute. reflexivity. Qed.


(** A reply variable that is used again: the handler of the second call returns the
    empty string, and the variable keeps the reply of the first. *)
Definition net_reused : list (Label string) :=
  net_answered ++ [LCall (NStr "e") "Raft.Echo" "ping" "pong"; LTake 1; LSpawn; LRead 1 0; LDrop 1 0;
   LDispatch 1; LReturn 1 ""; LRecv 1; LFinish 1 0 0 0 0; LReply 1].

Example stale_reply_kept :
  (phase <$> (after net_reused).(calls) !! 1%nat) = Some (PRet (Some "pong")) /\
  EReturn 1 "" ∈ (after net_reused).(trace).
Proof. split; [vm_compute; reflexivity|]. apply (list_elem_of_lookup_2 _ 3). vm_compute. reflexivity. Qed.

(** The server of the call is deleted and replaced before the call is taken. *)
Definition net_replaced : list (Label string) :=
  net_setup ++ [LAdmin (ADeleteServer (NInt 1))].
Definition to_replacement : list (Label string) :=
  [LAdmin (AMakeServer [MakeService "Raft" [echo]]); LAdmin (AAddServer (NInt 1) 1);
   LTake 0; LSpawn; LRead 0 0; LDrop 0 0; LDispatch 0; LReturn 0 "pong"; LRecv 0;
   LFinish 0 0 0 0 0; LReply 0].

Definition the_call (p : Phase string) (d : option (Disp string)) : CallState string :=
  mkCall {| endname := NStr "e"; svcMeth := "Raft.Echo"; args := encode_all ["ping"] |} "ping" "" p d.

Lemma rpc_deleted_server_silent_witness :
  EStart 0 0 "Raft" "Echo" "ping" ∉ (after (net_replaced ++ to_replacement)).(trace).
Proof.
  apply (rpc_deleted_server_silent 0 (after net_replaced) to_replacement
           (after (net_replaced ++ to_replacement)) 0
           (the_call PSelect None) (the_call (PRet (Some "pong")) (Some DDone)) "pong").
  - apply after_reachable.
  - assert (servers (rn (after net_replaced)) = {[NInt 1 := None]}) as He
      by (vm_compute; reflexivity).
    intros s. unfold server_at. rewrite He.
    destruct (decide (s = NInt 1)) as [->|Hne]; [by rewrite lookup_singleton_eq|].
    by rewrite lookup_singleton_ne.
  - vm_compute. reflexivity.
  - reflexivity.
  - repeat constructor.
  - vm_compute. reflexivity.
  - vm_compute. reflexivity.
  - reflexivity.
Defined.

(** The end is disabled while the request waits; [Call] returns false. *)
Definition net_disabled : list (Label string) :=
  net_setup ++ [LAdmin (AEnable (NStr "e") false)].
Definition to_failure : list (Label string) := [LTake 0; LSpawn; LRead 0 5; LReply 0].

Lemma rpc_disabled_end_silent_witness :
  call_phase (net_disabled ++ to_failure) = Some (PRet None) /\
  evs 0 (after (net_disabled ++ to_failure)).(trace) = [].
Proof.
  split; [vm_compute; reflexivity|].
  destruct (rpc_disabled_end_silent (NStr "e") to_failure (after net_disabled)
    (after (net_disabled ++ to_failure)) 0 (the_call PSelect None) (the_call (PRet None) None))
    as [_ H].
  - apply after_reachable.
  - vm_compute. reflexivity.
  - vm_compute. reflexivity.
  - reflexivity.
  - reflexivity.
  - repeat constructor.
  - vm_compute. reflexivity.
  - vm_compute. reflexivity.
  - exact (H eq_refl).
Defined.

Lemma rpc_call_returns_witness : exists ls w' c' o,
  run ls (after net_setup) = Some w' /\ (length ls <= 10)%nat /\
  Forall (fun lbl => own 0 lbl = true) ls /\ (cnt is_return ls <= 1)%nat /\
  w'.(calls) !! 0%nat = Some c' /\ c'.(phase) = PRet o.
Proof.
  apply (rpc_call_returns (after net_setup) 0 (the_call PSelect None) "pong").
  - apply after_reachable.
  - vm_compute. reflexivity.
  - intros [|p] rs Hp; vm_compute in Hp; [|discriminate Hp].
    injection Hp as <-. eexists. vm_compute. reflexivity.
Defined.

Lemma rpc_counts_witness : GetTotalCount (after net_answered).(rn) = 1 /\
  GetCount (after net_answered).(rn) (NInt 1) = Ret 1.
Proof.
  destruct (rpc_counts net_answered (after net_answered)) as (Hc & _ & Ht);
    [vm_compute; reflexivity|].
  split; [rewrite Ht; vm_compute; reflexivity|].
  rewrite (Hc (NInt 1) 0%nat) by (vm_compute; reflexivity). vm_compute. reflexivity.
Defined.

(** [GetCount] of a server that was deleted panics. *)
Example GetCount_deleted_panics : GetCount (after net_replaced).(rn) (NInt 1) = Panic.
Proof. vm_compute. reflexivity. Qed.

(** A method name without a dot panics in the goroutine of the dispatch. *)
Example no_dot_panics : dispatch "Echo" MakeServer = Panic.
Proof. reflexivity. Qed.
End runs.
