(* ===== verification/ConfigBase.v ===== *)
(** * ConfigBase: what the test configurations share

    The files config.go of src/raft, src/kvraft, src/shardmaster and src/shardkv
    repeat the same helpers: random names ([randstring], over base64), a random
    seed and the shuffling of the handles of a clerk ([random_handles]).  Bytes
    from crypto/rand come from the class [CryptoRand]; the draws of math/rand
    are arguments. *)

From S2P Require Import Prelude Gob.
From Stdlib Require Import Ascii.
Local Open Scope Z_scope.

(** ** Loops: [for _, x := range l { s = f(x, s) }] with panics *)

Fixpoint each {A S} (l : list A) (f : A -> S -> res S) (s : S) : res S :=
  match l with
  | [] => Ret s
  | x :: l => s ← f x s; each l f s
  end.

Lemma each_app {A S} (l1 l2 : list A) (f : A -> S -> res S) s :
  each (l1 ++ l2) f s = s' ← each l1 f s; each l2 f s'.
Proof.
  revert s. induction l1 as [|x l1 IH]; intros s; [done|]. cbn.
  destruct (f x s); cbn; [apply IH|done].
Qed.

(** What every round keeps, the loop keeps; when every round succeeds, so does
    the loop. *)
Lemma each_keeps {A S} (P : S -> Prop) (l : list A) (f : A -> S -> res S) s s' :
  (forall x s s', x ∈ l -> P s -> f x s = Ret s' -> P s') -> P s -> each l f s = Ret s' -> P s'.
Proof.
  revert s. induction l as [|x l IH]; intros s Hf Hs E; cbn in E; [by inv_res|].
  bind_inv E. eapply IH; [|eapply Hf; [constructor|exact Hs|eassumption]|exact E].
  intros y ? ? Hy. apply Hf. by constructor.
Qed.

Lemma each_Ret {A S} (P : S -> Prop) (l : list A) (f : A -> S -> res S) s :
  (forall x s, x ∈ l -> P s -> exists s', f x s = Ret s' /\ P s') -> P s ->
  exists s', each l f s = Ret s' /\ P s'.
Proof.
  revert s. induction l as [|x l IH]; intros s Hf Hs; [by exists s|].
  destruct (Hf x s) as (s1 & E & H1); [constructor|done|]. cbn. rewrite E. cbn.
  apply IH; [|done]. intros y t Hy. apply Hf. by constructor.
Qed.

(** A loop over the indices from [k]. *)
Lemma each_seq {S} (P : nat -> S -> Prop) (k m : nat) (f : Z -> S -> res S) s s' :
  (forall j s s', (k <= j < k + m)%nat -> P j s -> f (Z.of_nat j) s = Ret s' ->
     P (Datatypes.S j) s') ->
  P k s -> each (map Z.of_nat (seq k m)) f s = Ret s' -> P (k + m)%nat s'.
Proof.
  revert k s. induction m as [|m IH]; intros k s Hf Hk E; cbn in E.
  { inv_res. by rewrite Nat.add_0_r. }
  bind_inv E. replace (k + Datatypes.S m)%nat with (Datatypes.S k + m)%nat by lia.
  eapply IH; [|eapply Hf; [|exact Hk|done]; lia|exact E].
  intros j t t' Hj. apply Hf. lia.
Qed.

Lemma each_seq_Ret {S} (P : nat -> S -> Prop) (k m : nat) (f : Z -> S -> res S) s :
  (forall j s, (k <= j < k + m)%nat -> P j s -> exists s', f (Z.of_nat j) s = Ret s' /\
     P (Datatypes.S j) s') ->
  P k s -> exists s', each (map Z.of_nat (seq k m)) f s = Ret s' /\ P (k + m)%nat s'.
Proof.
  revert k s. induction m as [|m IH]; intros k s Hf Hk; cbn.
  { exists s. by rewrite Nat.add_0_r. }
  destruct (Hf k s) as (s1 & -> & H1); [lia|done|]. cbn.
  replace (k + Datatypes.S m)%nat with (Datatypes.S k + m)%nat by lia.
  apply IH; [|done]. intros j t Hj. apply Hf. lia.
Qed.

(** The result of a run that returns: for runs that are evaluated, it is enough to
    evaluate whether they do. *)
Definition value {A} (d : A) (r : res A) : A := match r with Ret a => a | Panic => d end.
Definition returns {A} (r : res A) : bool := match r with Ret _ => true | Panic => false end.

Lemma value_Ret {A} (d : A) r : returns r = true -> r = Ret (value d r).
Proof. by destruct r. Qed.

(** ** base64.URLEncoding *)

Definition alphabet : list ascii :=
  String.list_ascii_of_string "ABCDEFGHIJKLMNOPQRSTUVWXYZabcdefghijklmnopqrstuvwxyz0123456789-_".

Definition digit (n : N) : ascii := nth (N.to_nat (N.land n 63)) alphabet "="%char.

Definition code (b : Byte.byte) : N := Byte.to_N b.

Fixpoint EncodeToString (src : bytes) : list ascii :=
  match src with
  | [] => []
  | [a] => let v := N.shiftl (code a) 16 in
      [digit (N.shiftr v 18); digit (N.shiftr v 12); "="%char; "="%char]
  | [a; b] => let v := N.lor (N.shiftl (code a) 16) (N.shiftl (code b) 8) in
      [digit (N.shiftr v 18); digit (N.shiftr v 12); digit (N.shiftr v 6); "="%char]
  | a :: b :: c :: src =>
      let v := N.lor (N.lor (N.shiftl (code a) 16) (N.shiftl (code b) 8)) (code c) in
      digit (N.shiftr v 18) :: digit (N.shiftr v 12) :: digit (N.shiftr v 6) :: digit v
        :: EncodeToString src
  end.

(** [crand.Read(b)]: the [k]-th read fills the slice. *)
Class CryptoRand := {
  crand_Read : nat -> nat -> bytes;
  crand_Read_length : forall k n, length (crand_Read k n) = n;
}.

(** [randstring(n)], the [k]-th call. *)
Definition randstring `{!CryptoRand} (k : nat) (n : Z) : res string :=
  let b := crand_Read k (Z.to_nat (2 * n)) in
  let s := EncodeToString b in
  cs ← slice s 0 n;
  Ret (String.string_of_list_ascii cs).

(** [makeSeed]: [crand.Int] draws below [2^62], which fits an [int64]. *)
Definition makeSeed (Int : Z -> Z) : Z :=
  let max := Z.shiftl 1 62 in
  let bigx := Int max in
  (bigx + 2 ^ 63) mod 2 ^ 64 - 2 ^ 63.

(** ** Shuffling *)

(** [sa[i], sa[j] = sa[j], sa[i]]. *)
Definition swap {A} (i j : Z) (sa : list A) : res (list A) :=
  x ← idx sa i; y ← idx sa j; sa ← upd sa i y; upd sa j x.

(** [random_handles]: [Intn i] is the draw of [rand.Intn(i + 1)] in round [i]. *)
Definition random_handles {A} (Intn : nat -> Z) (kvh : list A) : res (list A) :=
  each (seq 0 (length kvh)) (fun i sa => swap (Z.of_nat i) (Intn i) sa) kvh.

(** ** Lemmas *)

Lemma length_string_of_list cs : String.length (String.string_of_list_ascii cs) = length cs.
Proof. induction cs as [|c cs IH]; [done|]. cbn. by rewrite IH. Qed.

Lemma EncodeToString_length src :
  (4 * length src <= 3 * length (EncodeToString src))%nat /\
  (3 * length (EncodeToString src) < 4 * length src + 12)%nat.
Proof.
  revert src. fix IH 1. intros [|a [|b [|c src]]]; [cbn; lia..|].
  specialize (IH src). cbn [length EncodeToString] in *. lia.
Qed.

(** [randstring] returns a string of the length it was asked for. *)
Lemma randstring_length `{!CryptoRand} k n :
  0 <= n -> exists s, randstring k n = Ret s /\ String.length s = Z.to_nat n.
Proof.
  intros Hn. unfold randstring.
  pose proof (EncodeToString_length (crand_Read k (Z.to_nat (2 * n)))) as [Hl _].
  rewrite crand_Read_length in Hl.
  rewrite slice_to by (unfold len; lia). cbn. eexists. split; [done|].
  rewrite length_string_of_list. apply length_take_le. lia.
Qed.

Lemma makeSeed_range Int :
  (forall max, 0 < max -> 0 <= Int max < max) -> 0 <= makeSeed Int < 2 ^ 62.
Proof.
  intros HI. unfold makeSeed. change (Z.shiftl 1 62) with (2 ^ 62).
  specialize (HI (2 ^ 62) ltac:(lia)). rewrite Z.mod_small; lia.
Qed.

(** Exchanging two elements permutes a list. *)
Lemma insert_swap_perm {A} (l : list A) i j x y :
  l !! i = Some x -> l !! j = Some y -> <[j := x]> (<[i := y]> l) ≡ₚ l.
Proof.
  intros Hi Hj. apply Permutation_inj. split; [by rewrite !length_insert|].
  exists (fun k => if decide (k = j) then i else if decide (k = i) then j else k). split.
  - intros a b. repeat case_decide; congruence.
  - intros k. apply lookup_lt_Some in Hi as Li, Hj as Lj.
    destruct (decide (k = j)) as [->|Hkj].
    { rewrite list_lookup_insert_eq; [by rewrite Hi|]. by rewrite length_insert. }
    rewrite list_lookup_insert_ne by done. destruct (decide (k = i)) as [->|Hki].
    + by rewrite list_lookup_insert_eq.
    + by rewrite list_lookup_insert_ne.
Qed.

Lemma swap_perm {A} i j (sa : list A) :
  0 <= i < len sa -> 0 <= j < len sa -> exists sa', swap i j sa = Ret sa' /\ sa' ≡ₚ sa.
Proof.
  intros Hi Hj. unfold swap.
  destruct (idx_in_range sa i Hi) as [x Hx], (idx_in_range sa j Hj) as [y Hy].
  rewrite Hx, Hy. cbn. destruct (upd_in_range sa i y Hi) as [s1 H1]. rewrite H1. cbn.
  apply upd_Ret in H1 as [_ ->].
  destruct (upd_in_range (<[Z.to_nat i := y]> sa) j x) as [s2 H2];
    [unfold len in *; by rewrite length_insert|].
  exists s2. split; [done|]. apply upd_Ret in H2 as [_ ->].
  apply idx_Ret in Hx as [_ Hx], Hy as [_ Hy]. by apply insert_swap_perm.
Qed.

(** [random_handles] returns the handles in some order. *)
Lemma random_handles_perm {A} Intn (kvh : list A) :
  (forall i, 0 <= Intn i < Z.of_nat i + 1) ->
  exists sa, random_handles Intn kvh = Ret sa /\ sa ≡ₚ kvh.
Proof.
  intros HI. unfold random_handles. apply each_Ret; [|done].
  intros i sa Hi%elem_of_seq Hp. specialize (HI i).
  assert (len sa = len kvh) as Hl by (unfold len; by rewrite Hp).
  destruct (swap_perm (Z.of_nat i) (Intn i) sa) as (sa' & E & Hs);
    [unfold len in *; lia..|].
  exists sa'. split; [done|]. by rewrite Hs.
Qed.
