(* ===== verification/Raft.v ===== *)
(** * Raft: one peer of src/raft

    The state of a peer ([Raft], src/raft/raft.go), its RPC argument and reply
    types, and one definition per operation: the lock-protected body of a
    method, RPC handler or goroutine is one function on the peer's state.  A
    body that indexes a slice returns [res], so that an out-of-range index is
    the [Panic] it is in Go.

    What runs outside the lock is kept as data of the peer: [goroutines] holds
    the goroutines that the source starts with [go], [loop] the position of
    the select loop of [Make], [voteCount] the counter each call of
    [startElection] shares with its goroutines, [C] of a timer the value that
    is waiting in its channel.  The transition system of Cluster.v runs them.

    Terms and indexes are unbounded integers: a 64-bit counter that grows by
    one per election or command does not wrap in practice.  [log] entries are
    copied wherever the source sends or applies them ([copy], [append] to a
    fresh slice), so no slice is shared between goroutines. *)

From S2P Require Import Prelude Gob.
Local Open Scope Z_scope.

(** ** Data *)

Inductive NodeState := Follower | Candidate | Leader.

Global Instance NodeState_eq_dec : EqDecision NodeState.
Proof. solve_decision. Defined.

(** Durations are nanoseconds. *)
Definition Millisecond : Z := 1000000.
Definition HeartbeatInterval : Z := 120 * Millisecond.
Definition ElectionTimeoutLower : Z := 300 * Millisecond.
Definition ElectionTimeoutUpper : Z := 400 * Millisecond.

(** A [time.Timer]: the pending deadline, and whether its channel [C] (of
    capacity one) holds an expiry that has not been received. *)
Record Timer := { deadline : option Z; C : bool }.

Definition NewTimer (d : Z) : Timer := {| deadline := Some d; C := false |}.
(** [Stop] and [Reset] leave the channel as it is. *)
Definition Stop (t : Timer) : Timer := {| deadline := None; C := t.(C) |}.
Definition ResetTimer (t : Timer) (d : Z) : Timer := {| deadline := Some d; C := t.(C) |}.

(** [math/rand]: the [k]-th draw of [rand.Int63n(n)]. *)
Class Rand := {
  Int63n : nat -> Z -> Z;
  Int63n_range : forall k n, 0 < n -> 0 <= Int63n k n < n;
}.

Definition RandomDuration `{!Rand} (k : nat) (lower upper : Z) : Z :=
  Int63n k (upper - lower) + lower.

(** [Persister] of src/raft/persister.go. *)
Record Persister := { raftstate : bytes; snapshot : bytes }.

Definition MakePersister : Persister := {| raftstate := []; snapshot := [] |}.
Definition Copy (ps : Persister) : Persister :=
  {| raftstate := ps.(raftstate); snapshot := ps.(snapshot) |}.
Definition SaveRaftState (ps : Persister) (st : bytes) : Persister :=
  {| raftstate := st; snapshot := ps.(snapshot) |}.
Definition ReadRaftState (ps : Persister) : bytes := ps.(raftstate).
Definition RaftStateSize (ps : Persister) : Z := len ps.(raftstate).
Definition SaveStateAndSnapshot (ps : Persister) (st sn : bytes) : Persister :=
  {| raftstate := st; snapshot := sn |}.
Definition ReadSnapshot (ps : Persister) : bytes := ps.(snapshot).
Definition SnapshotSize (ps : Persister) : Z := len ps.(snapshot).

Record RequestVoteArgs := {
  rv_Term : Z;
  rv_CandidateId : Z;
  rv_LastLogIndex : Z;
  rv_LastLogTerm : Z;
}.

Record RequestVoteReply := { rvr_Term : Z; rvr_VoteGranted : bool }.

Record AppendEntriesReply := {
  aer_Term : Z;
  aer_Success : bool;
  aer_ConflictTerm : Z;
  aer_ConflictIndex : Z;
}.

Inductive LoopState := LoopSelect | LoopElection | LoopHeartbeat.

Global Instance LoopState_eq_dec : EqDecision LoopState.
Proof. solve_decision. Defined.

Section raft.
Context {Cmd : Type}.

(** [Command] is an [interface{}]: [None] is nil. *)
Record LogEntry := { le_Command : option Cmd; le_Term : Z }.

Record ApplyMsg := {
  CommandValid : bool;
  am_Command : option Cmd;
  CommandIndex : Z;
}.

Record AppendEntriesArgs := {
  ae_Term : Z;
  ae_LeaderId : Z;
  ae_PrevLogIndex : Z;
  ae_PrevLogTerm : Z;
  ae_Entries : list LogEntry;
  ae_LeaderCommit : Z;
}.

(** The goroutines a peer starts, at the points where they can be
    interrupted by another lock holder. *)
Inductive Goroutine :=
| GoVote (server : nat) (args : RequestVoteArgs)
    (* startElection: about to call sendRequestVote *)
| GoHeartbeat (server : nat)
    (* broadcastHeartbeat: before the first lock *)
| GoApply (startIdx : Z) (entries : list LogEntry)
    (* setCommitIndex: about to send the first entry on applyCh *)
| GoApplied (startIdx : Z) (entries : list LogEntry)
    (* setCommitIndex: sent the first entry, about to record it *)
| GoStart (command : option Cmd) (term : Z).
    (* Start: GetState has answered (term, true), before the second lock *)

Record Raft := mkRaft {
  me : Z;  (* rf.me *)
  peers : nat;  (* len(rf.peers); end [i] reaches server [i] *)
  persister : Persister;  (* rf.persister *)
  currentTerm : Z;
  votedFor : Z;
  electionTimer : Timer;
  heartbeatTimer : Timer;
  state : NodeState;
  logs : list LogEntry;
  commitIndex : Z;
  lastApplied : Z;
  nextIndex : list Z;
  matchIndex : list Z;
  loop : LoopState;  (* where the select loop of [Make] is *)
  goroutines : list Goroutine;  (* goroutines started and not finished *)
  voteCount : gmap Z Z;  (* the [voteCount] of each call of [startElection], by term *)
  draws : nat;  (* draws from math/rand so far *)
}.

Definition set_persister (v : Persister) (rf : Raft) : Raft :=
  mkRaft rf.(me) rf.(peers) v rf.(currentTerm) rf.(votedFor) rf.(electionTimer)
    rf.(heartbeatTimer) rf.(state) rf.(logs) rf.(commitIndex) rf.(lastApplied) rf.(nextIndex)
    rf.(matchIndex) rf.(loop) rf.(goroutines) rf.(voteCount) rf.(draws).
Definition set_currentTerm (v : Z) (rf : Raft) : Raft :=
  mkRaft rf.(me) rf.(peers) rf.(persister) v rf.(votedFor) rf.(electionTimer)
    rf.(heartbeatTimer) rf.(state) rf.(logs) rf.(commitIndex) rf.(lastApplied) rf.(nextIndex)
    rf.(matchIndex) rf.(loop) rf.(goroutines) rf.(voteCount) rf.(draws).
Definition set_votedFor (v : Z) (rf : Raft) : Raft :=
  mkRaft rf.(me) rf.(peers) rf.(persister) rf.(currentTerm) v rf.(electionTimer)
    rf.(heartbeatTimer) rf.(state) rf.(logs) rf.(commitIndex) rf.(lastApplied) rf.(nextIndex)
    rf.(matchIndex) rf.(loop) rf.(goroutines) rf.(voteCount) rf.(draws).
Definition set_electionTimer (v : Timer) (rf : Raft) : Raft :=
  mkRaft rf.(me) rf.(peers) rf.(persister) rf.(currentTerm) rf.(votedFor) v
    rf.(heartbeatTimer) rf.(state) rf.(logs) rf.(commitIndex) rf.(lastApplied) rf.(nextIndex)
    rf.(matchIndex) rf.(loop) rf.(goroutines) rf.(voteCount) rf.(draws).
Definition set_heartbeatTimer (v : Timer) (rf : Raft) : Raft :=
  mkRaft rf.(me) rf.(peers) rf.(persister) rf.(currentTerm) rf.(votedFor) rf.(electionTimer)
    v rf.(state) rf.(logs) rf.(commitIndex) rf.(lastApplied) rf.(nextIndex)
    rf.(matchIndex) rf.(loop) rf.(goroutines) rf.(voteCount) rf.(draws).
Definition set_state (v : NodeState) (rf : Raft) : Raft :=
  mkRaft rf.(me) rf.(peers) rf.(persister) rf.(currentTerm) rf.(votedFor) rf.(electionTimer)
    rf.(heartbeatTimer) v rf.(logs) rf.(commitIndex) rf.(lastApplied) rf.(nextIndex)
    rf.(matchIndex) rf.(loop) rf.(goroutines) rf.(voteCount) rf.(draws).
Definition set_logs (v : list LogEntry) (rf : Raft) : Raft :=
  mkRaft rf.(me) rf.(peers) rf.(persister) rf.(currentTerm) rf.(votedFor) rf.(electionTimer)
    rf.(heartbeatTimer) rf.(state) v rf.(commitIndex) rf.(lastApplied) rf.(nextIndex)
    rf.(matchIndex) rf.(loop) rf.(goroutines) rf.(voteCount) rf.(draws).
Definition set_commitIndex (v : Z) (rf : Raft) : Raft :=
  mkRaft rf.(me) rf.(peers) rf.(persister) rf.(currentTerm) rf.(votedFor) rf.(electionTimer)
    rf.(heartbeatTimer) rf.(state) rf.(logs) v rf.(lastApplied) rf.(nextIndex)
    rf.(matchIndex) rf.(loop) rf.(goroutines) rf.(voteCount) rf.(draws).
Definition set_lastApplied (v : Z) (rf : Raft) : Raft :=
  mkRaft rf.(me) rf.(peers) rf.(persister) rf.(currentTerm) rf.(votedFor) rf.(electionTimer)
    rf.(heartbeatTimer) rf.(state) rf.(logs) rf.(commitIndex) v rf.(nextIndex)
    rf.(matchIndex) rf.(loop) rf.(goroutines) rf.(voteCount) rf.(draws).
Definition set_nextIndex (v : list Z) (rf : Raft) : Raft :=
  mkRaft rf.(me) rf.(peers) rf.(persister) rf.(currentTerm) rf.(votedFor) rf.(electionTimer)
    rf.(heartbeatTimer) rf.(state) rf.(logs) rf.(commitIndex) rf.(lastApplied) v
    rf.(matchIndex) rf.(loop) rf.(goroutines) rf.(voteCount) rf.(draws).
Definition set_matchIndex (v : list Z) (rf : Raft) : Raft :=
  mkRaft rf.(me) rf.(peers) rf.(persister) rf.(currentTerm) rf.(votedFor) rf.(electionTimer)
    rf.(heartbeatTimer) rf.(state) rf.(logs) rf.(commitIndex) rf.(lastApplied) rf.(nextIndex)
    v rf.(loop) rf.(goroutines) rf.(voteCount) rf.(draws).
Definition set_loop (v : LoopState) (rf : Raft) : Raft :=
  mkRaft rf.(me) rf.(peers) rf.(persister) rf.(currentTerm) rf.(votedFor) rf.(electionTimer)
    rf.(heartbeatTimer) rf.(state) rf.(logs) rf.(commitIndex) rf.(lastApplied) rf.(nextIndex)
    rf.(matchIndex) v rf.(goroutines) rf.(voteCount) rf.(draws).
Definition set_goroutines (v : list Goroutine) (rf : Raft) : Raft :=
  mkRaft rf.(me) rf.(peers) rf.(persister) rf.(currentTerm) rf.(votedFor) rf.(electionTimer)
    rf.(heartbeatTimer) rf.(state) rf.(logs) rf.(commitIndex) rf.(lastApplied) rf.(nextIndex)
    rf.(matchIndex) rf.(loop) v rf.(voteCount) rf.(draws).
Definition set_voteCount (v : gmap Z Z) (rf : Raft) : Raft :=
  mkRaft rf.(me) rf.(peers) rf.(persister) rf.(currentTerm) rf.(votedFor) rf.(electionTimer)
    rf.(heartbeatTimer) rf.(state) rf.(logs) rf.(commitIndex) rf.(lastApplied) rf.(nextIndex)
    rf.(matchIndex) rf.(loop) rf.(goroutines) v rf.(draws).
Definition set_draws (v : nat) (rf : Raft) : Raft :=
  mkRaft rf.(me) rf.(peers) rf.(persister) rf.(currentTerm) rf.(votedFor) rf.(electionTimer)
    rf.(heartbeatTimer) rf.(state) rf.(logs) rf.(commitIndex) rf.(lastApplied) rf.(nextIndex)
    rf.(matchIndex) rf.(loop) rf.(goroutines) rf.(voteCount) v.

Definition spawn (g : Goroutine) (rf : Raft) : Raft :=
  set_goroutines (rf.(goroutines) ++ [g]) rf.

(** The values [persist] writes. *)
Inductive PVal := PInt (z : Z) | PLogs (l : list LogEntry).

Context `{!Gob PVal} `{!Rand}.

(** [ResetTimer(rf.electionTimer, RandomDuration(lower, upper))]. *)
Definition resetElectionTimer (rf : Raft) : Raft :=
  set_draws (S rf.(draws))
    (set_electionTimer
       (ResetTimer rf.(electionTimer)
          (RandomDuration rf.(draws) ElectionTimeoutLower ElectionTimeoutUpper)) rf).

(** ** Persistence (src/raft/raft_snapshot.go) *)

Definition persist (rf : Raft) : Raft :=
  set_persister
    (SaveRaftState rf.(persister)
       (encode_all [PInt rf.(currentTerm); PInt rf.(votedFor); PLogs rf.(logs)])) rf.

(** [d.Decode(&x)] into an [int] and into a [[]LogEntry]: a value of another
    kind is an error. *)
Definition DecodeInt (d : dec_state) (bs : bytes) : option (dec_state * Z * bytes) :=
  match Decode d bs with
  | Some (d', PInt z, r) => Some (d', z, r)
  | _ => None
  end.

Definition DecodeLogs (d : dec_state) (bs : bytes) : option (dec_state * list LogEntry * bytes) :=
  match Decode d bs with
  | Some (d', PLogs l, r) => Some (d', l, r)
  | _ => None
  end.

Definition decodeState (data : bytes) : option (Z * Z * list LogEntry) :=
  '(d, t, r) ← DecodeInt NewDecoder data;
  '(d, v, r) ← DecodeInt d r;
  '(_, l, _) ← DecodeLogs d r;
  Some (t, v, l).

Definition readPersist (rf : Raft) (data : bytes) : Raft :=
  match data with
  | [] => rf
  | _ =>
      match decodeState data with
      | None => rf
      | Some (t, v, l) => set_logs l (set_votedFor v (set_currentTerm t rf))
      end
  end.

(** ** Leader election (src/raft/raft_leader_election.go) *)

Definition addVote (term : Z) (rf : Raft) : Raft :=
  set_voteCount
    (<[term := default 0 (rf.(voteCount) !! term) + 1]> rf.(voteCount)) rf.

(** One iteration of the loop over the peers. *)
Definition startElection_peer (args : RequestVoteArgs) (rf : Raft) (peer : nat) : Raft :=
  if Z.of_nat peer =? rf.(me)
  then addVote args.(rv_Term) (set_votedFor rf.(me) rf)
  else spawn (GoVote peer args) rf.

Definition startElection (rf : Raft) : res Raft :=
  let rf := set_currentTerm (rf.(currentTerm) + 1) rf in
  let rf := resetElectionTimer rf in
  let lastLogIndex := len rf.(logs) - 1 in
  e ← idx rf.(logs) lastLogIndex;
  let args := {| rv_Term := rf.(currentTerm);
                 rv_CandidateId := rf.(me);
                 rv_LastLogIndex := lastLogIndex;
                 rv_LastLogTerm := e.(le_Term) |} in
  let rf := set_voteCount (<[args.(rv_Term) := 0]> rf.(voteCount)) rf in
  let rf := foldl (startElection_peer args) rf (seq 0 rf.(peers)) in
  Ret (persist rf).

(** [broadcastHeartbeat] starts one goroutine per other peer. *)
Definition broadcastHeartbeat_peer (rf : Raft) (peer : nat) : Raft :=
  if Z.of_nat peer =? rf.(me) then rf else spawn (GoHeartbeat peer) rf.

Definition broadcastHeartbeat (rf : Raft) : Raft :=
  foldl broadcastHeartbeat_peer rf (seq 0 rf.(peers)).

Definition convertTo (s : NodeState) (rf : Raft) : res Raft :=
  if decide (s = rf.(state)) then Ret rf
  else
    let rf := set_state s rf in
    match s with
    | Follower =>
        let rf := set_heartbeatTimer (Stop rf.(heartbeatTimer)) rf in
        let rf := resetElectionTimer rf in
        Ret (set_votedFor (-1) rf)
    | Candidate => startElection rf
    | Leader =>
        let rf := set_nextIndex (map (fun _ => len rf.(logs)) rf.(nextIndex)) rf in
        let rf := set_matchIndex (map (fun _ => 0) rf.(matchIndex)) rf in
        let rf := set_electionTimer (Stop rf.(electionTimer)) rf in
        let rf := broadcastHeartbeat rf in
        Ret (set_heartbeatTimer (ResetTimer rf.(heartbeatTimer) HeartbeatInterval) rf)
    end.

(** The body of [RequestVote] up to its deferred [persist]. *)
Definition RequestVote_body (rf : Raft) (args : RequestVoteArgs)
    : res (Raft * RequestVoteReply) :=
  if (args.(rv_Term) <? rf.(currentTerm))
     || ((args.(rv_Term) =? rf.(currentTerm)) && negb (rf.(votedFor) =? -1)
         && negb (rf.(votedFor) =? args.(rv_CandidateId)))
  then Ret (rf, {| rvr_Term := rf.(currentTerm); rvr_VoteGranted := false |})
  else
    rf ← (if rf.(currentTerm) <? args.(rv_Term)
          then convertTo Follower (set_currentTerm args.(rv_Term) rf)
          else Ret rf);
    let lastLogIndex := len rf.(logs) - 1 in
    e ← idx rf.(logs) lastLogIndex;
    if (args.(rv_LastLogTerm) <? e.(le_Term))
       || ((args.(rv_LastLogTerm) =? e.(le_Term)) && (args.(rv_LastLogIndex) <? lastLogIndex))
    then Ret (rf, {| rvr_Term := rf.(currentTerm); rvr_VoteGranted := false |})
    else
      let rf := set_votedFor args.(rv_CandidateId) rf in
      let reply := {| rvr_Term := rf.(currentTerm); rvr_VoteGranted := true |} in
      Ret (resetElectionTimer rf, reply).

Definition RequestVote (rf : Raft) (args : RequestVoteArgs) : res (Raft * RequestVoteReply) :=
  '(rf, reply) ← RequestVote_body rf args;
  Ret (persist rf, reply).

(** The goroutine of [startElection] when [sendRequestVote] returned true. *)
Definition startElection_reply (rf : Raft) (args : RequestVoteArgs) (reply : RequestVoteReply)
    : res Raft :=
  if reply.(rvr_VoteGranted) && bool_decide (rf.(state) = Candidate)
  then
    let rf := addVote args.(rv_Term) rf in
    if Z.of_nat (rf.(peers) / 2) <? default 0 (rf.(voteCount) !! args.(rv_Term))
    then convertTo Leader rf
    else Ret rf
  else
    if rf.(currentTerm) <? reply.(rvr_Term)
    then
      rf ← convertTo Follower (set_currentTerm reply.(rvr_Term) rf);
      Ret (persist rf)
    else Ret rf.

(** ** Log replication (src/raft/raft_log_replication.go) *)

Definition setCommitIndex (rf : Raft) (ci : Z) : res Raft :=
  let rf := set_commitIndex ci rf in
  if rf.(lastApplied) <? rf.(commitIndex)
  then
    entriesToApply ← slice rf.(logs) (rf.(lastApplied) + 1) (rf.(commitIndex) + 1);
    Ret (spawn (GoApply (rf.(lastApplied) + 1) entriesToApply) rf)
  else Ret rf.

(** [for rf.logs[conflictIndex-1].Term == ConflictTerm { conflictIndex-- }]. *)
Fixpoint findConflict (logs : list LogEntry) (conflictTerm : Z) (conflictIndex : nat) : res Z :=
  match conflictIndex with
  | O => Panic
  | S k =>
      e ← res_of_option (logs !! k);
      if e.(le_Term) =? conflictTerm
      then findConflict logs conflictTerm k
      else Ret (Z.of_nat (S k))
  end.

(** The loop that looks for the first entry that does not match: its index in
    [entries], or -1. *)
Fixpoint findUnmatch (logs : list LogEntry) (prevLogIndex : Z) (i : Z)
    (entries : list LogEntry) : res Z :=
  match entries with
  | [] => Ret (-1)
  | e :: entries =>
      if len logs - 1 <? prevLogIndex + 1 + i then Ret i
      else
        e' ← idx logs (prevLogIndex + 1 + i);
        if negb (e'.(le_Term) =? e.(le_Term)) then Ret i
        else findUnmatch logs prevLogIndex (i + 1) entries
  end.

(** The body of [AppendEntries] up to its deferred [persist]. *)
Definition AppendEntries_body (rf : Raft) (args : AppendEntriesArgs)
    : res (Raft * AppendEntriesReply) :=
  if args.(ae_Term) <? rf.(currentTerm)
  then Ret (rf, {| aer_Term := rf.(currentTerm); aer_Success := false;
                   aer_ConflictTerm := 0; aer_ConflictIndex := 0 |})
  else
    rf ← (if rf.(currentTerm) <? args.(ae_Term)
          then convertTo Follower (set_currentTerm args.(ae_Term) rf)
          else Ret rf);
    let rf := resetElectionTimer rf in
    let absoluteLastLogIndex := len rf.(logs) - 1 in
    if absoluteLastLogIndex <? args.(ae_PrevLogIndex)
    then Ret (rf, {| aer_Term := rf.(currentTerm); aer_Success := false;
                     aer_ConflictTerm := -1;
                     aer_ConflictIndex := absoluteLastLogIndex + 1 |})
    else
      prev ← idx rf.(logs) args.(ae_PrevLogIndex);
      if negb (prev.(le_Term) =? args.(ae_PrevLogTerm))
      then
        conflictIndex ← findConflict rf.(logs) prev.(le_Term) (Z.to_nat args.(ae_PrevLogIndex));
        Ret (rf, {| aer_Term := rf.(currentTerm); aer_Success := false;
                    aer_ConflictTerm := prev.(le_Term);
                    aer_ConflictIndex := conflictIndex |})
      else
        unmatch_idx ← findUnmatch rf.(logs) args.(ae_PrevLogIndex) 0 args.(ae_Entries);
        rf ← (if negb (unmatch_idx =? -1)
              then
                l ← slice rf.(logs) 0 (args.(ae_PrevLogIndex) + 1 + unmatch_idx);
                es ← slice args.(ae_Entries) unmatch_idx (len args.(ae_Entries));
                Ret (set_logs (l ++ es) rf)
              else Ret rf);
        rf ← (if rf.(commitIndex) <? args.(ae_LeaderCommit)
              then
                let lastLogIndex := len rf.(logs) - 1 in
                if args.(ae_LeaderCommit) <=? lastLogIndex
                then setCommitIndex rf args.(ae_LeaderCommit)
                else setCommitIndex rf lastLogIndex
              else Ret rf);
        Ret (rf, {| aer_Term := 0; aer_Success := true;
                    aer_ConflictTerm := 0; aer_ConflictIndex := 0 |}).

Definition AppendEntries (rf : Raft) (args : AppendEntriesArgs)
    : res (Raft * AppendEntriesReply) :=
  '(rf, reply) ← AppendEntries_body rf args;
  Ret (persist rf, reply).

(** The goroutine of [broadcastHeartbeat] up to the RPC: the arguments to
    send, or [None] when the peer is no longer the leader. *)
Definition broadcastHeartbeat_send (rf : Raft) (server : nat) : res (option AppendEntriesArgs) :=
  if negb (bool_decide (rf.(state) = Leader)) then Ret None
  else
    next ← idx rf.(nextIndex) (Z.of_nat server);
    let prevLogIndex := next - 1 in
    entries ← slice rf.(logs) (prevLogIndex + 1) (len rf.(logs));
    prev ← idx rf.(logs) prevLogIndex;
    Ret (Some {| ae_Term := rf.(currentTerm);
                 ae_LeaderId := rf.(me);
                 ae_PrevLogIndex := prevLogIndex;
                 ae_PrevLogTerm := prev.(le_Term);
                 ae_Entries := entries;
                 ae_LeaderCommit := rf.(commitIndex) |}).

(** [count] of the commit loop: the peers known to hold index [i]. *)
Definition matchCount (matchIndex : list Z) (i : Z) : Z :=
  len (filter (fun m => i <= m) matchIndex).

(** The commit loop, [i] from [len(rf.logs)-1] down to [commitIndex+1]. *)
Fixpoint commitScan (fuel : nat) (rf : Raft) (i : Z) : res Raft :=
  match fuel with
  | O => Ret rf
  | S fuel =>
      if rf.(commitIndex) <? i
      then
        if Z.of_nat (rf.(peers) / 2) <? matchCount rf.(matchIndex) i
        then setCommitIndex rf i
        else commitScan fuel rf (i - 1)
      else Ret rf
  end.

(** The loop that looks for [ConflictTerm] in the leader's log, [i] from
    [args.PrevLogIndex] down to 1. *)
Fixpoint conflictScan (fuel : nat) (rf : Raft) (server : nat) (conflictTerm : Z) (i : Z)
    : res Raft :=
  match fuel with
  | O => Ret rf
  | S fuel =>
      e ← idx rf.(logs) (i - 1);
      if e.(le_Term) =? conflictTerm
      then
        ni ← upd rf.(nextIndex) (Z.of_nat server) i;
        Ret (set_nextIndex ni rf)
      else conflictScan fuel rf server conflictTerm (i - 1)
  end.

(** The goroutine of [broadcastHeartbeat] when [sendAppendEntries] returned
    true. *)
Definition broadcastHeartbeat_reply (rf : Raft) (server : nat)
    (args : AppendEntriesArgs) (reply : AppendEntriesReply) : res Raft :=
  if reply.(aer_Success)
  then
    let m := args.(ae_PrevLogIndex) + len args.(ae_Entries) in
    mi ← upd rf.(matchIndex) (Z.of_nat server) m;
    ni ← upd rf.(nextIndex) (Z.of_nat server) (m + 1);
    let rf := set_nextIndex ni (set_matchIndex mi rf) in
    let i := len rf.(logs) - 1 in
    commitScan (Z.to_nat (i - rf.(commitIndex))) rf i
  else if rf.(currentTerm) <? reply.(aer_Term)
  then
    rf ← convertTo Follower (set_currentTerm reply.(aer_Term) rf);
    Ret (persist rf)
  else
    ni ← upd rf.(nextIndex) (Z.of_nat server) reply.(aer_ConflictIndex);
    let rf := set_nextIndex ni rf in
    if negb (reply.(aer_ConflictTerm) =? -1)
    then conflictScan (Z.to_nat args.(ae_PrevLogIndex)) rf server
           reply.(aer_ConflictTerm) args.(ae_PrevLogIndex)
    else Ret rf.

(** The goroutine of [setCommitIndex]: the message it sends next, and what it
    does with the lock once the message has been received. *)
Definition apply_msg (startIdx : Z) (entry : LogEntry) : ApplyMsg :=
  {| CommandValid := true; am_Command := entry.(le_Command); CommandIndex := startIdx |}.

Definition apply_done (rf : Raft) (commandIndex : Z) : Raft :=
  set_lastApplied commandIndex rf.

(** ** The interface of a peer (src/raft/raft.go) *)

Definition GetState (rf : Raft) : Z * bool :=
  (rf.(currentTerm), bool_decide (rf.(state) = Leader)).

(** The second critical section of [Start]. *)
Definition Start_append (rf : Raft) (command : option Cmd) (term : Z) : res (Raft * Z) :=
  let index := len rf.(logs) in
  let rf := set_logs (rf.(logs) ++ [{| le_Command := command; le_Term := term |}]) rf in
  mi ← upd rf.(matchIndex) rf.(me) index;
  let rf := set_matchIndex mi rf in
  ni ← upd rf.(nextIndex) rf.(me) (index + 1);
  let rf := set_nextIndex ni rf in
  Ret (persist rf, index).

(** [Start] when no other lock holder comes between its two critical
    sections; Cluster.v runs the two separately. *)
Definition Start (rf : Raft) (command : option Cmd) : res (Raft * (Z * Z * bool)) :=
  let '(term, isLeader) := GetState rf in
  if isLeader
  then
    '(rf, index) ← Start_append rf command term;
    Ret (rf, (index, term, isLeader))
  else Ret (rf, (-1, term, isLeader)).

(** [Kill] does nothing. *)
Definition Kill (rf : Raft) : Raft := rf.

(** [make([]LogEntry, 1)]: one zero entry. *)
Definition zeroEntry : LogEntry := {| le_Command := None; le_Term := 0 |}.

Definition Make (npeers : nat) (me : Z) (ps : Persister) : Raft :=
  let rf :=
    {| me := me; peers := npeers; persister := ps;
       currentTerm := 0; votedFor := -1;
       electionTimer :=
         NewTimer (RandomDuration 0 ElectionTimeoutLower ElectionTimeoutUpper);
       heartbeatTimer := NewTimer HeartbeatInterval;
       state := Follower;
       logs := [zeroEntry]; commitIndex := 0; lastApplied := 0;
       nextIndex := replicate npeers (len [zeroEntry]);
       matchIndex := replicate npeers 0;
       loop := LoopSelect; goroutines := []; voteCount := ∅; draws := 1 |} in
  readPersist rf (ReadRaftState ps).

(** The two cases of the select loop of [Make], with the lock held. *)
Definition onElectionTimer (rf : Raft) : res Raft :=
  let rf := resetElectionTimer rf in
  if decide (rf.(state) = Follower) then convertTo Candidate rf else startElection rf.

Definition onHeartbeatTimer (rf : Raft) : Raft :=
  if decide (rf.(state) = Leader)
  then
    let rf := broadcastHeartbeat rf in
    set_heartbeatTimer (ResetTimer rf.(heartbeatTimer) HeartbeatInterval) rf
  else rf.

End raft.

Arguments LogEntry : clear implicits.
Arguments ApplyMsg : clear implicits.
Arguments AppendEntriesArgs : clear implicits.
Arguments Goroutine : clear implicits.
Arguments Raft : clear implicits.
Arguments PVal : clear implicits.
