(* ===== verification/RaftFacts.v ===== *)
(** * RaftFacts: what the operations of a peer do

    The well-formedness of a peer and, for every operation of Raft.v, the
    lemmas that the handler theorems and the cluster invariants use: what the
    operation leaves unchanged, what it starts, and that it does not panic on
    a well-formed peer. *)

From S2P Require Import Prelude Gob Raft.
Local Open Scope Z_scope.

Section facts.
Context {Cmd : Type} `{!Gob (PVal Cmd)} `{!Rand}.
Implicit Types (rf : Raft Cmd) (l : list (LogEntry Cmd)).

(** ** Well-formed logs and peers *)

(** Index 0 holds the zero entry of [Make]; every other entry was created by a
    leader, whose term is at least 1. *)
Definition log_wf l : Prop :=
  exists rest, l = zeroEntry :: rest /\ Forall (fun e => 1 <= e.(le_Term)) rest.

Record raft_wf rf : Prop := {
  wf_me : 0 <= rf.(me) < Z.of_nat rf.(peers);
  wf_next : length rf.(nextIndex) = rf.(peers);
  wf_match : length rf.(matchIndex) = rf.(peers);
  wf_term : 0 <= rf.(currentTerm);
  wf_log : log_wf rf.(logs);
  wf_commit : 0 <= rf.(commitIndex);
  wf_applied : 0 <= rf.(lastApplied);
}.

(** Arguments as [broadcastHeartbeat] builds them from a well-formed log. *)
Record args_wf (args : AppendEntriesArgs Cmd) : Prop := {
  aw_prev : 0 <= args.(ae_PrevLogIndex);
  aw_zero : args.(ae_PrevLogIndex) = 0 -> args.(ae_PrevLogTerm) = 0;
  aw_entries : Forall (fun e => 1 <= e.(le_Term)) args.(ae_Entries);
  aw_term : 0 <= args.(ae_Term);
}.

Lemma log_wf_zero : log_wf [zeroEntry].
Proof. exists []. split; [reflexivity|constructor]. Qed.

Lemma log_wf_len l : log_wf l -> 1 <= len l.
Proof. intros (r & -> & _). unfold len. cbn. lia. Qed.

Lemma log_wf_head l : log_wf l -> l !! 0%nat = Some zeroEntry.
Proof. by intros (r & -> & _). Qed.

Lemma log_wf_term l k e : log_wf l -> l !! S k = Some e -> 1 <= e.(le_Term).
Proof. intros (r & -> & Hr) He. cbn in He. exact (Forall_lookup_1 _ _ _ _ Hr He). Qed.

Lemma log_wf_term_nonneg l k e : log_wf l -> l !! k = Some e -> 0 <= e.(le_Term).
Proof.
  intros Hw He. destruct k.
  - rewrite log_wf_head in He by done. simplify_eq. cbn. lia.
  - apply (log_wf_term l k e) in He; [lia|done].
Qed.

Lemma log_wf_app l es :
  log_wf l -> Forall (fun e => 1 <= e.(le_Term)) es -> log_wf (l ++ es).
Proof.
  intros (r & -> & Hr) Hes. exists (r ++ es). split; [done|].
  by apply Forall_app.
Qed.

Lemma log_wf_take l k : log_wf l -> (0 < k)%nat -> log_wf (take k l).
Proof.
  intros (r & -> & Hr) Hk. destruct k as [|k]; [lia|]. exists (take k r).
  split; [done|]. by apply Forall_take.
Qed.

Lemma log_wf_last l : log_wf l -> exists e, idx l (len l - 1) = Ret e /\ 0 <= e.(le_Term).
Proof.
  intros Hw. pose proof (log_wf_len l Hw).
  destruct (idx_in_range l (len l - 1)) as [e He]; [lia|].
  exists e. split; [done|]. apply idx_Ret in He as [_ He].
  by eapply log_wf_term_nonneg.
Qed.

(** ** Goroutines started by the loops over the peers *)

Definition others rf : list nat :=
  filter (fun p => Z.of_nat p <> rf.(me)) (seq 0 rf.(peers)).

Lemma spawn_all_eq rf (f : nat -> Goroutine Cmd) (ps : list nat) :
  foldl (fun rf p => if Z.of_nat p =? rf.(me) then rf else spawn (f p) rf) rf ps
  = set_goroutines
      (rf.(goroutines) ++ map f (filter (fun p => Z.of_nat p <> rf.(me)) ps)) rf.
Proof.
  revert rf. induction ps as [|p ps IH]; intros rf; cbn [foldl].
  - cbn. rewrite app_nil_r. by destruct rf.
  - rewrite IH. rewrite filter_cons. destruct (Z.eqb_spec (Z.of_nat p) rf.(me)).
    + rewrite decide_False by naive_solver. done.
    + rewrite decide_True by done. unfold spawn, set_goroutines. cbn.
      by rewrite <- app_assoc.
Qed.

Lemma broadcastHeartbeat_eq rf :
  broadcastHeartbeat rf
  = set_goroutines (rf.(goroutines) ++ map GoHeartbeat (others rf)) rf.
Proof. apply spawn_all_eq. Qed.

Lemma elem_of_others rf p :
  p ∈ others rf <-> (p < rf.(peers))%nat /\ Z.of_nat p <> rf.(me).
Proof.
  unfold others. rewrite list_elem_of_filter, elem_of_seq. split; intros [? ?]; split; lia || done.
Qed.

Lemma NoDup_others rf : NoDup (others rf).
Proof. apply NoDup_filter, NoDup_seq. Qed.

(** The loop of [startElection]: a vote for itself, a goroutine for every
    other peer. *)
Lemma startElection_loop args rf ps :
  NoDup ps ->
  foldl (startElection_peer args) rf ps
  = set_goroutines
      (rf.(goroutines) ++ map (fun p => GoVote p args)
                            (filter (fun p => Z.of_nat p <> rf.(me)) ps))
      (if decide (Exists (fun p => Z.of_nat p = rf.(me)) ps)
       then addVote args.(rv_Term) (set_votedFor rf.(me) rf) else rf).
Proof.
  revert rf. induction ps as [|p ps IH]; intros rf Hnd; cbn [foldl].
  - cbn. rewrite app_nil_r. by destruct rf.
  - inversion Hnd as [|? ? Hp Hnd']; subst. rewrite IH by done. rewrite filter_cons.
    unfold startElection_peer. destruct (Z.eqb_spec (Z.of_nat p) rf.(me)) as [Heq|Hne].
    + rewrite (decide_False (P := Z.of_nat p <> _)) by naive_solver.
      rewrite (decide_True (P := Exists _ (p :: ps))) by (by constructor).
      rewrite (decide_False (P := Exists _ ps)); [reflexivity|].
      intros (q & Hq & Hq')%Exists_exists. cbn in Hq'.
      assert (p = q) as -> by lia. by apply Hp.
    + rewrite (decide_True (P := Z.of_nat p <> _)) by done. cbn.
      destruct (decide (Exists _ ps)) as [Hex|Hex];
        [rewrite decide_True by (by constructor)
        |rewrite decide_False by (intros [?|?]%Exists_cons; done)];
        unfold spawn, addVote, set_goroutines, set_voteCount, set_votedFor; cbn;
        by rewrite <- app_assoc.
Qed.

(** ** Election of a well-formed peer *)

Definition vote_args rf (e : LogEntry Cmd) : RequestVoteArgs :=
  {| rv_Term := rf.(currentTerm) + 1; rv_CandidateId := rf.(me);
     rv_LastLogIndex := len rf.(logs) - 1; rv_LastLogTerm := e.(le_Term) |}.

(** The peer after [startElection]. *)
Definition elected rf (e : LogEntry Cmd) : Raft Cmd :=
  let args := vote_args rf e in
  let rf1 := resetElectionTimer (set_currentTerm (rf.(currentTerm) + 1) rf) in
  persist
    (set_goroutines (rf.(goroutines) ++ map (fun p => GoVote p args) (others rf))
       (set_voteCount (<[rf.(currentTerm) + 1 := 1]> rf.(voteCount))
          (set_votedFor rf.(me) rf1))).

Lemma startElection_eq rf e :
  0 <= rf.(me) < Z.of_nat rf.(peers) ->
  idx rf.(logs) (len rf.(logs) - 1) = Ret e ->
  startElection rf = Ret (elected rf e).
Proof.
  intros Hme He. unfold startElection. cbn. rewrite He. cbn.
  rewrite startElection_loop by apply NoDup_seq. cbn.
  rewrite decide_True.
  2:{ apply Exists_exists. exists (Z.to_nat rf.(me)). rewrite elem_of_seq. split; lia. }
  unfold elected, addVote. cbn. rewrite lookup_insert_eq. cbn.
  by rewrite insert_insert_eq.
Qed.

(** ** Stepping down *)

Definition toFollower rf : Raft Cmd :=
  if decide (Follower = rf.(state)) then rf
  else set_votedFor (-1)
         (resetElectionTimer
            (set_heartbeatTimer (Stop rf.(heartbeatTimer)) (set_state Follower rf))).

Lemma convertTo_Follower rf : convertTo Follower rf = Ret (toFollower rf).
Proof. unfold convertTo, toFollower. by case_decide. Qed.

(** The prologue shared by both RPC handlers: adopt a higher term. *)
Definition adopt (t : Z) rf : Raft Cmd :=
  if rf.(currentTerm) <? t then toFollower (set_currentTerm t rf) else rf.

Lemma adopt_eq t rf :
  (if rf.(currentTerm) <? t
   then convertTo Follower (set_currentTerm t rf) else Ret rf) = Ret (adopt t rf).
Proof. unfold adopt. case_if; [apply convertTo_Follower|done]. Qed.

(** What [adopt] keeps, and what it does to the term, the vote and the state. *)
Lemma adopt_frame t rf :
  let rf' := adopt t rf in
  rf'.(me) = rf.(me) /\ rf'.(peers) = rf.(peers) /\ rf'.(logs) = rf.(logs) /\
  rf'.(commitIndex) = rf.(commitIndex) /\ rf'.(lastApplied) = rf.(lastApplied) /\
  rf'.(nextIndex) = rf.(nextIndex) /\ rf'.(matchIndex) = rf.(matchIndex) /\
  rf'.(goroutines) = rf.(goroutines) /\ rf'.(voteCount) = rf.(voteCount) /\
  rf'.(persister) = rf.(persister) /\ rf'.(loop) = rf.(loop).
Proof. unfold adopt, toFollower. case_if; [case_decide|]; cbn; auto 12. Qed.

Lemma adopt_term t rf : (adopt t rf).(currentTerm) = Z.max t rf.(currentTerm).
Proof. unfold adopt, toFollower. case_if; [case_decide|]; cbn; lia. Qed.

Lemma adopt_higher_state t rf : rf.(currentTerm) < t -> (adopt t rf).(state) = Follower.
Proof.
  intros. unfold adopt, toFollower. case_if; [|lia]. case_decide as Hd; cbn in *; congruence.
Qed.

Lemma adopt_low t rf : t <= rf.(currentTerm) -> adopt t rf = rf.
Proof. intros. unfold adopt. case_if; [lia|done]. Qed.

Lemma adopt_votedFor t rf :
  (adopt t rf).(votedFor) = rf.(votedFor)
  \/ rf.(currentTerm) < t /\ (adopt t rf).(votedFor) = -1.
Proof. unfold adopt, toFollower. case_if; [case_decide|]; cbn; auto. Qed.

Lemma adopt_wf t rf : raft_wf rf -> raft_wf (adopt t rf).
Proof.
  intros Hw. destruct (adopt_frame t rf) as (E1 & E2 & E3 & E4 & E5 & E6 & E7 & _).
  pose proof (adopt_term t rf). destruct Hw.
  split; rewrite ?E1, ?E2, ?E3, ?E4, ?E5, ?E6, ?E7; auto. lia.
Qed.
End facts.

#[export] Hint Resolve log_wf_zero log_wf_app log_wf_take adopt_wf : go.
