(* ===== verification/RaftHandlers.v ===== *)
(** * RaftHandlers: the two RPC handlers of a peer against Figure 2

    [RequestVote] grants a vote exactly under the two conditions of the
    protocol (the term and vote test, and the up-to-date test on the logs),
    [AppendEntries] changes the log exactly as the receiver rules say, and
    neither panics on a well-formed peer. *)

From S2P Require Import Prelude Gob Raft RaftFacts.
Local Open Scope Z_scope.

Section handlers.
Context {Cmd : Type} `{!Gob (PVal Cmd)} `{!Rand}.
Implicit Types (rf : Raft Cmd) (l : list (LogEntry Cmd)).

(** ** RequestVote *)

(** The order on (last term, last index) of the election restriction. *)
Definition log_le (a b : Z * Z) : Prop := a.1 < b.1 \/ a.1 = b.1 /\ a.2 <= b.2.

(** [last l]: term and index of the last entry of [l]. *)
Definition last_entry l : Z * Z :=
  (match last l with Some e => e.(le_Term) | None => 0 end, len l - 1).

(** The receiver has no vote for another candidate in the candidate's term. *)
Definition may_vote rf (args : RequestVoteArgs) : Prop :=
  rf.(currentTerm) < args.(rv_Term) \/
  rf.(currentTerm) = args.(rv_Term) /\
  (rf.(votedFor) = -1 \/ rf.(votedFor) = args.(rv_CandidateId)).

Definition up_to_date rf (args : RequestVoteArgs) : Prop :=
  log_le (last_entry rf.(logs)) (args.(rv_LastLogTerm), args.(rv_LastLogIndex)).

Lemma last_idx l e : idx l (len l - 1) = Ret e -> last l = Some e.
Proof.
  intros [? He]%idx_Ret. rewrite last_lookup. unfold len in *.
  replace (pred (length l)) with (Z.to_nat (Z.of_nat (length l) - 1)) by lia. done.
Qed.

(** The three outcomes of [RequestVote] on a well-formed peer. *)
Inductive rv_outcome rf args : Raft Cmd -> RequestVoteReply -> Prop :=
| rv_refused :
    ~ may_vote rf args ->
    rv_outcome rf args (persist rf) {| rvr_Term := rf.(currentTerm); rvr_VoteGranted := false |}
| rv_behind :
    may_vote rf args -> ~ up_to_date rf args ->
    rv_outcome rf args (persist (adopt args.(rv_Term) rf))
      {| rvr_Term := args.(rv_Term); rvr_VoteGranted := false |}
| rv_granted :
    may_vote rf args -> up_to_date rf args ->
    rv_outcome rf args
      (persist (resetElectionTimer
                  (set_votedFor args.(rv_CandidateId) (adopt args.(rv_Term) rf))))
      {| rvr_Term := args.(rv_Term); rvr_VoteGranted := true |}.

Lemma RequestVote_outcome rf args :
  raft_wf rf -> exists rf' reply,
    RequestVote rf args = Ret (rf', reply) /\ rv_outcome rf args rf' reply.
Proof.
  intros Hw. unfold RequestVote, RequestVote_body.
  destruct (_ || _) eqn:Hrefuse.
  { do 2 eexists. split; [reflexivity|]. apply rv_refused. unfold may_vote.
    apply orb_true_iff in Hrefuse as [?|?]; zbool; lia. }
  assert (Hv : may_vote rf args).
  { unfold may_vote. zbool. rewrite !andb_false_iff in *. repeat destruct_or?; zbool; lia. }
  clear Hrefuse. rewrite adopt_eq. cbn.
  destruct (adopt_frame args.(rv_Term) rf) as (_ & _ & -> & _).
  destruct (log_wf_last rf.(logs)) as (e & He & _); [apply Hw|].
  rewrite He. cbn. pose proof (last_idx _ _ He) as Hl.
  assert (Hterm : (adopt args.(rv_Term) rf).(currentTerm) = args.(rv_Term)).
  { rewrite adopt_term. unfold may_vote in Hv. lia. }
  destruct (_ || _) eqn:Hup; do 2 eexists; (split; [reflexivity|]); cbn; rewrite Hterm.
  - apply rv_behind; [done|]. unfold up_to_date, log_le, last_entry. rewrite Hl. cbn.
    apply orb_true_iff in Hup as [?|[? ?]%andb_true_iff]; zbool; lia.
  - apply rv_granted; [done|]. unfold up_to_date, log_le, last_entry. rewrite Hl. cbn.
    zbool. rewrite andb_false_iff in *. destruct_or?; zbool; lia.
Qed.

Lemma RequestVote_inv rf args rf' reply :
  raft_wf rf -> RequestVote rf args = Ret (rf', reply) -> rv_outcome rf args rf' reply.
Proof.
  intros Hw E. destruct (RequestVote_outcome rf args Hw) as (? & ? & E' & Ho).
  rewrite E in E'. by inv_res.
Qed.

Lemma persist_wf rf : raft_wf rf -> raft_wf (persist rf).
Proof. intros []. by split. Qed.

Lemma resetElectionTimer_wf rf : raft_wf rf -> raft_wf (resetElectionTimer rf).
Proof. intros []. by split. Qed.

Lemma set_votedFor_wf rf v : raft_wf rf -> raft_wf (set_votedFor v rf).
Proof. intros []. by split. Qed.

Lemma rv_outcome_wf rf args rf' reply :
  raft_wf rf -> rv_outcome rf args rf' reply -> raft_wf rf'.
Proof.
  intros Hw []; auto using persist_wf, resetElectionTimer_wf, set_votedFor_wf with go.
Qed.

(** ** AppendEntries *)

(** The receiver rules 3 and 4 of AppendEntries, entry by entry: the entry for
    index [k] is kept when the terms agree, replaces the rest of the log when
    they differ, and is appended when the log ends there. *)
Fixpoint merge_entries l (k : nat) (es : list (LogEntry Cmd)) : list (LogEntry Cmd) :=
  match es with
  | [] => l
  | e :: es' =>
      match l !! k with
      | Some e' =>
          if e'.(le_Term) =? e.(le_Term) then merge_entries l (S k) es'
          else take k l ++ e :: es'
      | None => l ++ e :: es'
      end
  end.

Lemma findUnmatch_spec l prev i es :
  0 <= prev -> 0 <= i -> prev + 1 + i <= len l ->
  exists u, findUnmatch l prev i es = Ret u /\
    (u = -1 /\ merge_entries l (Z.to_nat (prev + 1 + i)) es = l
     \/ i <= u < i + len es /\ prev + 1 + u <= len l /\
        merge_entries l (Z.to_nat (prev + 1 + i)) es
        = take (Z.to_nat (prev + 1 + u)) l ++ drop (Z.to_nat (u - i)) es).
Proof.
  intros Hp. revert i. induction es as [|e es IH]; intros i Hi Hlen; cbn.
  { exists (-1). auto. }
  assert (len (e :: es) = 1 + len es) as Hes by (unfold len; cbn; lia).
  pose proof (len_nonneg es).
  case_if.
  - exists i. split; [done|]. right. split; [lia|]. split; [done|].
    rewrite lookup_ge_None_2 by (unfold len in *; lia).
    rewrite take_ge by (unfold len in *; lia). by rewrite Z.sub_diag.
  - destruct (idx_in_range l (prev + 1 + i)) as [e' He']; [lia|].
    rewrite He'. cbn. apply idx_Ret in He' as [_ He']. rewrite He'.
    case_if.
    + exists i. split; [done|]. right. split; [lia|]. split; [lia|].
      apply Z.eqb_neq in Heqb0. rewrite Heqb0. by rewrite Z.sub_diag.
    + destruct (IH (i + 1)) as (u & Hu & Hcase); [lia..|].
      exists u. split; [done|].
      apply Z.eqb_eq in Heqb0. rewrite Heqb0.
      replace (Z.to_nat (prev + 1 + (i + 1))) with (S (Z.to_nat (prev + 1 + i))) in Hcase by lia.
      destruct Hcase as [[-> Hm]|(Hr & Hl & Hm)]; [by left|right].
      split; [lia|]. split; [done|]. rewrite Hm. f_equal.
      replace (Z.to_nat (u - i)) with (S (Z.to_nat (u - (i + 1)))) by lia. done.
Qed.

(** The conflict index is the first index of the run of entries with the
    conflicting term that ends just below [k]. *)
Lemma findConflict_spec l ct (k : nat) :
  (k <= length l)%nat -> (0 < k)%nat ->
  (forall e, l !! 0%nat = Some e -> e.(le_Term) <> ct) ->
  exists ci : nat, findConflict l ct k = Ret (Z.of_nat ci) /\ (0 < ci <= k)%nat /\
    (forall j e, (ci <= j < k)%nat -> l !! j = Some e -> e.(le_Term) = ct) /\
    (forall e, l !! pred ci = Some e -> e.(le_Term) <> ct).
Proof.
  intros Hk Hpos H0. induction k as [|k IH]; [lia|]. cbn [findConflict].
  destruct (lookup_lt_is_Some_2 l k) as [e He]; [lia|].
  rewrite He. cbn. case_if.
  - destruct (decide (k = 0%nat)) as [->|]; [by apply H0 in He|].
    destruct IH as (ci & Hci & Hr & Hrun & Hfirst); [lia..|].
    exists ci. split; [done|]. split; [lia|]. split; [|done].
    intros j e' Hj He'. destruct (decide (j = k)) as [->|].
    + by simplify_eq.
    + eapply Hrun; [|done]. lia.
  - exists (S k). split; [done|]. split; [lia|]. split; [intros; lia|].
    cbn. intros e' He'. by simplify_eq.
Qed.

Lemma setCommitIndex_total rf ci :
  0 <= rf.(lastApplied) -> ci < len rf.(logs) ->
  exists rf', setCommitIndex rf ci = Ret rf'.
Proof.
  intros Ha Hc. unfold setCommitIndex. cbn. case_if; [|by eexists].
  destruct (slice rf.(logs) (rf.(lastApplied) + 1) (ci + 1)) as [es|] eqn:E; [by eexists|].
  unfold slice in E. case_if; [done|]. rewrite !andb_false_iff in *.
  destruct_or?; zbool; lia.
Qed.

(** What [setCommitIndex] changes: the commit index, and at most one new
    goroutine that applies log entries. *)
Lemma setCommitIndex_frame rf ci rf' :
  setCommitIndex rf ci = Ret rf' ->
  exists gs, rf' = set_goroutines (rf.(goroutines) ++ gs) (set_commitIndex ci rf) /\
    (gs = [] \/ exists es, gs = [GoApply (rf.(lastApplied) + 1) es] /\
       rf.(lastApplied) < ci /\
       slice rf.(logs) (rf.(lastApplied) + 1) (ci + 1) = Ret es).
Proof.
  unfold setCommitIndex. cbn. case_if; intros E.
  - bind_inv E. inv_res. eexists [_]. split; [done|]. right. eauto.
  - inv_res. exists []. cbn. rewrite app_nil_r. split; [by destruct rf|by left].
Qed.

(** The commit rule of the handler: [LeaderCommit], but no further than the
    last entry. *)
Definition follower_commit rf (leaderCommit : Z) : res (Raft Cmd) :=
  if rf.(commitIndex) <? leaderCommit
  then setCommitIndex rf (Z.min leaderCommit (len rf.(logs) - 1))
  else Ret rf.

Lemma follower_commit_frame rf lc rf' :
  follower_commit rf lc = Ret rf' ->
  exists gs, rf' = set_goroutines (rf.(goroutines) ++ gs)
      (set_commitIndex (if rf.(commitIndex) <? lc then Z.min lc (len rf.(logs) - 1)
                        else rf.(commitIndex)) rf) /\
    (gs = [] \/ exists ci es, gs = [GoApply (rf.(lastApplied) + 1) es] /\
       rf.(lastApplied) < ci /\
       slice rf.(logs) (rf.(lastApplied) + 1) (ci + 1) = Ret es).
Proof.
  unfold follower_commit. case_if; intros E.
  - apply setCommitIndex_frame in E as (gs & -> & Hg). exists gs. split; [done|].
    destruct Hg as [?|(es & ? & ? & ?)]; eauto 8.
  - inv_res. exists []. rewrite app_nil_r. split; [by destruct rf'|by left].
Qed.

(** The four outcomes of [AppendEntries]. *)
Inductive ae_outcome rf (args : AppendEntriesArgs Cmd) : Raft Cmd -> AppendEntriesReply -> Prop :=
| ae_stale :
    args.(ae_Term) < rf.(currentTerm) ->
    ae_outcome rf args (persist rf)
      {| aer_Term := rf.(currentTerm); aer_Success := false;
         aer_ConflictTerm := 0; aer_ConflictIndex := 0 |}
| ae_short :
    rf.(currentTerm) <= args.(ae_Term) ->
    len rf.(logs) <= args.(ae_PrevLogIndex) ->
    ae_outcome rf args (persist (resetElectionTimer (adopt args.(ae_Term) rf)))
      {| aer_Term := args.(ae_Term); aer_Success := false;
         aer_ConflictTerm := -1; aer_ConflictIndex := len rf.(logs) |}
| ae_mismatch prev (ci : nat) :
    rf.(currentTerm) <= args.(ae_Term) ->
    rf.(logs) !! Z.to_nat args.(ae_PrevLogIndex) = Some prev ->
    prev.(le_Term) <> args.(ae_PrevLogTerm) ->
    (0 < ci <= Z.to_nat args.(ae_PrevLogIndex))%nat ->
    (forall j e, (ci <= j <= Z.to_nat args.(ae_PrevLogIndex))%nat ->
       rf.(logs) !! j = Some e -> e.(le_Term) = prev.(le_Term)) ->
    (forall e, rf.(logs) !! pred ci = Some e -> e.(le_Term) <> prev.(le_Term)) ->
    ae_outcome rf args (persist (resetElectionTimer (adopt args.(ae_Term) rf)))
      {| aer_Term := args.(ae_Term); aer_Success := false;
         aer_ConflictTerm := prev.(le_Term); aer_ConflictIndex := Z.of_nat ci |}
| ae_success prev rf1 rf2 :
    rf.(currentTerm) <= args.(ae_Term) ->
    rf.(logs) !! Z.to_nat args.(ae_PrevLogIndex) = Some prev ->
    prev.(le_Term) = args.(ae_PrevLogTerm) ->
    rf1 = set_logs (merge_entries rf.(logs) (S (Z.to_nat args.(ae_PrevLogIndex))) args.(ae_Entries))
            (resetElectionTimer (adopt args.(ae_Term) rf)) ->
    follower_commit rf1 args.(ae_LeaderCommit) = Ret rf2 ->
    ae_outcome rf args (persist rf2)
      {| aer_Term := 0; aer_Success := true; aer_ConflictTerm := 0; aer_ConflictIndex := 0 |}.

Lemma set_logs_id rf : set_logs rf.(logs) rf = rf.
Proof. by destruct rf. Qed.

(** The log update of the handler is [merge_entries]. *)
Lemma update_log_eq rf prev es :
  0 <= prev < len rf.(logs) ->
  (unmatch_idx ← findUnmatch rf.(logs) prev 0 es;
   if negb (unmatch_idx =? -1)
   then
     l ← slice rf.(logs) 0 (prev + 1 + unmatch_idx);
     es' ← slice es unmatch_idx (len es);
     Ret (set_logs (l ++ es') rf)
   else Ret rf)
  = Ret (set_logs (merge_entries rf.(logs) (S (Z.to_nat prev)) es) rf).
Proof.
  intros Hp. destruct (findUnmatch_spec rf.(logs) prev 0 es) as (u & Hu & Hcase); [lia..|].
  rewrite Hu. cbn. replace (Z.to_nat (prev + 1 + 0)) with (S (Z.to_nat prev)) in Hcase by lia.
  destruct Hcase as [[-> Hm]|(Hr & Hl & Hm)]; rewrite Hm; clear Hm Hu.
  - cbn. by rewrite set_logs_id.
  - destruct (Z.eqb_spec u (-1)); [lia|]. cbn.
    rewrite slice_to by lia. cbn. rewrite slice_from by lia. cbn.
    by replace (u - 0) with u by lia.
Qed.

Lemma follower_commit_eq rf lc :
  (if rf.(commitIndex) <? lc
   then
     let lastLogIndex := len rf.(logs) - 1 in
     if lc <=? lastLogIndex then setCommitIndex rf lc else setCommitIndex rf lastLogIndex
   else Ret rf) = follower_commit rf lc.
Proof. unfold follower_commit. cbn. repeat case_if; f_equal; lia. Qed.

Lemma merge_entries_app l k es :
  (k <= length l)%nat -> exists n es', merge_entries l k es = take n l ++ es' /\
    (k <= n)%nat /\ es' `suffix_of` es.
Proof.
  revert k. induction es as [|e es IH]; intros k Hk; cbn.
  - exists (length l), []. rewrite take_ge, app_nil_r by done. split; [done|].
    split; [done|apply suffix_nil].
  - destruct (l !! k) as [e'|] eqn:He.
    + case_if.
      * apply lookup_lt_Some in He. destruct (IH (S k)) as (n & es' & -> & Hn & Hs); [lia|].
        exists n, es'. split; [done|]. split; [lia|]. by apply suffix_cons_r.
      * exists k, (e :: es). auto.
    + apply lookup_ge_None in He. exists k, (e :: es). rewrite take_ge by done. auto.
Qed.

Lemma merge_entries_wf l k es :
  log_wf l -> (0 < k <= length l)%nat -> Forall (fun e => 1 <= e.(le_Term)) es ->
  log_wf (merge_entries l k es).
Proof.
  intros Hw Hk Hes. destruct (merge_entries_app l k es) as (n & es' & -> & Hn & Hs); [lia|].
  apply log_wf_app; [apply log_wf_take; [done|lia]|].
  destruct Hs as [pre ->]. by apply Forall_app in Hes as [_ ?].
Qed.

Lemma follower_commit_total rf lc :
  raft_wf rf -> exists rf', follower_commit rf lc = Ret rf'.
Proof.
  intros Hw. unfold follower_commit. case_if; [|by eexists].
  apply setCommitIndex_total; [apply Hw|]. pose proof (log_wf_len _ (wf_log _ Hw)). lia.
Qed.

Lemma follower_commit_wf rf lc rf' :
  raft_wf rf -> follower_commit rf lc = Ret rf' -> raft_wf rf'.
Proof.
  intros Hw (gs & -> & _)%follower_commit_frame.
  pose proof (log_wf_len _ (wf_log _ Hw)). destruct Hw. split; cbn; auto. case_if; lia.
Qed.

Lemma set_logs_wf rf l : raft_wf rf -> log_wf l -> raft_wf (set_logs l rf).
Proof. intros [] ?. by split. Qed.

(** On a well-formed peer and arguments the handler returns with one of the
    outcomes. *)
Lemma AppendEntries_outcome rf args :
  raft_wf rf -> args_wf args -> exists rf' reply,
    AppendEntries rf args = Ret (rf', reply) /\ ae_outcome rf args rf' reply.
Proof.
  intros Hw Ha. unfold AppendEntries, AppendEntries_body.
  case_if; [do 2 eexists; split; [reflexivity|by apply ae_stale]|].
  rewrite adopt_eq. cbn. rewrite adopt_term, (Z.max_l args.(ae_Term)) by done.
  destruct (adopt_frame args.(ae_Term) rf) as (_ & _ & Hlogs & _). rewrite Hlogs.
  case_if; [do 2 eexists; split; [reflexivity|]; 
    replace (len rf.(logs) - 1 + 1) with (len rf.(logs)) by lia; apply ae_short; lia|].
  pose proof (aw_prev _ Ha) as Hpos.
  destruct (idx_in_range rf.(logs) args.(ae_PrevLogIndex)) as [prev Hprev]; [lia|].
  rewrite Hprev. cbn. apply idx_Ret in Hprev as [_ Hprev].
  destruct (Z.eqb_spec prev.(le_Term) args.(ae_PrevLogTerm)) as [Heq|Hne]; cbn.
  - set (rf1 := resetElectionTimer (adopt args.(ae_Term) rf)).
    pose proof (update_log_eq rf1 args.(ae_PrevLogIndex) args.(ae_Entries)) as Hupd.
    cbn in Hupd. rewrite Hlogs in Hupd.
    specialize (Hupd ltac:(lia)).
    destruct (findUnmatch _ _ _ _) as [u|]; [cbn in *|done].
    rewrite Hupd. cbn. clear Hupd.
    set (rf2 := set_logs _ rf1).
    assert (raft_wf rf2) as Hw2.
    { apply set_logs_wf; [by apply resetElectionTimer_wf, adopt_wf|].
      apply merge_entries_wf; [apply Hw| |apply Ha]. unfold len in *. lia. }
    destruct (follower_commit_total rf2 args.(ae_LeaderCommit) Hw2) as [rf3 Hc].
    pose proof (follower_commit_eq rf2 args.(ae_LeaderCommit)) as Hfc. cbn in Hfc.
    rewrite Hfc, Hc. cbn. do 2 eexists. split; [reflexivity|].
    by eapply ae_success.
  - assert (0 < args.(ae_PrevLogIndex)) as Hpp.
    { destruct (Z.eq_dec args.(ae_PrevLogIndex) 0) as [Hz|]; [|lia].
      rewrite Hz in Hprev. change (Z.to_nat 0) with 0%nat in Hprev.
      rewrite (log_wf_head _ (wf_log _ Hw)) in Hprev. simplify_eq.
      exfalso. apply Hne. by rewrite (aw_zero _ Ha). }
    assert (1 <= prev.(le_Term)) as Hpt.
    { destruct (Z.to_nat args.(ae_PrevLogIndex)) as [|k] eqn:Ek; [lia|].
      eapply log_wf_term; [apply Hw|done]. }
    destruct (findConflict_spec rf.(logs) prev.(le_Term) (Z.to_nat args.(ae_PrevLogIndex)))
      as (ci & Hci & Hr & Hrun & Hfirst); [unfold len in *; lia|lia| |].
    { intros e0 He0. rewrite (log_wf_head _ (wf_log _ Hw)) in He0. simplify_eq. cbn. lia. }
    rewrite Hci. cbn. do 2 eexists. split; [reflexivity|].
    eapply ae_mismatch; eauto. intros j e Hj He.
    destruct (decide (j = Z.to_nat args.(ae_PrevLogIndex))) as [->|]; [by simplify_eq|].
    eapply Hrun; [|done]. lia.
Qed.

Lemma AppendEntries_inv rf args rf' reply :
  raft_wf rf -> args_wf args -> AppendEntries rf args = Ret (rf', reply) ->
  ae_outcome rf args rf' reply.
Proof.
  intros Hw Ha E. destruct (AppendEntries_outcome rf args Hw Ha) as (? & ? & E' & Ho).
  rewrite E in E'. by inv_res.
Qed.

Lemma ae_outcome_wf rf args rf' reply :
  raft_wf rf -> args_wf args -> ae_outcome rf args rf' reply -> raft_wf rf'.
Proof.
  intros Hw Ha [| | |prev rf1 rf2 ? Hprev ? -> Hc];
    auto using persist_wf, resetElectionTimer_wf with go.
  apply persist_wf. eapply follower_commit_wf; [|done].
  apply set_logs_wf; [by apply resetElectionTimer_wf, adopt_wf|].
  apply merge_entries_wf; [apply Hw| |apply Ha].
  apply lookup_lt_Some in Hprev. lia.
Qed.
End handlers.
