(* ===== verification/RaftSpec.v ===== *)
(** * RaftSpec: the properties of a single peer

    Persistence and recovery, the contract of the two RPC handlers, the commit
    rule of a leader, and the repair of a follower's log by a leader. *)

From S2P Require Import Prelude Gob Raft RaftFacts RaftHandlers.
Local Open Scope Z_scope.

Section spec.
Context {Cmd : Type} `{!Gob (PVal Cmd)} `{!Rand}.
Implicit Types (rf : Raft Cmd) (l : list (LogEntry Cmd)).

(** ** Persistence *)

Lemma decodeState_encode t v l :
  decodeState (encode_all [PInt t; PInt v; PLogs l]) = Some (t, v, l).
Proof.
  unfold decodeState, encode_all, DecodeInt, DecodeLogs.
  rewrite <- (app_nil_r (encode_from _ _)).
  destruct (decode_encode_from NewEncoder NewDecoder (PInt t) [PInt v; PLogs l] [])
    as (e1 & d1 & -> & H1); [apply gob_sync_init|]. cbn [mbind option_bind].
  destruct (decode_encode_from e1 d1 (PInt v) [PLogs l] [])
    as (e2 & d2 & -> & H2); [done|]. cbn [mbind option_bind].
  destruct (decode_encode_from e2 d2 (PLogs l) [] [])
    as (e3 & d3 & -> & H3); done.
Qed.

(** [synced rf]: a peer that [Make] builds from the persisted bytes has the
    term, vote and log of [rf]. *)
Definition synced rf : Prop :=
  let r := Make rf.(peers) rf.(me) rf.(persister) in
  r.(currentTerm) = rf.(currentTerm) /\ r.(votedFor) = rf.(votedFor) /\ r.(logs) = rf.(logs).

Lemma readPersist_encode rf t v l :
  readPersist rf (encode_all [PInt t; PInt v; PLogs l])
  = set_logs l (set_votedFor v (set_currentTerm t rf)).
Proof.
  unfold readPersist. rewrite decodeState_encode.
  destruct (encode_all _) as [|b bs] eqn:E; [|done].
  by apply encode_from_cons_nonempty in E.
Qed.

Lemma persist_synced rf : synced (persist rf).
Proof.
  unfold synced, Make. cbn. unfold ReadRaftState. cbn. by rewrite readPersist_encode.
Qed.

(** [synced] depends on the identity, the bytes and the three persisted
    fields only. *)
Lemma synced_frame rf rf' :
  synced rf -> rf'.(peers) = rf.(peers) -> rf'.(me) = rf.(me) ->
  rf'.(persister) = rf.(persister) -> rf'.(currentTerm) = rf.(currentTerm) ->
  rf'.(votedFor) = rf.(votedFor) -> rf'.(logs) = rf.(logs) -> synced rf'.
Proof. unfold synced. by intros ? -> -> -> -> -> ->. Qed.

Lemma Make_synced n i ps : synced (Make (Cmd:=Cmd) n i ps).
Proof.
  unfold synced, Make, readPersist, ReadRaftState.
  destruct (raftstate ps) as [|b bs] eqn:E; cbn; rewrite ?E; [done|].
  destruct (decodeState _) as [[[t v] l]|] eqn:D; cbn; by rewrite ?E, ?D.
Qed.

(** What [Make] restores, whatever the bytes are. *)
Lemma Make_wf n i ps :
  0 <= i < Z.of_nat n ->
  (forall t v l, decodeState ps.(raftstate) = Some (t, v, l) -> 0 <= t /\ log_wf l) ->
  raft_wf (Make (Cmd:=Cmd) n i ps).
Proof.
  intros Hi Hdec. unfold Make, readPersist, ReadRaftState.
  destruct (raftstate ps) as [|b bs] eqn:E;
    [|destruct (decodeState _) as [[[t v] l]|] eqn:D;
      [destruct (Hdec t v l) as [? ?]; [done|] |]];
    split; cbn; rewrite ?length_replicate; auto with go; lia.
Qed.

(** ** The handlers *)


(** Every entry the merge was given is in the result, by term. *)
Lemma merge_entries_contains l k es i e :
  (k <= length l)%nat -> es !! i = Some e ->
  exists e', merge_entries l k es !! (k + i)%nat = Some e' /\ e'.(le_Term) = e.(le_Term).
Proof.
  revert k i. induction es as [|e0 es IH]; intros k i Hk He; [done|]. cbn.
  destruct (l !! k) as [e0'|] eqn:Hl.
  - pose proof (lookup_lt_Some _ _ _ Hl) as Hlt. case_if.
    + destruct i as [|i]; cbn in He.
      * simplify_eq. destruct (merge_entries_app l (S k) es) as (n & es' & -> & Hn & _); [lia|].
        exists e0'. rewrite Nat.add_0_r. split; [|done].
        rewrite lookup_app_l; [|rewrite length_take; lia]. by rewrite lookup_take_lt by lia.
      * replace (k + S i)%nat with (S k + i)%nat by lia. apply IH; [lia|done].
    + exists e. split; [|done]. rewrite lookup_app_r; [|rewrite length_take; lia].
      rewrite length_take. replace (k + i - k `min` length l)%nat with i by lia. done.
  - apply lookup_ge_None in Hl. exists e. split; [|done].
    rewrite lookup_app_r by lia. by replace (k + i - length l)%nat with i by lia.
Qed.

Lemma merge_entries_keeps l k es j :
  (j < k)%nat -> (k <= length l)%nat -> merge_entries l k es !! j = l !! j.
Proof.
  intros Hj Hk. destruct (merge_entries_app l k es) as (n & es' & -> & Hn & _); [done|].
  rewrite lookup_app_l; [|rewrite length_take; lia]. by rewrite lookup_take_lt by lia.
Qed.

Lemma merge_entries_same l k es :
  (forall i e, es !! i = Some e ->
     exists e', l !! (k + i)%nat = Some e' /\ e'.(le_Term) = e.(le_Term)) ->
  merge_entries l k es = l.
Proof.
  revert k. induction es as [|e es IH]; intros k Hin; cbn; [done|].
  destruct (Hin 0%nat e) as (e' & He' & Heq); [done|].
  rewrite Nat.add_0_r in He'. rewrite He', Heq, Z.eqb_refl.
  apply IH. intros i e0 He0. destruct (Hin (S i) e0) as (e1 & He1 & ?); [done|].
  exists e1. split; [|done]. by replace (S k + i)%nat with (k + S i)%nat by lia.
Qed.

Lemma merge_entries_idem l k es :
  (k <= length l)%nat -> merge_entries (merge_entries l k es) k es = merge_entries l k es.
Proof. intros. apply merge_entries_same. intros. by apply merge_entries_contains. Qed.

(** C14. AppendEntries on a well-formed peer and well-formed arguments returns
    without a panic and leaves a well-formed peer whose state is on stable
    storage.  It succeeds exactly when the sender's term is not old and the log
    holds an entry of the right term at PrevLogIndex.  On success the log is the
    one the receiver rules give (rules 3 and 4, [merge_entries]) and the commit
    index follows LeaderCommit up to the last entry; otherwise the log and the
    commit index do not change. *)
Theorem AppendEntries_refines rf args :
  raft_wf rf -> args_wf args ->
  exists rf' reply, AppendEntries rf args = Ret (rf', reply) /\ raft_wf rf' /\ synced rf' /\
    rf'.(currentTerm) = Z.max args.(ae_Term) rf.(currentTerm) /\
    (reply.(aer_Success) = true <->
       rf.(currentTerm) <= args.(ae_Term) /\
       exists prev, rf.(logs) !! Z.to_nat args.(ae_PrevLogIndex) = Some prev /\
                    prev.(le_Term) = args.(ae_PrevLogTerm)) /\
    (reply.(aer_Success) = true ->
       rf'.(logs) = merge_entries rf.(logs) (S (Z.to_nat args.(ae_PrevLogIndex)))
                      args.(ae_Entries) /\
       rf'.(commitIndex) = if rf.(commitIndex) <? args.(ae_LeaderCommit)
                           then Z.min args.(ae_LeaderCommit) (len rf'.(logs) - 1)
                           else rf.(commitIndex)) /\
    (reply.(aer_Success) = false ->
       rf'.(logs) = rf.(logs) /\ rf'.(commitIndex) = rf.(commitIndex)).
Proof.
  intros Hw Ha. destruct (AppendEntries_outcome rf args Hw Ha) as (rf' & reply & E & Ho).
  exists rf', reply. split; [done|]. split; [by eapply ae_outcome_wf|].
  pose proof (adopt_term args.(ae_Term) rf) as Ht.
  destruct (adopt_frame args.(ae_Term) rf) as (_ & _ & El & Ec & _).
  destruct Ho as [Hlt|Hle Hsh|prev ci Hle Hp Hne Hci Hrun Hfst|prev rf1 rf2 Hle Hp Heq -> Hc];
    (split; [apply persist_synced|]); cbn.
  - split; [lia|]. split; [|done]. split; [done|]. intros [? _]. lia.
  - rewrite El, Ec. split; [done|]. split; [|done]. split; [done|].
    intros (_ & prev & Hp & _). apply lookup_lt_Some in Hp. unfold len in *. lia.
  - rewrite El, Ec. split; [done|]. split; [|done]. split; [done|].
    intros (_ & prev' & Hp' & ?). by simplify_eq.
  - apply follower_commit_frame in Hc as (gs & -> & _). cbn. rewrite Ec.
    split; [done|]. split; [|done]. split; eauto.
Qed.

(** Delivering the same AppendEntries arguments again does not change the
    log: after a success every entry of the arguments is at its index (compared
    by term), nothing up to PrevLogIndex has changed, and a second success gives
    the same log. *)
Theorem AppendEntries_idempotent rf args rf1 r1 rf2 r2 :
  raft_wf rf -> args_wf args ->
  AppendEntries rf args = Ret (rf1, r1) -> r1.(aer_Success) = true ->
  AppendEntries rf1 args = Ret (rf2, r2) ->
  (forall i e, args.(ae_Entries) !! i = Some e ->
     exists e', rf1.(logs) !! (S (Z.to_nat args.(ae_PrevLogIndex)) + i)%nat = Some e' /\
                e'.(le_Term) = e.(le_Term)) /\
  (forall j, (j <= Z.to_nat args.(ae_PrevLogIndex))%nat -> rf1.(logs) !! j = rf.(logs) !! j) /\
  r2.(aer_Success) = true /\ rf2.(logs) = rf1.(logs).
Proof.
  intros Hw Ha E1 Hs1 E2.
  pose proof (AppendEntries_inv _ _ _ _ Hw Ha E1) as Ho.
  pose proof (ae_outcome_wf _ _ _ _ Hw Ha Ho) as Hw1.
  apply AppendEntries_inv in E2 as Ho2; [|done..].
  destruct Ho as [| | |prev rf1' rf1 Hle Hp Heq -> Hc]; try done.
  assert (rf1.(logs) = merge_entries rf.(logs) (S (Z.to_nat args.(ae_PrevLogIndex)))
            args.(ae_Entries) /\ rf1.(currentTerm) = args.(ae_Term)) as [Hl Ht].
  { apply follower_commit_frame in Hc as (gs & -> & _). cbn. rewrite adopt_term.
    split; (done || lia). }
  apply lookup_lt_Some in Hp as Hlt. cbn.
  assert (forall j, (j <= Z.to_nat args.(ae_PrevLogIndex))%nat ->
            rf1.(logs) !! j = rf.(logs) !! j) as Hkeep.
  { intros j Hj. rewrite Hl. apply merge_entries_keeps; lia. }
  split; [intros; rewrite Hl; apply (merge_entries_contains _ (S _)); [lia|done]|].
  split; [done|].
  inversion Ho2 as [Hlt2|Hle2 Hsh|prev2 ci Hle2 Hp2 Hne|prev2 ? rf2' Hle2 Hp2 Heq2 -> Hc2];
    subst; cbn in *.
  - lia.
  - rewrite <- Hkeep in Hp by lia. apply lookup_lt_Some in Hp. unfold len in *. lia.
  - rewrite Hkeep in Hp2 by lia. by simplify_eq.
  - split; [done|].
    assert (rf2'.(logs) = merge_entries rf1.(logs) (S (Z.to_nat args.(ae_PrevLogIndex)))
              args.(ae_Entries)) as ->.
    { by apply follower_commit_frame in Hc2 as (gs & -> & _). }
    rewrite Hl. apply merge_entries_idem. lia.
Qed.
End spec.
