(* ===== verification/RaftReplicate.v ===== *)
(** * RaftReplicate: the leader's side of log replication

    What a leader sends, how it moves its commit index when a follower
    answers, and that the back-off of [nextIndex] repairs a follower's log in a
    bounded number of rounds. *)

From S2P Require Import Prelude Gob Raft RaftFacts RaftHandlers.
Local Open Scope Z_scope.

Section replicate.
Context {Cmd : Type} `{!Gob (PVal Cmd)} `{!Rand}.
Implicit Types (rf ld fl : Raft Cmd) (l : list (LogEntry Cmd)).

(** ** Agreement of logs *)

(** [matching l1 l2]: the Log Matching Property for two logs. *)
Definition matching l1 l2 : Prop :=
  forall k e1 e2, l1 !! k = Some e1 -> l2 !! k = Some e2 ->
    e1.(le_Term) = e2.(le_Term) -> take (S k) l1 = take (S k) l2.

(** Merging a segment of a log [L] that agrees with [l] at the index before
    the segment makes [l] agree with [L] up to the end of the segment. *)
Lemma merge_entries_match l L p es :
  matching l L -> es `prefix_of` drop (S p) L ->
  (exists e e', l !! p = Some e /\ L !! p = Some e' /\ e.(le_Term) = e'.(le_Term)) ->
  take (S p + length es) (merge_entries l (S p) es) = take (S p + length es) L /\
  (merge_entries l (S p) es = l \/ merge_entries l (S p) es = take (S p + length es) L).
Proof.
  intros Hm. revert p. induction es as [|x es IH]; intros p Hpre (e & e' & He & He' & Ht).
  { cbn [merge_entries length]. rewrite Nat.add_0_r. eauto. }
  pose proof (Hm _ _ _ He He' Ht) as Hp.
  destruct Hpre as [suf Hsuf]. cbn in Hsuf.
  assert (L !! S p = Some x) as Hx by (by rewrite <- (Nat.add_0_r (S p)), <- lookup_drop, Hsuf).
  assert (Htl : drop (S (S p)) L = es ++ suf).
  { replace (S (S p)) with (S p + 1)%nat by lia. rewrite <- drop_drop, Hsuf. done. }
  assert (Hwhole : take (S p) l ++ x :: es = take (S p + length (x :: es)) L).
  { rewrite Hp. rewrite <- (take_drop (S p) L) at 2. apply lookup_lt_Some in He'.
    rewrite take_app_add' by (rewrite length_take; lia). f_equal. rewrite Hsuf.
    cbn [length]. change (x :: es ++ suf) with ((x :: es) ++ suf).
    by rewrite take_app_length'. }
  cbn [merge_entries]. destruct (l !! S p) as [y|] eqn:Hy; [destruct (Z.eqb_spec y.(le_Term) x.(le_Term))|].
  - destruct (IH (S p)) as [IH1 IH2]; [by exists suf|by exists y, x|].
    cbn [length]. replace (S p + S (length es))%nat with (S (S p) + length es)%nat by lia. done.
  - rewrite Hwhole. rewrite take_take, Nat.min_id. eauto.
  - apply lookup_ge_None in Hy. rewrite take_ge in Hwhole by done. rewrite Hwhole.
    rewrite take_take, Nat.min_id. eauto.
Qed.

(** ** What the leader sends *)

Definition append_args ld (next : nat) (prev : LogEntry Cmd) : AppendEntriesArgs Cmd :=
  {| ae_Term := ld.(currentTerm); ae_LeaderId := ld.(me);
     ae_PrevLogIndex := Z.of_nat next - 1; ae_PrevLogTerm := prev.(le_Term);
     ae_Entries := drop next ld.(logs); ae_LeaderCommit := ld.(commitIndex) |}.

Lemma broadcastHeartbeat_send_eq ld server (next : nat) :
  ld.(state) = Leader -> ld.(nextIndex) !! server = Some (Z.of_nat next) ->
  (0 < next <= length ld.(logs))%nat ->
  exists prev, ld.(logs) !! pred next = Some prev /\
    broadcastHeartbeat_send ld server = Ret (Some (append_args ld next prev)).
Proof.
  intros Hs Hn Hr. destruct (lookup_lt_is_Some_2 ld.(logs) (pred next)) as [prev Hp]; [lia|].
  exists prev. split; [done|]. unfold broadcastHeartbeat_send.
  rewrite bool_decide_true by done. cbn.
  rewrite (idx_of_nat _ _ _ Hn). cbn.
  replace (Z.of_nat next - 1 + 1) with (Z.of_nat next) by lia.
  rewrite slice_from by (unfold len; lia). cbn.
  replace (Z.of_nat next - 1) with (Z.of_nat (pred next)) by lia.
  rewrite (idx_of_nat _ _ _ Hp). cbn. unfold append_args. rewrite Nat2Z.id.
  by replace (Z.of_nat (pred next)) with (Z.of_nat next - 1) by lia.
Qed.

Lemma append_args_wf ld next prev :
  log_wf ld.(logs) -> 0 <= ld.(currentTerm) -> (0 < next)%nat ->
  ld.(logs) !! pred next = Some prev -> args_wf (append_args ld next prev).
Proof.
  intros Hw Ht Hn Hp. split; cbn; [lia| | |done].
  - intros Hz. assert (pred next = 0)%nat as E by lia. rewrite E, log_wf_head in Hp by done.
    by simplify_eq.
  - destruct Hw as (r & -> & Hr). destruct next as [|n]; [lia|]. cbn. by apply Forall_drop.
Qed.

(** What [broadcastHeartbeat] can send at all: the peer is the leader and the
    arguments describe a segment of its log. *)
Lemma broadcastHeartbeat_send_inv rf server args :
  broadcastHeartbeat_send rf server = Ret (Some args) ->
  rf.(state) = Leader /\ exists (next : nat) prev,
    (0 < next <= length rf.(logs))%nat /\
    rf.(logs) !! pred next = Some prev /\ args = append_args rf next prev.
Proof.
  unfold broadcastHeartbeat_send. case_bool_decide as Hs; cbn; [|done]. intros E.
  do 3 bind_inv E. inv_res. split; [done|].
  apply idx_range in E2 as Hr2. apply idx_Ret in E2 as [_ Hp].
  apply slice_Ret in E1 as (Hr & _ & ->).
  exists (Z.to_nat x), x1. split; [unfold len in *; lia|].
  split; [rewrite <- Hp; f_equal; lia|].
  unfold append_args. rewrite Z2Nat.id by lia. f_equal.
  replace (x - 1 + 1) with x by lia. unfold len. rewrite Nat2Z.id.
  rewrite take_ge; [done|]. rewrite length_drop. lia.
Qed.

(** ** The commit rule *)

(** A majority of the peers is known to hold index [i]. *)
Definition majority rf (i : Z) : Prop := Z.of_nat (rf.(peers) / 2) < matchCount rf.(matchIndex) i.

Lemma commitScan_spec rf i :
  0 <= rf.(lastApplied) -> i < len rf.(logs) ->
  exists rf' c gs, commitScan (Z.to_nat (i - rf.(commitIndex))) rf i = Ret rf' /\
    rf' = set_goroutines (rf.(goroutines) ++ gs) (set_commitIndex c rf) /\
    (gs = [] \/ exists es, gs = [GoApply (rf.(lastApplied) + 1) es] /\
       rf.(lastApplied) < c /\
       slice rf.(logs) (rf.(lastApplied) + 1) (c + 1) = Ret es) /\
    (forall j, c < j <= i -> ~ majority rf j) /\
    (c = rf.(commitIndex) \/ rf.(commitIndex) < c <= i /\ majority rf c).
Proof.
  intros Ha. remember (Z.to_nat (i - rf.(commitIndex))) as fuel eqn:Hf.
  assert (Hid : rf = set_goroutines (rf.(goroutines) ++ []) (set_commitIndex rf.(commitIndex) rf))
    by (rewrite app_nil_r; by destruct rf).
  revert i Hf. induction fuel as [|fuel IH]; intros i Hf Hi; cbn [commitScan].
  - exists rf, rf.(commitIndex), []. repeat (split; [by auto|]). split; [lia|by left].
  - destruct (Z.ltb_spec rf.(commitIndex) i); [|lia].
    destruct (Z.ltb_spec (Z.of_nat (rf.(peers) / 2)) (matchCount rf.(matchIndex) i)) as [Hmaj|Hmaj].
    + destruct (setCommitIndex_total rf i Ha Hi) as [rf' E]. rewrite E.
      apply setCommitIndex_frame in E as (gs & -> & Hg).
      eexists _, i, gs. split; [done|]. split; [done|]. split; [done|]. split; [lia|].
      right. split; [lia|done].
    + destruct (IH (i - 1)) as (rf' & c & gs & E & Hrf & Hg & Hmax & Hc); [lia..|].
      exists rf', c, gs. split; [done|]. split; [done|]. split; [done|].
      split; [|destruct Hc as [|[? ?]]; [by left|right; split; [lia|done]]].
      intros j Hj. destruct (decide (j = i)) as [->|]; [unfold majority; lia|apply Hmax; lia].
Qed.

(** A Success sets what is known of the follower and scans for a new commit index. *)
Lemma success_scan rf server args reply :
  raft_wf rf -> (server < rf.(peers))%nat -> reply.(aer_Success) = true ->
  let m := args.(ae_PrevLogIndex) + len args.(ae_Entries) in
  broadcastHeartbeat_reply rf server args reply =
  commitScan (Z.to_nat (len rf.(logs) - 1 - rf.(commitIndex)))
    (set_nextIndex (<[server := m + 1]> rf.(nextIndex)) (set_matchIndex (<[server := m]> rf.(matchIndex)) rf))
    (len rf.(logs) - 1).
Proof.
  intros Hw Hs Hok m. unfold broadcastHeartbeat_reply. rewrite Hok. fold m.
  rewrite (upd_of_nat rf.(matchIndex)) by (by rewrite (wf_match _ Hw)). cbn [mbind res_bind].
  by rewrite upd_of_nat by (by rewrite (wf_next _ Hw)).
Qed.

(** The leader's side of a Success. *)
Lemma broadcastHeartbeat_success rf server args reply :
  raft_wf rf -> (server < rf.(peers))%nat -> reply.(aer_Success) = true ->
  exists rf', broadcastHeartbeat_reply rf server args reply = Ret rf' /\
    let m := args.(ae_PrevLogIndex) + len args.(ae_Entries) in
    rf'.(matchIndex) = <[server := m]> rf.(matchIndex) /\
    rf'.(nextIndex) = <[server := m + 1]> rf.(nextIndex) /\
    rf'.(logs) = rf.(logs) /\ rf'.(currentTerm) = rf.(currentTerm) /\
    rf'.(votedFor) = rf.(votedFor) /\ rf'.(state) = rf.(state) /\
    (forall j, rf'.(commitIndex) < j < len rf.(logs) -> ~ majority rf' j) /\
    (rf'.(commitIndex) = rf.(commitIndex)
     \/ rf.(commitIndex) < rf'.(commitIndex) < len rf.(logs) /\ majority rf' rf'.(commitIndex)).
Proof.
  intros Hw Hs Hok. rewrite success_scan by done. cbn zeta.
  match goal with |- context [commitScan _ ?r _] => set (rf1 := r) end.
  destruct (commitScan_spec rf1 (len rf.(logs) - 1)) as (rf' & c & gs & E & -> & _ & Hmax & Hc);
    [apply Hw|cbn; lia|].
  exists (set_goroutines (rf1.(goroutines) ++ gs) (set_commitIndex c rf1)).
  split; [exact E|]. cbn. repeat (split; [done|]). split.
  - intros j Hj. apply (Hmax j). lia.
  - destruct Hc as [Hc|[? ?]]; [by left|right; split; [cbn in *; lia|done]].
Qed.

(** C15. When a follower answers Success, the leader records that the follower
    holds the entries it was sent (matchIndex and nextIndex) and moves its
    commit index to the largest log index above the old one that a majority of
    the peers is known to hold, or leaves it when there is none.  The log, the
    term and the vote do not change. *)
Theorem broadcastHeartbeat_commit rf server args reply :
  raft_wf rf -> (server < rf.(peers))%nat -> reply.(aer_Success) = true ->
  exists rf', broadcastHeartbeat_reply rf server args reply = Ret rf' /\
    let m := args.(ae_PrevLogIndex) + len args.(ae_Entries) in
    rf'.(matchIndex) = <[server := m]> rf.(matchIndex) /\
    rf'.(nextIndex) = <[server := m + 1]> rf.(nextIndex) /\
    rf'.(logs) = rf.(logs) /\ rf'.(currentTerm) = rf.(currentTerm) /\
    rf'.(votedFor) = rf.(votedFor) /\ rf'.(state) = rf.(state) /\
    (forall j, rf'.(commitIndex) < j < len rf.(logs) -> ~ majority rf' j) /\
    (rf'.(commitIndex) = rf.(commitIndex)
     \/ rf.(commitIndex) < rf'.(commitIndex) < len rf.(logs) /\ majority rf' rf'.(commitIndex)).
Proof. apply broadcastHeartbeat_success. Qed.

(** ** Repair of a follower's log *)

Lemma conflictScan_spec rf server ct (i : nat) :
  (server < length rf.(nextIndex))%nat -> (i <= length rf.(logs))%nat ->
  exists rf', conflictScan i rf server ct (Z.of_nat i) = Ret rf' /\
    (rf' = rf \/ exists n : nat, (0 < n <= i)%nat /\
       rf' = set_nextIndex (<[server := Z.of_nat n]> rf.(nextIndex)) rf).
Proof.
  intros Hs. induction i as [|i IH]; intros Hi; cbn [conflictScan]; [by eauto|].
  destruct (lookup_lt_is_Some_2 rf.(logs) i) as [e He]; [lia|].
  replace (Z.of_nat (S i) - 1) with (Z.of_nat i) by lia.
  rewrite (idx_of_nat _ _ _ He). cbn [mbind res_bind]. case_if.
  - assert (upd rf.(nextIndex) (Z.of_nat server) (Z.of_nat (S i))
              = Ret (<[server := Z.of_nat (S i)]> rf.(nextIndex))) as ->.
    { apply upd_Ret. rewrite Nat2Z.id. unfold len. split; [lia|done]. }
    eexists. split; [done|]. right. exists (S i). split; [lia|done].
  - destruct IH as (rf' & E & Hrf); [lia|]. exists rf'. split; [done|].
    destruct Hrf as [|(n & ? & ?)]; [by left|right; exists n; split; [lia|done]].
Qed.

(** A refusal whose term is not higher only moves [nextIndex] of that
    follower, to an index between 1 and PrevLogIndex. *)
Lemma refusal_backs_off ld server args reply (p : nat) (ci : nat) :
  (server < length ld.(nextIndex))%nat ->
  reply.(aer_Success) = false -> reply.(aer_Term) <= ld.(currentTerm) ->
  args.(ae_PrevLogIndex) = Z.of_nat p -> (p <= length ld.(logs))%nat ->
  reply.(aer_ConflictIndex) = Z.of_nat ci -> (0 < ci <= p)%nat ->
  exists n : nat, (0 < n <= p)%nat /\
    broadcastHeartbeat_reply ld server args reply
    = Ret (set_nextIndex (<[server := Z.of_nat n]> ld.(nextIndex)) ld).
Proof.
  intros Hs Hf Ht Hp Hpl Hci Hr. unfold broadcastHeartbeat_reply. rewrite Hf.
  case_if; [lia|]. rewrite Hci.
  assert (upd ld.(nextIndex) (Z.of_nat server) (Z.of_nat ci)
            = Ret (<[server := Z.of_nat ci]> ld.(nextIndex))) as ->.
  { apply upd_Ret. rewrite Nat2Z.id. unfold len. split; [lia|done]. }
  cbn. case_if; [|by exists ci].
  rewrite Hp, Nat2Z.id.
  destruct (conflictScan_spec (set_nextIndex (<[server := Z.of_nat ci]> ld.(nextIndex)) ld)
    server reply.(aer_ConflictTerm) p) as (rf' & E & [->|(n & Hn & ->)]);
    cbn; rewrite ?length_insert; [done..| |]; rewrite E.
  - by exists ci.
  - exists n. split; [done|]. cbn. rewrite list_insert_insert_eq. done.
Qed.

(** One exchange between a leader and one follower: the leader sends, the
    follower answers, the leader handles the answer. *)
Definition repair_round (server : nat) (st : Raft Cmd * Raft Cmd)
    : res (Raft Cmd * Raft Cmd * bool) :=
  let '(ld, fl) := st in
  o ← broadcastHeartbeat_send ld server;
  match o with
  | None => Ret (ld, fl, false)
  | Some args =>
      '(fl, reply) ← AppendEntries fl args;
      ld ← broadcastHeartbeat_reply ld server args reply;
      Ret (ld, fl, reply.(aer_Success))
  end.

(** Up to [n] exchanges, until the follower answers Success. *)
Fixpoint repair (n : nat) (server : nat) (st : Raft Cmd * Raft Cmd)
    : res (Raft Cmd * Raft Cmd * bool) :=
  match n with
  | O => Ret (st, false)
  | S n =>
      '(st, ok) ← repair_round server st;
      if (ok : bool) then Ret (st, true) else repair n server st
  end.

(** One round: Success, or a refusal that lowers [nextIndex]. *)
Lemma repair_round_spec ld fl server (next : nat) :
  raft_wf ld -> raft_wf fl -> (server < ld.(peers))%nat ->
  ld.(state) = Leader -> fl.(currentTerm) <= ld.(currentTerm) ->
  ld.(nextIndex) !! server = Some (Z.of_nat next) -> (0 < next <= length ld.(logs))%nat ->
  exists ld' fl' ok, repair_round server (ld, fl) = Ret (ld', fl', ok) /\
    raft_wf fl' /\ ld'.(logs) = ld.(logs) /\
    if (ok : bool) then
      exists prev e, ld.(logs) !! pred next = Some prev /\ fl.(logs) !! pred next = Some e /\
        e.(le_Term) = prev.(le_Term) /\
        fl'.(logs) = merge_entries fl.(logs) next (drop next ld.(logs))
    else
      fl'.(logs) = fl.(logs) /\ fl'.(currentTerm) = ld.(currentTerm) /\
      exists n : nat, (0 < n < next)%nat /\
        ld' = set_nextIndex (<[server := Z.of_nat n]> ld.(nextIndex)) ld.
Proof.
  intros Hwl Hwf Hs Hst Hterm Hnext Hr. unfold repair_round.
  destruct (broadcastHeartbeat_send_eq ld server next) as (prev & Hp & ->); [done..|]. cbn.
  set (args := append_args ld next prev).
  assert (args_wf args) as Ha by (apply append_args_wf; [apply Hwl..|lia|done]).
  destruct (AppendEntries_outcome fl args Hwf Ha) as (fl' & reply & -> & Ho). cbn.
  pose proof (ae_outcome_wf _ _ _ _ Hwf Ha Ho) as Hwf'.
  assert (Hnat : Z.to_nat (ae_PrevLogIndex args) = pred next) by (cbn; lia).
  assert (Hlen : (server < length ld.(nextIndex))%nat) by (by rewrite (wf_next _ Hwl)).
  destruct (adopt_frame args.(ae_Term) fl) as (_ & _ & El & _).
  pose proof (adopt_term args.(ae_Term) fl) as Et.
  destruct Ho as [Hlt|Hle Hsh|e ci Hle He Hne Hci Hrun Hfst|e fl1 fl2 Hle He Heq -> Hc].
  - cbn in Hlt. lia.
  - destruct (refusal_backs_off ld server args
      {| aer_Term := args.(ae_Term); aer_Success := false; aer_ConflictTerm := -1;
         aer_ConflictIndex := len fl.(logs) |} (pred next) (length fl.(logs)))
      as (n & Hn & ->); [done|done|done|cbn; lia|lia|done| |].
    { pose proof (log_wf_len _ (wf_log _ Hwf)). cbn in Hsh. unfold len in *. lia. }
    cbn. do 3 eexists. split; [reflexivity|]. split; [done|]. split; [done|]. cbn in *.
    split; [done|]. split; [lia|]. exists n. split; [lia|done].
  - rewrite Hnat in *.
    destruct (refusal_backs_off ld server args
      {| aer_Term := args.(ae_Term); aer_Success := false; aer_ConflictTerm := e.(le_Term);
         aer_ConflictIndex := Z.of_nat ci |} (pred next) ci)
      as (n & Hn & ->); [done|done|done|cbn; lia|lia|done|done|].
    cbn. do 3 eexists. split; [reflexivity|]. split; [done|]. split; [done|]. cbn in *.
    split; [done|]. split; [lia|]. exists n. split; [lia|done].
  - destruct (broadcastHeartbeat_success ld server args
      {| aer_Term := 0; aer_Success := true; aer_ConflictTerm := 0; aer_ConflictIndex := 0 |})
      as (ld' & -> & _ & _ & Hl' & _); [done..|].
    cbn. do 3 eexists. split; [reflexivity|]. split; [done|]. split; [done|].
    exists prev, e. split; [done|]. rewrite Hnat in He. split; [done|]. split; [done|].
    apply follower_commit_frame in Hc as (gs & -> & _). cbn. f_equal. lia.
Qed.

(** C16. Repair of a follower's log terminates.  A leader whose nextIndex for a
    follower is between 1 and the length of its log, and a follower whose term is
    not higher and whose log satisfies Log Matching with the leader's, reach a
    Success in at most nextIndex exchanges (none of which panics), and then the
    leader's log is a prefix of the follower's. *)
Theorem repair_converges ld fl server (next : nat) :
  raft_wf ld -> raft_wf fl -> (server < ld.(peers))%nat ->
  ld.(state) = Leader -> fl.(currentTerm) <= ld.(currentTerm) ->
  ld.(nextIndex) !! server = Some (Z.of_nat next) -> (0 < next <= length ld.(logs))%nat ->
  matching fl.(logs) ld.(logs) ->
  exists ld' fl', repair next server (ld, fl) = Ret (ld', fl', true) /\
    ld'.(logs) = ld.(logs) /\ ld.(logs) `prefix_of` fl'.(logs).
Proof.
  intros Hwl Hwf Hs Hst Hterm Hnext Hr Hm.
  remember next as fuel eqn:Hfuel. assert (next <= fuel)%nat as Hle by lia.
  rewrite Hfuel in Hnext, Hr. clear Hfuel.
  revert ld fl next Hwl Hwf Hs Hst Hterm Hnext Hr Hm Hle.
  induction fuel as [|fuel IH]; intros; [lia|]. cbn [repair].
  destruct (repair_round_spec ld fl server next) as (ld' & fl' & ok & -> & Hwf' & Hll & Hok); [done..|].
  cbn. destruct ok.
  - exists ld', fl'. split; [done|]. split; [done|].
    destruct Hok as (prev & e & Hp & He & Ht & ->).
    destruct (merge_entries_match fl.(logs) ld.(logs) (pred next) (drop next ld.(logs)))
      as [Hpre _]; [done| |by exists e, prev|].
    { by replace (S (pred next)) with next by lia. }
    replace (S (pred next)) with next in Hpre by lia.
    rewrite length_drop in Hpre.
    replace (next + (length ld.(logs) - next))%nat with (length ld.(logs)) in Hpre by lia.
    rewrite (take_ge ld.(logs)) in Hpre by done.
    rewrite <- Hpre at 1. apply prefix_take.
  - destruct Hok as (Hfl & Hft & n & Hn & ->).
    destruct (IH (set_nextIndex (<[server:=Z.of_nat n]> ld.(nextIndex)) ld) fl' n)
      as (ld2 & fl2 & E & Hl2 & Hpre); cbn; rewrite ?Hfl, ?Hft; try done; try lia.
    + destruct Hwl. split; cbn; rewrite ?length_insert; done.
    + apply list_lookup_insert_eq. rewrite (wf_next _ Hwl). done.
    + exists ld2, fl2. rewrite E. done.
Qed.
End replicate.
