(* ===== verification/Cluster.v ===== *)
(** * Cluster: the peers, the network and crashes as a transition system

    A cluster is [n] peers (Raft.v), the RPCs in flight, and for every server
    the number of times it was restarted.  A [Label] picks one atomic step: a
    timer expires, the select loop of a peer takes a timer's value or runs its
    body under the lock, a goroutine runs up to its next blocking point, an RPC
    is delivered or lost, a client calls [Start], a server crashes and restarts
    from its persister.  [step] is executable; [None] means that the label is
    not enabled, [Some Panic] that the step panics.

    The network is that of src/labrpc: a request or a reply may be lost or
    delayed for any time and overtake others, and is delivered at most once; a
    reply to an earlier incarnation of a server is dropped (its ClientEnds are
    gone), a request that was on its way when the sender crashed may still be
    delivered.

    [votes], [counted] and [leaders] are history variables: steps write them
    and no step reads them. *)

From S2P Require Import Prelude Gob Raft.
Local Open Scope Z_scope.

Section cluster.
Context {Cmd : Type} `{!Gob (PVal Cmd)} `{!Rand}.

(** An RPC in flight: from incarnation [inc] of server [src] to [dst]. *)
Inductive Packet :=
| VoteReq (src inc dst : nat) (args : RequestVoteArgs)
| VoteRep (src inc dst : nat) (args : RequestVoteArgs) (reply : RequestVoteReply)
| AppReq (src inc dst : nat) (args : AppendEntriesArgs Cmd)
| AppRep (src inc dst : nat) (args : AppendEntriesArgs Cmd) (reply : AppendEntriesReply).

Record Cluster := mkCluster {
  nodes : list (Raft Cmd);
  incs : list nat;
  net : list Packet;
  applied : list (list (ApplyMsg Cmd));       (* what each applyCh has delivered *)
  votes : list (nat * Z * Z);                 (* voter, term, candidate *)
  counted : list (nat * Z * nat);             (* candidate, term, voter *)
  leaders : gmap Z (nat * list (LogEntry Cmd)); (* term -> leader and its log *)
}.

Inductive Label :=
| LExpireElection (i : nat)
| LExpireHeartbeat (i : nat)
| LRecvElection (i : nat)
| LRecvHeartbeat (i : nat)
| LLoop (i : nat)
| LGo (i k : nat)
| LDeliver (k : nat)
| LDrop (k : nat)
| LStart (i : nat) (command : option Cmd)
| LCrash (i : nat).

(** ** Updates *)

Definition put_node (i : nat) (rf : Raft Cmd) (w : Cluster) : Cluster :=
  mkCluster (<[i := rf]> w.(nodes)) w.(incs) w.(net) w.(applied)
    w.(votes) w.(counted) w.(leaders).
Definition put_net (ps : list Packet) (w : Cluster) : Cluster :=
  mkCluster w.(nodes) w.(incs) ps w.(applied) w.(votes) w.(counted) w.(leaders).
Definition send (p : Packet) (w : Cluster) : Cluster := put_net (w.(net) ++ [p]) w.
Definition put_applied (i : nat) (ms : list (ApplyMsg Cmd)) (w : Cluster) : Cluster :=
  mkCluster w.(nodes) w.(incs) w.(net) (<[i := ms]> w.(applied))
    w.(votes) w.(counted) w.(leaders).
Definition add_vote (v : nat * Z * Z) (w : Cluster) : Cluster :=
  mkCluster w.(nodes) w.(incs) w.(net) w.(applied)
    (w.(votes) ++ [v]) w.(counted) w.(leaders).
Definition add_counted (v : nat * Z * nat) (w : Cluster) : Cluster :=
  mkCluster w.(nodes) w.(incs) w.(net) w.(applied)
    w.(votes) (w.(counted) ++ [v]) w.(leaders).
Definition put_leader (t : Z) (i : nat) (l : list (LogEntry Cmd)) (w : Cluster) : Cluster :=
  mkCluster w.(nodes) w.(incs) w.(net) w.(applied)
    w.(votes) w.(counted) (<[t := (i, l)]> w.(leaders)).
Definition bump_inc (i : nat) (w : Cluster) : Cluster :=
  mkCluster w.(nodes) (alter S i w.(incs)) w.(net) w.(applied)
    w.(votes) w.(counted) w.(leaders).

Definition del_go (k : nat) (rf : Raft Cmd) : Raft Cmd :=
  set_goroutines (delete k rf.(goroutines)) rf.

(** ** Goroutines of peer [i] *)

Definition run_goroutine (i k : nat) (g : Goroutine Cmd) (rf : Raft Cmd) (inc : nat)
    (w : Cluster) : res Cluster :=
  let rf := del_go k rf in
  match g with
  | GoVote server args =>
      Ret (send (VoteReq i inc server args) (put_node i rf w))
  | GoHeartbeat server =>
      o ← broadcastHeartbeat_send rf server;
      match o with
      | Some args => Ret (send (AppReq i inc server args) (put_node i rf w))
      | None => Ret (put_node i rf w)
      end
  | GoApply startIdx [] => Ret (put_node i rf w)
  | GoApply startIdx (e :: es) =>
      Ret (put_applied i (default [] (w.(applied) !! i) ++ [apply_msg startIdx e])
             (put_node i (spawn (GoApplied startIdx (e :: es)) rf) w))
  | GoApplied startIdx es =>
      Ret (put_node i (spawn (GoApply (startIdx + 1) (tail es)) (apply_done rf startIdx)) w)
  | GoStart command term =>
      '(rf, _) ← Start_append rf command term;
      Ret (put_leader term i rf.(logs) (put_node i rf w))
  end.

(** ** Delivery *)

Definition deliver (k : nat) (p : Packet) (w : Cluster) : option (res Cluster) :=
  let w := put_net (delete k w.(net)) w in
  match p with
  | VoteReq src inc dst args =>
      rf ← w.(nodes) !! dst;
      Some ('(rf, reply) ← RequestVote rf args;
            let w := put_node dst rf w in
            let w := if reply.(rvr_VoteGranted)
                     then add_vote (dst, args.(rv_Term), args.(rv_CandidateId)) w else w in
            Ret (send (VoteRep src inc dst args reply) w))
  | AppReq src inc dst args =>
      rf ← w.(nodes) !! dst;
      Some ('(rf, reply) ← AppendEntries rf args;
            Ret (send (AppRep src inc dst args reply) (put_node dst rf w)))
  | VoteRep src inc dst args reply =>
      rf ← w.(nodes) !! src;
      if decide (w.(incs) !! src = Some inc)
      then
        Some (rf' ← startElection_reply rf args reply;
              let w := put_node src rf' w in
              let w := if reply.(rvr_VoteGranted) && bool_decide (rf.(state) = Candidate)
                       then add_counted (src, args.(rv_Term), dst) w else w in
              Ret (if bool_decide (rf.(state) <> Leader) && bool_decide (rf'.(state) = Leader)
                   then put_leader rf'.(currentTerm) src rf'.(logs) w else w))
      else Some (Ret w)
  | AppRep src inc dst args reply =>
      rf ← w.(nodes) !! src;
      if decide (w.(incs) !! src = Some inc)
      then Some (rf ← broadcastHeartbeat_reply rf dst args reply; Ret (put_node src rf w))
      else Some (Ret w)
  end.

(** ** Crash and restart (crash1 and start1 of src/raft/config.go) *)

(** [crash1]: a fresh persister that keeps the Raft state. *)
Definition crash1 (ps : Persister) : Persister :=
  SaveRaftState MakePersister (ReadRaftState (Copy ps)).

(** [start1] after [crash1]: [Make] from a copy of the saved persister. *)
Definition start1 (n i : nat) (ps : Persister) : Raft Cmd :=
  Make n (Z.of_nat i) (Copy (crash1 ps)).

(** ** Steps *)

Definition expire (t : Timer) : option Timer :=
  match t.(deadline) with
  | Some _ => Some {| deadline := None; C := true |}
  | None => None
  end.

Definition recv (t : Timer) : option Timer :=
  if t.(C) then Some {| deadline := t.(deadline); C := false |} else None.

Definition step (lbl : Label) (w : Cluster) : option (res Cluster) :=
  match lbl with
  | LExpireElection i =>
      rf ← w.(nodes) !! i; t ← expire rf.(electionTimer);
      Some (Ret (put_node i (set_electionTimer t rf) w))
  | LExpireHeartbeat i =>
      rf ← w.(nodes) !! i; t ← expire rf.(heartbeatTimer);
      Some (Ret (put_node i (set_heartbeatTimer t rf) w))
  | LRecvElection i =>
      rf ← w.(nodes) !! i;
      match rf.(loop) with
      | LoopSelect => t ← recv rf.(electionTimer);
          Some (Ret (put_node i (set_loop LoopElection (set_electionTimer t rf)) w))
      | _ => None
      end
  | LRecvHeartbeat i =>
      rf ← w.(nodes) !! i;
      match rf.(loop) with
      | LoopSelect => t ← recv rf.(heartbeatTimer);
          Some (Ret (put_node i (set_loop LoopHeartbeat (set_heartbeatTimer t rf)) w))
      | _ => None
      end
  | LLoop i =>
      rf ← w.(nodes) !! i;
      match rf.(loop) with
      | LoopSelect => None
      | LoopElection =>
          Some (rf ← onElectionTimer (set_loop LoopSelect rf);
                Ret (add_vote (i, rf.(currentTerm), Z.of_nat i) (put_node i rf w)))
      | LoopHeartbeat => Some (Ret (put_node i (onHeartbeatTimer (set_loop LoopSelect rf)) w))
      end
  | LGo i k =>
      rf ← w.(nodes) !! i; inc ← w.(incs) !! i; g ← rf.(goroutines) !! k;
      Some (run_goroutine i k g rf inc w)
  | LDeliver k => p ← w.(net) !! k; deliver k p w
  | LDrop k => _ ← w.(net) !! k; Some (Ret (put_net (delete k w.(net)) w))
  | LStart i command =>
      rf ← w.(nodes) !! i;
      let '(term, isLeader) := GetState rf in
      if isLeader then Some (Ret (put_node i (spawn (GoStart command term) rf) w))
      else Some (Ret w)
  | LCrash i =>
      rf ← w.(nodes) !! i;
      Some (Ret (put_applied i []
                   (bump_inc i (put_node i (start1 rf.(peers) i rf.(persister)) w))))
  end.

(** [make_config]: [n] fresh servers. *)
Definition init (n : nat) : Cluster :=
  {| nodes := map (fun i => Make n (Z.of_nat i) MakePersister) (seq 0 n);
     incs := replicate n 0%nat; net := []; applied := replicate n [];
     votes := []; counted := []; leaders := ∅ |}.

(** A sequence of labels, each enabled and without a panic. *)
Fixpoint run (ls : list Label) (w : Cluster) : option Cluster :=
  match ls with
  | [] => Some w
  | lbl :: ls =>
      match step lbl w with
      | Some (Ret w') => run ls w'
      | _ => None
      end
  end.

Inductive reachable (n : nat) : Cluster -> Prop :=
| reach_init : reachable n (init n)
| reach_step lbl w w' :
    reachable n w -> step lbl w = Some (Ret w') -> reachable n w'.

(** ** Timely runs

    A run is timely when three races do not happen: a vote is counted only
    while the candidate is still in the term of the election, the body of the
    election timeout does not run on a peer that has become leader since the
    timer fired, and [Start] appends only while the peer is still the leader of
    the term it read. *)
Definition timely (lbl : Label) (w : Cluster) : Prop :=
  match lbl with
  | LLoop i =>
      forall rf, w.(nodes) !! i = Some rf -> rf.(loop) = LoopElection -> rf.(state) <> Leader
  | LDeliver k =>
      forall src inc dst args reply rf,
        w.(net) !! k = Some (VoteRep src inc dst args reply) ->
        w.(nodes) !! src = Some rf -> reply.(rvr_VoteGranted) = true ->
        rf.(state) = Candidate -> rf.(currentTerm) = args.(rv_Term)
  | LGo i k =>
      forall rf command term,
        w.(nodes) !! i = Some rf -> rf.(goroutines) !! k = Some (GoStart command term) ->
        rf.(state) = Leader /\ rf.(currentTerm) = term
  | _ => True
  end.

Inductive timely_reachable (n : nat) : Cluster -> Prop :=
| treach_init : timely_reachable n (init n)
| treach_step lbl w w' :
    timely_reachable n w -> timely lbl w -> step lbl w = Some (Ret w') ->
    timely_reachable n w'.

Lemma timely_is_reachable n w : timely_reachable n w -> reachable n w.
Proof. induction 1; eauto using reachable. Qed.

Lemma run_reachable n ls w w' : reachable n w -> run ls w = Some w' -> reachable n w'.
Proof.
  revert w. induction ls as [|lbl ls IH]; cbn; intros w Hr E; [by simplify_eq|].
  destruct (step lbl w) as [[w1|]|] eqn:Hs; [|done..]. eauto using reachable.
Qed.
End cluster.

Arguments Packet : clear implicits.
Arguments Cluster : clear implicits.
Arguments Label : clear implicits.
