(* ===== verification/ClusterStep.v ===== *)
(** * ClusterStep: what a step of the cluster changes

    The well-formedness invariant of a cluster and, for every step, a digest
    ([summary]) of its effect on the terms, votes, states and logs.  The
    invariants of Election.v, Leaders.v and Apply.v are proved by cases on
    the digest. *)

From S2P Require Import Prelude Gob Raft RaftFacts RaftHandlers RaftSpec RaftReplicate Cluster.
Local Open Scope Z_scope.

Section digest.
Context {Cmd : Type} `{!Gob (PVal Cmd)} `{!Rand}.
Implicit Types (rf : Raft Cmd) (w : Cluster Cmd).

(** ** Quiet updates of a peer *)

Record same_core rf rf' : Prop := {
  sc_me : rf'.(me) = rf.(me);
  sc_peers : rf'.(peers) = rf.(peers);
  sc_persister : rf'.(persister) = rf.(persister);
  sc_term : rf'.(currentTerm) = rf.(currentTerm);
  sc_voted : rf'.(votedFor) = rf.(votedFor);
  sc_state : rf'.(state) = rf.(state);
  sc_logs : rf'.(logs) = rf.(logs);
  sc_count : rf'.(voteCount) = rf.(voteCount);
}.

(** Goroutines that a quiet step may start. *)
Definition go_new rf (g : Goroutine Cmd) : Prop :=
  match g with
  | GoVote _ _ => False
  | GoHeartbeat s => s ∈ others rf
  | GoApply s _ => 1 <= s
  | GoApplied s es => 1 <= s /\ es <> []
  | GoStart _ t => rf.(state) = Leader /\ t = rf.(currentTerm)
  end.

(** Goroutines and packets of the vote request for [j] in term [T]. *)
Definition is_vote (T : Z) (j : nat) (g : Goroutine Cmd) : Prop :=
  match g with GoVote s a => s = j /\ a.(rv_Term) = T | _ => False end.

Definition is_vote_pkt (i : nat) (T : Z) (j : nat) (p : Packet Cmd) : Prop :=
  match p with
  | VoteReq src _ dst a | VoteRep src _ dst a _ => src = i /\ dst = j /\ a.(rv_Term) = T
  | _ => False
  end.

Global Instance is_vote_dec T j g : Decision (is_vote T j g).
Proof. destruct g; cbn; apply _. Defined.
Global Instance is_vote_pkt_dec i T j p : Decision (is_vote_pkt i T j p).
Proof. destruct p; cbn; apply _. Defined.

Record quiet rf rf' : Prop := {
  q_core : same_core rf rf';
  q_wf : raft_wf rf -> raft_wf rf';
  q_go : forall g, g ∈ rf'.(goroutines) -> g ∈ rf.(goroutines) \/ go_new rf g;
  q_votes : forall T j, (cnt (is_vote T j) rf'.(goroutines) <= cnt (is_vote T j) rf.(goroutines))%nat;
}.

Lemma same_core_refl rf : same_core rf rf.
Proof. by split. Qed.

(** A peer whose core and goroutines did not change. *)
Lemma quiet_same rf rf' :
  same_core rf rf' -> (raft_wf rf -> raft_wf rf') -> rf'.(goroutines) = rf.(goroutines) ->
  quiet rf rf'.
Proof. intros Hc Hw E. split; [done..| |]; rewrite E; auto. Qed.

(** A peer that started goroutines none of which asks for a vote. *)
Lemma quiet_spawn rf rf' gs :
  same_core rf rf' -> (raft_wf rf -> raft_wf rf') ->
  rf'.(goroutines) = rf.(goroutines) ++ gs -> Forall (go_new rf) gs ->
  quiet rf rf'.
Proof.
  intros Hc Hw E Hn. split; [done..| |]; rewrite E.
  - intros g [?|Hg]%elem_of_app; [by left|right]. by eapply Forall_forall in Hn.
  - intros T j. rewrite cnt_app. enough (cnt (is_vote T j) gs = 0)%nat by lia.
    apply cnt_zero. intros g Hg Hv. eapply Forall_forall in Hn; [|done].
    by destruct g.
Qed.

Lemma quiet_del_go rf k rf' : quiet (del_go k rf) rf' -> quiet rf rf'.
Proof.
  intros [[] Hw Hg Hv]. split; [by split| | |].
  - intros Hwf. apply Hw. destruct Hwf. by split.
  - intros g Hin. destruct (Hg g Hin) as [H'|H']; [left|right; by destruct g].
    by apply elem_of_delete in H'.
  - intros T j. etrans; [apply Hv|]. apply cnt_delete_le.
Qed.

(** ** The answer to an AppendEntries RPC *)

Lemma broadcastHeartbeat_reply_inv rf server args reply rf' :
  raft_wf rf -> broadcastHeartbeat_reply rf server args reply = Ret rf' ->
  quiet rf rf' \/
  rf.(currentTerm) < reply.(aer_Term) /\ rf' = persist (adopt reply.(aer_Term) rf).
Proof.
  intros Hw E. unfold broadcastHeartbeat_reply in E. case_if.
  - do 2 bind_inv E. left.
    match type of E with commitScan _ ?r ?i = _ =>
      destruct (commitScan_spec r i) as (r' & c & gs & E' & -> & Hg & _ & Hc); [apply Hw|cbn; lia|]
    end.
    cbn in E'. rewrite E in E'. inv_res. apply upd_length in E0, E1.
    eapply quiet_spawn; [by split| |reflexivity|].
    + intros []. split; cbn in *; try congruence; lia.
    + destruct Hg as [->|(es & -> & _)]; repeat constructor. cbn.
      pose proof (wf_applied _ Hw). lia.
  - case_if.
    + rewrite convertTo_Follower in E. cbn in E. inv_res. right. split; [done|].
      unfold adopt. by destruct (Z.ltb_spec rf.(currentTerm) reply.(aer_Term)); [|lia].
    + bind_inv E. left. apply upd_length in E0.
      assert (Hq : quiet rf (set_nextIndex x rf)).
      { apply quiet_same; [by split| |done]. intros []. split; cbn; congruence || done. }
      case_if; [|by inv_res].
      revert E Hq. generalize (Z.to_nat args.(ae_PrevLogIndex)) as fuel.
      generalize args.(ae_PrevLogIndex) as i. intros i fuel. revert i.
      induction fuel as [|fuel IH]; cbn; intros i E Hq; [by inv_res|].
      bind_inv E. case_if; [|by eapply IH].
      bind_inv E. inv_res. apply upd_length in E2. cbn in E2.
      apply quiet_same; [by split| |done]. intros []. split; cbn; congruence || done.
Qed.

(** ** The digest of a step *)

(** Vote replies: what [startElection_reply] does. *)
Inductive vote_reply rf (args : RequestVoteArgs) (reply : RequestVoteReply) : Raft Cmd -> Prop :=
| vr_counted rf' :
    reply.(rvr_VoteGranted) = true -> rf.(state) = Candidate ->
    rf' = addVote args.(rv_Term) rf ->
    default 0 (rf'.(voteCount) !! args.(rv_Term)) <= Z.of_nat (rf.(peers) / 2) ->
    vote_reply rf args reply rf'
| vr_won rf1 rf' :
    reply.(rvr_VoteGranted) = true -> rf.(state) = Candidate ->
    rf1 = addVote args.(rv_Term) rf ->
    Z.of_nat (rf.(peers) / 2) < default 0 (rf1.(voteCount) !! args.(rv_Term)) ->
    convertTo Leader rf1 = Ret rf' ->
    vote_reply rf args reply rf'
| vr_ignored :
    (reply.(rvr_VoteGranted) = false \/ rf.(state) <> Candidate) ->
    reply.(rvr_Term) <= rf.(currentTerm) -> vote_reply rf args reply rf
| vr_higher :
    (reply.(rvr_VoteGranted) = false \/ rf.(state) <> Candidate) ->
    rf.(currentTerm) < reply.(rvr_Term) ->
    vote_reply rf args reply (persist (adopt reply.(rvr_Term) rf)).

Lemma startElection_reply_inv rf args reply rf' :
  startElection_reply rf args reply = Ret rf' -> vote_reply rf args reply rf'.
Proof.
  unfold startElection_reply. intros E.
  destruct (reply.(rvr_VoteGranted)) eqn:Hg; case_bool_decide as Hs; cbn [andb] in E.
  1: case_if; [by eapply vr_won|inv_res; by eapply vr_counted].
  all: case_if; [rewrite convertTo_Follower in E; cbn in E|]; inv_res;
    try (apply vr_ignored; [tauto|lia]).
  all: replace (toFollower (set_currentTerm reply.(rvr_Term) rf)) with (adopt reply.(rvr_Term) rf)
      by (unfold adopt; destruct (Z.ltb_spec rf.(currentTerm) reply.(rvr_Term)); [done|lia]);
    apply vr_higher; [tauto|lia].
Qed.

(** The peer after winning: same term, vote and log, only heartbeats started. *)
Lemma convertTo_Leader_inv rf rf' :
  rf.(state) = Candidate -> convertTo Leader rf = Ret rf' ->
  rf'.(me) = rf.(me) /\ rf'.(peers) = rf.(peers) /\ rf'.(persister) = rf.(persister) /\
  rf'.(currentTerm) = rf.(currentTerm) /\ rf'.(votedFor) = rf.(votedFor) /\
  rf'.(state) = Leader /\ rf'.(logs) = rf.(logs) /\ rf'.(voteCount) = rf.(voteCount) /\
  rf'.(goroutines) = rf.(goroutines) ++ map GoHeartbeat (others rf) /\
  (raft_wf rf -> raft_wf rf').
Proof.
  intros Hs. unfold convertTo. rewrite decide_False by congruence.
  rewrite broadcastHeartbeat_eq. cbn. intros E. inv_res. cbn. repeat (split; [done|]).
  intros []. split; cbn; rewrite ?length_map; done.
Qed.

(** What a peer sends as leader. *)
Definition segment rf (args : AppendEntriesArgs Cmd) : Prop :=
  rf.(state) = Leader /\ exists (next : nat) prev,
    (0 < next <= length rf.(logs))%nat /\
    rf.(logs) !! pred next = Some prev /\ args = append_args rf next prev.

(** The history variables are those of [w]. *)
Definition same_history w w' : Prop :=
  w'.(votes) = w.(votes) /\ w'.(counted) = w.(counted) /\ w'.(leaders) = w.(leaders).

Inductive summary : Label Cmd -> Cluster Cmd -> Cluster Cmd -> Prop :=
| sm_same lbl w k : summary lbl w (put_net (delete k w.(net)) w)
| sm_quiet lbl w w' i rf rf' :
    w.(nodes) !! i = Some rf -> quiet rf rf' -> same_history w w' ->
    w'.(nodes) = <[i := rf']> w.(nodes) ->
    (w'.(net) = w.(net) \/ (exists k, w'.(net) = delete k w.(net))
     \/ exists inc s args, w'.(net) = w.(net) ++ [AppReq i inc s args] /\
          GoHeartbeat s ∈ rf.(goroutines) /\ segment rf args) ->
    summary lbl w w'
| sm_send_vote lbl w w' i k rf inc s a :
    w.(nodes) !! i = Some rf -> rf.(goroutines) !! k = Some (GoVote s a) ->
    same_history w w' ->
    w'.(nodes) = <[i := del_go k rf]> w.(nodes) ->
    w'.(net) = w.(net) ++ [VoteReq i inc s a] ->
    summary lbl w w'
| sm_election w w' i rf rf1 e :
    w.(nodes) !! i = Some rf -> rf.(loop) = LoopElection ->
    rf1 = set_state (if decide (rf.(state) = Follower) then Candidate else rf.(state))
            (resetElectionTimer (set_loop LoopSelect rf)) ->
    idx rf.(logs) (len rf.(logs) - 1) = Ret e ->
    w' = add_vote (i, rf.(currentTerm) + 1, Z.of_nat i) (put_node i (elected rf1 e) w) ->
    summary (LLoop i) w w'
| sm_request_vote w w' k src inc dst args rf rf' reply :
    w.(net) !! k = Some (VoteReq src inc dst args) -> w.(nodes) !! dst = Some rf ->
    rv_outcome rf args rf' reply ->
    w'.(nodes) = <[dst := rf']> w.(nodes) ->
    w'.(net) = delete k w.(net) ++ [VoteRep src inc dst args reply] ->
    w'.(votes) = w.(votes) ++ (if reply.(rvr_VoteGranted)
                               then [(dst, args.(rv_Term), args.(rv_CandidateId))] else []) ->
    w'.(counted) = w.(counted) -> w'.(leaders) = w.(leaders) ->
    summary (LDeliver k) w w'
| sm_append w w' k src inc dst args rf rf' reply :
    w.(net) !! k = Some (AppReq src inc dst args) -> w.(nodes) !! dst = Some rf ->
    ae_outcome rf args rf' reply ->
    w'.(nodes) = <[dst := rf']> w.(nodes) ->
    w'.(net) = delete k w.(net) ++ [AppRep src inc dst args reply] ->
    same_history w w' ->
    summary (LDeliver k) w w'
| sm_vote_reply w w' k src inc dst args reply rf rf' :
    w.(net) !! k = Some (VoteRep src inc dst args reply) -> w.(nodes) !! src = Some rf ->
    vote_reply rf args reply rf' ->
    w'.(nodes) = <[src := rf']> w.(nodes) -> w'.(net) = delete k w.(net) ->
    w'.(votes) = w.(votes) ->
    w'.(counted) = w.(counted) ++ (if reply.(rvr_VoteGranted) && bool_decide (rf.(state) = Candidate)
                                   then [(src, args.(rv_Term), dst)] else []) ->
    w'.(leaders) = (if bool_decide (rf.(state) <> Leader) && bool_decide (rf'.(state) = Leader)
                    then <[rf'.(currentTerm) := (src, rf'.(logs))]> w.(leaders) else w.(leaders)) ->
    summary (LDeliver k) w w'
| sm_higher lbl w w' k i rf t :
    w.(nodes) !! i = Some rf -> rf.(currentTerm) < t ->
    w'.(nodes) = <[i := persist (adopt t rf)]> w.(nodes) ->
    w'.(net) = delete k w.(net) -> same_history w w' ->
    summary lbl w w'
| sm_start w w' i k rf rf' command term index :
    w.(nodes) !! i = Some rf -> rf.(goroutines) !! k = Some (GoStart command term) ->
    Start_append (del_go k rf) command term = Ret (rf', index) ->
    w' = put_leader term i rf'.(logs) (put_node i rf' w) ->
    summary (LGo i k) w w'
| sm_crash lbl w w' i rf :
    w.(nodes) !! i = Some rf ->
    w'.(nodes) = <[i := start1 rf.(peers) i rf.(persister)]> w.(nodes) ->
    w'.(net) = w.(net) -> same_history w w' ->
    summary lbl w w'.

(** ** Well-formed clusters *)

Section wf.
Context (n : nat).

Definition go_ok (i : nat) rf (g : Goroutine Cmd) : Prop :=
  match g with
  | GoVote s a => (s < n)%nat /\ s <> i /\ a.(rv_CandidateId) = Z.of_nat i /\
                  1 <= a.(rv_Term) <= rf.(currentTerm)
  | GoHeartbeat s => (s < n)%nat /\ s <> i
  | GoApply s _ => 1 <= s
  | GoApplied s es => 1 <= s /\ es <> []
  | GoStart _ t => 1 <= t <= rf.(currentTerm)
  end.

Record node_ok (i : nat) rf : Prop := {
  no_me : rf.(me) = Z.of_nat i;
  no_peers : rf.(peers) = n;
  no_wf : raft_wf rf;
  no_synced : synced rf;
  no_term : rf.(state) <> Follower -> 1 <= rf.(currentTerm);
  no_go : forall g, g ∈ rf.(goroutines) -> go_ok i rf g;
}.

Definition vote_ok w (src dst : nat) (a : RequestVoteArgs) : Prop :=
  src <> dst /\ (dst < n)%nat /\ a.(rv_CandidateId) = Z.of_nat src /\ 1 <= a.(rv_Term) /\
  exists rf, w.(nodes) !! src = Some rf /\ a.(rv_Term) <= rf.(currentTerm).

Definition pkt_ok w (p : Packet Cmd) : Prop :=
  match p with
  | VoteReq src _ dst a | VoteRep src _ dst a _ => vote_ok w src dst a
  | AppReq src _ dst a => src <> dst /\ (dst < n)%nat /\ args_wf a /\ 1 <= a.(ae_Term)
  | AppRep _ _ _ _ _ => True
  end.

Record cluster_wf w : Prop := {
  cw_len : length w.(nodes) = n;
  cw_node : forall i rf, w.(nodes) !! i = Some rf -> node_ok i rf;
  cw_pkt : forall p, p ∈ w.(net) -> pkt_ok w p;
}.

(** *** [Make] and restart *)

Lemma Make_fields (i : Z) ps :
  let r := Make (Cmd:=Cmd) n i ps in
  r.(me) = i /\ r.(peers) = n /\ r.(persister) = ps /\ r.(state) = Follower /\
  r.(goroutines) = [] /\ r.(voteCount) = ∅ /\ r.(commitIndex) = 0 /\ r.(lastApplied) = 0 /\
  r.(nextIndex) = replicate n 1 /\ r.(matchIndex) = replicate n 0.
Proof.
  unfold Make, readPersist, ReadRaftState.
  destruct (raftstate ps); [|destruct (decodeState _) as [[[? ?] ?]|]]; cbn; auto 12.
Qed.

Lemma Make_restored (i : Z) ps ps' :
  ps.(raftstate) = ps'.(raftstate) ->
  let r := Make (Cmd:=Cmd) n i ps in let r' := Make (Cmd:=Cmd) n i ps' in
  r.(currentTerm) = r'.(currentTerm) /\ r.(votedFor) = r'.(votedFor) /\ r.(logs) = r'.(logs).
Proof.
  intros E. unfold Make, readPersist, ReadRaftState. rewrite E.
  destruct (raftstate ps'); [|destruct (decodeState _) as [[[? ?] ?]|]]; cbn; auto.
Qed.

Lemma start1_restores i rf :
  node_ok i rf ->
  let r := start1 rf.(peers) i rf.(persister) in
  r.(currentTerm) = rf.(currentTerm) /\ r.(votedFor) = rf.(votedFor) /\ r.(logs) = rf.(logs).
Proof.
  intros Hok. destruct (no_synced _ _ Hok) as (Ht & Hv & Hl).
  rewrite (no_me _ _ Hok), (no_peers _ _ Hok) in Ht, Hv, Hl.
  cbn. unfold start1. rewrite (no_peers _ _ Hok).
  destruct (Make_restored (Z.of_nat i) (Copy (crash1 rf.(persister))) rf.(persister))
    as (-> & -> & ->); done.
Qed.

Lemma start1_ok i rf : node_ok i rf -> node_ok i (start1 rf.(peers) i rf.(persister)).
Proof.
  intros Hok. destruct (start1_restores i rf Hok) as (Ht & Hv & Hl).
  pose proof (no_wf _ _ Hok) as Hw. unfold start1 in *. rewrite (no_peers _ _ Hok) in *.
  destruct (Make_fields (Z.of_nat i) (Copy (crash1 rf.(persister))))
    as (Em & Ep & Eps & Es & Eg & _ & Ec & Ea & En & Emi).
  split; [done|done| |apply Make_synced|congruence|rewrite Eg; intros ? []%not_elem_of_nil].
  pose proof (wf_me _ Hw). rewrite (no_me _ _ Hok), (no_peers _ _ Hok) in *.
  split; rewrite ?Em, ?Ep, ?En, ?Emi, ?Ec, ?Ea, ?Hl, ?Ht, ?length_replicate;
    try done; apply Hw.
Qed.

Lemma init_node i rf : (init n).(nodes) !! i = Some rf ->
  (i < n)%nat /\ rf = Make n (Z.of_nat i) MakePersister.
Proof.
  cbn. intros Hi. rewrite list_lookup_fmap in Hi.
  destruct (seq 0 n !! i) as [j|] eqn:E; [|done]. cbn in Hi. simplify_eq.
  apply lookup_seq in E as [-> ?]. split; [lia|]. by rewrite Nat.add_0_l.
Qed.

Lemma init_wf : cluster_wf (init n).
Proof.
  split; [by cbn; rewrite length_map, length_seq| |intros ? []%not_elem_of_nil].
  intros i rf [Hi ->]%init_node.
  split; [done|done| |apply Make_synced|done|intros ? []%not_elem_of_nil].
  split; cbn; rewrite ?length_replicate; try done; try lia. apply log_wf_zero.
Qed.

(** *** Every step has a digest *)

Lemma onElectionTimer_inv i rf rf' :
  node_ok i rf -> onElectionTimer (set_loop LoopSelect rf) = Ret rf' ->
  exists e, idx rf.(logs) (len rf.(logs) - 1) = Ret e /\
    rf' = elected
            (set_state (if decide (rf.(state) = Follower) then Candidate else rf.(state))
               (resetElectionTimer (set_loop LoopSelect rf))) e.
Proof.
  intros Hok. unfold onElectionTimer, convertTo. cbn.
  destruct (log_wf_last rf.(logs)) as (e & He & _); [apply Hok|].
  pose proof (wf_me _ (no_wf _ _ Hok)). intros E. exists e. split; [done|].
  destruct (decide (rf.(state) = Follower)) as [Hs|Hs]; cbn in E.
  - rewrite Hs in E. rewrite decide_False in E by done.
    rewrite (startElection_eq _ e) in E by done. by inv_res.
  - rewrite (startElection_eq _ e) in E by done. inv_res. by destruct rf.
Qed.

Lemma onHeartbeatTimer_quiet rf : quiet rf (onHeartbeatTimer (set_loop LoopSelect rf)).
Proof.
  unfold onHeartbeatTimer. case_decide.
  - rewrite broadcastHeartbeat_eq.
    eapply quiet_spawn; [by split|by intros []|reflexivity|].
    apply Forall_map, Forall_forall. intros s Hs. done.
  - by apply quiet_same; [split|intros []|].
Qed.

Lemma quiet_go rf k rf' g gs :
  rf.(goroutines) !! k = Some g ->
  same_core rf rf' -> (raft_wf rf -> raft_wf rf') ->
  rf'.(goroutines) = delete k rf.(goroutines) ++ gs -> Forall (go_new rf) gs ->
  quiet rf rf'.
Proof.
  intros Hk [] Hw E Hn. apply (quiet_del_go _ k), (quiet_spawn _ _ gs); [by split| |done|].
  - intros Hwf. apply Hw. destruct Hwf. by split.
  - eapply Forall_impl; [done|]. by intros [].
Qed.

Lemma run_goroutine_summary w w' i k g rf inc :
  cluster_wf w -> w.(nodes) !! i = Some rf -> rf.(goroutines) !! k = Some g ->
  run_goroutine i k g rf inc w = Ret w' -> summary (LGo i k) w w'.
Proof.
  intros Hcw Hi Hk E. pose proof (cw_node _ Hcw _ _ Hi) as Hok.
  pose proof (no_go _ _ Hok g (list_elem_of_lookup_2 _ _ _ Hk)) as Hg.
  destruct g as [s a|s|s [|e es]|s es|c t]; cbn in E.
  - inv_res. by eapply sm_send_vote.
  - bind_inv E. destruct x as [args|]; inv_res; eapply sm_quiet; try done;
      try (eapply (quiet_go _ _ _ _ []); [done|by split|by intros []|by rewrite app_nil_r|done]).
    + right; right. exists inc, s, args. split; [done|].
      split; [by eapply list_elem_of_lookup_2|].
      by apply broadcastHeartbeat_send_inv in E0.
    + by left.
  - inv_res. eapply sm_quiet; try done; [|by left].
    eapply (quiet_go _ _ _ _ []); [done|by split|by intros []|by rewrite app_nil_r|done].
  - inv_res. eapply sm_quiet; try done; [|by left].
    eapply (quiet_go _ _ _ _ [_]); [done|by split|by intros []|done|].
    repeat constructor; done.
  - inv_res. cbn in Hg. eapply sm_quiet; try done; [|by left].
    eapply (quiet_go _ _ _ _ [_]); [done|by split| |done|].
    + intros []. split; cbn; try done. lia.
    + repeat constructor. cbn. lia.
  - bind_inv E. destruct x as [rf' index]. inv_res. by eapply sm_start.
Qed.

Lemma deliver_summary w w' k p :
  cluster_wf w -> w.(net) !! k = Some p ->
  deliver k p w = Some (Ret w') -> summary (LDeliver k) w w'.
Proof.
  intros Hcw Hk E. pose proof (cw_pkt _ Hcw p (list_elem_of_lookup_2 _ _ _ Hk)) as Hp.
  destruct p as [src inc dst a|src inc dst a reply|src inc dst a|src inc dst a reply]; cbn in E.
  - destruct (w.(nodes) !! dst) as [rf|] eqn:Hd; [|done]. injection E as E. bind_inv E.
    destruct x as [rf' reply]. inv_res.
    apply RequestVote_inv in E0; [|apply (cw_node _ Hcw _ _ Hd)].
    eapply sm_request_vote; try done; destruct (rvr_VoteGranted reply); cbn;
      by rewrite ?app_nil_r.
  - destruct (w.(nodes) !! src) as [rf|] eqn:Hd; [|done]. cbn in E.
    case_decide; injection E as E; [bind_inv E|]; inv_res; [|by apply sm_same].
    apply startElection_reply_inv in E0.
    eapply sm_vote_reply; try done;
      destruct (_ && bool_decide (state rf = Candidate)), (_ && bool_decide (state x = Leader));
      cbn; by rewrite ?app_nil_r.
  - destruct (w.(nodes) !! dst) as [rf|] eqn:Hd; [|done]. injection E as E. bind_inv E.
    destruct x as [rf' reply]. inv_res.
    apply AppendEntries_inv in E0; [|apply (cw_node _ Hcw _ _ Hd)|apply Hp].
    by eapply sm_append.
  - destruct (w.(nodes) !! src) as [rf|] eqn:Hd; [|done]. cbn in E.
    case_decide; injection E as E; [bind_inv E|]; inv_res; [|by apply sm_same].
    apply broadcastHeartbeat_reply_inv in E0 as [Hq|[Ht ->]]; [| |apply (cw_node _ Hcw _ _ Hd)].
    + eapply sm_quiet; try done. right; left. by exists k.
    + by eapply sm_higher.
Qed.

Lemma step_summary lbl w w' :
  cluster_wf w -> step lbl w = Some (Ret w') -> w' = w \/ summary lbl w w'.
Proof.
  intros Hcw E. destruct lbl as [i|i|i|i|i|i k|k|k|i c|i]; cbn in E.
  7: destruct (w.(net) !! k) as [p|] eqn:Hp; [|done]; right; by eapply deliver_summary.
  7: destruct (w.(net) !! k) as [p|] eqn:Hp; [|done]; right; cbn in E; simplify_eq; by apply sm_same.
  all: destruct (w.(nodes) !! i) as [rf|] eqn:Hi; [|done]; cbn in E.
  - destruct (expire _) as [t|]; [|done]. cbn in E. simplify_eq. right.
    eapply sm_quiet; try done; [|by left]. by apply quiet_same; [split|intros []|].
  - destruct (expire _) as [t|]; [|done]. cbn in E. simplify_eq. right.
    eapply sm_quiet; try done; [|by left]. by apply quiet_same; [split|intros []|].
  - destruct (loop rf); try done. destruct (recv _) as [t|]; [|done]. cbn in E. simplify_eq. right.
    eapply sm_quiet; try done; [|by left]. by apply quiet_same; [split|intros []|].
  - destruct (loop rf); try done. destruct (recv _) as [t|]; [|done]. cbn in E. simplify_eq. right.
    eapply sm_quiet; try done; [|by left]. by apply quiet_same; [split|intros []|].
  - destruct (loop rf) eqn:Hl; [done| |]; right.
    + injection E as E. bind_inv E. inv_res.
      apply (onElectionTimer_inv i) in E0 as (e & He & ->); [|by eapply cw_node].
      by eapply sm_election.
    + simplify_eq. eapply sm_quiet; try done; [|by left]. apply onHeartbeatTimer_quiet.
  - destruct (w.(incs) !! i) as [inc|]; [|done]. cbn in E.
    destruct (goroutines rf !! k) as [g|] eqn:Hg; [|done]. injection E as E. right.
    by eapply run_goroutine_summary.
  - case_bool_decide as Hs; simplify_eq; [right|by left].
    eapply sm_quiet; try done; [|by left].
    eapply quiet_spawn; [by split|by intros []|done|]. repeat constructor; done.
  - simplify_eq. right. by eapply sm_crash.
Qed.

(** *** Well-formedness is preserved *)

Lemma go_ok_mono i rf rf' g :
  rf.(currentTerm) <= rf'.(currentTerm) -> go_ok i rf g -> go_ok i rf' g.
Proof. destruct g; cbn; intuition lia. Qed.

Lemma node_ok_update i rf rf' :
  node_ok i rf -> rf'.(me) = rf.(me) -> rf'.(peers) = rf.(peers) ->
  raft_wf rf' -> synced rf' -> rf.(currentTerm) <= rf'.(currentTerm) ->
  (rf'.(state) <> Follower -> rf.(state) <> Follower \/ 1 <= rf'.(currentTerm)) ->
  (forall g, g ∈ rf'.(goroutines) -> g ∈ rf.(goroutines) \/ go_ok i rf' g) ->
  node_ok i rf'.
Proof.
  intros [] Hm Hp Hw Hs Ht Hst Hg. split; [congruence..|done|done| |].
  - intros Hf. destruct (Hst Hf) as [?|]; [|done]. etrans; [|done]. auto.
  - intros g [Hin|?]%Hg; [|done]. eapply go_ok_mono; eauto.
Qed.

Lemma quiet_ok i rf rf' : node_ok i rf -> quiet rf rf' -> node_ok i rf'.
Proof.
  intros Hok [[] Hw Hg Hv]. eapply node_ok_update; try done.
  - apply Hw, Hok.
  - eapply synced_frame; [apply Hok|done..].
  - lia.
  - intros Hf. left. congruence.
  - intros g [?|Hn]%Hg; [by left|right].
    destruct g; cbn in *; try done.
    + apply elem_of_others in Hn as [??]. rewrite (no_peers _ _ Hok), (no_me _ _ Hok) in *.
      split; [done|]. naive_solver.
    + destruct Hn as [Hs ->]. split; [|lia]. apply (no_term _ _ Hok). by rewrite Hs.
Qed.

Lemma elected_ok i rf e :
  node_ok i rf -> node_ok i (elected rf e).
Proof.
  intros Hok. pose proof (no_wf _ _ Hok) as Hw. pose proof (wf_term _ Hw).
  eapply node_ok_update; [done|done|done| |apply persist_synced|cbn; lia|cbn; lia|].
  - destruct Hw. split; cbn; auto. lia.
  - cbn. intros g [?|Hg]%elem_of_app; [by left|right].
    apply list_elem_of_fmap in Hg as (p & -> & Hp). apply elem_of_others in Hp as [??].
    rewrite (no_peers _ _ Hok), (no_me _ _ Hok) in *. cbn. rewrite (no_me _ _ Hok).
    split; [done|]. split; [naive_solver|]. split; [done|lia].
Qed.

Lemma set_state_ok i rf s :
  node_ok i rf -> 1 <= rf.(currentTerm) + 1 ->
  forall e, node_ok i (elected (set_state s rf) e).
Proof.
  intros Hok Ht e. pose proof (no_wf _ _ Hok) as Hw.
  eapply (node_ok_update i rf); [done|done|done| |apply persist_synced|cbn; lia|cbn; lia|].
  - destruct Hw. split; cbn; auto. lia.
  - cbn. intros g [?|Hg]%elem_of_app; [by left|right].
    apply list_elem_of_fmap in Hg as (p & -> & Hp). apply elem_of_others in Hp as [??].
    rewrite (no_peers _ _ Hok), (no_me _ _ Hok) in *. cbn. rewrite (no_me _ _ Hok).
    split; [done|]. split; [naive_solver|]. split; [done|lia].
Qed.

Lemma persist_adopt_ok i rf t : node_ok i rf -> node_ok i (persist (adopt t rf)).
Proof.
  intros Hok. destruct (adopt_frame t rf) as (Em & Ep & _ & _ & _ & _ & _ & Eg & _).
  pose proof (adopt_term t rf).
  eapply (node_ok_update i rf); try done.
  - apply persist_wf, adopt_wf, Hok.
  - apply persist_synced.
  - cbn. lia.
  - cbn. destruct (Z_lt_le_dec rf.(currentTerm) t).
    + rewrite adopt_higher_state by done. done.
    + rewrite adopt_low by done. auto.
  - cbn. rewrite Eg. auto.
Qed.

(** A higher term was adopted, or the state is as before. *)
Lemma adopt_state t rf :
  (adopt t rf).(state) <> Follower -> (adopt t rf).(state) = rf.(state) /\ t <= rf.(currentTerm).
Proof.
  intros Hs. destruct (Z_lt_le_dec rf.(currentTerm) t) as [Hlt|Hle].
  - by rewrite adopt_higher_state in Hs.
  - by rewrite adopt_low.
Qed.

Lemma rv_outcome_ok i rf args rf' reply :
  node_ok i rf -> rv_outcome rf args rf' reply -> node_ok i rf'.
Proof.
  intros Hok Ho. pose proof (rv_outcome_wf _ _ _ _ (no_wf _ _ Hok) Ho) as Hw.
  destruct (adopt_frame args.(rv_Term) rf) as (Em & Ep & _ & _ & _ & _ & _ & Eg & _).
  pose proof (adopt_term args.(rv_Term) rf). pose proof (adopt_state args.(rv_Term) rf) as Hst.
  destruct Ho; (eapply (node_ok_update i rf); try done; [apply persist_synced|..]);
    cbn in *; rewrite ?Eg; auto; try lia; intros Hf; left; destruct (Hst Hf); congruence.
Qed.

Lemma ae_outcome_ok i rf args rf' reply :
  node_ok i rf -> args_wf args -> ae_outcome rf args rf' reply -> node_ok i rf'.
Proof.
  intros Hok Ha Ho. pose proof (ae_outcome_wf _ _ _ _ (no_wf _ _ Hok) Ha Ho) as Hw.
  destruct (adopt_frame args.(ae_Term) rf) as (Em & Ep & _ & _ & El & _ & _ & Eg & _).
  pose proof (adopt_term args.(ae_Term) rf). pose proof (adopt_state args.(ae_Term) rf) as Hst.
  destruct Ho as [| | |prev rf1 rf2 ? ? ? -> Hc];
    [..|apply follower_commit_frame in Hc as (gs & -> & Hgs)];
    (eapply (node_ok_update i rf); try done; [apply persist_synced|..]);
    cbn in *; rewrite ?Eg; auto; try lia;
    try (intros Hf; left; destruct (Hst Hf); congruence).
  intros g [?|Hg]%elem_of_app; [by left|right].
  destruct Hgs as [->|(ci & es & -> & _)]; [by apply not_elem_of_nil in Hg|].
  apply list_elem_of_singleton in Hg as ->. cbn. pose proof (wf_applied _ (no_wf _ _ Hok)).
  rewrite El. lia.
Qed.

Lemma addVote_ok i rf t : node_ok i rf -> node_ok i (addVote t rf).
Proof.
  intros Hok. eapply (node_ok_update i rf); try done; auto.
  - destruct Hok as [? ? [] _ _ _]. by split.
  - eapply synced_frame; [apply Hok|done..].
Qed.

Lemma vote_reply_ok i rf args reply rf' :
  node_ok i rf -> vote_reply rf args reply rf' -> node_ok i rf'.
Proof.
  intros Hok [? _ _ -> _|rf1 ? _ Hs -> _ Hc| |]; auto using addVote_ok, persist_adopt_ok.
  apply (addVote_ok i rf args.(rv_Term)) in Hok.
  apply convertTo_Leader_inv in Hc as (Em & Ep & Eps & Et & Ev & Es & El & _ & Eg & Hw); [|done].
  eapply node_ok_update; try done.
  - apply Hw, Hok.
  - eapply synced_frame; [apply Hok|done..].
  - lia.
  - intros _. left. cbn. by rewrite Hs.
  - rewrite Eg. intros g [?|Hg]%elem_of_app; [by left|right].
    apply list_elem_of_fmap in Hg as (p & -> & Hp). apply elem_of_others in Hp as [??].
    rewrite (no_peers _ _ Hok), (no_me _ _ Hok) in *. cbn. split; [done|naive_solver].
Qed.

Lemma Start_append_inv rf c t rf' index :
  Start_append rf c t = Ret (rf', index) ->
  exists mi ni, length mi = length rf.(matchIndex) /\ length ni = length rf.(nextIndex) /\
    rf' = persist (set_nextIndex ni (set_matchIndex mi
            (set_logs (rf.(logs) ++ [{| le_Command := c; le_Term := t |}]) rf))) /\
    index = len rf.(logs).
Proof.
  unfold Start_append. intros E. do 2 bind_inv E. inv_res.
  apply upd_length in E0, E1. cbn in *. by exists x, x0.
Qed.

Lemma Start_append_ok i rf k c t rf' index :
  node_ok i rf -> 1 <= t -> Start_append (del_go k rf) c t = Ret (rf', index) -> node_ok i rf'.
Proof.
  intros Hok Ht (mi & ni & Hmi & Hni & -> & _)%Start_append_inv. cbn in *.
  eapply (node_ok_update i rf); try done; auto.
  - destruct (no_wf _ _ Hok). split; cbn; try done; try congruence.
    apply log_wf_app; [done|]. by repeat constructor.
  - apply persist_synced.
  - cbn. intros g Hg. left. by apply elem_of_delete in Hg.
Qed.

Lemma pkt_ok_mono w w' i rf rf' p :
  w.(nodes) !! i = Some rf -> w'.(nodes) = <[i := rf']> w.(nodes) ->
  rf.(currentTerm) <= rf'.(currentTerm) -> pkt_ok w p -> pkt_ok w' p.
Proof.
  intros Hi Hn Ht. assert (forall src dst a, vote_ok w src dst a -> vote_ok w' src dst a) as Hv.
  { intros src dst a (? & ? & ? & ? & rf0 & Hs & ?). repeat (split; [done|]). rewrite Hn.
    destruct (decide (src = i)) as [->|].
    - exists rf'. rewrite list_lookup_insert_eq by (by eapply lookup_lt_Some).
      split; [done|]. simplify_eq. lia.
    - exists rf0. by rewrite list_lookup_insert_ne. }
  destruct p; cbn; auto.
Qed.

Lemma cluster_wf_put w w' i rf rf' :
  cluster_wf w -> w.(nodes) !! i = Some rf -> w'.(nodes) = <[i := rf']> w.(nodes) ->
  node_ok i rf' -> rf.(currentTerm) <= rf'.(currentTerm) ->
  (forall p, p ∈ w'.(net) -> p ∈ w.(net) \/ pkt_ok w' p) ->
  cluster_wf w'.
Proof.
  intros [Hl Hnode Hpkt] Hi Hn Hok Ht Hp. split.
  - by rewrite Hn, length_insert.
  - intros j r. rewrite Hn. intros [(-> & -> & _)|[? ?]]%list_lookup_insert_Some; auto.
  - intros p [Hin|?]%Hp; [|done]. eapply pkt_ok_mono; eauto.
Qed.

(** The term of a peer never decreases. *)
Definition node_term (w : Cluster Cmd) (i : nat) : option Z := currentTerm <$> w.(nodes) !! i.

Lemma elem_of_delete_app {A} (l : list A) k x p : p ∈ delete k l ++ [x] -> p ∈ l \/ p = x.
Proof.
  intros [?%elem_of_delete|?%list_elem_of_singleton]%elem_of_app; auto.
Qed.

(** The cases of a step: a peer changes quietly and may send AppendEntries, a
    candidate sends a request for a vote, a handler answers. *)
Lemma wf_quiet w w' i rf rf' :
  cluster_wf w -> w.(nodes) !! i = Some rf -> quiet rf rf' -> w'.(nodes) = <[i := rf']> w.(nodes) ->
  (w'.(net) = w.(net) \/ (exists k, w'.(net) = delete k w.(net))
   \/ exists inc s args, w'.(net) = w.(net) ++ [AppReq i inc s args] /\
        GoHeartbeat s ∈ rf.(goroutines) /\ segment rf args) ->
  cluster_wf w'.
Proof.
  intros Hcw Hi Hq Hn Hnet. pose proof (cw_node _ Hcw _ _ Hi) as Hok.
  eapply (cluster_wf_put w w' i); try done; [by eapply quiet_ok| |].
  { by rewrite (sc_term _ _ (q_core _ _ Hq)). }
  intros p Hp. destruct Hnet as [Hnet|[[k Hnet]|(inc & s & args & Hnet & Hg & Hseg)]];
    rewrite Hnet in Hp; [by left|left; by apply elem_of_delete in Hp|].
  apply elem_of_app in Hp as [?| ->%list_elem_of_singleton]; [by left|right].
  apply (no_go _ _ Hok) in Hg as [? ?].
  destruct Hseg as (Hl & next & prev & Hr & Hprev & ->). cbn.
  split; [done|]. split; [done|].
  split; [apply append_args_wf; [apply Hok..|lia|done]|].
  apply (no_term _ _ Hok). by rewrite Hl.
Qed.

Lemma wf_send_vote w w' i k rf inc s a :
  cluster_wf w -> w.(nodes) !! i = Some rf -> rf.(goroutines) !! k = Some (GoVote s a) ->
  w'.(nodes) = <[i := del_go k rf]> w.(nodes) -> w'.(net) = w.(net) ++ [VoteReq i inc s a] ->
  cluster_wf w'.
Proof.
  intros Hcw Hi Hk Hn Hnet. pose proof (cw_node _ Hcw _ _ Hi) as Hok.
  pose proof (no_go _ _ Hok _ (list_elem_of_lookup_2 _ _ _ Hk)) as (? & ? & ? & ?).
  assert (quiet rf (del_go k rf)) as Hq.
  { eapply (quiet_go _ _ _ _ []); [done|by split|by intros []|by rewrite app_nil_r|done]. }
  eapply (cluster_wf_put w w' i); try done; [by eapply quiet_ok|].
  rewrite Hnet. intros p [?| ->%list_elem_of_singleton]%elem_of_app; [by left|right].
  cbn. split; [done|]. split; [done|]. split; [done|]. split; [lia|].
  exists (del_go k rf). rewrite Hn, list_lookup_insert_eq by (by eapply lookup_lt_Some).
  cbn. split; [done|lia].
Qed.

Lemma wf_request_vote w w' k src inc dst args rf rf' reply :
  cluster_wf w -> w.(net) !! k = Some (VoteReq src inc dst args) -> w.(nodes) !! dst = Some rf ->
  rv_outcome rf args rf' reply -> w'.(nodes) = <[dst := rf']> w.(nodes) ->
  w'.(net) = delete k w.(net) ++ [VoteRep src inc dst args reply] -> cluster_wf w'.
Proof.
  intros Hcw Hk Hi Ho Hn Hnet. pose proof (cw_node _ Hcw _ _ Hi) as Hok.
  pose proof (cw_pkt _ Hcw _ (list_elem_of_lookup_2 _ _ _ Hk)) as Hp.
  assert (rf.(currentTerm) <= rf'.(currentTerm)).
  { pose proof (adopt_term args.(rv_Term) rf). destruct Ho; cbn; lia. }
  eapply (cluster_wf_put w w' dst); try done; [by eapply rv_outcome_ok|].
  rewrite Hnet. intros p [?| ->]%elem_of_delete_app; [by left|right].
  change (pkt_ok w' (VoteReq src inc dst args)). by eapply (pkt_ok_mono w w' dst).
Qed.

Lemma wf_append w w' k src inc dst args rf rf' reply :
  cluster_wf w -> w.(net) !! k = Some (AppReq src inc dst args) -> w.(nodes) !! dst = Some rf ->
  ae_outcome rf args rf' reply -> w'.(nodes) = <[dst := rf']> w.(nodes) ->
  w'.(net) = delete k w.(net) ++ [AppRep src inc dst args reply] -> cluster_wf w'.
Proof.
  intros Hcw Hk Hi Ho Hn Hnet. pose proof (cw_node _ Hcw _ _ Hi) as Hok.
  pose proof (cw_pkt _ Hcw _ (list_elem_of_lookup_2 _ _ _ Hk)) as (_ & _ & Ha & _).
  assert (rf.(currentTerm) <= rf'.(currentTerm)).
  { pose proof (adopt_term args.(ae_Term) rf). destruct Ho as [| | |? ? ? ? ? ? -> Hc];
      [..|apply follower_commit_frame in Hc as (gs & -> & _)]; cbn; lia. }
  eapply (cluster_wf_put w w' dst); try done; [by eapply ae_outcome_ok|].
  rewrite Hnet. intros p [?| ->]%elem_of_delete_app; [by left|by right].
Qed.

Lemma wf_vote_reply w w' k src args reply rf rf' :
  cluster_wf w -> w.(nodes) !! src = Some rf -> vote_reply rf args reply rf' ->
  w'.(nodes) = <[src := rf']> w.(nodes) -> w'.(net) = delete k w.(net) -> cluster_wf w'.
Proof.
  intros Hcw Hi Hr Hn Hnet. pose proof (cw_node _ Hcw _ _ Hi) as Hok.
  assert (rf.(currentTerm) <= rf'.(currentTerm)).
  { destruct Hr as [? _ _ ->|? ? _ Hs' -> _ Hc| |]; cbn; [done| |done|rewrite adopt_term; lia].
    apply convertTo_Leader_inv in Hc as (_ & _ & _ & -> & _); done. }
  eapply (cluster_wf_put w w' src); try done; [by eapply vote_reply_ok|].
  rewrite Hnet. intros p Hin. left. by apply elem_of_delete in Hin.
Qed.

Lemma summary_wf lbl w w' : cluster_wf w -> summary lbl w w' -> cluster_wf w'.
Proof.
  intros Hcw Hs. destruct Hs as
    [lbl w k|lbl w w' i rf rf' Hi Hq Hh Hn Hnet|lbl w w' i k rf inc s a Hi Hk Hh Hn Hnet
    |w w' i rf rf1 e Hi Hl -> He ->|w w' k src inc dst args rf rf' reply Hk Hi Ho Hn Hnet Hv _ _
    |w w' k src inc dst args rf rf' reply Hk Hi Ho Hn Hnet Hh
    |w w' k src inc dst args reply rf rf' Hk Hi Hr Hn Hnet _ _ _
    |lbl w w' k i rf t Hi Ht Hn Hnet Hh|w w' i k rf rf' c t index Hi Hk Hst ->
    |lbl w w' i rf Hi Hn Hnet Hh].
  - destruct Hcw as [? ? Hp]. split; [done..|]. intros p Hin%elem_of_delete. by apply Hp in Hin.
  - by eapply wf_quiet.
  - by eapply wf_send_vote.
  - pose proof (cw_node _ Hcw _ _ Hi) as Hok. pose proof (wf_term _ (no_wf _ _ Hok)).
    eapply (cluster_wf_put w _ i); [done|done|reflexivity| |cbn; lia|auto].
    apply set_state_ok; [|cbn; lia]. eapply quiet_ok; [done|].
    by apply quiet_same; [split|intros []|].
  - by eapply wf_request_vote.
  - by eapply wf_append.
  - by eapply wf_vote_reply.
  - pose proof (cw_node _ Hcw _ _ Hi) as Hok.
    eapply (cluster_wf_put w w' i); try done; [by apply persist_adopt_ok| |].
    + cbn. rewrite adopt_term. lia.
    + rewrite Hnet. intros p Hin. left. by apply elem_of_delete in Hin.
  - pose proof (cw_node _ Hcw _ _ Hi) as Hok.
    pose proof (no_go _ _ Hok _ (list_elem_of_lookup_2 _ _ _ Hk)) as [? ?].
    eapply (cluster_wf_put w _ i rf rf'); try done; [by eapply Start_append_ok| |auto].
    by apply Start_append_inv in Hst as (mi & ni & _ & _ & -> & _).
  - pose proof (cw_node _ Hcw _ _ Hi) as Hok.
    eapply (cluster_wf_put w w' i); try done; [by apply start1_ok| |].
    + by rewrite (proj1 (start1_restores i rf Hok)).
    + rewrite Hnet. auto.
Qed.

Lemma reachable_wf w : reachable n w -> cluster_wf w.
Proof.
  induction 1 as [|lbl w w' _ IH Hs]; [apply init_wf|].
  destruct (step_summary _ _ _ IH Hs) as [->|Hsum]; [done|]. by eapply summary_wf.
Qed.
End wf.

End digest.
