(* ===== verification/Election.v ===== *)
(** * Election: votes, quorums and Election Safety

    In every run a server grants at most one candidate per term, also across
    crashes and restarts.  In timely runs (Cluster.v) at most one server is
    leader in a term. *)

From S2P Require Import Prelude Gob Raft RaftFacts RaftHandlers RaftSpec RaftReplicate.
From S2P Require Import Cluster ClusterStep.
Local Open Scope Z_scope.

Section election.
Context {Cmd : Type} `{!Gob (PVal Cmd)} `{!Rand} (n : nat).
Implicit Types (rf : Raft Cmd) (w : Cluster Cmd).

(** ** Terms and votes of one peer *)

(** A step raises the term, or keeps it and changes the vote only from none. *)
Definition vstep rf rf' : Prop :=
  rf.(currentTerm) < rf'.(currentTerm) \/
  rf.(currentTerm) = rf'.(currentTerm) /\
  (rf.(votedFor) = -1 \/ rf'.(votedFor) = rf.(votedFor)).

Lemma vstep_refl rf : vstep rf rf.
Proof. right. auto. Qed.

Lemma adopt_vstep t rf : vstep rf (persist (adopt t rf)).
Proof.
  unfold vstep. cbn. rewrite adopt_term. destruct (Z_lt_le_dec rf.(currentTerm) t).
  - left. lia.
  - right. rewrite adopt_low by done. split; [lia|by right].
Qed.

Lemma rv_outcome_vstep rf args rf' reply : rv_outcome rf args rf' reply -> vstep rf rf'.
Proof.
  intros [|Hm _|Hm _]; [right; auto|apply adopt_vstep|].
  unfold vstep. cbn. rewrite adopt_term. destruct Hm as [|[? Hv]]; [left; lia|right].
  split; [lia|]. destruct Hv as [|Hv]; [by left|by right].
Qed.

Lemma ae_outcome_vstep rf args rf' reply : ae_outcome rf args rf' reply -> vstep rf rf'.
Proof.
  intros [| | |prev rf1 rf2 ? ? ? -> Hc];
    [right; auto|apply adopt_vstep|apply adopt_vstep|].
  apply follower_commit_frame in Hc as (gs & -> & _). apply adopt_vstep.
Qed.

Lemma vote_reply_vstep rf args reply rf' : vote_reply rf args reply rf' -> vstep rf rf'.
Proof.
  intros [? _ _ -> _|? ? _ Hs -> _ Hc| |];
    [right; auto| |apply vstep_refl|apply adopt_vstep].
  apply convertTo_Leader_inv in Hc as (_ & _ & _ & Ht & Hv & _); [|done].
  right. rewrite Ht, Hv. auto.
Qed.

(** Use a hypothesis about the one peer that a step replaces. *)
Ltac put_by H := eapply H; [eassumption|first [eassumption|reflexivity]|].

Lemma summary_vstep lbl w w' i rf rf' :
  cluster_wf n w -> summary lbl w w' ->
  w.(nodes) !! i = Some rf -> w'.(nodes) !! i = Some rf' -> vstep rf rf'.
Proof.
  intros Hcw Hs Hi Hi'.
  assert (Hput : forall j r r', w.(nodes) !! j = Some r -> w'.(nodes) = <[j := r']> w.(nodes) ->
            vstep r r' -> vstep rf rf').
  { intros j r r' Hj Hn Hv. rewrite Hn in Hi'.
    apply list_lookup_insert_Some in Hi' as [(-> & -> & _)|[? ?]]; simplify_eq;
      [done|apply vstep_refl]. }
  destruct Hs as
    [lbl w k|lbl w w' j r r' Hj [[] _ _ _] Hh Hn Hnet|lbl w w' j k r inc s a Hj Hk Hh Hn Hnet
    |w w' j r r1 e Hj Hl -> He ->|w w' k src inc dst args r r' reply Hk Hj Ho Hn Hnet Hv _ _
    |w w' k src inc dst args r r' reply Hk Hj Ho Hn Hnet Hh
    |w w' k src inc dst args reply r r' Hk Hj Hr Hn Hnet _ _ _
    |lbl w w' k j r t Hj Ht Hn Hnet Hh|w w' j k r r' c t index Hj Hk Hst ->
    |lbl w w' j r Hj Hn Hnet Hh].
  - cbn in Hi'. simplify_eq. apply vstep_refl.
  - put_by (Hput j). right. auto.
  - put_by (Hput j). right. auto.
  - put_by (Hput j). left. cbn. lia.
  - put_by (Hput dst). by eapply rv_outcome_vstep.
  - put_by (Hput dst). by eapply ae_outcome_vstep.
  - put_by (Hput src). by eapply vote_reply_vstep.
  - put_by (Hput j). apply adopt_vstep.
  - put_by (Hput j). apply Start_append_inv in Hst as (mi & ni & _ & _ & -> & _).
    right. auto.
  - put_by (Hput j). apply (cw_node _ _ Hcw) in Hj as Hok.
    destruct (start1_restores n j r Hok) as (Ht & Hv & _). right. rewrite Ht, Hv. auto.
Qed.

(** ** At most one vote per term *)

Record votes_inv w : Prop := {
  vi_vote : forall j T c, (j, T, c) ∈ w.(votes) -> 0 <= c /\
    exists rf, w.(nodes) !! j = Some rf /\ T <= rf.(currentTerm) /\
               (T = rf.(currentTerm) -> rf.(votedFor) = c);
  vi_once : forall j T c c', (j, T, c) ∈ w.(votes) -> (j, T, c') ∈ w.(votes) -> c = c';
  vi_rep : forall src inc dst a r, VoteRep src inc dst a r ∈ w.(net) ->
    r.(rvr_VoteGranted) = true -> (dst, a.(rv_Term), Z.of_nat src) ∈ w.(votes);
  vi_self : forall i rf s a, w.(nodes) !! i = Some rf -> GoVote s a ∈ rf.(goroutines) ->
    (i, a.(rv_Term), Z.of_nat i) ∈ w.(votes);
  vi_self_pkt : forall src dst T p, p ∈ w.(net) -> is_vote_pkt src T dst p ->
    (src, T, Z.of_nat src) ∈ w.(votes);
}.

Lemma summary_lookup lbl w w' i rf :
  summary lbl w w' -> w.(nodes) !! i = Some rf -> exists rf', w'.(nodes) !! i = Some rf'.
Proof.
  intros Hs Hi. enough (Hn : length w'.(nodes) = length w.(nodes)).
  { apply lookup_lt_is_Some_2. rewrite Hn. by eapply lookup_lt_Some. }
  destruct Hs; subst; cbn;
    repeat match goal with H : nodes w' = _ |- _ => rewrite H end; by rewrite ?length_insert.
Qed.

(** The recorded votes stay true when no vote is added. *)
Lemma vi_vote_keep lbl w w' j T c :
  cluster_wf n w -> votes_inv w -> summary lbl w w' -> (j, T, c) ∈ w.(votes) ->
  0 <= c /\ exists rf, w'.(nodes) !! j = Some rf /\ T <= rf.(currentTerm) /\
               (T = rf.(currentTerm) -> rf.(votedFor) = c).
Proof.
  intros Hcw Hv Hs Hin. destruct (vi_vote _ Hv _ _ _ Hin) as (Hc & rf & Hj & Ht & Hvf).
  split; [done|]. destruct (summary_lookup _ _ _ _ _ Hs Hj) as [rf' Hj'].
  exists rf'. split; [done|].
  destruct (summary_vstep _ _ _ _ _ _ Hcw Hs Hj Hj') as [?|[Heq Hvs]]; [lia|].
  split; [lia|]. intros ->. rewrite Heq in Hvf. specialize (Hvf eq_refl).
  destruct Hvs; [lia|congruence].
Qed.

(** Goroutines of a peer that ask for votes after a step: old ones, or those of
    a new election. *)
Definition go_votes_keep rf rf' : Prop :=
  forall s a, GoVote s a ∈ rf'.(goroutines) -> GoVote s a ∈ rf.(goroutines).

Lemma quiet_go_votes rf rf' : quiet rf rf' -> go_votes_keep rf rf'.
Proof. intros Hq s a Hin. by destruct (q_go _ _ Hq _ Hin) as [|[]]. Qed.

Lemma rv_outcome_go rf args rf' reply :
  rv_outcome rf args rf' reply -> rf'.(goroutines) = rf.(goroutines).
Proof.
  destruct (adopt_frame args.(rv_Term) rf) as (_ & _ & _ & _ & _ & _ & _ & Eg & _).
  by intros []; cbn; rewrite ?Eg.
Qed.

Lemma ae_outcome_go rf args rf' reply :
  ae_outcome rf args rf' reply ->
  exists gs, rf'.(goroutines) = rf.(goroutines) ++ gs /\
    forall g, g ∈ gs -> exists s es, g = GoApply s es.
Proof.
  destruct (adopt_frame args.(ae_Term) rf) as (_ & _ & _ & _ & _ & _ & _ & Eg & _).
  intros [| | |prev rf1 rf2 ? ? ? -> Hc]; cbn; rewrite ?Eg;
    try (exists []; rewrite app_nil_r; split; [done|by intros ? []%not_elem_of_nil]).
  apply follower_commit_frame in Hc as (gs & -> & Hgs). cbn. rewrite Eg. exists gs.
  split; [done|]. intros g Hg. destruct Hgs as [->|(ci & es & -> & _)].
  - by apply not_elem_of_nil in Hg.
  - apply list_elem_of_singleton in Hg as ->. eauto.
Qed.

Lemma vote_reply_go rf args reply rf' :
  vote_reply rf args reply rf' ->
  exists gs, rf'.(goroutines) = rf.(goroutines) ++ gs /\
    forall g, g ∈ gs -> exists s, g = GoHeartbeat s.
Proof.
  destruct (adopt_frame reply.(rvr_Term) rf) as (_ & _ & _ & _ & _ & _ & _ & Eg & _).
  intros [? _ _ -> _|? ? _ Hs -> _ Hc| |]; cbn; rewrite ?Eg;
    try (exists []; rewrite app_nil_r; split; [done|by intros ? []%not_elem_of_nil]).
  apply convertTo_Leader_inv in Hc as (_ & _ & _ & _ & _ & _ & _ & _ & -> & _); [|done].
  eexists. split; [done|]. intros g (s & -> & _)%list_elem_of_fmap. eauto.
Qed.

(** The shape of the vote goroutines and packets after a step. *)
Definition kept (w w' : Cluster Cmd) : Prop := forall v, v ∈ w.(votes) -> v ∈ w'.(votes).

(** The goroutines that ask for votes ask for the vote of their own election. *)
Lemma summary_go_votes lbl w w' :
  cluster_wf n w -> votes_inv w -> summary lbl w w' -> kept w w' ->
  forall i rf s a, w'.(nodes) !! i = Some rf -> GoVote s a ∈ rf.(goroutines) ->
    (i, a.(rv_Term), Z.of_nat i) ∈ w'.(votes).
Proof.
  intros Hcw Hv Hs Hmono.
  assert (Hput : forall j r r', w.(nodes) !! j = Some r -> w'.(nodes) = <[j := r']> w.(nodes) ->
      (forall s a, GoVote s a ∈ r'.(goroutines) -> GoVote s a ∈ r.(goroutines)
         \/ (j, a.(rv_Term), Z.of_nat j) ∈ w'.(votes)) ->
      forall i rf s a, w'.(nodes) !! i = Some rf -> GoVote s a ∈ rf.(goroutines) ->
        (i, a.(rv_Term), Z.of_nat i) ∈ w'.(votes)).
  { intros j r r' Hj Hn Hg i rf s a Hi Hin. rewrite Hn in Hi.
    apply list_lookup_insert_Some in Hi as [(-> & -> & _)|[? Hi]].
    - destruct (Hg _ _ Hin); [|done]. eapply Hmono, vi_self; eauto.
    - eapply Hmono, vi_self; eauto. }
  destruct Hs as
    [lbl w k|lbl w w' j r r' Hj Hq Hh Hn Hnet|lbl w w' j k r inc s a Hj Hk Hh Hn Hnet
    |w w' j r r1 e Hj Hl -> He ->|w w' k src inc dst args r r' reply Hk Hj Ho Hn Hnet Hvs _ _
    |w w' k src inc dst args r r' reply Hk Hj Ho Hn Hnet Hh
    |w w' k src inc dst args reply r r' Hk Hj Hr Hn Hnet _ _ _
    |lbl w w' k j r t Hj Ht Hn Hnet Hh|w w' j k r r' c t index Hj Hk Hst ->
    |lbl w w' j r Hj Hn Hnet Hh].
  - cbn. apply (vi_self _ Hv).
  - put_by (Hput j). left. by eapply quiet_go_votes.
  - put_by (Hput j). intros s0 a0 Hin. left. cbn in Hin. by apply elem_of_delete in Hin.
  - put_by (Hput j). cbn. intros s a [?|Hin]%elem_of_app; [by left|right].
    apply list_elem_of_fmap in Hin as (p & [= -> ->] & _). cbn.
    apply elem_of_app. right. by apply list_elem_of_singleton.
  - put_by (Hput dst). left. by rewrite <- (rv_outcome_go _ _ _ _ Ho).
  - destruct (ae_outcome_go _ _ _ _ Ho) as (gs & Eg & Hgs). put_by (Hput dst).
    rewrite Eg. intros s a [?|Hin]%elem_of_app; [by left|]. by destruct (Hgs _ Hin) as (? & ? & ?).
  - destruct (vote_reply_go _ _ _ _ Hr) as (gs & Eg & Hgs). put_by (Hput src).
    rewrite Eg. intros s a [?|Hin]%elem_of_app; [by left|]. by destruct (Hgs _ Hin) as (? & ?).
  - destruct (adopt_frame t r) as (_ & _ & _ & _ & _ & _ & _ & Eg & _).
    put_by (Hput j). cbn. rewrite Eg. auto.
  - apply Start_append_inv in Hst as (mi & ni & _ & _ & -> & _).
    put_by (Hput j). cbn. intros s a Hin. left. by apply elem_of_delete in Hin.
  - put_by (Hput j). intros s a Hin.
    destruct (Make_fields (Cmd:=Cmd) (peers r) (Z.of_nat j) (Copy (crash1 r.(persister))))
      as (_ & _ & _ & _ & Eg & _). unfold start1 in Hin. rewrite Eg in Hin.
    by apply not_elem_of_nil in Hin.
Qed.

(** So do the requests and replies in flight. *)
Lemma summary_pkt_votes lbl w w' :
  votes_inv w -> summary lbl w w' -> kept w w' ->
  forall src dst T p, p ∈ w'.(net) -> is_vote_pkt src T dst p -> (src, T, Z.of_nat src) ∈ w'.(votes).
Proof.
  intros Hv Hs Hmono.
  assert (Hold : forall src dst T p, p ∈ w.(net) -> is_vote_pkt src T dst p ->
      (src, T, Z.of_nat src) ∈ w'.(votes)).
  { intros src dst T p Hp Hvp. eapply Hmono, vi_self_pkt; eauto. }
  destruct Hs as
    [lbl w k|lbl w w' j r r' Hj Hq Hh Hn Hnet|lbl w w' j k r inc s a Hj Hk Hh Hn Hnet
    |w w' j r r1 e Hj Hl -> He ->|w w' k src inc dst args r r' reply Hk Hj Ho Hn Hnet Hvs _ _
    |w w' k src inc dst args r r' reply Hk Hj Ho Hn Hnet Hh
    |w w' k src inc dst args reply r r' Hk Hj Hr Hn Hnet _ _ _
    |lbl w w' k j r t Hj Ht Hn Hnet Hh|w w' j k r r' c t index Hj Hk Hst ->
    |lbl w w' j r Hj Hn Hnet Hh]; intros src' dst' T p Hp Hvp; try rewrite Hnet in Hp; cbn in Hp;
    eauto using elem_of_delete.
  - destruct Hnet as [Hnet|[[k Hnet]|(inc & s & args & Hnet & _)]]; rewrite Hnet in Hp;
      eauto using elem_of_delete.
    apply elem_of_app in Hp as [?| ->%list_elem_of_singleton]; [eauto|done].
  - apply elem_of_app in Hp as [?| ->%list_elem_of_singleton]; [eauto|].
    cbn in Hvp. destruct Hvp as (<- & <- & <-).
    eapply Hmono, vi_self; [done..|]. by eapply list_elem_of_lookup_2.
  - apply elem_of_app in Hp as [?| ->%list_elem_of_singleton]; [eauto using elem_of_delete|].
    cbn in Hvp. destruct Hvp as (<- & <- & <-).
    eapply (Hold src dst _ (VoteReq src inc dst args)); [|done]. by eapply list_elem_of_lookup_2.
  - apply elem_of_app in Hp as [?| ->%list_elem_of_singleton]; [eauto using elem_of_delete|done].
Qed.

(** The votes a step adds. *)
Lemma summary_new_votes lbl w w' :
  cluster_wf n w -> votes_inv w -> summary lbl w w' ->
  w'.(votes) = w.(votes) \/ exists j rf rf' T c,
    w.(nodes) !! j = Some rf /\ w'.(nodes) !! j = Some rf' /\
    w'.(votes) = w.(votes) ++ [(j, T, c)] /\ 0 <= c /\
    rf'.(currentTerm) = T /\ rf'.(votedFor) = c /\
    (rf.(currentTerm) < T \/ rf.(currentTerm) = T /\ (rf.(votedFor) = -1 \/ rf.(votedFor) = c)).
Proof.
  intros Hcw Hv Hs. destruct Hs as
    [lbl w k|lbl w w' j r r' Hj Hq Hh Hn Hnet|lbl w w' j k r inc s a Hj Hk Hh Hn Hnet
    |w w' j r r1 e Hj Hl -> He ->|w w' k src inc dst args r r' reply Hk Hj Ho Hn Hnet Hvs _ _
    |w w' k src inc dst args r r' reply Hk Hj Ho Hn Hnet Hh
    |w w' k src inc dst args reply r r' Hk Hj Hr Hn Hnet Hvs _ _
    |lbl w w' k j r t Hj Ht Hn Hnet Hh|w w' j k r r' c t index Hj Hk Hst ->
    |lbl w w' j r Hj Hn Hnet Hh];
    try (left; first [reflexivity | assumption | apply Hh]).
  - right. do 5 eexists. split; [done|].
    split; [cbn; apply list_lookup_insert_eq; by eapply lookup_lt_Some|].
    split; [reflexivity|]. cbn. rewrite (no_me _ _ _ (cw_node _ _ Hcw _ _ Hj)).
    repeat (split; [lia|]). lia.
  - pose proof (cw_pkt _ _ Hcw _ (list_elem_of_lookup_2 _ _ _ Hk)) as (_ & _ & Hc & _).
    destruct Ho as [|Hm Hu|Hm Hu]; cbn in Hvs; try (left; by rewrite app_nil_r in Hvs).
    right. do 5 eexists. split; [done|].
    split; [rewrite Hn; apply list_lookup_insert_eq; by eapply lookup_lt_Some|].
    split; [done|]. split; [lia|]. cbn. rewrite adopt_term.
    destruct Hm; split_and!; try done; lia.
Qed.

(** Every vote is recorded by its server, and it is the only one of its term. *)
Lemma summary_votes_once lbl w w' :
  cluster_wf n w -> votes_inv w -> summary lbl w w' ->
  forall j T c, (j, T, c) ∈ w'.(votes) ->
    (0 <= c /\ exists rf, w'.(nodes) !! j = Some rf /\ T <= rf.(currentTerm) /\
              (T = rf.(currentTerm) -> rf.(votedFor) = c)) /\
    forall c', (j, T, c') ∈ w'.(votes) -> c = c'.
Proof.
  intros Hcw Hv Hs. destruct (summary_new_votes _ _ _ Hcw Hv Hs)
    as [->|(j & rf & rf' & T & c & Hj & Hj' & -> & Hc & Ht & Hvf & Hok)].
  { intros j T c Hin. split; [by eapply vi_vote_keep|]. intros c' ?. by eapply (vi_once _ Hv). }
  assert (Hfresh : forall c', (j, T, c') ∈ w.(votes) -> c' = c).
  { intros c' Hin. destruct (vi_vote _ Hv _ _ _ Hin) as (? & rf0 & Hj0 & Hle & Hvo).
    simplify_eq. destruct Hok as [?|[Heq Hvv]]; [lia|].
    rewrite Hvo in Hvv by done. destruct Hvv; [lia|done]. }
  intros j0 T0 c0 [Hin|Hin]%elem_of_app.
  - split; [by eapply vi_vote_keep|]. intros c' [?|Hc']%elem_of_app; [by eapply (vi_once _ Hv)|].
    apply list_elem_of_singleton in Hc'. simplify_eq. by apply Hfresh.
  - apply list_elem_of_singleton in Hin. simplify_eq. split.
    + split; [done|]. exists rf'. split; [done|]. split; [lia|done].
    + intros c' [Hin|Hin]%elem_of_app; [by rewrite (Hfresh c')|].
      apply list_elem_of_singleton in Hin. by simplify_eq.
Qed.

(** A reply that grants a vote is in flight only after the vote. *)
Lemma summary_reply_votes lbl w w' :
  cluster_wf n w -> votes_inv w -> summary lbl w w' -> kept w w' ->
  forall src inc dst a r, VoteRep src inc dst a r ∈ w'.(net) ->
    r.(rvr_VoteGranted) = true -> (dst, a.(rv_Term), Z.of_nat src) ∈ w'.(votes).
Proof.
  intros Hcw Hv Hs Hmono src inc dst a r Hin Hg.
  assert (Hold : VoteRep src inc dst a r ∈ w.(net) -> (dst, rv_Term a, Z.of_nat src) ∈ w'.(votes)).
  { intros Hin'. by eapply Hmono, vi_rep. }
  destruct Hs as
    [lbl w k|lbl w w' j r0 r' Hj Hq Hh Hn Hnet|lbl w w' j k r0 i0 s a0 Hj Hk Hh Hn Hnet
    |w w' j r0 r1 e Hj Hl -> He ->|w w' k src0 i0 dst0 args r0 r' reply Hk Hj Ho Hn Hnet Hvs _ _
    |w w' k src0 i0 dst0 args r0 r' reply Hk Hj Ho Hn Hnet Hh
    |w w' k src0 i0 dst0 args reply r0 r' Hk Hj Hr Hn Hnet Hvs _ _
    |lbl w w' k j r0 t Hj Ht Hn Hnet Hh|w w' j k r0 r' c t index Hj Hk Hst ->
    |lbl w w' j r0 Hj Hn Hnet Hh]; try rewrite Hnet in Hin; auto.
  - cbn in Hin. eauto using elem_of_delete.
  - destruct Hnet as [Hnet|[[k Hnet]|(i0 & s & args & Hnet & _)]]; rewrite Hnet in Hin;
      eauto using elem_of_delete.
    by apply elem_of_app in Hin as [?|?%list_elem_of_singleton]; auto.
  - by apply elem_of_app in Hin as [?|?%list_elem_of_singleton]; auto.
  - apply elem_of_app in Hin as [?|Hin]; eauto using elem_of_delete.
    apply list_elem_of_singleton in Hin. simplify_eq. rewrite Hg in Hvs. rewrite Hvs.
    pose proof (cw_pkt _ _ Hcw _ (list_elem_of_lookup_2 _ _ _ Hk)) as (_ & _ & <- & _).
    apply elem_of_app. right. by apply list_elem_of_singleton.
  - apply elem_of_app in Hin as [?|?%list_elem_of_singleton]; [|done]. eauto using elem_of_delete.
  - eauto using elem_of_delete.
  - eauto using elem_of_delete.
Qed.

Lemma votes_inv_step lbl w w' :
  cluster_wf n w -> votes_inv w -> summary lbl w w' -> votes_inv w'.
Proof.
  intros Hcw Hv Hs. assert (kept w w') as Hmono.
  { intros v Hin. destruct (summary_new_votes _ _ _ Hcw Hv Hs)
      as [->|(? & ? & ? & ? & ? & _ & _ & -> & _)]; [done|]. apply elem_of_app. by left. }
  pose proof (summary_votes_once _ _ _ Hcw Hv Hs) as Hnew. split.
  - apply Hnew.
  - intros j T c c' Hin. by apply Hnew.
  - by eapply summary_reply_votes.
  - by eapply summary_go_votes.
  - by eapply summary_pkt_votes.
Qed.

Lemma init_votes_inv : votes_inv (init n).
Proof.
  split; cbn; try (by intros; exfalso; eapply not_elem_of_nil).
  intros i rf s a [_ ->]%init_node Hin. by apply not_elem_of_nil in Hin.
Qed.

Lemma reachable_votes_inv w : reachable n w -> votes_inv w.
Proof.
  induction 1 as [|lbl w w' Hr IH Hs]; [apply init_votes_inv|].
  apply reachable_wf in Hr. destruct (step_summary _ _ _ _ Hr Hs) as [->|?]; [done|].
  by eapply votes_inv_step.
Qed.

End election.
