(* ===== verification/ElectionSafety.v ===== *)
(** * ElectionSafety: counted votes are distinct, quorums intersect

    The counter of an election never exceeds the number of distinct servers
    that granted it, so a peer that passes the majority test in the term of the
    election has a quorum of votes, and no two candidates have a quorum in one
    term. *)

From S2P Require Import Prelude Gob Raft RaftFacts RaftHandlers RaftSpec RaftReplicate.
From S2P Require Import Cluster ClusterStep Election.
Local Open Scope Z_scope.

Section safety.
Context {Cmd : Type} `{!Gob (PVal Cmd)} `{!Rand} (n : nat).
Implicit Types (rf : Raft Cmd) (w : Cluster Cmd).

(** ** Counting *)

Lemma NoDup_cnt {A} `{EqDecision A} (l : list A) (y : A) :
  NoDup l -> (cnt (fun x => x = y) l <= 1)%nat.
Proof.
  induction 1 as [|x l Hx _ IH]; [rewrite cnt_nil; lia|]. rewrite cnt_cons. case_decide; [|lia].
  subst. enough (cnt (fun x => x = y) l = 0)%nat by lia.
  apply cnt_zero. intros z Hz ->. done.
Qed.

Lemma cnt_one_NoDup {A} `{EqDecision A} (l : list A) :
  (forall y, (cnt (fun x => x = y) l <= 1)%nat) -> NoDup l.
Proof.
  induction l as [|x l IH]; intros Hc; constructor.
  - intros Hin. specialize (Hc x). rewrite cnt_cons, decide_True in Hc by done.
    pose proof (cnt_pos (fun y => y = x) l x Hin eq_refl). lia.
  - apply IH. intros y. specialize (Hc y). rewrite cnt_cons in Hc. lia.
Qed.

Lemma cnt_vote_map T j args (ps : list nat) :
  NoDup ps ->
  (cnt (is_vote (Cmd:=Cmd) T j) (map (fun p => GoVote p args) ps)
   <= if decide (args.(rv_Term) = T) then 1 else 0)%nat.
Proof.
  intros Hnd. transitivity (if decide (args.(rv_Term) = T) then cnt (fun x => x = j) ps else 0%nat).
  - induction ps as [|p ps IH]; [cbn; rewrite !cnt_nil; case_decide; lia|]. inversion Hnd; subst. specialize (IH H3).
    cbn [map]. rewrite !cnt_cons. cbn. repeat case_decide; intuition lia.
  - case_decide; [by apply NoDup_cnt|done].
Qed.

Definition is_count (i : nat) (T : Z) (x : nat * Z * nat) : Prop := x.1 = (i, T).

Global Instance is_count_dec i T x : Decision (is_count i T x).
Proof. unfold is_count. apply _. Defined.

(** The places where the vote of [j] for [i] in term [T] can be: a goroutine
    that has not sent the request, an RPC in flight, a counted reply. *)
Definition occ w i rf T j : nat :=
  (cnt (is_vote T j) rf.(goroutines) + cnt (is_vote_pkt i T j) w.(net)
   + cnt (fun x => x = (i, T, j)) w.(counted))%nat.

Record count_inv w : Prop := {
  ci_occ : forall i rf T j, w.(nodes) !! i = Some rf -> (occ w i rf T j <= 1)%nat;
  ci_counted : forall i T j, (i, T, j) ∈ w.(counted) ->
    i <> j /\ (j < n)%nat /\ (j, T, Z.of_nat i) ∈ w.(votes) /\ (i, T, Z.of_nat i) ∈ w.(votes);
  ci_count : forall i rf T c, w.(nodes) !! i = Some rf -> rf.(voteCount) !! T = Some c ->
    c <= 1 + Z.of_nat (cnt (is_count i T) w.(counted)) /\ (i, T, Z.of_nat i) ∈ w.(votes);
}.

(** A vote request of a later term is nowhere yet. *)
Lemma occ_fresh w i rf T j :
  cluster_wf n w -> votes_inv w -> count_inv w -> w.(nodes) !! i = Some rf ->
  rf.(currentTerm) < T -> occ w i rf T j = 0%nat.
Proof.
  intros Hcw Hv Hc Hi Ht. unfold occ.
  assert (cnt (is_vote T j) rf.(goroutines) = 0%nat) as ->.
  { apply cnt_zero. intros g Hg Hgv.
    apply (no_go _ _ _ (cw_node _ _ Hcw _ _ Hi)) in Hg.
    destruct g; cbn in *; try done. destruct Hgv as [_ <-]. destruct_and!. lia. }
  assert (cnt (is_vote_pkt i T j) w.(net) = 0%nat) as ->.
  { apply cnt_zero. intros p Hp Hpv. apply (cw_pkt _ _ Hcw) in Hp.
    destruct p; cbn in *; try done; destruct Hpv as (-> & -> & <-);
      destruct Hp as (_ & _ & _ & _ & r & Hr & ?); simplify_eq; lia. }
  cbn. apply cnt_zero. intros [[i' T'] j'] Hin [= -> -> ->].
  apply (ci_counted _ Hc) in Hin as (_ & _ & _ & Hin).
  destruct (vi_vote _ Hv _ _ _ Hin) as (_ & r & Hr & ? & _). simplify_eq. lia.
Qed.

(** A step that changes one peer and does not add vote requests. *)
Lemma occ_le w w' i0 r r' i rf T j :
  w.(nodes) !! i0 = Some r -> w'.(nodes) = <[i0 := r']> w.(nodes) ->
  (cnt (is_vote T j) r'.(goroutines) <= cnt (is_vote T j) r.(goroutines))%nat ->
  (cnt (is_vote_pkt i T j) w'.(net) <= cnt (is_vote_pkt i T j) w.(net))%nat ->
  w'.(counted) = w.(counted) ->
  (forall rf0, w.(nodes) !! i = Some rf0 -> (occ w i rf0 T j <= 1)%nat) ->
  w'.(nodes) !! i = Some rf -> (occ w' i rf T j <= 1)%nat.
Proof.
  intros Hi Hn Hg Hp Hc Hocc Hi'. rewrite Hn in Hi'.
  apply list_lookup_insert_Some in Hi' as [(-> & -> & _)|[? Hi']].
  - specialize (Hocc _ Hi). unfold occ in *. rewrite Hc. lia.
  - specialize (Hocc _ Hi'). unfold occ in *. rewrite Hc. lia.
Qed.

Lemma go_grow_cnt T j (gs gs' gs0 : list (Goroutine Cmd)) :
  gs' = gs ++ gs0 -> (forall g, g ∈ gs0 -> forall s a, g <> GoVote s a) ->
  (cnt (is_vote T j) gs' <= cnt (is_vote T j) gs)%nat.
Proof.
  intros -> Hn. rewrite cnt_app. enough (cnt (is_vote T j) gs0 = 0%nat) by lia.
  apply cnt_zero. intros g Hg Hv. destruct g; cbn in *; try done. by eapply Hn.
Qed.

(** The four steps that move a vote request or a reply. *)

Lemma occ_send_vote (w w' : Cluster Cmd) i0 k r inc s a i rf T j :
  r.(goroutines) !! k = Some (GoVote s a) -> w.(nodes) !! i0 = Some r ->
  w'.(nodes) = <[i0 := del_go k r]> w.(nodes) ->
  w'.(net) = w.(net) ++ [VoteReq i0 inc s a] -> w'.(counted) = w.(counted) ->
  (forall rf0, w.(nodes) !! i = Some rf0 -> (occ w i rf0 T j <= 1)%nat) ->
  w'.(nodes) !! i = Some rf -> (occ w' i rf T j <= 1)%nat.
Proof.
  intros Hk Hi Hn Hnet Hcs Hocc Hi'. rewrite Hn in Hi'. unfold occ in *.
  rewrite Hnet, Hcs, cnt_snoc.
  apply list_lookup_insert_Some in Hi' as [(<- & <- & _)|[Hne Hi']].
  - specialize (Hocc _ Hi). rewrite (cnt_delete _ _ _ _ Hk) in Hocc.
    cbn in *. repeat case_decide; try lia; exfalso; tauto.
  - specialize (Hocc _ Hi'). rewrite decide_False by (intros [? _]; congruence). lia.
Qed.

Lemma occ_elect w i0 r r1 args v i rf T j :
  cluster_wf n w -> votes_inv w -> count_inv w -> w.(nodes) !! i0 = Some r ->
  r1.(goroutines) = r.(goroutines) ++ map (fun p => GoVote p args) (others r) ->
  args.(rv_Term) = r.(currentTerm) + 1 ->
  (forall rf0, w.(nodes) !! i = Some rf0 -> (occ w i rf0 T j <= 1)%nat) ->
  (add_vote v (put_node i0 r1 w)).(nodes) !! i = Some rf ->
  (occ (add_vote v (put_node i0 r1 w)) i rf T j <= 1)%nat.
Proof.
  intros Hcw Hv Hc Hi Hg Ht Hocc Hi'. cbn in Hi'. unfold occ in *.
  cbn [net counted add_vote put_node].
  apply list_lookup_insert_Some in Hi' as [(<- & <- & _)|[Hne Hi']]; [|by apply Hocc].
  rewrite Hg, cnt_app.
  pose proof (cnt_vote_map T j args (others r) (NoDup_others r)) as Hmap.
  specialize (Hocc _ Hi). rewrite Ht in Hmap.
  destruct (decide (r.(currentTerm) + 1 = T)) as [<-|]; [|lia].
  pose proof (occ_fresh w i0 r (r.(currentTerm) + 1) j Hcw Hv Hc Hi ltac:(lia)) as Hf.
  unfold occ in Hf. lia.
Qed.

Lemma occ_request_vote (w w' : Cluster Cmd) k src inc dst args reply r r' i rf T j :
  w.(net) !! k = Some (VoteReq src inc dst args) -> w.(nodes) !! dst = Some r ->
  r'.(goroutines) = r.(goroutines) -> w'.(nodes) = <[dst := r']> w.(nodes) ->
  w'.(net) = delete k w.(net) ++ [VoteRep src inc dst args reply] ->
  w'.(counted) = w.(counted) ->
  (forall rf0, w.(nodes) !! i = Some rf0 -> (occ w i rf0 T j <= 1)%nat) ->
  w'.(nodes) !! i = Some rf -> (occ w' i rf T j <= 1)%nat.
Proof.
  intros Hk Hi Hg Hn Hnet Hcs Hocc Hi'. rewrite Hn in Hi'. unfold occ in *.
  rewrite Hnet, Hcs, cnt_snoc.
  assert (Hrf : exists r0, w.(nodes) !! i = Some r0 /\ rf.(goroutines) = r0.(goroutines)).
  { apply list_lookup_insert_Some in Hi' as [(<- & <- & _)|[Hne Hi']]; eauto. }
  destruct Hrf as (r0 & Hr0 & ->). specialize (Hocc _ Hr0).
  rewrite (cnt_delete _ _ _ _ Hk) in Hocc. cbn in *. lia.
Qed.

Lemma occ_vote_reply (w w' : Cluster Cmd) k src inc dst args reply (b : bool) r r' gs i rf T j :
  w.(net) !! k = Some (VoteRep src inc dst args reply) -> w.(nodes) !! src = Some r ->
  r'.(goroutines) = r.(goroutines) ++ gs -> (forall g, g ∈ gs -> forall s a, g <> GoVote s a) ->
  w'.(nodes) = <[src := r']> w.(nodes) -> w'.(net) = delete k w.(net) ->
  w'.(counted) = w.(counted) ++ (if b then [(src, args.(rv_Term), dst)] else []) ->
  (forall rf0, w.(nodes) !! i = Some rf0 -> (occ w i rf0 T j <= 1)%nat) ->
  w'.(nodes) !! i = Some rf -> (occ w' i rf T j <= 1)%nat.
Proof.
  intros Hk Hi Hg Hgs Hn Hnet Hcs Hocc Hi'. rewrite Hn in Hi'. unfold occ in *.
  rewrite Hnet, Hcs.
  assert (Hrf : exists r0, w.(nodes) !! i = Some r0 /\
            (cnt (is_vote T j) rf.(goroutines) <= cnt (is_vote T j) r0.(goroutines))%nat).
  { apply list_lookup_insert_Some in Hi' as [(<- & <- & _)|[Hne Hi']]; [|by exists rf].
    exists r. split; [done|]. by eapply go_grow_cnt. }
  destruct Hrf as (r0 & Hr0 & Hle). specialize (Hocc _ Hr0).
  rewrite (cnt_delete _ _ _ _ Hk) in Hocc. cbn in Hocc.
  destruct b; [|rewrite app_nil_r; lia]. rewrite cnt_snoc.
  repeat case_decide; try lia. exfalso. destruct_and?. simplify_eq. tauto.
Qed.

Lemma ci_occ_step lbl w w' :
  cluster_wf n w -> votes_inv w -> count_inv w -> summary lbl w w' ->
  forall i rf T j, w'.(nodes) !! i = Some rf -> (occ w' i rf T j <= 1)%nat.
Proof.
  intros Hcw Hv Hc Hs i rf T j Hi'.
  assert (Hocc : forall rf0, w.(nodes) !! i = Some rf0 -> (occ w i rf0 T j <= 1)%nat)
    by (intros; by apply ci_occ).
  destruct Hs as
    [lbl w k|lbl w w' i0 r r' Hi Hq Hh Hn Hnet|lbl w w' i0 k r inc s a Hi Hk Hh Hn Hnet
    |w w' i0 r r1 e Hi Hl -> He ->|w w' k src inc dst args r r' reply Hk Hi Ho Hn Hnet Hvs Hcs _
    |w w' k src inc dst args r r' reply Hk Hi Ho Hn Hnet Hh
    |w w' k src inc dst args reply r r' Hk Hi Hr Hn Hnet Hvs Hcs _
    |lbl w w' k i0 r t Hi Ht Hn Hnet Hh|w w' i0 k r r' c t index Hi Hk Hst ->
    |lbl w w' i0 r Hi Hn Hnet Hh].
  - cbn in Hi'. specialize (Hocc _ Hi'). unfold occ in *. cbn.
    pose proof (cnt_delete_le (is_vote_pkt i T j) w.(net) k). lia.
  - eapply (occ_le w w' i0); [done..|by apply Hq| |apply Hh|done|done].
    destruct Hnet as [->|[[k ->]|(inc & s & args & -> & _)]]; [done|apply cnt_delete_le|].
    by rewrite cnt_snoc_not by (by intros []).
  - eapply occ_send_vote; [done..|apply Hh|done|done].
  - eapply occ_elect; [done..| | |exact Hocc|exact Hi']; reflexivity.
  - eapply occ_request_vote; [done|done|by eapply rv_outcome_go|done|done|done|done|done].
  - destruct (ae_outcome_go _ _ _ _ Ho) as (gs & Eg & Hgs).
    eapply (occ_le w w' dst); [done..| | |apply Hh|done|done].
    + eapply go_grow_cnt; [done|]. intros g Hg s a ->. by destruct (Hgs _ Hg) as (? & ? & ?).
    + rewrite Hnet, cnt_snoc_not by (by intros []). apply cnt_delete_le.
  - destruct (vote_reply_go _ _ _ _ Hr) as (gs & Eg & Hgs).
    eapply occ_vote_reply; [done..| |done|done|done|done|done].
    intros g Hg s a ->. by destruct (Hgs _ Hg) as (? & ?).
  - destruct (adopt_frame t r) as (_ & _ & _ & _ & _ & _ & _ & Eg & _).
    eapply (occ_le w w' i0); [done..| | |apply Hh|done|done]; [cbn; by rewrite Eg|].
    rewrite Hnet. apply cnt_delete_le.
  - apply Start_append_inv in Hst as (mi & ni & _ & _ & -> & _).
    eapply (occ_le w _ i0); [done|reflexivity| |done|done|done|done]. cbn. apply cnt_delete_le.
  - eapply (occ_le w w' i0); [done..| | |apply Hh|done|done]; [|by rewrite Hnet].
    destruct (Make_fields (Cmd:=Cmd) (peers r) (Z.of_nat i0) (Copy (crash1 r.(persister))))
      as (_ & _ & _ & _ & Eg & _). unfold start1. rewrite Eg, cnt_nil. lia.
Qed.

(** The recorded votes only grow. *)
Lemma votes_mono lbl w w' v :
  cluster_wf n w -> votes_inv w -> summary lbl w w' -> v ∈ w.(votes) -> v ∈ w'.(votes).
Proof.
  intros Hcw Hv Hs Hin. destruct (summary_new_votes n _ _ _ Hcw Hv Hs)
    as [->|(? & ? & ? & ? & ? & _ & _ & -> & _)]; [done|]. apply elem_of_app. by left.
Qed.

(** The votes a step counts. *)
Lemma summary_counted lbl w w' :
  summary lbl w w' ->
  w'.(counted) = w.(counted) \/
  exists k src inc dst args reply, w.(net) !! k = Some (VoteRep src inc dst args reply) /\
    reply.(rvr_VoteGranted) = true /\
    w'.(counted) = w.(counted) ++ [(src, args.(rv_Term), dst)].
Proof.
  intros Hs. destruct Hs as
    [lbl w k|lbl w w' i0 r r' Hi Hq Hh Hn Hnet|lbl w w' i0 k r inc s a Hi Hk Hh Hn Hnet
    |w w' i0 r r1 e Hi Hl -> He ->|w w' k src inc dst args r r' reply Hk Hi Ho Hn Hnet Hvs Hcs _
    |w w' k src inc dst args r r' reply Hk Hi Ho Hn Hnet Hh
    |w w' k src inc dst args reply r r' Hk Hi Hr Hn Hnet Hvs Hcs _
    |lbl w w' k i0 r t Hi Ht Hn Hnet Hh|w w' i0 k r r' c t index Hi Hk Hst ->
    |lbl w w' i0 r Hi Hn Hnet Hh]; try (left; done || apply Hh).
  destruct (rvr_VoteGranted reply) eqn:Hg; [|left; by rewrite app_nil_r in Hcs].
  cbn in Hcs. case_bool_decide; [|left; by rewrite app_nil_r in Hcs].
  right. by do 6 eexists.
Qed.

Lemma ci_counted_step lbl w w' :
  cluster_wf n w -> votes_inv w -> count_inv w -> summary lbl w w' ->
  forall i T j, (i, T, j) ∈ w'.(counted) ->
    i <> j /\ (j < n)%nat /\ (j, T, Z.of_nat i) ∈ w'.(votes) /\ (i, T, Z.of_nat i) ∈ w'.(votes).
Proof.
  intros Hcw Hv Hc Hs i T j Hin.
  enough (i <> j /\ (j < n)%nat /\ (j, T, Z.of_nat i) ∈ w.(votes) /\ (i, T, Z.of_nat i) ∈ w.(votes)).
  { destruct_and!. split_and!; [done..| |]; by eapply votes_mono. }
  destruct (summary_counted _ _ _ Hs) as [E|(k & src & inc & dst & a & reply & Hk & Hg & E)];
    rewrite E in Hin; [by apply ci_counted|].
  apply elem_of_app in Hin as [?|Hin]; [by apply ci_counted|].
  apply list_elem_of_singleton in Hin. simplify_eq.
  apply list_elem_of_lookup_2 in Hk.
  destruct (cw_pkt _ _ Hcw _ Hk) as (? & ? & _). split; [done|]. split; [done|].
  split; [by eapply vi_rep|]. by eapply (vi_self_pkt _ Hv _ dst).
Qed.

(** What a step does to the vote counters of a peer. *)
Definition count_step w' (i : nat) rf rf' (cs cs' : list (nat * Z * nat)) : Prop :=
  rf'.(voteCount) = rf.(voteCount) \/ rf'.(voteCount) = ∅ \/
  (exists T, rf'.(voteCount) = <[T := 1]> rf.(voteCount) /\ (i, T, Z.of_nat i) ∈ w'.(votes)) \/
  (exists T j, rf'.(voteCount) = <[T := default 0 (rf.(voteCount) !! T) + 1]> rf.(voteCount) /\
     cs' = cs ++ [(i, T, j)] /\ (i, T, Z.of_nat i) ∈ w'.(votes)).

Lemma vote_reply_count rf args reply rf' :
  vote_reply rf args reply rf' ->
  if reply.(rvr_VoteGranted) && bool_decide (rf.(state) = Candidate)
  then rf'.(voteCount) = (addVote args.(rv_Term) rf).(voteCount)
  else rf'.(voteCount) = rf.(voteCount).
Proof.
  destruct (adopt_frame reply.(rvr_Term) rf) as (_ & _ & _ & _ & _ & _ & _ & _ & Ec & _).
  intros [? Hg Hs -> _|? ? Hg Hs -> _ Hc|Hn Ht|Hn Ht].
  - by rewrite Hg, bool_decide_true.
  - rewrite Hg, bool_decide_true by done.
    by apply convertTo_Leader_inv in Hc as (_ & _ & _ & _ & _ & _ & _ & -> & _).
  - destruct (rvr_VoteGranted reply), Hn; try done; by rewrite bool_decide_false.
  - assert (reply.(rvr_VoteGranted) && bool_decide (rf.(state) = Candidate) = false) as ->.
    { apply andb_false_iff. destruct Hn; [by left|right]. by apply bool_decide_eq_false_2. }
    cbn. by rewrite Ec.
Qed.

Lemma summary_count lbl w w' i rf' :
  cluster_wf n w -> votes_inv w -> summary lbl w w' -> w'.(nodes) !! i = Some rf' ->
  exists rf, w.(nodes) !! i = Some rf /\ count_step w' i rf rf' w.(counted) w'.(counted).
Proof.
  intros Hcw Hv Hs Hi'.
  assert (Hput : forall i0 r r', w.(nodes) !! i0 = Some r -> w'.(nodes) = <[i0 := r']> w.(nodes) ->
     count_step w' i0 r r' w.(counted) w'.(counted) ->
     exists rf, w.(nodes) !! i = Some rf /\ count_step w' i rf rf' w.(counted) w'.(counted)).
  { intros i0 r r' Hi Hn Hst. rewrite Hn in Hi'.
    apply list_lookup_insert_Some in Hi' as [(-> & -> & _)|[? ?]]; [by exists r|].
    exists rf'. split; [done|by left]. }
  pose proof (fun v => votes_mono _ _ _ v Hcw Hv Hs) as Hmono.
  destruct Hs as
    [lbl w k|lbl w w' i0 r r' Hi Hq Hh Hn Hnet|lbl w w' i0 k r inc s a Hi Hk Hh Hn Hnet
    |w w' i0 r r1 e Hi Hl -> He ->|w w' k src inc dst args r r' reply Hk Hi Ho Hn Hnet Hvs Hcs _
    |w w' k src inc dst args r r' reply Hk Hi Ho Hn Hnet Hh
    |w w' k src inc dst args reply r r' Hk Hi Hr Hn Hnet Hvs Hcs _
    |lbl w w' k i0 r t Hi Ht Hn Hnet Hh|w w' i0 k r r' c t index Hi Hk Hst ->
    |lbl w w' i0 r Hi Hn Hnet Hh].
  - exists rf'. split; [done|by left].
  - apply (Hput i0 r r'); [done..|left; apply Hq].
  - eapply (Hput i0); [done..|by left].
  - eapply (Hput i0); [done|reflexivity|]. right; right; left. eexists. split; [reflexivity|].
    apply elem_of_app. right. by apply list_elem_of_singleton.
  - apply (Hput dst r r'); [done..|left].
    destruct (adopt_frame args.(rv_Term) r) as (_ & _ & _ & _ & _ & _ & _ & _ & Ec & _).
    by destruct Ho; cbn; rewrite ?Ec.
  - apply (Hput dst r r'); [done..|left].
    destruct (adopt_frame args.(ae_Term) r) as (_ & _ & _ & _ & _ & _ & _ & _ & Ec & _).
    destruct Ho as [| | |prev rf1 rf2 ? ? ? -> Hf]; cbn; try by rewrite ?Ec.
    apply follower_commit_frame in Hf as (gs & -> & _). cbn. by rewrite Ec.
  - apply (Hput src r r'); [done..|]. apply vote_reply_count in Hr.
    destruct (rvr_VoteGranted reply && _); [|by left].
    right; right; right. exists args.(rv_Term), dst. split; [done|]. split; [done|].
    apply Hmono, (vi_self_pkt _ Hv _ dst _ _ (list_elem_of_lookup_2 _ _ _ Hk)). done.
  - eapply (Hput i0); [done..|left]. cbn.
    by destruct (adopt_frame t r) as (_ & _ & _ & _ & _ & _ & _ & _ & -> & _).
  - apply (Hput i0 r r'); [done..|left].
    by apply Start_append_inv in Hst as (mi & ni & _ & _ & -> & _).
  - eapply (Hput i0); [done..|right; left]. unfold start1.
    by destruct (Make_fields (Cmd:=Cmd) (peers r) (Z.of_nat i0) (Copy (crash1 r.(persister))))
      as (_ & _ & _ & _ & _ & -> & _).
Qed.

Lemma ci_count_step lbl w w' :
  cluster_wf n w -> votes_inv w -> count_inv w -> summary lbl w w' ->
  forall i rf T c, w'.(nodes) !! i = Some rf -> rf.(voteCount) !! T = Some c ->
    c <= 1 + Z.of_nat (cnt (is_count i T) w'.(counted)) /\ (i, T, Z.of_nat i) ∈ w'.(votes).
Proof.
  intros Hcw Hv Hc Hs i rf' T c Hi' HT.
  destruct (summary_count _ _ _ _ _ Hcw Hv Hs Hi') as (rf & Hi & Hst).
  assert (Hle : (cnt (is_count i T) w.(counted) <= cnt (is_count i T) w'.(counted))%nat).
  { destruct (summary_counted _ _ _ Hs) as [->|(? & ? & ? & ? & ? & ? & _ & _ & ->)];
      [done|rewrite cnt_app; lia]. }
  assert (Hold : forall c0, rf.(voteCount) !! T = Some c0 ->
     c0 <= 1 + Z.of_nat (cnt (is_count i T) w.(counted)) /\ (i, T, Z.of_nat i) ∈ w'.(votes)).
  { intros c0 Hc0. destruct (ci_count _ Hc _ _ _ _ Hi Hc0). split; [done|by eapply votes_mono]. }
  destruct Hst as [E|[E|[(T0 & E & Hin)|(T0 & j & E & Ecs & Hin)]]]; rewrite E in HT.
  - destruct (Hold _ HT). split; [lia|done].
  - by rewrite lookup_empty in HT.
  - apply lookup_insert_Some in HT as [[-> <-]|[? HT]]; [split; [lia|done]|].
    destruct (Hold _ HT). split; [lia|done].
  - apply lookup_insert_Some in HT as [[-> <-]|[? HT]];
      [|destruct (Hold _ HT); split; [lia|done]].
    split; [|done]. rewrite Ecs, cnt_snoc, decide_True by done.
    destruct (rf.(voteCount) !! T) as [c0|]; cbn; [destruct (Hold c0 eq_refl); lia|lia].
Qed.

Lemma count_inv_step lbl w w' :
  cluster_wf n w -> votes_inv w -> count_inv w -> summary lbl w w' -> count_inv w'.
Proof.
  intros Hcw Hv Hc Hs.
  split; [by eapply ci_occ_step|by eapply ci_counted_step|by eapply ci_count_step].
Qed.

Lemma init_count_inv : count_inv (init n).
Proof.
  split.
  - intros i rf T j [_ ->]%init_node. unfold occ. cbn. rewrite !cnt_nil. lia.
  - intros i T j Hin. by apply not_elem_of_nil in Hin.
  - intros i rf T c [_ ->]%init_node. cbn. by rewrite lookup_empty.
Qed.

Lemma reachable_count_inv w : reachable n w -> count_inv w.
Proof.
  induction 1 as [|lbl w w' Hr IH Hs]; [apply init_count_inv|].
  pose proof (reachable_wf _ _ Hr) as Hcw. pose proof (reachable_votes_inv _ _ Hr).
  destruct (step_summary _ _ _ _ Hcw Hs) as [->|?]; [done|].
  by eapply count_inv_step.
Qed.
End safety.
