(* ===== verification/Leaders.v ===== *)
(** * Leaders: quorums, Election Safety and Log Matching

    A peer that becomes leader in the term of its election has a quorum of
    distinct voters, two quorums of one term have the same candidate, and the
    log of every server is made of segments of the logs of leaders. *)

From S2P Require Import Prelude Gob Raft RaftFacts RaftHandlers RaftSpec RaftReplicate.
From S2P Require Import Cluster ClusterStep Election ElectionSafety.
Local Open Scope Z_scope.

Section leaders.
Context {Cmd : Type} `{!Gob (PVal Cmd)} `{!Rand} (n : nat).
Implicit Types (rf : Raft Cmd) (w : Cluster Cmd) (l : list (LogEntry Cmd)).

(** ** Quorums *)

(** More than half of the servers granted server [i] their vote in term [T]. *)
Definition quorum w (T : Z) (i : nat) : Prop :=
  exists Q : list nat, NoDup Q /\ (n / 2 < length Q)%nat /\
    forall j, j ∈ Q -> (j < n)%nat /\ (j, T, Z.of_nat i) ∈ w.(votes).

(** Two majorities share a server. *)
Lemma majorities_meet (Q1 Q2 : list nat) :
  NoDup Q1 -> NoDup Q2 -> (forall j, j ∈ Q1 -> (j < n)%nat) -> (forall j, j ∈ Q2 -> (j < n)%nat) ->
  (n / 2 < length Q1)%nat -> (n / 2 < length Q2)%nat -> exists j, j ∈ Q1 /\ j ∈ Q2.
Proof.
  intros H1 H2 B1 B2 L1 L2.
  destruct (decide (Exists (fun j => j ∈ Q2) Q1)) as [He|Hn]; [by apply Exists_exists in He|].
  exfalso. assert (Hd : NoDup (Q1 ++ Q2)).
  { apply NoDup_app. split; [done|]. split; [|done].
    intros j Hj Hj2. apply Hn, Exists_exists. eauto. }
  assert (Hsub : Q1 ++ Q2 ⊆ seq 0 n).
  { intros j [?|?]%elem_of_app; apply elem_of_seq; split; auto using Nat.le_0_l. }
  pose proof (submseteq_length _ _ (NoDup_submseteq _ _ Hd Hsub)) as Hlen.
  rewrite length_app, length_seq in Hlen.
  pose proof (Nat.div_mod_eq n 2). pose proof (Nat.mod_upper_bound n 2). lia.
Qed.

Lemma quorum_unique w T i i' : votes_inv w -> quorum w T i -> quorum w T i' -> i = i'.
Proof.
  intros Hv (Q & ? & ? & HQ) (Q' & ? & ? & HQ').
  destruct (majorities_meet Q Q') as (j & Hj & Hj'); [done..|by intros; apply HQ|
    by intros; apply HQ'|done|done|].
  apply HQ in Hj as [_ Hj]. apply HQ' in Hj' as [_ Hj'].
  pose proof (vi_once _ Hv _ _ _ _ Hj Hj'). lia.
Qed.

(** The voters whose reply candidate [i] counted in term [T]. *)
Definition counters w (T : Z) (i : nat) : list nat :=
  snd <$> filter (is_count i T) w.(counted).

Lemma elem_of_counters w T i j : j ∈ counters w T i <-> (i, T, j) ∈ w.(counted).
Proof.
  unfold counters. rewrite list_elem_of_fmap. split.
  - intros ([[i' T'] j'] & -> & [Hc Hin]%list_elem_of_filter).
    unfold is_count in Hc. cbn in *. by simplify_eq.
  - intros Hin. exists (i, T, j). split; [done|]. by apply list_elem_of_filter.
Qed.

Lemma NoDup_counters w T i rf :
  count_inv n w -> w.(nodes) !! i = Some rf -> NoDup (counters w T i).
Proof.
  intros Hc Hi. apply cnt_one_NoDup. intros j.
  pose proof (ci_occ _ _ Hc _ _ T j Hi) as Ho. unfold occ in Ho.
  enough (cnt (fun x => x = j) (counters w T i) = cnt (fun x => x = (i, T, j)) w.(counted)) by lia.
  unfold counters. clear. induction (counted w) as [|[[i' T'] j'] cs IH]; [done|].
  rewrite filter_cons, cnt_cons. unfold is_count at 1. cbn.
  case_decide as Hd; cbn [fmap list_fmap]; rewrite ?cnt_cons, IH; cbn;
    repeat case_decide; simplify_eq; done.
Qed.

(** A counter above half of the peers is a quorum. *)
Lemma count_quorum w T i rf c :
  count_inv n w -> w.(nodes) !! i = Some rf -> (i < n)%nat -> rf.(voteCount) !! T = Some c ->
  Z.of_nat (n / 2) < c -> quorum w T i.
Proof.
  intros Hc Hi Hn HT Hlt. destruct (ci_count _ _ Hc _ _ _ _ Hi HT) as [Hle Hself].
  exists (i :: counters w T i). split; [|split].
  - constructor; [|by eapply NoDup_counters]. intros Hin%elem_of_counters.
    by destruct (ci_counted _ _ Hc _ _ _ Hin).
  - cbn [length]. unfold counters. rewrite length_fmap. unfold cnt in Hle. lia.
  - intros j [->|Hin%elem_of_counters]%elem_of_cons; [done|].
    by destruct (ci_counted _ _ Hc _ _ _ Hin) as (_ & ? & ? & _).
Qed.

(** ** Logs of leaders *)

(** Every entry of [l] is where the leader of its term has it, with the same
    entries before it. *)
Definition covered (ls : gmap Z (nat * list (LogEntry Cmd))) l : Prop :=
  forall k e, l !! S k = Some e ->
    exists i l', ls !! e.(le_Term) = Some (i, l') /\ take (S (S k)) l = take (S (S k)) l'.

(** Leaders keep their term and only append. *)
Definition leads_ext (ls ls' : gmap Z (nat * list (LogEntry Cmd))) : Prop :=
  forall T i l, ls !! T = Some (i, l) -> exists l', ls' !! T = Some (i, l') /\ l `prefix_of` l'.

Lemma leads_ext_refl ls : leads_ext ls ls.
Proof. intros T i l Hl. by exists l. Qed.

Lemma covered_mono ls ls' l : leads_ext ls ls' -> covered ls l -> covered ls' l.
Proof.
  intros He Hc k e Hk. destruct (Hc k e Hk) as (i & l1 & Hl1 & Ht).
  destruct (He _ _ _ Hl1) as (l2 & Hl2 & [suf ->]). exists i, (l1 ++ suf). split; [done|].
  rewrite Ht. apply (f_equal length) in Ht. rewrite !length_take in Ht.
  apply lookup_lt_Some in Hk. rewrite take_app_le by lia. done.
Qed.

Lemma covered_take ls l m : covered ls l -> covered ls (take m l).
Proof.
  intros Hc k e Hk. apply lookup_take_Some in Hk as [Hk Hm].
  destruct (Hc k e Hk) as (i & l' & ? & Ht). exists i, l'. split; [done|].
  rewrite take_take. by rewrite Nat.min_l by lia.
Qed.

Lemma covered_matching ls l1 l2 :
  log_wf l1 -> log_wf l2 -> covered ls l1 -> covered ls l2 -> matching l1 l2.
Proof.
  intros W1 W2 C1 C2 [|k] e1 e2 H1 H2 Ht.
  - apply log_wf_head in W1, W2.
    destruct l1, l2; cbn in *; try done. by simplify_eq.
  - destruct (C1 _ _ H1) as (i & l & Hl & ->). destruct (C2 _ _ H2) as (i' & l' & Hl' & ->).
    rewrite Ht in Hl. by simplify_eq.
Qed.

(** A log that a leader extends stays covered by its own extension. *)
Lemma covered_snoc ls l T i e :
  covered ls l -> leads_ext ls (<[T := (i, l ++ [e])]> ls) -> e.(le_Term) = T ->
  covered (<[T := (i, l ++ [e])]> ls) (l ++ [e]).
Proof.
  intros Hc He Ht k x Hk. apply lookup_app_Some in Hk as [Hk|[Hge Hk]].
  - destruct (covered_mono _ _ _ He Hc k x Hk) as (j & l' & Hl' & Hk'). exists j, l'.
    split; [done|]. rewrite <- Hk'. apply lookup_lt_Some in Hk. by rewrite take_app_le by lia.
  - apply list_lookup_singleton_Some in Hk as [? <-]. exists i, (l ++ [e]).
    split; [by rewrite Ht, lookup_insert_eq|done].
Qed.

(** ** The invariant *)

(** The arguments are those of a segment of the log of the leader of their term. *)
Definition from_leader (ls : gmap Z (nat * list (LogEntry Cmd))) (src : nat)
    (a : AppendEntriesArgs Cmd) : Prop :=
  exists l prev, ls !! a.(ae_Term) = Some (src, l) /\
    l !! Z.to_nat a.(ae_PrevLogIndex) = Some prev /\ prev.(le_Term) = a.(ae_PrevLogTerm) /\
    a.(ae_Entries) `prefix_of` drop (S (Z.to_nat a.(ae_PrevLogIndex))) l.

Record leader_inv w : Prop := {
  li_quorum : forall T i l, w.(leaders) !! T = Some (i, l) -> quorum w T i;
  li_wf : forall T i l, w.(leaders) !! T = Some (i, l) -> log_wf l /\ covered w.(leaders) l;
  li_past : forall T i l rf, w.(leaders) !! T = Some (i, l) -> w.(nodes) !! i = Some rf ->
    T <= rf.(currentTerm) /\ (T = rf.(currentTerm) -> rf.(state) <> Candidate);
  li_leader : forall i rf, w.(nodes) !! i = Some rf -> rf.(state) = Leader ->
    w.(leaders) !! rf.(currentTerm) = Some (i, rf.(logs));
  li_log : forall i rf, w.(nodes) !! i = Some rf -> covered w.(leaders) rf.(logs);
  li_pkt : forall src inc dst a, AppReq src inc dst a ∈ w.(net) -> from_leader w.(leaders) src a;
}.

(** How one peer may change while the leaders stay. *)
Definition node_step (ls : gmap Z (nat * list (LogEntry Cmd))) (i : nat) rf rf' : Prop :=
  rf.(currentTerm) <= rf'.(currentTerm) /\
  (rf'.(state) = Candidate ->
     rf.(currentTerm) < rf'.(currentTerm) \/ rf.(state) = Candidate) /\
  (rf'.(state) = Leader -> ls !! rf'.(currentTerm) = Some (i, rf'.(logs))) /\
  covered ls rf'.(logs).

Lemma quorum_mono lbl w w' T i :
  cluster_wf n w -> votes_inv w -> summary lbl w w' -> quorum w T i -> quorum w' T i.
Proof.
  intros Hcw Hv Hs (Q & ? & ? & HQ). exists Q. split; [done|]. split; [done|].
  intros j [??]%HQ. split; [done|]. by eapply (votes_mono n).
Qed.

(** Steps that leave the leaders as they are. *)
Lemma leader_inv_put w w' i rf rf' :
  leader_inv w -> w.(nodes) !! i = Some rf -> w'.(nodes) = <[i := rf']> w.(nodes) ->
  w'.(leaders) = w.(leaders) -> (forall T j, quorum w T j -> quorum w' T j) ->
  node_step w.(leaders) i rf rf' ->
  (forall p, p ∈ w'.(net) -> p ∈ w.(net) \/
     match p with AppReq src _ _ a => from_leader w.(leaders) src a | _ => True end) ->
  leader_inv w'.
Proof.
  intros Hl Hi Hn El Hq (Ht & Hc & Hld & Hlog) Hp. split; rewrite ?El.
  - intros T j l ?%(li_quorum _ Hl). auto.
  - apply (li_wf _ Hl).
  - intros T j l r HT Hj. rewrite Hn in Hj.
    apply list_lookup_insert_Some in Hj as [(-> & -> & _)|[? Hj]]; [|by eapply (li_past _ Hl)].
    destruct (li_past _ Hl _ _ _ _ HT Hi) as [? Hs]. split; [lia|].
    intros -> Hca. destruct (Hc Hca) as [?|Hca']; [lia|]. apply Hs; [lia|done].
  - intros j r Hj. rewrite Hn in Hj.
    apply list_lookup_insert_Some in Hj as [(-> & -> & _)|[? Hj]]; [done|by apply (li_leader _ Hl)].
  - intros j r Hj. rewrite Hn in Hj.
    apply list_lookup_insert_Some in Hj as [(-> & -> & _)|[? Hj]]; [done|by eapply (li_log _ Hl)].
  - intros src inc dst a [Hin|Hin]%Hp; [by eapply (li_pkt _ Hl)|done].
Qed.

(** Peers that keep their term, state and log. *)
Lemma node_step_same w i rf rf' :
  leader_inv w -> w.(nodes) !! i = Some rf ->
  rf'.(currentTerm) = rf.(currentTerm) -> rf'.(state) = rf.(state) -> rf'.(logs) = rf.(logs) ->
  node_step w.(leaders) i rf rf'.
Proof.
  intros Hl Hi Et Es El. unfold node_step. rewrite Et, Es, El.
  split; [lia|]. split; [by right|]. split; [by apply li_leader|by eapply li_log].
Qed.

(** Peers that adopt the term of a message: the log may be replaced if the
    peer is not the leader of that term. *)
Lemma node_step_adopt w i rf rf' t l :
  leader_inv w -> w.(nodes) !! i = Some rf ->
  rf'.(currentTerm) = (adopt t rf).(currentTerm) -> rf'.(state) = (adopt t rf).(state) ->
  rf'.(logs) = l -> covered w.(leaders) l ->
  (l = rf.(logs) \/ (t = rf.(currentTerm) -> rf.(state) <> Leader) /\ rf.(currentTerm) <= t) ->
  node_step w.(leaders) i rf rf'.
Proof.
  intros Hl Hi Et Es El Hc Hn. unfold node_step. rewrite Et, Es, El, adopt_term.
  split; [lia|]. destruct (Z_lt_le_dec rf.(currentTerm) t) as [Hlt|Hle].
  - rewrite adopt_higher_state by done. done.
  - rewrite adopt_low by done. rewrite Z.max_r by done. split; [by right|]. split; [|done].
    intros Hld. destruct Hn as [->|[Hn ?]]; [by apply li_leader|].
    exfalso. apply Hn; [lia|done].
Qed.

Lemma node_step_higher w i rf t :
  leader_inv w -> w.(nodes) !! i = Some rf ->
  node_step w.(leaders) i rf (persist (adopt t rf)).
Proof.
  intros Hl Hi. destruct (adopt_frame t rf) as (_ & _ & El & _).
  eapply (node_step_adopt w i rf _ t rf.(logs)); [done..|by eapply li_log|by left].
Qed.

(** A segment of the leader's log merges into a log of leaders' segments. *)
Lemma merge_covered ls src l (a : AppendEntriesArgs Cmd) prev :
  (forall T i l', ls !! T = Some (i, l') -> log_wf l' /\ covered ls l') ->
  log_wf l -> covered ls l -> from_leader ls src a ->
  l !! Z.to_nat a.(ae_PrevLogIndex) = Some prev -> prev.(le_Term) = a.(ae_PrevLogTerm) ->
  covered ls (merge_entries l (S (Z.to_nat a.(ae_PrevLogIndex))) a.(ae_Entries)).
Proof.
  intros Hls Hw Hc (L & prev' & HL & Hp' & Ht' & Hpre) Hp Ht.
  destruct (Hls _ _ _ HL) as [HwL HcL].
  destruct (merge_entries_match l L (Z.to_nat a.(ae_PrevLogIndex)) a.(ae_Entries)) as [_ [->| ->]];
    [by eapply covered_matching|done| |done|by apply covered_take].
  exists prev, prev'. split; [done|]. split; [done|congruence].
Qed.

Lemma from_leader_mono ls ls' src a :
  leads_ext ls ls' -> from_leader ls src a -> from_leader ls' src a.
Proof.
  intros He (l & prev & Hl & Hp & Ht & Hpre). destruct (He _ _ _ Hl) as (l' & Hl' & [suf ->]).
  exists (l ++ suf), prev. split; [done|]. split; [by apply lookup_app_l_Some|]. split; [done|].
  rewrite drop_app_le by (apply lookup_lt_Some in Hp; lia). by apply prefix_app_r.
Qed.

Lemma segment_from_leader w i rf a :
  leader_inv w -> w.(nodes) !! i = Some rf -> segment rf a -> from_leader w.(leaders) i a.
Proof.
  intros Hl Hi (Hs & next & prev & Hr & Hp & ->). exists rf.(logs), prev. cbn.
  split; [by apply li_leader|]. replace (Z.to_nat (Z.of_nat next - 1)) with (pred next) by lia.
  split; [done|]. split; [done|]. by replace (S (pred next)) with next by lia.
Qed.

(** AppendEntries of a leader at another server. *)
Lemma append_node_step w k src inc dst args rf rf' reply :
  cluster_wf n w -> leader_inv w -> w.(net) !! k = Some (AppReq src inc dst args) ->
  w.(nodes) !! dst = Some rf -> ae_outcome rf args rf' reply ->
  node_step w.(leaders) dst rf rf'.
Proof.
  intros Hcw Hl Hk Hi Ho. apply list_elem_of_lookup_2 in Hk.
  destruct (cw_pkt _ _ Hcw _ Hk) as (Hne & _ & _).
  pose proof (li_pkt _ Hl _ _ _ _ Hk) as Hfl.
  pose proof (no_wf _ _ _ (cw_node _ _ Hcw _ _ Hi)) as Hw.
  pose proof (li_log _ Hl _ _ Hi) as Hc.
  destruct (adopt_frame args.(ae_Term) rf) as (_ & _ & El & _).
  destruct Ho as [| | |prev rf1 rf2 Hle Hp Ht -> Hf].
  - by apply node_step_same.
  - eapply (node_step_adopt w dst rf _ args.(ae_Term)); [done..|by left].
  - eapply (node_step_adopt w dst rf _ args.(ae_Term)); [done..|by left].
  - apply follower_commit_frame in Hf as (gs & -> & _).
    eapply (node_step_adopt w dst rf _ args.(ae_Term)); [done..| |].
    + by eapply merge_covered; [apply li_wf|apply Hw|..].
    + right. split; [|done]. intros Heq Hld. destruct Hfl as (L & ? & HL & _).
      rewrite Heq, (li_leader _ Hl _ _ Hi Hld) in HL. by simplify_eq.
Qed.

(** A candidate that has a quorum in its current term is the first leader of it. *)
Lemma win_fresh w w' src rf :
  leader_inv w -> votes_inv w' -> w.(nodes) !! src = Some rf ->
  (forall U j, quorum w U j -> quorum w' U j) -> quorum w' rf.(currentTerm) src ->
  rf.(state) = Candidate -> w.(leaders) !! rf.(currentTerm) = None.
Proof.
  intros Hl Hv' Hi Hq HqT Hs.
  destruct (w.(leaders) !! rf.(currentTerm)) as [[i' l']|] eqn:E; [|done]. exfalso.
  assert (i' = src) as -> by (eapply quorum_unique; [done|by eapply Hq, li_quorum|done]).
  by destruct (li_past _ Hl _ _ _ _ E Hi) as [_ []].
Qed.

(** A candidate wins the election of its current term. *)
Lemma leader_inv_win w w' src rf rf' T :
  cluster_wf n w -> leader_inv w -> votes_inv w' -> w.(nodes) !! src = Some rf ->
  (forall U j, quorum w U j -> quorum w' U j) -> quorum w' T src ->
  rf.(state) = Candidate -> rf.(currentTerm) = T ->
  rf'.(currentTerm) = T -> rf'.(logs) = rf.(logs) -> rf'.(state) = Leader ->
  w'.(nodes) = <[src := rf']> w.(nodes) -> (forall p, p ∈ w'.(net) -> p ∈ w.(net)) ->
  w'.(leaders) = <[T := (src, rf'.(logs))]> w.(leaders) ->
  leader_inv w'.
Proof.
  intros Hcw Hl Hv' Hi Hq HqT Hs <- Et El Es Hn Hnet Eld.
  pose proof (win_fresh w w' src rf Hl Hv' Hi Hq HqT Hs) as Hnone.
  assert (Hext : leads_ext w.(leaders) w'.(leaders)).
  { rewrite Eld. intros U i l HU. exists l. rewrite lookup_insert_ne by congruence. done. }
  pose proof (li_log _ Hl _ _ Hi) as Hc.
  pose proof (wf_log _ (no_wf _ _ _ (cw_node _ _ Hcw _ _ Hi))) as Hw.
  split.
  - intros U i l. rewrite Eld. intros [[<- [= <- <-]]|[_ HU]]%lookup_insert_Some; [done|].
    by eapply Hq, li_quorum.
  - intros U i l HU. rewrite Eld in HU. apply lookup_insert_Some in HU as [[<- [= <- <-]]|[_ HU]].
    + rewrite El. split; [done|]. by eapply covered_mono.
    + destruct (li_wf _ Hl _ _ _ HU). split; [done|]. by eapply covered_mono.
  - intros U i l r HU Hr. rewrite Eld in HU. rewrite Hn in Hr.
    apply list_lookup_insert_Some in Hr as [(<- & <- & _)|[? Hr]].
    + rewrite Et, Es. split; [|done].
      apply lookup_insert_Some in HU as [[<- _]|[? HU]]; [lia|].
      by destruct (li_past _ Hl _ _ _ _ HU Hi).
    + apply lookup_insert_Some in HU as [[<- [= <- <-]]|[? HU]]; [done|by eapply (li_past _ Hl)].
  - intros i r Hr Hld. rewrite Hn in Hr.
    apply list_lookup_insert_Some in Hr as [(<- & <- & _)|[? Hr]].
    + by rewrite Eld, Et, lookup_insert_eq.
    + rewrite Eld. pose proof (li_leader _ Hl _ _ Hr Hld).
      rewrite lookup_insert_ne; [done|congruence].
  - intros i r Hr. rewrite Hn in Hr. apply list_lookup_insert_Some in Hr as [(<- & <- & _)|[? Hr]].
    + rewrite El. by eapply covered_mono.
    + eapply covered_mono; [done|by eapply li_log].
  - intros s inc d a Hin%Hnet. eapply from_leader_mono; [done|by eapply (li_pkt _ Hl)].
Qed.

(** The leader appends a command of its own term. *)
Lemma leader_inv_start w w' i rf rf' c :
  cluster_wf n w -> leader_inv w -> w.(nodes) !! i = Some rf ->
  rf.(state) = Leader -> rf'.(state) = Leader -> rf'.(currentTerm) = rf.(currentTerm) ->
  rf'.(logs) = rf.(logs) ++ [{| le_Command := c; le_Term := rf.(currentTerm) |}] ->
  1 <= rf.(currentTerm) ->
  w' = put_leader rf.(currentTerm) i rf'.(logs) (put_node i rf' w) ->
  leader_inv w'.
Proof.
  intros Hcw Hl Hi Hs Es Et El H1 ->. pose proof (li_leader _ Hl _ _ Hi Hs) as Hcur.
  assert (Hext : leads_ext w.(leaders) (<[rf.(currentTerm) := (i, rf'.(logs))]> w.(leaders))).
  { intros U j l HU. destruct (decide (U = rf.(currentTerm))) as [->|].
    - rewrite lookup_insert_eq. simplify_eq. exists rf'.(logs). split; [done|]. rewrite El.
      by apply prefix_app_r.
    - exists l. by rewrite lookup_insert_ne by congruence. }
  assert (Hwf : log_wf rf'.(logs)).
  { rewrite El. apply log_wf_app; [apply (no_wf _ _ _ (cw_node _ _ Hcw _ _ Hi))|].
    by repeat constructor. }
  assert (Hcov : covered (<[rf.(currentTerm) := (i, rf'.(logs))]> w.(leaders)) rf'.(logs)).
  { rewrite El in Hext |- *. apply covered_snoc; [by eapply li_log|done|done]. }
  split; cbn [leaders put_leader put_node nodes net].
  - intros U j l [[<- [= <- <-]]|[_ HU]]%lookup_insert_Some;
      [exact (li_quorum _ Hl _ _ _ Hcur)|exact (li_quorum _ Hl _ _ _ HU)].
  - intros U j l [[<- [= <- <-]]|[_ HU]]%lookup_insert_Some; [done|].
    destruct (li_wf _ Hl _ _ _ HU). split; [done|]. by eapply covered_mono.
  - intros U j l r HU Hr.
    apply list_lookup_insert_Some in Hr as [(<- & <- & _)|[? Hr]].
    + rewrite Et, Es. split; [|done].
      apply lookup_insert_Some in HU as [[<- _]|[? HU]]; [lia|].
      by destruct (li_past _ Hl _ _ _ _ HU Hi).
    + apply lookup_insert_Some in HU as [[<- [= <- <-]]|[? HU]]; [done|by eapply (li_past _ Hl)].
  - intros j r Hr Hld. apply list_lookup_insert_Some in Hr as [(<- & <- & _)|[? Hr]].
    + by rewrite Et, lookup_insert_eq.
    + pose proof (li_leader _ Hl _ _ Hr Hld). rewrite lookup_insert_ne; [done|congruence].
  - intros j r Hr. apply list_lookup_insert_Some in Hr as [(<- & <- & _)|[? Hr]]; [done|].
    eapply covered_mono; [done|by eapply li_log].
  - intros s inc d a Hin. eapply from_leader_mono; [done|by eapply (li_pkt _ Hl)].
Qed.

(** A vote reply that is counted in the term of its election. *)
Lemma timely_vote_reply w w' k src inc dst args reply rf rf' :
  cluster_wf n w -> votes_inv w' -> count_inv n w' -> leader_inv w ->
  (forall T j, quorum w T j -> quorum w' T j) -> timely (LDeliver k) w ->
  w.(net) !! k = Some (VoteRep src inc dst args reply) -> w.(nodes) !! src = Some rf ->
  vote_reply rf args reply rf' -> w'.(nodes) = <[src := rf']> w.(nodes) ->
  w'.(net) = delete k w.(net) ->
  w'.(leaders) = (if bool_decide (rf.(state) <> Leader) && bool_decide (rf'.(state) = Leader)
                  then <[rf'.(currentTerm) := (src, rf'.(logs))]> w.(leaders) else w.(leaders)) ->
  leader_inv w'.
Proof.
  intros Hcw Hv' Hc' Hl Hq Htm Hk Hi Hr Hn Hnet Eld.
  assert (Hnet' : forall p, p ∈ w'.(net) -> p ∈ w.(net)).
  { rewrite Hnet. intros p. apply elem_of_delete. }
  assert (Hkeep : rf'.(state) <> Leader \/ rf' = rf ->
            node_step w.(leaders) src rf rf' -> leader_inv w').
  { intros Hns Hst. eapply (leader_inv_put w w' src); eauto. rewrite Eld.
    destruct Hns as [Hns| ->]; [by rewrite (bool_decide_eq_false_2 _ Hns), andb_false_r|].
    by repeat case_bool_decide. }
  destruct Hr as [? Hg Hs -> Hle|rf1 ? Hg Hs -> Hlt Hcv|_ Ht|_ Ht].
  - apply Hkeep; [left; cbn; congruence|by apply node_step_same].
  - apply convertTo_Leader_inv in Hcv
      as (_ & _ & _ & Et & _ & Es & El & Ec & _); [|done].
    rewrite !bool_decide_true in Eld by (congruence || done). cbn [andb] in Eld.
    pose proof (Htm _ _ _ _ _ _ Hk Hi Hg Hs) as HT. cbn in Et, El, Ec, Hlt.
    rewrite lookup_insert_eq in Hlt. cbn in Hlt. rewrite Et in Eld.
    pose proof (cw_node _ _ Hcw _ _ Hi) as Hok.
    eapply (leader_inv_win w w' src rf rf' rf.(currentTerm)); try done.
    eapply (count_quorum w' _ _ rf'); [done| | | |].
    + rewrite Hn. apply list_lookup_insert_eq. by eapply lookup_lt_Some.
    + rewrite <- (cw_len _ _ Hcw). by eapply lookup_lt_Some.
    + rewrite Ec, HT. apply lookup_insert_eq.
    + by rewrite <- (no_peers _ _ _ Hok).
  - apply Hkeep; [by right|by apply node_step_same].
  - apply Hkeep; [left; cbn; by rewrite adopt_higher_state|].
    by apply node_step_higher.
Qed.

(** Every timely step keeps the invariant. *)
Lemma leader_inv_step lbl w w' :
  cluster_wf n w -> votes_inv w -> count_inv n w -> leader_inv w -> timely lbl w ->
  summary lbl w w' -> leader_inv w'.
Proof.
  intros Hcw Hv Hc Hl Htm Hs.
  pose proof (fun T j => quorum_mono _ _ _ T j Hcw Hv Hs) as Hq.
  pose proof (votes_inv_step _ _ _ _ Hcw Hv Hs) as Hv'.
  pose proof (count_inv_step _ _ _ _ Hcw Hv Hc Hs) as Hc'.
  destruct Hs as
    [lbl w k|lbl w w' i r r' Hi Hqt Hh Hn Hnet|lbl w w' i k r inc s a Hi Hk Hh Hn Hnet
    |w w' i r r1 e Hi Hlp -> He ->|w w' k src inc dst args r r' reply Hk Hi Ho Hn Hnet _ _ Eld
    |w w' k src inc dst args r r' reply Hk Hi Ho Hn Hnet Hh
    |w w' k src inc dst args reply r r' Hk Hi Hr Hn Hnet _ _ Eld
    |lbl w w' k i r t Hi Ht Hn Hnet Hh|w w' i k r r' c t index Hi Hk Hst Ew
    |lbl w w' i r Hi Hn Hnet Hh].
  - destruct Hl. split; cbn in *; auto. intros src inc dst a Hin%elem_of_delete. eauto.
  - eapply (leader_inv_put w w' i); [done..|apply Hh|done| |].
    { by apply node_step_same; [..|apply Hqt|apply Hqt|apply Hqt]. }
    intros p Hp. destruct Hnet as [E|[[k E]|(inc & s & a & E & _ & Hseg)]];
      rewrite E in Hp; [by left|left; by eapply elem_of_delete|].
    apply elem_of_app in Hp as [?| ->%list_elem_of_singleton]; [by left|right].
    by eapply segment_from_leader.
  - eapply (leader_inv_put w w' i); [done..|apply Hh|done|by apply node_step_same|].
    rewrite Hnet. intros p [?| ->%list_elem_of_singleton]%elem_of_app; [by left|by right].
  - eapply (leader_inv_put w _ i); [done|done|reflexivity|done|done| |by left].
    specialize (Htm _ Hi Hlp). split; [cbn; lia|]. split; [left; cbn; lia|].
    split; [cbn; by case_decide|exact (li_log _ Hl _ _ Hi)].
  - eapply (leader_inv_put w w' dst); [done..| |].
    + pose proof (li_log _ Hl _ _ Hi) as Hcov.
      destruct (adopt_frame args.(rv_Term) r) as (_ & _ & El & _).
      destruct Ho; [by apply node_step_same|..];
        (eapply (node_step_adopt w dst r _ args.(rv_Term)); [done..|by left]).
    + rewrite Hnet. intros p [?| ->]%elem_of_delete_app; [by left|by right].
  - eapply (leader_inv_put w w' dst); [done..|apply Hh|done|by eapply append_node_step|].
    rewrite Hnet. intros p [?| ->]%elem_of_delete_app; [by left|by right].
  - by eapply timely_vote_reply.
  - eapply (leader_inv_put w w' i); [done..|apply Hh|done| |].
    + by apply node_step_higher.
    + rewrite Hnet. intros p Hp. left. by eapply elem_of_delete.
  - destruct (Htm _ _ _ Hi Hk) as [Hld <-].
    pose proof (no_term _ _ _ (cw_node _ _ Hcw _ _ Hi)) as Hpos. rewrite Hld in Hpos.
    pose proof (Start_append_inv _ _ _ _ _ Hst) as (mi & ni & _ & _ & -> & _).
    eapply (leader_inv_start w w' i r); [done|done|done|done| | | |by apply Hpos|exact Ew]; done.
  - eapply (leader_inv_put w w' i); [done..|apply Hh|done| |rewrite Hnet; by left].
    destruct (start1_restores n i r) as (Et & _ & El); [by eapply cw_node|].
    split; [by rewrite Et|]. rewrite El.
    destruct (Make_fields (Cmd:=Cmd) (peers r) (Z.of_nat i) (Copy (crash1 r.(persister))))
      as (_ & _ & _ & Es & _). unfold start1. rewrite Es.
    split; [done|]. split; [done|]. by eapply li_log.
Qed.

Lemma init_leader_inv : leader_inv (init n).
Proof.
  split; cbn; try (intros *; by rewrite lookup_empty).
  - intros i rf [_ ->]%init_node. done.
  - intros i rf [_ ->]%init_node. cbn. intros k e He. by destruct k.
  - intros src inc dst a Hin. by apply not_elem_of_nil in Hin.
Qed.

Lemma timely_leader_inv w : timely_reachable n w -> leader_inv w.
Proof.
  induction 1 as [|lbl w w' Hr IH Htm Hs]; [apply init_leader_inv|].
  apply timely_is_reachable in Hr.
  pose proof (reachable_wf _ _ Hr) as Hcw. pose proof (reachable_votes_inv _ _ Hr).
  pose proof (reachable_count_inv _ _ Hr).
  destruct (step_summary _ _ _ _ Hcw Hs) as [->|?]; [done|].
  by eapply leader_inv_step.
Qed.
End leaders.
