(* ===== verification/Apply.v ===== *)
(** * Apply: what a server delivers on its applyCh

    [setCommitIndex] starts one goroutine per call, several of them may deliver
    at the same time, and [lastApplied] may go back.  In every run a server
    still delivers an index for the first time only after all indexes before
    it: a service that ignores indexes it has seen gets the log in order. *)

From S2P Require Import Prelude Gob Raft RaftFacts RaftHandlers RaftSpec RaftReplicate.
From S2P Require Import Cluster ClusterStep Election.
Local Open Scope Z_scope.

Section apply.
Context {Cmd : Type} `{!Gob (PVal Cmd)} `{!Rand} (n : nat).
Implicit Types (rf : Raft Cmd) (w : Cluster Cmd) (ms : list (ApplyMsg Cmd)).

(** All indexes from 1 up to [k] have been delivered. *)
Definition delivered_to ms (k : Z) : Prop :=
  forall j, 1 <= j <= k -> exists m, m ∈ ms /\ m.(CommandIndex) = j.

(** Every message comes after all smaller indexes. *)
Definition no_gaps ms : Prop :=
  forall ms1 m ms2, ms = ms1 ++ m :: ms2 -> delivered_to ms1 (m.(CommandIndex) - 1).

Lemma delivered_to_app ms ms' k : delivered_to ms k -> delivered_to (ms ++ ms') k.
Proof. intros Hd j Hj. destruct (Hd j Hj) as (m & ? & ?). exists m. by rewrite elem_of_app; auto. Qed.

Lemma no_gaps_snoc ms m :
  no_gaps ms -> delivered_to ms (m.(CommandIndex) - 1) -> no_gaps (ms ++ [m]).
Proof.
  intros Hn Hd ms1 m' ms2 E. destruct ms2 as [|x ms2 _] using rev_ind.
  - apply app_inj_tail in E as [<- <-]. done.
  - rewrite app_comm_cons, app_assoc in E. apply app_inj_tail in E as [-> _]. by eapply Hn.
Qed.

(** The goroutines of a peer and its [lastApplied] are behind what was delivered. *)
Definition go_behind ms (g : Goroutine Cmd) : Prop :=
  match g with
  | GoApply s _ => delivered_to ms (s - 1)
  | GoApplied s _ => delivered_to ms s
  | _ => True
  end.

Definition behind ms rf : Prop :=
  delivered_to ms rf.(lastApplied) /\ forall g, g ∈ rf.(goroutines) -> go_behind ms g.

(** A step that applies nothing: [lastApplied] stays, and a new apply goroutine
    starts after it. *)
Definition starts_after rf (g : Goroutine Cmd) : Prop :=
  match g with GoApply s _ => s = rf.(lastApplied) + 1 | GoApplied _ _ => False | _ => True end.

Definition idle rf rf' : Prop :=
  rf'.(lastApplied) = rf.(lastApplied) /\
  forall g, g ∈ rf'.(goroutines) -> g ∈ rf.(goroutines) \/ starts_after rf g.

Lemma behind_idle ms rf rf' : behind ms rf -> idle rf rf' -> behind ms rf'.
Proof.
  intros [Ha Hg] [El Hi]. split; [by rewrite El|]. intros g [?|Hs]%Hi; [by apply Hg|].
  destruct g; cbn in *; try done. subst. by rewrite Z.add_simpl_r.
Qed.

Lemma behind_snoc ms rf m : behind ms rf -> behind (ms ++ [m]) rf.
Proof.
  intros [Ha Hg]. split; [by apply delivered_to_app|]. intros g Hin%Hg.
  destruct g; cbn in *; auto using delivered_to_app.
Qed.

Lemma idle_go rf rf' gs :
  rf'.(lastApplied) = rf.(lastApplied) -> rf'.(goroutines) = rf.(goroutines) ++ gs ->
  (forall g, g ∈ gs -> starts_after rf g) -> idle rf rf'.
Proof.
  intros El Eg Hs. split; [done|]. rewrite Eg. intros g [?|?]%elem_of_app; auto.
Qed.

Lemma idle_same rf rf' :
  rf'.(lastApplied) = rf.(lastApplied) -> rf'.(goroutines) = rf.(goroutines) -> idle rf rf'.
Proof. intros El Eg. split; [done|]. rewrite Eg. auto. Qed.


Lemma del_go_idle k rf : idle rf (del_go k rf).
Proof. split; [done|]. intros g Hg. left. by apply elem_of_delete in Hg. Qed.

Lemma idle_adopt t rf : idle rf (persist (adopt t rf)).
Proof.
  destruct (adopt_frame t rf) as (_ & _ & _ & _ & Ea & _ & _ & Eg & _). by apply idle_same.
Qed.

(** ** Handlers *)

Lemma rv_outcome_idle rf args rf' reply : rv_outcome rf args rf' reply -> idle rf rf'.
Proof.
  intros Ho. pose proof (rv_outcome_go _ _ _ _ Ho). apply idle_same; [|done].
  destruct (adopt_frame args.(rv_Term) rf) as (_ & _ & _ & _ & Ea & _). by destruct Ho.
Qed.

Lemma ae_outcome_idle rf args rf' reply : ae_outcome rf args rf' reply -> idle rf rf'.
Proof.
  destruct (adopt_frame args.(ae_Term) rf) as (_ & _ & _ & _ & Ea & _ & _ & Eg & _).
  intros [| | |prev rf1 rf2 ? ? ? -> Hf]; try by apply idle_same.
  apply follower_commit_frame in Hf as (gs & -> & Hgs). cbn in *.
  eapply (idle_go _ _ gs); [done|cbn; by rewrite Eg|]. intros g Hg.
  destruct Hgs as [->|(ci & es & -> & _)]; [by apply not_elem_of_nil in Hg|].
  apply list_elem_of_singleton in Hg as ->. cbn. by rewrite Ea.
Qed.

Lemma vote_reply_idle rf args reply rf' : vote_reply rf args reply rf' -> idle rf rf'.
Proof.
  intros Hr. pose proof (vote_reply_go _ _ _ _ Hr) as (gs & Eg & Hgs).
  eapply idle_go; [|done|intros g Hg; by destruct (Hgs g Hg) as [? ->]].
  destruct (adopt_frame reply.(rvr_Term) rf) as (_ & _ & _ & _ & Ea & _).
  destruct Hr as [? _ _ -> _|? ? _ Hs -> _ Hc| |]; try done.
  revert Hc. unfold convertTo. rewrite decide_False by (cbn; congruence).
  rewrite broadcastHeartbeat_eq. cbn. intros Hc. by inv_res.
Qed.

Lemma broadcastHeartbeat_reply_idle rf server args reply rf' :
  raft_wf rf -> broadcastHeartbeat_reply rf server args reply = Ret rf' -> idle rf rf'.
Proof.
  intros Hw E. unfold broadcastHeartbeat_reply in E. case_if.
  - do 2 bind_inv E.
    match type of E with commitScan _ ?r ?i = _ =>
      destruct (commitScan_spec r i) as (r' & c & gs & E' & -> & Hg & _); [apply Hw|cbn; lia|]
    end.
    cbn in E'. rewrite E in E'. inv_res.
    eapply (idle_go _ _ gs); [done|done|]. intros g Hin.
    destruct Hg as [->|(es & -> & _)]; [by apply not_elem_of_nil in Hin|].
    by apply list_elem_of_singleton in Hin as ->.
  - case_if.
    + rewrite convertTo_Follower in E. cbn in E. inv_res.
      replace (toFollower _) with (adopt reply.(aer_Term) rf); [apply idle_adopt|].
      unfold adopt. by destruct (Z.ltb_spec rf.(currentTerm) reply.(aer_Term)); [|lia].
    + bind_inv E. case_if; [|inv_res; by apply idle_same].
      revert E. generalize (Z.to_nat args.(ae_PrevLogIndex)) as fuel.
      generalize args.(ae_PrevLogIndex) as i. intros i fuel. revert i.
      induction fuel as [|fuel IH]; cbn; intros i E; [inv_res; by apply idle_same|].
      bind_inv E. case_if; [|by eapply IH]. bind_inv E. inv_res. by apply idle_same.
Qed.

(** ** The invariant *)

Definition apply_inv w : Prop :=
  forall i rf, w.(nodes) !! i = Some rf ->
    exists ms, w.(applied) !! i = Some ms /\ behind ms rf /\ no_gaps ms.

Lemma apply_inv_idle w w' i rf rf' :
  apply_inv w -> w.(nodes) !! i = Some rf -> w'.(nodes) = <[i := rf']> w.(nodes) ->
  w'.(applied) = w.(applied) -> idle rf rf' -> apply_inv w'.
Proof.
  intros Hi Hr En Ea Hid j r Hj. rewrite En in Hj. rewrite Ea.
  apply list_lookup_insert_Some in Hj as [(<- & <- & _)|[_ Hj]]; [|by apply Hi].
  destruct (Hi _ _ Hr) as (ms & ? & ? & ?). exists ms. eauto using behind_idle.
Qed.

(** A step of peer [i] that also changes what it delivered. *)
Lemma apply_inv_put w i rf rf' ms ms' :
  apply_inv w -> w.(nodes) !! i = Some rf -> w.(applied) !! i = Some ms ->
  behind ms' rf' -> no_gaps ms' ->
  apply_inv (put_applied i ms' (put_node i rf' w)).
Proof.
  intros Hi Hr Hm Hb Hn j r Hj. cbn in *.
  apply list_lookup_insert_Some in Hj as [(<- & <- & _)|[? Hj]].
  - exists ms'. rewrite list_lookup_insert_eq by (by eapply lookup_lt_Some). done.
  - rewrite list_lookup_insert_ne by done. by apply Hi.
Qed.

Lemma run_goroutine_apply w w' i k g rf inc :
  apply_inv w -> w.(nodes) !! i = Some rf -> rf.(goroutines) !! k = Some g ->
  run_goroutine i k g rf inc w = Ret w' -> apply_inv w'.
Proof.
  intros Ha Hi Hk E. destruct (Ha _ _ Hi) as (ms & Hm & [Hl Hb] & Hn).
  pose proof (Hb g (list_elem_of_lookup_2 _ _ _ Hk)) as Hg.
  pose proof (del_go_idle k rf) as Hdel.
  destruct g as [s a|s|s [|e es]|s es|c t]; cbn in E.
  - inv_res. by eapply (apply_inv_idle w).
  - bind_inv E. destruct x; inv_res; by eapply (apply_inv_idle w).
  - inv_res. by eapply (apply_inv_idle w).
  - inv_res. rewrite Hm. cbn. eapply apply_inv_put; [done..| |by apply no_gaps_snoc].
    assert (behind (ms ++ [apply_msg s e]) (del_go k rf)) as [Hl' Hb'].
    { apply behind_snoc. eapply behind_idle; [by split|done]. }
    split; [done|]. cbn.
    intros g [?| ->%list_elem_of_singleton]%elem_of_app; [by apply Hb'|]. cbn.
    intros j Hj. destruct (decide (j = s)) as [->|].
    + exists (apply_msg s e). rewrite elem_of_app, list_elem_of_singleton. auto.
    + apply (delivered_to_app _ _ (s - 1)); [done|lia].
  - inv_res. cbn in Hg.
    replace (put_node _ _ w) with
      (put_applied i ms (put_node i (spawn (GoApply (s + 1) (tail es)) (apply_done (del_go k rf) s)) w)).
    2:{ unfold put_applied, put_node. cbn. by rewrite (list_insert_id _ _ _ Hm). }
    eapply apply_inv_put; [done..| |done]. split; [done|]. cbn.
    intros g [?%elem_of_delete| ->%list_elem_of_singleton]%elem_of_app; [by apply Hb|].
    cbn. by rewrite Z.add_simpl_r.
  - bind_inv E. destruct x as [rf' index]. inv_res.
    apply Start_append_inv in E0 as (mi & ni & _ & _ & -> & _).
    eapply (apply_inv_idle w); [done|done|reflexivity|reflexivity|]. split; [done|].
    cbn. intros g Hg'. left. by apply elem_of_delete in Hg'.
Qed.

Lemma deliver_apply w w' k p :
  cluster_wf n w -> apply_inv w -> w.(net) !! k = Some p -> deliver k p w = Some (Ret w') ->
  apply_inv w'.
Proof.
  intros Hcw Ha Hk E. pose proof (cw_pkt _ _ Hcw _ (list_elem_of_lookup_2 _ _ _ Hk)) as Hp.
  destruct p as [src inc dst args|src inc dst args reply|src inc dst args|src inc dst args reply];
    cbn in E.
  - destruct (w.(nodes) !! dst) as [rf|] eqn:Hi; [|done]. cbn in E. injection E as E.
    bind_inv E. destruct x as [rf' reply]. inv_res.
    apply RequestVote_inv in E0; [|apply (cw_node _ _ Hcw _ _ Hi)].
    eapply (apply_inv_idle w _ dst); [done..| | |by eapply rv_outcome_idle]; by case_if.
  - destruct (w.(nodes) !! src) as [rf|] eqn:Hi; [|done]. cbn in E.
    case_decide; injection E as E; [|by inv_res].
    bind_inv E. inv_res. apply startElection_reply_inv in E0.
    eapply (apply_inv_idle w _ src); [done..| | |by eapply vote_reply_idle]; by repeat case_if.
  - destruct (w.(nodes) !! dst) as [rf|] eqn:Hi; [|done]. cbn in E. injection E as E.
    bind_inv E. destruct x as [rf' reply]. inv_res.
    apply AppendEntries_inv in E0; [|apply (cw_node _ _ Hcw _ _ Hi)|apply Hp].
    eapply (apply_inv_idle w _ dst); [done..|by eapply ae_outcome_idle].
  - destruct (w.(nodes) !! src) as [rf|] eqn:Hi; [|done]. cbn in E.
    case_decide; injection E as E; [|by inv_res].
    bind_inv E. inv_res.
    apply broadcastHeartbeat_reply_idle in E0; [|apply (cw_node _ _ Hcw _ _ Hi)].
    by eapply (apply_inv_idle w _ src).
Qed.

Lemma step_apply lbl w w' :
  cluster_wf n w -> apply_inv w -> step lbl w = Some (Ret w') -> apply_inv w'.
Proof.
  intros Hcw Ha E. destruct lbl as [i|i|i|i|i|i k|k|k|i c|i]; cbn in E.
  7: destruct (w.(net) !! k) as [p|] eqn:Hp; [|done]; by eapply deliver_apply.
  7: destruct (w.(net) !! k) as [p|]; [|done]; cbn in E; by simplify_eq.
  all: destruct (w.(nodes) !! i) as [rf|] eqn:Hi; [|done]; cbn in E.
  - destruct (expire _) as [t|]; [|done]. cbn in E. simplify_eq.
    eapply (apply_inv_idle w); [done|done|reflexivity|reflexivity|by apply idle_same].
  - destruct (expire _) as [t|]; [|done]. cbn in E. simplify_eq.
    eapply (apply_inv_idle w); [done|done|reflexivity|reflexivity|by apply idle_same].
  - destruct (loop rf); try done. destruct (recv _) as [t|]; [|done]. cbn in E. simplify_eq.
    eapply (apply_inv_idle w); [done|done|reflexivity|reflexivity|by apply idle_same].
  - destruct (loop rf); try done. destruct (recv _) as [t|]; [|done]. cbn in E. simplify_eq.
    eapply (apply_inv_idle w); [done|done|reflexivity|reflexivity|by apply idle_same].
  - destruct (loop rf) eqn:Hl; [done| |].
    + injection E as E. bind_inv E. inv_res.
      apply (onElectionTimer_inv n i) in E0 as (e & He & ->); [|by eapply cw_node].
      eapply (apply_inv_idle w); [done|done|reflexivity|reflexivity|].
      eapply idle_go; [reflexivity|reflexivity|]. by intros g (p & -> & _)%list_elem_of_fmap.
    + simplify_eq. eapply (apply_inv_idle w); [done|done|reflexivity|reflexivity|].
      unfold onHeartbeatTimer. case_decide; [|by apply idle_same].
      rewrite broadcastHeartbeat_eq. eapply idle_go; [reflexivity|reflexivity|].
      by intros g (p & -> & _)%list_elem_of_fmap.
  - destruct (w.(incs) !! i) as [inc|]; [|done]. cbn in E.
    destruct (goroutines rf !! k) as [g|] eqn:Hg; [|done]. injection E as E.
    by eapply run_goroutine_apply.
  - case_bool_decide; simplify_eq; [|done].
    eapply (apply_inv_idle w); [done|done|reflexivity|reflexivity|].
    eapply idle_go; [reflexivity|reflexivity|]. by intros g ->%list_elem_of_singleton.
  - simplify_eq. destruct (Ha _ _ Hi) as (ms & Hm & _).
    eapply (apply_inv_put (bump_inc i w)); [done..| |].
    + destruct (Make_fields (Cmd:=Cmd) (peers rf) (Z.of_nat i) (Copy (crash1 rf.(persister))))
        as (_ & _ & _ & _ & Eg & _ & _ & El & _). unfold start1. split.
      * rewrite El. intros j Hj. lia.
      * rewrite Eg. by intros g ?%not_elem_of_nil.
    + intros [] ? ?; done.
Qed.

Lemma init_apply_inv : apply_inv (init n).
Proof.
  intros i rf [Hlt ->]%init_node. exists []. cbn. rewrite lookup_replicate_2 by done.
  split; [done|]. split; [|intros [] ? ?; done]. split; [intros j ?; cbn in *; lia|].
  by intros g ?%not_elem_of_nil.
Qed.

Lemma reachable_apply_inv w : reachable n w -> apply_inv w.
Proof.
  induction 1 as [|lbl w w' Hr IH Hs]; [apply init_apply_inv|].
  eapply step_apply; [by eapply reachable_wf|done|done].
Qed.

(** What was delivered before a message. *)
Lemma delivered_before w i ms1 m ms2 k :
  reachable n w -> (i < n)%nat -> w.(applied) !! i = Some (ms1 ++ m :: ms2) ->
  1 <= k < m.(CommandIndex) -> exists m', m' ∈ ms1 /\ m'.(CommandIndex) = k.
Proof.
  intros Hr Hi Ha Hk. pose proof (reachable_wf _ _ Hr) as Hcw.
  destruct (lookup_lt_is_Some_2 w.(nodes) i) as [rf Hrf]; [by rewrite (cw_len _ _ Hcw)|].
  destruct (reachable_apply_inv _ Hr _ _ Hrf) as (ms & Hm & _ & Hn). simplify_eq.
  apply (Hn _ _ _ eq_refl). lia.
Qed.
End apply.
