(* ===== verification/RaftTraces.v ===== *)
(** * RaftTraces: concrete runs of a cluster

    A cluster of three servers with [nat] commands, the countable codec of
    Gob.v and a constant random source.  The runs are evaluated by the step
    function; RaftSafety.v uses them as witnesses of its theorems, and the last
    section shows what the races outside timely runs lead to. *)

From S2P Require Import Prelude Gob Raft Cluster.
Local Open Scope Z_scope.

(** ** Timely runs, decided *)

Section timely.
Context {Cmd : Type} `{!Gob (PVal Cmd)} `{!Rand}.
Implicit Types (w : Cluster Cmd).

Definition timelyb (lbl : Label Cmd) w : bool :=
  match lbl with
  | LLoop i =>
      match w.(nodes) !! i with
      | Some rf => bool_decide (rf.(loop) = LoopElection -> rf.(state) <> Leader)
      | None => true
      end
  | LDeliver k =>
      match w.(net) !! k with
      | Some (VoteRep src _ _ args reply) =>
          match w.(nodes) !! src with
          | Some rf => bool_decide (reply.(rvr_VoteGranted) = true -> rf.(state) = Candidate ->
                                    rf.(currentTerm) = args.(rv_Term))
          | None => true
          end
      | _ => true
      end
  | LGo i k =>
      match w.(nodes) !! i with
      | Some rf =>
          match rf.(goroutines) !! k with
          | Some (GoStart _ term) => bool_decide (rf.(state) = Leader /\ rf.(currentTerm) = term)
          | _ => true
          end
      | None => true
      end
  | _ => true
  end.

Lemma timelyb_timely lbl w : timelyb lbl w = true -> timely lbl w.
Proof.
  destruct lbl; cbn; try done.
  - intros E rf Hi. rewrite Hi in E. by apply bool_decide_eq_true in E.
  - intros E rf c t Hi Hk. rewrite Hi, Hk in E. by apply bool_decide_eq_true in E.
  - intros E src inc dst args reply rf Hk Hs. rewrite Hk, Hs in E.
    by apply bool_decide_eq_true in E.
Qed.

Fixpoint run_timely (ls : list (Label Cmd)) w : option (Cluster Cmd) :=
  match ls with
  | [] => Some w
  | lbl :: ls =>
      if timelyb lbl w
      then match step lbl w with Some (Ret w') => run_timely ls w' | _ => None end
      else None
  end.

Lemma run_timely_reachable n ls w w' :
  timely_reachable n w -> run_timely ls w = Some w' -> timely_reachable n w'.
Proof.
  revert w. induction ls as [|lbl ls IH]; cbn; intros w Hr E; [by simplify_eq|].
  destruct (timelyb lbl w) eqn:Ht; [|done].
  destruct (step lbl w) as [[w1|]|] eqn:Hs; [|done..].
  eapply IH; [|done]. eapply treach_step; [done|by apply timelyb_timely|done].
Qed.
End timely.

(** ** The instance *)

Global Instance LogEntry_eq_dec : EqDecision (LogEntry nat).
Proof. solve_decision. Defined.

Global Instance LogEntry_countable : Countable (LogEntry nat).
Proof.
  apply (inj_countable' (fun e => (e.(le_Command), e.(le_Term)))
           (fun p => {| le_Command := p.1; le_Term := p.2 |})).
  by intros [].
Defined.

Global Instance PVal_eq_dec : EqDecision (PVal nat).
Proof. solve_decision. Defined.

Global Instance PVal_countable : Countable (PVal nat).
Proof.
  apply (inj_countable' (fun v => match v with PInt z => inl z | PLogs l => inr l end)
           (fun s => match s with inl z => PInt z | inr l => PLogs l end)).
  by intros [].
Defined.

#[export] Instance nat_gob : Gob (PVal nat) := countable_gob.

#[export] Program Instance const_rand : Rand := {| Int63n := fun _ _ => 0 |}.
Next Obligation. intros. lia. Qed.

Definition start3 : Cluster nat := init 3.

(** The select loop of server [i] takes an election timeout. *)
Definition elect (i : nat) : list (Label nat) :=
  [LExpireElection i; LRecvElection i; LLoop i].

(** The select loop of server [i] takes a heartbeat. *)
Definition beat (i : nat) : list (Label nat) :=
  [LExpireHeartbeat i; LRecvHeartbeat i; LLoop i].

(** Server 0 is elected with the vote of server 1, appends command 7,
    replicates it to server 1 and commits it; both deliver it. *)
Definition elect0 : list (Label nat) :=
  elect 0 ++ [LGo 0 0; LGo 0 0; LDeliver 0; LDeliver 1].
Definition start0 : list (Label nat) := elect0 ++ [LStart 0 (Some 7%nat); LGo 0 2].
Definition commit0 : list (Label nat) :=
  start0 ++ [LGo 0 0; LDeliver 1; LDeliver 1; LGo 0 1]
  ++ beat 0 ++ [LGo 0 2; LDeliver 1; LDeliver 1; LGo 1 0].

(** After [commit0]: server 0 crashes, server 1 is elected in term 2 by server 2,
    appends command 9, brings the log of server 2 up to date and commits; server 2
    delivers command 7. *)
Definition takeover : list (Label nat) :=
  [LCrash 0] ++ elect 1 ++ [LGo 1 2; LDeliver 1; LDeliver 1; LGo 1 3; LDeliver 1; LDeliver 1]
  ++ [LStart 1 (Some 9%nat); LGo 1 3] ++ beat 1 ++ [LGo 1 4; LDeliver 1; LDeliver 1; LGo 2 0].

(** ** Figure 8: an entry of an old term is committed by counting

    Server 0 appends 7 in term 1 and crashes; server 1 is elected in term 2,
    appends 8 and crashes; server 0 is elected in term 3, replicates 7 to
    server 2 and commits it; server 1 is elected in term 4 by server 2, which
    replaces 7, and commits 8. *)
Definition figure8 : list (Label nat) :=
  start0 ++ [LDrop 0; LCrash 0]
  ++ elect 1 ++ [LGo 1 1; LDeliver 0; LDeliver 0; LStart 1 (Some 8%nat); LGo 1 3; LCrash 1]
  ++ elect 0 ++ elect 0 ++ [LGo 0 3; LDeliver 0; LDeliver 0; LGo 0 4; LDeliver 0; LDeliver 0]
  ++ beat 0 ++ [LGo 0 5; LStart 0 (Some 9%nat); LGo 0 5; LDeliver 0; LDeliver 0; LGo 0 5]
  ++ elect 1 ++ elect 1 ++ [LGo 1 3; LDeliver 0; LDeliver 0; LGo 1 4; LDeliver 0; LDeliver 0]
  ++ beat 1 ++ [LGo 1 5; LStart 1 (Some 10%nat); LGo 1 5; LDeliver 0; LDeliver 0; LGo 1 5].

(** ** Two leaders in one term

    Server 0 asks server 1 for its vote in term 1 and times out before the
    reply arrives; it counts the vote of term 1 and leads in term 2, in which
    servers 1 and 2 elect server 1. *)
Definition stale_vote : list (Label nat) :=
  elect 0 ++ [LGo 0 0; LDeliver 0] ++ elect 0 ++ [LDeliver 0]
  ++ elect 1 ++ [LGo 1 1; LDeliver 0; LDeliver 0].

(** ** A command delivered twice

    Server 0 commits 7 and delivers it; before the goroutine records it in
    [lastApplied], a second command is committed and the new goroutine starts
    from 7 again. *)
Definition deliver_twice : list (Label nat) :=
  start0 ++ [LGo 0 0; LDeliver 1; LDeliver 1; LGo 0 1; LStart 0 (Some 8%nat); LGo 0 2]
  ++ beat 0 ++ [LGo 0 2; LDeliver 1; LDeliver 1; LGo 0 3].

(** ** A reply of an earlier leadership

    Five servers.  Server 0 leads term 1, appends 7 and 17; server 1 accepts them
    and its answer stays in the network.  Server 2 leads term 2 and replaces the
    log of server 0 with 8.  Server 0 leads term 3, appends 9, replicates it to
    server 2, receives the old answer of server 1 and delivers 8.  Server 1 leads
    term 4 with the votes of 3 and 4, commits its log and delivers 7. *)
Definition deliver_all (k m : nat) : list (Label nat) := replicate m (LDeliver k).
Definition stale_reply : list (Label nat) :=
  elect 0 ++ [LGo 0 0; LGo 0 0] ++ deliver_all 0 4
  ++ [LStart 0 (Some 7%nat); LGo 0 6; LStart 0 (Some 17%nat); LGo 0 6; LGo 0 2; LDeliver 0]
  ++ elect 2 ++ [LGo 2 2; LGo 2 2] ++ deliver_all 1 4
  ++ [LStart 2 (Some 8%nat); LGo 2 6; LGo 2 2; LDeliver 1; LDrop 1]
  ++ elect 0 ++ [LGo 0 7; LGo 0 7] ++ deliver_all 1 4
  ++ [LStart 0 (Some 9%nat); LGo 0 11; LGo 0 2; LDeliver 1; LDeliver 1; LDeliver 0; LGo 0 10]
  ++ elect 1 ++ elect 1 ++ elect 1 ++ [LGo 1 10; LGo 1 10] ++ deliver_all 0 4
  ++ [LStart 1 (Some 10%nat); LGo 1 14; LGo 1 12] ++ deliver_all 0 2 ++ [LGo 1 12] ++ deliver_all 0 2
  ++ beat 1 ++ [LGo 1 14] ++ deliver_all 0 2 ++ [LGo 1 14] ++ deliver_all 0 2 ++ [LGo 1 14].
