(* ===== verification/RaftSafety.v ===== *)
(** * RaftSafety: the guarantees of a Raft cluster

    Which of the properties of Raft the code keeps in every run, which it keeps
    when the three races of Cluster.v do not happen, and runs that show what
    the code does not guarantee. *)

From S2P Require Import Prelude Gob Raft RaftFacts RaftHandlers RaftSpec RaftReplicate.
From S2P Require Import Cluster ClusterStep Election ElectionSafety Leaders Apply RaftTraces.
Local Open Scope Z_scope.

Section safety.
Context {Cmd : Type} `{!Gob (PVal Cmd)} `{!Rand} (n : nat).

(** C8. Election Safety: in a timely run, of any length, with any losses, delays
    and crashes, two servers that are leader in the same term are the same
    server. *)
Theorem election_safety (w : Cluster Cmd) i j rf rf' :
  timely_reachable n w -> w.(nodes) !! i = Some rf -> w.(nodes) !! j = Some rf' ->
  rf.(state) = Leader -> rf'.(state) = Leader -> rf.(currentTerm) = rf'.(currentTerm) -> i = j.
Proof.
  intros Hr Hi Hj Hs Hs' Ht. apply timely_leader_inv in Hr as Hl.
  pose proof (li_leader _ _ Hl _ _ Hi Hs) as H1. pose proof (li_leader _ _ Hl _ _ Hj Hs') as H2.
  rewrite Ht in H1. by simplify_eq.
Qed.

(** C9. Log Matching: in a timely run, if the logs of two servers have entries
    of the same term at the same index, the logs are equal up to that index. *)
Theorem log_matching (w : Cluster Cmd) i j rf rf' k e e' :
  timely_reachable n w -> w.(nodes) !! i = Some rf -> w.(nodes) !! j = Some rf' ->
  rf.(logs) !! k = Some e -> rf'.(logs) !! k = Some e' -> e.(le_Term) = e'.(le_Term) ->
  take (S k) rf.(logs) = take (S k) rf'.(logs).
Proof.
  intros Hr Hi Hj He He' Ht. apply timely_leader_inv in Hr as Hl.
  apply timely_is_reachable, reachable_wf in Hr as Hcw.
  pose proof (wf_log _ (no_wf _ _ _ (cw_node _ _ Hcw _ _ Hi))) as W.
  pose proof (wf_log _ (no_wf _ _ _ (cw_node _ _ Hcw _ _ Hj))) as W'.
  by eapply (covered_matching w.(leaders) _ _ W W'); [by eapply li_log..|done|done|].
Qed.

(** C10. A server grants its vote to at most one candidate per term: in every
    run, timely or not, with crashes and restarts between the two votes. *)
Theorem vote_once (w : Cluster Cmd) j T c c' :
  reachable n w -> (j, T, c) ∈ w.(votes) -> (j, T, c') ∈ w.(votes) -> c = c'.
Proof. intros Hr%reachable_votes_inv. by apply (vi_once _ Hr). Qed.

(** In every run a step never lowers the term of a server, and a vote cast
    in a term is kept for the rest of the term; this includes the step in which
    the server crashes and restarts from its persister. *)
Theorem step_keeps_vote (w w' : Cluster Cmd) lbl i rf rf' :
  reachable n w -> step lbl w = Some (Ret w') ->
  w.(nodes) !! i = Some rf -> w'.(nodes) !! i = Some rf' ->
  rf.(currentTerm) <= rf'.(currentTerm) /\
  (rf.(currentTerm) = rf'.(currentTerm) -> rf.(votedFor) <> -1 ->
   rf'.(votedFor) = rf.(votedFor)).
Proof.
  intros Hr Hs Hi Hi'. apply reachable_wf in Hr.
  assert (vstep rf rf') as Hv.
  { destruct (step_summary _ _ _ _ Hr Hs) as [->|Hsum]; [simplify_eq; apply vstep_refl|].
    by eapply summary_vstep. }
  destruct Hv as [?|[? [?|?]]]; split; try lia; done.
Qed.

(** C11. A restarted server has the term, the vote and the log it had when it
    crashed, and the volatile state of a new server. *)
Theorem crash_recovers (w w' : Cluster Cmd) i rf :
  reachable n w -> w.(nodes) !! i = Some rf -> step (LCrash i) w = Some (Ret w') ->
  exists rf', w'.(nodes) !! i = Some rf' /\
    rf'.(currentTerm) = rf.(currentTerm) /\ rf'.(votedFor) = rf.(votedFor) /\
    rf'.(logs) = rf.(logs) /\ rf'.(state) = Follower /\ rf'.(commitIndex) = 0 /\
    rf'.(lastApplied) = 0 /\ rf'.(goroutines) = [].
Proof.
  intros Hr Hi Hs. apply reachable_wf in Hr. cbn in Hs. rewrite Hi in Hs. cbn in Hs. simplify_eq.
  destruct (start1_restores n i rf) as (Et & Ev & El); [by eapply cw_node|].
  destruct (Make_fields (Cmd:=Cmd) (peers rf) (Z.of_nat i) (Copy (crash1 rf.(persister))))
    as (_ & _ & _ & Es & Eg & _ & Ec & Ea & _).
  eexists. split; [cbn; apply list_lookup_insert_eq; by eapply lookup_lt_Some|]. done.
Qed.

(** C12. In every run a server delivers index [k] on its applyCh for the first
    time only after it has delivered every index from 1 to [k-1]. *)
Theorem applied_in_order (w : Cluster Cmd) i ms1 m ms2 k :
  reachable n w -> (i < n)%nat -> w.(applied) !! i = Some (ms1 ++ m :: ms2) ->
  1 <= k < m.(CommandIndex) -> exists m', m' ∈ ms1 /\ m'.(CommandIndex) = k.
Proof. apply delivered_before. Qed.
End safety.

(** ** Witnesses on the runs of RaftTraces.v *)

(** The cluster after a run; the start when the run is not enabled. *)
Definition after (ls : list (Label nat)) : Cluster nat := default start3 (run_timely ls start3).

Lemma after_timely ls : timely_reachable 3 (after ls).
Proof.
  unfold after. destruct (run_timely ls start3) as [w|] eqn:E; cbn; [|apply treach_init].
  eapply run_timely_reachable; [apply treach_init|done].
Qed.

(** The state of server [i] after a run. *)
Definition server (ls : list (Label nat)) (i : nat) : Raft nat :=
  default (Make 3 0 MakePersister) ((after ls).(nodes) !! i).

Lemma after_commit_leader :
  (after commit0).(nodes) !! 0%nat = Some (server commit0 0) /\
  (server commit0 0).(state) = Leader /\ (server commit0 0).(currentTerm) = 1.
Proof. vm_compute. done. Qed.

Lemma election_safety_witness : 0%nat = 0%nat.
Proof.
  destruct after_commit_leader as (Hi & Hs & _).
  exact (election_safety 3 (after commit0) 0 0 _ _ (after_timely _) Hi Hi Hs Hs eq_refl).
Defined.

Lemma log_matching_witness :
  take 2 (server commit0 0).(logs) = take 2 (server commit0 1).(logs).
Proof.
  apply (log_matching 3 (after commit0) 0 1 (server commit0 0) (server commit0 1) 1
           {| le_Command := Some 7%nat; le_Term := 1 |} {| le_Command := Some 7%nat; le_Term := 1 |}
           (after_timely _)); vm_compute; reflexivity.
Defined.

Lemma vote_once_witness : 0 = 0.
Proof.
  apply (vote_once 3 (after commit0) 1 1 0 0 (timely_is_reachable _ _ (after_timely _)));
    (apply (list_elem_of_lookup_2 _ 1%nat); vm_compute; reflexivity).
Defined.

Lemma step_keeps_vote_witness :
  (server commit0 1).(currentTerm) <= (server (commit0 ++ [LCrash 1]) 1).(currentTerm) /\
  ((server commit0 1).(currentTerm) = (server (commit0 ++ [LCrash 1]) 1).(currentTerm) ->
   (server commit0 1).(votedFor) <> -1 ->
   (server (commit0 ++ [LCrash 1]) 1).(votedFor) = (server commit0 1).(votedFor)).
Proof.
  apply (step_keeps_vote 3 (after commit0) (after (commit0 ++ [LCrash 1])) (LCrash 1) 1
           _ _ (timely_is_reachable _ _ (after_timely _))); vm_compute; reflexivity.
Defined.

Lemma crash_recovers_witness :
  exists rf', (after (commit0 ++ [LCrash 1])).(nodes) !! 1%nat = Some rf' /\
    rf'.(currentTerm) = (server commit0 1).(currentTerm) /\
    rf'.(votedFor) = (server commit0 1).(votedFor) /\
    rf'.(logs) = (server commit0 1).(logs) /\ rf'.(state) = Follower /\ rf'.(commitIndex) = 0 /\
    rf'.(lastApplied) = 0 /\ rf'.(goroutines) = [].
Proof.
  apply (crash_recovers 3 (after commit0) (after (commit0 ++ [LCrash 1])) 1 (server commit0 1)
           (timely_is_reachable _ _ (after_timely _))); vm_compute; reflexivity.
Defined.

Definition applied_msg (k : Z) (c : nat) : ApplyMsg nat :=
  {| CommandValid := true; am_Command := Some c; CommandIndex := k |}.

Lemma applied_in_order_witness :
  exists m', m' ∈ [applied_msg 1 7; applied_msg 1 7] /\ m'.(CommandIndex) = 1.
Proof.
  apply (applied_in_order 3 (after (deliver_twice ++ [LGo 0 3; LGo 0 3])) 0
           [applied_msg 1 7; applied_msg 1 7] (applied_msg 2 8) []
           1 (timely_is_reachable _ _ (after_timely _))); [lia|vm_compute; reflexivity|cbn; lia].
Defined.

Lemma server_lookup ls i : (i < 3)%nat -> (after ls).(nodes) !! i = Some (server ls i).
Proof.
  intros Hi. pose proof (reachable_wf _ _ (timely_is_reachable _ _ (after_timely ls))) as Hcw.
  destruct (lookup_lt_is_Some_2 (after ls).(nodes) i) as [rf Hrf]; [by rewrite (cw_len _ _ Hcw)|].
  unfold server. by rewrite Hrf.
Qed.

Lemma server_wf ls i : (i < 3)%nat -> raft_wf (server ls i).
Proof.
  intros Hi%(server_lookup ls).
  apply (cw_node _ _ (reachable_wf _ _ (timely_is_reachable _ _ (after_timely ls))) _ _ Hi).
Qed.



(** The AppendEntries of [commit0] that carries command 7 to server 1. *)
Definition append_req : AppendEntriesArgs nat :=
  {| ae_Term := 1; ae_LeaderId := 0; ae_PrevLogIndex := 0; ae_PrevLogTerm := 0;
     ae_Entries := [{| le_Command := Some 7%nat; le_Term := 1 |}]; ae_LeaderCommit := 0 |}.

Lemma append_req_wf : args_wf append_req.
Proof. split; cbn; try lia. repeat constructor; cbn; lia. Qed.

Lemma AppendEntries_refines_witness :
  exists rf' reply, AppendEntries (server start0 1) append_req = Ret (rf', reply) /\
    reply.(aer_Success) = true /\
    rf'.(logs) = [zeroEntry; {| le_Command := Some 7%nat; le_Term := 1 |}].
Proof.
  destruct (AppendEntries_refines (server start0 1) append_req)
    as (rf' & reply & E & _ & _ & _ & Hs & Hl & _);
    [apply server_wf; lia|apply append_req_wf|].
  exists rf', reply. split; [exact E|].
  assert (reply.(aer_Success) = true) as Hr.
  { apply Hs. split; [vm_compute; discriminate|]. exists zeroEntry. vm_compute. split; reflexivity. }
  split; [exact Hr|]. destruct (Hl Hr) as [-> _]. vm_compute. reflexivity.
Defined.

Lemma AppendEntries_idempotent_witness :
  exists rf1 r1 rf2 r2, AppendEntries (server start0 1) append_req = Ret (rf1, r1) /\
    AppendEntries rf1 append_req = Ret (rf2, r2) /\ rf2.(logs) = rf1.(logs).
Proof.
  destruct (AppendEntries (server start0 1) append_req) as [[rf1 r1]|] eqn:E1;
    [|vm_compute in E1; discriminate].
  destruct (AppendEntries rf1 append_req) as [[rf2 r2]|] eqn:E2.
  2:{ vm_compute in E1. injection E1 as <- <-. vm_compute in E2. discriminate. }
  exists rf1, r1, rf2, r2. split; [reflexivity|]. split; [exact E2|].
  apply (AppendEntries_idempotent (server start0 1) append_req rf1 r1 rf2 r2);
    [apply server_wf; lia|apply append_req_wf|exact E1| |exact E2].
  vm_compute in E1. injection E1 as <- <-. reflexivity.
Defined.

Definition append_rep : AppendEntriesReply :=
  {| aer_Term := 0; aer_Success := true; aer_ConflictTerm := 0; aer_ConflictIndex := 0 |}.

Lemma broadcastHeartbeat_commit_witness :
  exists rf', broadcastHeartbeat_reply (server start0 0) 1 append_req append_rep = Ret rf' /\
    rf'.(matchIndex) = [1; 1; 0].
Proof.
  destruct (broadcastHeartbeat_commit (server start0 0) 1 append_req append_rep)
    as (rf' & E & Hm & _); [apply server_wf; lia|vm_compute; lia|reflexivity|].
  exists rf'. split; [exact E|]. rewrite Hm. vm_compute. reflexivity.
Defined.

Lemma server_matching ls i j :
  (i < 3)%nat -> (j < 3)%nat -> matching (server ls i).(logs) (server ls j).(logs).
Proof.
  intros Hi Hj. pose proof (timely_leader_inv _ _ (after_timely ls)) as Hl.
  eapply (covered_matching (after ls).(leaders)); [by apply server_wf..| |];
    by eapply (li_log _ _ Hl), server_lookup.
Qed.

(** In [figure8], when server 1 is elected in term 4, its log and the log of
    server 2 differ at index 1. *)
Definition diverged : list (Label nat) := take 50 figure8.

Lemma repair_converges_witness :
  exists ld' fl', repair 2 2 (server diverged 1, server diverged 2) = Ret (ld', fl', true) /\
    fl'.(logs) = [zeroEntry; {| le_Command := Some 8%nat; le_Term := 2 |}].
Proof.
  destruct (repair_converges (server diverged 1) (server diverged 2) 2 2)
    as (ld' & fl' & E & _ & _);
    [apply server_wf; lia|apply server_wf; lia|vm_compute; lia|vm_compute; reflexivity
    |vm_compute; discriminate|vm_compute; reflexivity|vm_compute; lia|apply server_matching; lia|].
  exists ld', fl'. split; [exact E|]. vm_compute in E. injection E as <- <-. reflexivity.
Defined.

(** ** What the code does not guarantee *)

(** Counting replicas of an entry of an older term commits it before it is
    safe: in a timely run server 0 delivers command 7 at index 1 and server 1
    delivers command 8 at index 1 (figure 8 of the Raft paper). *)
Theorem old_term_commit_is_unsafe :
  exists w : Cluster nat, timely_reachable 3 w /\
    w.(applied) !! 0%nat = Some [applied_msg 1 7] /\
    w.(applied) !! 1%nat = Some [applied_msg 1 8].
Proof. exists (after figure8). split; [apply after_timely|]. vm_compute. done. Qed.

(** A vote that is counted after the candidate has moved to a later term
    makes two leaders in one term: election safety needs that race excluded. *)
Theorem stale_vote_makes_two_leaders :
  exists (w : Cluster nat) rf rf', reachable 3 w /\
    w.(nodes) !! 0%nat = Some rf /\ w.(nodes) !! 1%nat = Some rf' /\
    rf.(state) = Leader /\ rf'.(state) = Leader /\ rf.(currentTerm) = rf'.(currentTerm).
Proof.
  destruct (run stale_vote start3) as [w|] eqn:E; [|by vm_compute in E].
  exists w. assert (reachable 3 w) by (eapply run_reachable; [apply reach_init|done]).
  vm_compute in E. injection E as E. subst w. do 2 eexists. split; [done|]. vm_compute. done.
Qed.

(** A command is delivered twice when a second commit comes between its
    delivery and the update of [lastApplied]. *)
Theorem command_delivered_twice :
  exists w : Cluster nat, timely_reachable 3 w /\
    w.(applied) !! 0%nat = Some [applied_msg 1 7; applied_msg 1 7].
Proof. exists (after deliver_twice). split; [apply after_timely|]. vm_compute. done. Qed.
