(* ===== verification/RaftAck.v ===== *)
(** * RaftAck: acknowledged entries

    [A v t k]: server [v] has acknowledged, in term [t], the log of the leader of
    [t] up to index [k].  An acknowledged entry of the leader's own term stays in
    the log of [v] until a later leader that lacks it overwrites it; who gets the
    vote of [v] has it; and so, once a majority has acknowledged it, all later
    leaders have it.  The acknowledgements are not part of the cluster: the
    invariant [ack_inv] says that some relation with these properties exists, and
    the changes that steps make keep it or add to the relation. *)

From S2P Require Import Prelude Gob Raft RaftFacts RaftHandlers RaftSpec RaftReplicate.
From S2P Require Import Cluster ClusterStep Election ElectionSafety Leaders.
Local Open Scope Z_scope.

Section ack.
Context {Cmd : Type} `{!Gob (PVal Cmd)} `{!Rand} (n : nat).
Implicit Types (rf : Raft Cmd) (w : Cluster Cmd) (l L : list (LogEntry Cmd)).
Implicit Types (ls : gmap Z (nat * list (LogEntry Cmd))) (A : nat -> Z -> nat -> Prop).

(** ** Logs that have what the leader of a term has *)

(** [l] agrees with the log of the leader of [t] up to index [k]. *)
Definition holds ls (t : Z) (k : nat) l : Prop :=
  exists i L, ls !! t = Some (i, L) /\ (k < length L)%nat /\ take (S k) l = take (S k) L.

(** The leader of [t] appended the entry at [k] itself. *)
Definition own ls (t : Z) (k : nat) : Prop :=
  (0 < k)%nat /\ exists i L e, ls !! t = Some (i, L) /\ L !! k = Some e /\ e.(le_Term) = t.

(** The leaders after [t] and before [t1] have it. *)
Definition between ls (t : Z) (k : nat) (t1 : Z) : Prop :=
  forall T i L, t < T < t1 -> ls !! T = Some (i, L) -> holds ls t k L.

(** Leaders append entries of their term, and new leaders appear. *)
Definition leads_grow ls ls' : Prop :=
  forall T i l, ls !! T = Some (i, l) ->
    exists suf, ls' !! T = Some (i, l ++ suf) /\ Forall (fun e => e.(le_Term) = T) suf.

Lemma leads_grow_refl ls : leads_grow ls ls.
Proof. intros T i l Hl. exists []. by rewrite app_nil_r. Qed.

Lemma leads_grow_ext ls ls' : leads_grow ls ls' -> leads_ext ls ls'.
Proof. intros Hg T i l Hl. destruct (Hg _ _ _ Hl) as (suf & ? & _). exists (l ++ suf). split; [done|by apply prefix_app_r]. Qed.

Lemma leads_grow_none ls ls' T : leads_grow ls ls' -> ls' !! T = None -> ls !! T = None.
Proof.
  intros Hg Hn. destruct (ls !! T) as [[i l]|] eqn:E; [|done].
  destruct (Hg _ _ _ E) as (suf & E' & _). congruence.
Qed.

Lemma holds_mono ls ls' t k l : leads_grow ls ls' -> holds ls t k l -> holds ls' t k l.
Proof.
  intros Hg (i & L & HL & Hk & E). destruct (Hg _ _ _ HL) as (suf & HL' & _).
  exists i, (L ++ suf). split; [done|]. rewrite length_app. split; [lia|].
  by rewrite take_app_le by lia.
Qed.

Lemma holds_len ls t k l : holds ls t k l -> (k < length l)%nat.
Proof.
  intros (i & L & _ & Hk & E). apply (f_equal length) in E. rewrite !length_take in E. lia.
Qed.

Lemma holds_prefix ls t k l l' : holds ls t k l -> l `prefix_of` l' -> holds ls t k l'.
Proof.
  intros Hh [suf ->]. pose proof (holds_len _ _ _ _ Hh). destruct Hh as (i & L & HL & Hk & E).
  exists i, L. split; [done|]. split; [done|]. by rewrite take_app_le by lia.
Qed.

Lemma holds_take ls t k l l' : holds ls t k l -> take (S k) l' = take (S k) l -> holds ls t k l'.
Proof. intros (i & L & HL & Hk & E) E'. exists i, L. split; [done|]. split; [done|]. congruence. Qed.

(** Less is held as well. *)
Lemma holds_le ls t k k' l : holds ls t k l -> (k' <= k)%nat -> holds ls t k' l.
Proof.
  intros (i & L & HL & Hk & E) Hle. exists i, L. split; [done|]. split; [lia|].
  apply (f_equal (take (S k'))) in E. by rewrite !take_take, !Nat.min_l in E by lia.
Qed.

Lemma own_mono ls ls' t k : leads_grow ls ls' -> own ls t k -> own ls' t k.
Proof.
  intros Hg (Hpos & i & L & e & HL & He & Ht). split; [done|]. destruct (Hg _ _ _ HL) as (suf & HL' & _).
  exists i, (L ++ suf), e. split; [done|]. split; [by apply lookup_app_l_Some|done].
Qed.

Lemma own_anti ls ls' t k i L :
  leads_grow ls ls' -> ls !! t = Some (i, L) -> (k < length L)%nat -> own ls' t k -> own ls t k.
Proof.
  intros Hg HL Hk (Hpos & i' & L' & e & HL' & He & Ht). split; [done|].
  destruct (Hg _ _ _ HL) as (suf & HL2 & _). simplify_eq.
  rewrite lookup_app_l in He by done. by exists i', L, e.
Qed.

Lemma between_anti ls ls' t k t1 :
  leads_grow ls ls' -> own ls t k -> between ls' t k t1 -> between ls t k t1.
Proof.
  intros Hg (_ & i & Lt & e & HLt & He & Ht) Hb T j L HT HL.
  destruct (Hg _ _ _ HL) as (suf & HL' & Hsuf). destruct (Hg _ _ _ HLt) as (suft & HLt' & _).
  destruct (Hb T j (L ++ suf) HT HL') as (i2 & L2 & HL2 & Hk & E).
  assert (i2 = i /\ L2 = Lt ++ suft) as [-> ->] by (split; congruence).
  apply lookup_lt_Some in He as Hlt. rewrite (take_app_le Lt) in E by lia.
  assert ((L ++ suf) !! k = Some e) as Hx.
  { rewrite <- (lookup_take_lt (L ++ suf) (S k)), E by lia. by rewrite lookup_take_lt by lia. }
  exists i, Lt. split; [done|]. split; [done|].
  destruct (decide (k < length L)%nat) as [Hin|Hout]; [by rewrite take_app_le in E by lia|exfalso].
  rewrite lookup_app_r in Hx by lia. apply list_elem_of_lookup_2 in Hx.
  rewrite Forall_forall in Hsuf. apply Hsuf in Hx. lia.
Qed.

Lemma between_le ls t k t1 t2 : between ls t k t2 -> t1 <= t2 -> between ls t k t1.
Proof. intros Hb Hle T i L HT. apply Hb. lia. Qed.

(** ** Merging and electing *)

(** Entries that are there already change nothing. *)
Lemma merge_same l p es : es `prefix_of` drop p l -> merge_entries l p es = l.
Proof.
  revert p. induction es as [|e es IH]; intros p [suf E]; [done|]. cbn.
  assert (l !! p = Some e) as ->.
  { rewrite <- (Nat.add_0_r p), <- lookup_drop, E. done. }
  rewrite Z.eqb_refl. apply IH. exists suf. replace (S p) with (p + 1)%nat by lia.
  rewrite <- drop_drop, E. done.
Qed.

Lemma merge_keep l L p es k :
  matching l L -> es `prefix_of` drop (S p) L ->
  (exists e e', l !! p = Some e /\ L !! p = Some e' /\ e.(le_Term) = e'.(le_Term)) ->
  take (S k) l = take (S k) L -> (k < length L)%nat ->
  take (S k) (merge_entries l (S p) es) = take (S k) l.
Proof.
  intros Hm Hpre Hp Hk Hlt. destruct (merge_entries_match l L p es Hm Hpre Hp) as [_ [->|E]]; [done|].
  destruct (decide (S k <= S p + length es)%nat) as [Hle|Hgt].
  { rewrite E, take_take, Nat.min_l by lia. done. }
  rewrite merge_same; [done|]. destruct Hpre as [suf Hsuf].
  assert (take (S p + length es) l = take (S p + length es) L) as Et.
  { apply (f_equal (take (S p + length es))) in Hk. by rewrite !take_take, !Nat.min_l in Hk by lia. }
  exists (drop (S p + length es) l). apply (f_equal (drop (S p))) in Et.
  rewrite <- (take_drop (length es) (drop (S p) l)), drop_drop. f_equal.
  rewrite !take_drop_commute, Et, <- take_drop_commute, Hsuf. by rewrite take_app_length.
Qed.

(** The terms in the log of the leader of [T]. *)
Definition lterms ls : Prop :=
  forall T i L, ls !! T = Some (i, L) -> Forall (fun e => e.(le_Term) <= T) L.

(** A log is a prefix of the log of the leader of its last term. *)
Lemma covered_last ls l e :
  covered ls l -> last l = Some e -> (1 < length l)%nat ->
  exists i L, ls !! e.(le_Term) = Some (i, L) /\ l = take (length l) L /\ (length l <= length L)%nat.
Proof.
  intros Hc Hl Hlen. rewrite last_lookup in Hl. destruct (length l) as [|[|m]] eqn:E; [lia|lia|]. cbn in Hl.
  destruct (Hc m e Hl) as (i & L & HL & Et). exists i, L. rewrite (take_ge l) in Et by lia.
  split; [done|]. split; [done|]. apply (f_equal length) in Et. rewrite length_take in Et. lia.
Qed.

Lemma own_entry ls t k l :
  own ls t k -> holds ls t k l -> exists e, l !! k = Some e /\ e.(le_Term) = t.
Proof.
  intros (_ & i & L & e & HL & He & Ht) (i' & L' & HL' & Hk & E). simplify_eq.
  exists e. split; [|done]. rewrite <- (lookup_take_lt l (S k)), E by lia. by rewrite lookup_take_lt by lia.
Qed.

(** The election restriction: a log at least as up to date as one that holds the
    entry holds it. *)
Lemma uptodate_holds ls t k T l lc :
  lterms ls -> log_wf l -> log_wf lc -> covered ls l -> covered ls lc ->
  own ls t k -> holds ls t k l -> log_le (last_entry l) (last_entry lc) ->
  between ls t k T -> (forall e, e ∈ lc -> 1 <= e.(le_Term) -> e.(le_Term) < T) ->
  holds ls t k lc.
Proof.
  intros Hlt Hw Hwc Hc Hcc Ho Hh Hle Hb Hbound. pose proof (holds_len _ _ _ _ Hh) as Hlen.
  destruct (own_entry _ _ _ _ Ho Hh) as (ek & Hek & Etk). pose proof (proj1 Ho) as Hpos.
  assert (1 <= t) as Ht1 by (destruct k; [lia|]; rewrite <- Etk; exact (log_wf_term l k ek Hw Hek)).
  assert (is_Some (last l)) as [el Hel] by (apply last_is_Some; intros ->; cbn in Hlen; lia).
  assert (is_Some (last lc)) as [ec Hec]
    by (apply last_is_Some; destruct Hwc as (? & -> & _); done).
  unfold log_le, last_entry in Hle. rewrite Hel, Hec in Hle. cbn in Hle.
  destruct (covered_last ls l el Hc Hel) as (i & L & HL & El & HlenL); [lia|].
  assert (t <= el.(le_Term)) as Htl.
  { specialize (Hlt _ _ _ HL). rewrite Forall_forall in Hlt. rewrite <- Etk. apply Hlt.
    apply (list_elem_of_lookup_2 _ k). rewrite El, lookup_take_lt in Hek by lia. done. }
  assert (1 < length lc)%nat as Hlc.
  { destruct Hwc as ([|x rest] & -> & _); [|cbn; lia]. cbn in Hec. injection Hec as <-.
    cbn in Hle. destruct Hle as [?|[? ?]]; lia. }
  destruct (covered_last ls lc ec Hcc Hec Hlc) as (ic & Lc & HLc & Elc & HlenLc).
  destruct (Z_lt_le_dec t ec.(le_Term)) as [Hgt|Hge].
  - assert (ec.(le_Term) < T) as HT.
    { apply Hbound; [|lia]. rewrite last_lookup in Hec. by eapply list_elem_of_lookup_2. }
    pose proof (Hb _ ic Lc (conj Hgt HT) HLc) as HhL.
    enough (k < length lc)%nat as Hk.
    { eapply holds_take; [exact HhL|]. rewrite Elc, take_take, Nat.min_l by lia. done. }
    apply Nat.lt_nge. intros Hk. destruct HhL as (it & Lt & HLt & HkLt & E).
    rewrite last_lookup in Hec. assert (Lc !! pred (length lc) = Some ec) as Hc'.
    { rewrite <- (lookup_take_lt Lc (length lc)) by lia. by rewrite <- Elc. }
    assert (Lt !! pred (length lc) = Some ec) as Hx.
    { by rewrite <- (lookup_take_lt Lt (S k)), <- E, lookup_take_lt by lia. }
    specialize (Hlt _ _ _ HLt). rewrite Forall_forall in Hlt. apply list_elem_of_lookup_2, Hlt in Hx. lia.
  - assert (ec.(le_Term) = t /\ (length l <= length lc)%nat) as [Eec Hll] by (unfold len in *; lia).
    exists ic, Lc. rewrite Eec in HLc. split; [done|]. split; [lia|].
    rewrite Elc, take_take, Nat.min_l by lia. done.
Qed.
End ack.

(** ** The invariant and the changes that keep it *)

Section ack_inv.
Context {Cmd : Type} `{!Gob (PVal Cmd)} `{!Rand} (n : nat).
Implicit Types (rf : Raft Cmd) (w : Cluster Cmd) (l L : list (LogEntry Cmd)).
Implicit Types (A : nat -> Z -> nat -> Prop) (ls : gmap Z (nat * list (LogEntry Cmd))).

(** A candidate of term [T], which has no leader yet. *)
Definition cand w (T : Z) (i : nat) rf : Prop :=
  w.(nodes) !! i = Some rf /\ rf.(state) = Candidate /\ rf.(currentTerm) = T /\ w.(leaders) !! T = None.

(** The vote requests of server [i]. *)
Definition asks w (i : nat) (a : RequestVoteArgs) : Prop :=
  (exists inc dst, VoteReq i inc dst a ∈ w.(net)) \/
  (exists rf s, w.(nodes) !! i = Some rf /\ GoVote s a ∈ rf.(goroutines)).

(** What is known of an acknowledgement: it is held unless a later leader lacks it. *)
Definition keeps ls A (v : nat) (t1 : Z) l : Prop :=
  forall t k k', A v t k -> t < t1 -> (k' <= k)%nat -> own ls t k' -> between ls t k' t1 -> holds ls t k' l.

(** Where the acknowledgement of [args] goes. *)
Definition acked (args : AppendEntriesArgs Cmd) : nat :=
  (Z.to_nat args.(ae_PrevLogIndex) + length args.(ae_Entries))%nat.

Definition voters w A (T : Z) (i : nat) L : Prop :=
  exists Q : list nat, NoDup Q /\ (n / 2 < length Q)%nat /\
    forall v, v ∈ Q -> (v < n)%nat /\ (v, T, Z.of_nat i) ∈ w.(votes) /\ keeps w.(leaders) A v T L.

Record ack_inv w A : Prop := {
  av_node : forall v t k, A v t k -> exists rf i L, w.(nodes) !! v = Some rf /\ t <= rf.(currentTerm) /\
    w.(leaders) !! t = Some (i, L) /\ (k < length L)%nat;
  av_log : forall v rf, w.(nodes) !! v = Some rf -> keeps w.(leaders) A v (rf.(currentTerm) + 1) rf.(logs);
  av_vote : forall v T i rf, (v, T, Z.of_nat i) ∈ w.(votes) -> cand w T i rf -> keeps w.(leaders) A v T rf.(logs);
  av_req : forall i rf a, cand w a.(rv_Term) i rf -> asks w i a ->
    (a.(rv_LastLogTerm), a.(rv_LastLogIndex)) = last_entry rf.(logs);
  av_cand : forall v T i, (v, T, Z.of_nat i) ∈ w.(votes) ->
    exists rf, w.(nodes) !! i = Some rf /\ T <= rf.(currentTerm);
  av_quorum : forall T i L, w.(leaders) !! T = Some (i, L) -> voters w A T i L;
  av_rep : forall src inc dst args reply, AppRep src inc dst args reply ∈ w.(net) ->
    reply.(aer_Success) = true -> A dst args.(ae_Term) (acked args);
  av_terms : forall i rf, w.(nodes) !! i = Some rf -> Forall (fun e => e.(le_Term) <= rf.(currentTerm)) rf.(logs);
  av_lterms : lterms w.(leaders);
}.

Lemma keeps_mono ls ls' A v t1 l :
  leads_grow ls ls' -> (forall t k, A v t k -> exists i L, ls !! t = Some (i, L) /\ (k < length L)%nat) ->
  keeps ls A v t1 l -> keeps ls' A v t1 l.
Proof.
  intros Hg Hn Hk t k k' Ha Ht Hle Ho Hb. destruct (Hn t k Ha) as (i & L & HL & Hlt).
  pose proof (own_anti _ _ _ _ _ _ Hg HL (Nat.le_lt_trans _ _ _ Hle Hlt) Ho) as Ho'.
  eapply holds_mono; [exact Hg|]. apply (Hk t k k'); try done. by eapply between_anti.
Qed.

Lemma keeps_prefix ls A v t1 l l' : l `prefix_of` l' -> keeps ls A v t1 l -> keeps ls A v t1 l'.
Proof. intros Hp Hk t k k' Ha Ht Hle Ho Hb. eapply holds_prefix; [by eapply Hk|done]. Qed.

Lemma asks_term w i a rf : cluster_wf n w -> asks w i a -> w.(nodes) !! i = Some rf -> a.(rv_Term) <= rf.(currentTerm).
Proof.
  intros Hcw [(inc & dst & Hin)|(rf' & s & Hi & Hin)] Hrf.
  - destruct (cw_pkt _ _ Hcw _ Hin) as (_ & _ & _ & _ & rf' & Hi & Ht). by simplify_eq.
  - simplify_eq. by destruct (no_go _ _ _ (cw_node _ _ Hcw _ _ Hi) _ Hin) as (_ & _ & _ & _ & ?).
Qed.

(** ** A step of one server *)

Section put.
Context (w w' : Cluster Cmd) (A : nat -> Z -> nat -> Prop) (Hcw : cluster_wf n w) (Ha : ack_inv w A)
        (i : nat) (rf rf' : Raft Cmd) (Hi : w.(nodes) !! i = Some rf)
        (Hn : w'.(nodes) = <[i := rf']> w.(nodes)) (Hv : w'.(votes) = w.(votes))
        (Hg : leads_grow w.(leaders) w'.(leaders)) (Ht : rf.(currentTerm) <= rf'.(currentTerm)).

Lemma node_after j r :
  w'.(nodes) !! j = Some r -> j = i /\ r = rf' \/ j <> i /\ w.(nodes) !! j = Some r.
Proof. rewrite Hn. intros [(-> & -> & _)|[? ?]]%list_lookup_insert_Some; auto. Qed.

Lemma node_now : w'.(nodes) !! i = Some rf'.
Proof. rewrite Hn. apply list_lookup_insert_eq. by eapply lookup_lt_Some. Qed.

Lemma term_after v r : w.(nodes) !! v = Some r -> exists r', w'.(nodes) !! v = Some r' /\ r.(currentTerm) <= r'.(currentTerm).
Proof.
  intros Hr. destruct (decide (v = i)) as [->|].
  - exists rf'. simplify_eq. split; [apply node_now|done].
  - exists r. rewrite Hn, list_lookup_insert_ne by done. auto with lia.
Qed.

Lemma av_leads v t k : A v t k -> exists j L, w.(leaders) !! t = Some (j, L) /\ (k < length L)%nat.
Proof. intros (r & j & L & _ & _ & HL & Hk)%(av_node _ _ Ha). eauto. Qed.

(** What the log of server [i] may become. *)
Context (Hlog : forall t k, t <= rf.(currentTerm) -> own w.(leaders) t k ->
           between w.(leaders) t k (rf'.(currentTerm) + 1) -> holds w.(leaders) t k rf.(logs) ->
           holds w.(leaders) t k rf'.(logs))
        (Hcand : rf'.(state) = Candidate -> w'.(leaders) !! rf'.(currentTerm) = None ->
           rf.(state) = Candidate /\ rf'.(currentTerm) = rf.(currentTerm) /\ rf'.(logs) = rf.(logs) \/
           rf.(currentTerm) < rf'.(currentTerm))
        (Hasks : forall j a, asks w' j a -> asks w j a \/
           j = i /\ (a.(rv_LastLogTerm), a.(rv_LastLogIndex)) = last_entry rf'.(logs))
        (Hnew : forall T j L, w.(leaders) !! T = None -> w'.(leaders) !! T = Some (j, L) -> voters w' A T j L)
        (Hterms : Forall (fun e => e.(le_Term) <= rf'.(currentTerm)) rf'.(logs))
        (Hlterms : lterms w'.(leaders))
        (Hrep : forall src inc dst args reply, AppRep src inc dst args reply ∈ w'.(net) ->
           AppRep src inc dst args reply ∈ w.(net) \/
           (reply.(aer_Success) = true -> A dst args.(ae_Term) (acked args))).

Lemma put_log v r : w'.(nodes) !! v = Some r -> keeps w'.(leaders) A v (r.(currentTerm) + 1) r.(logs).
Proof.
  intros [[-> ->]|[_ Hr]]%node_after.
  - apply (keeps_mono w.(leaders)); [done|apply av_leads|]. intros t k k' Hk Hlt Hle Ho Hb.
    destruct (av_node _ _ Ha _ _ _ Hk) as (r0 & _ & _ & Hr0 & Htr & _). simplify_eq.
    apply Hlog; [done|done|done|]. apply (av_log _ _ Ha i rf Hi t k k'); try done; [lia|].
    eapply between_le; [done|lia].
  - apply (keeps_mono w.(leaders)); [done|apply av_leads|by apply (av_log _ _ Ha)].
Qed.

(** The candidates of the new state are those of the old one, or have just begun. *)
Lemma put_cand T j r :
  cand w' T j r -> (exists r0, cand w T j r0 /\ r.(logs) = r0.(logs)) \/
    j = i /\ rf.(currentTerm) < T /\ r = rf'.
Proof.
  intros (Hj & Hs & HT & Hnone). pose proof (leads_grow_none _ _ _ Hg Hnone) as Hnone0.
  destruct (node_after _ _ Hj) as [[-> ->]|[Hne Hr]]; [|left; by exists r].
  destruct Hcand as [(Hs0 & Et & El)|Hlt]; [done|by rewrite HT|left|right; by rewrite <- HT].
  exists rf. split; [|done]. split; [done|]. split; [done|]. split; [congruence|done].
Qed.

Lemma ack_inv_put : ack_inv w' A.
Proof.
  split.
  - intros v t k Hk. destruct (av_node _ _ Ha _ _ _ Hk) as (r & j & L & Hr & Htr & HL & Hlt).
    destruct (term_after v r Hr) as (r' & Hr' & ?). destruct (Hg _ _ _ HL) as (suf & HL' & _).
    exists r', j, (L ++ suf). rewrite length_app. split; [done|]. split; [lia|]. split; [done|lia].
  - apply put_log.
  - intros v T j r Hvt [(r0 & Hc0 & El)|(-> & Hlt & ->)]%put_cand; rewrite Hv in Hvt.
    + rewrite El. apply (keeps_mono w.(leaders)); [done|apply av_leads|by apply (av_vote _ _ Ha v T j)].
    + destruct (av_cand _ _ Ha _ _ _ Hvt) as (r & Hr & ?). simplify_eq. lia.
  - intros j r a Hc Hask. destruct (Hasks _ _ Hask) as [Hold|[-> Hlast]].
    2:{ rewrite Hlast. destruct Hc as (Hr & _). rewrite node_now in Hr. by injection Hr as ->. }
    destruct (put_cand _ _ _ Hc) as [(r0 & Hc0 & El)|(-> & Hlt & ->)].
    + rewrite El. by apply (av_req _ _ Ha j r0).
    + pose proof (asks_term _ _ _ _ Hcw Hold Hi). lia.
  - intros v T j Hvt. rewrite Hv in Hvt. destruct (av_cand _ _ Ha _ _ _ Hvt) as (r & Hr & Hle).
    destruct (term_after _ _ Hr) as (r' & ? & ?). exists r'. split; [done|lia].
  - intros T j L HL. destruct (w.(leaders) !! T) as [[j0 L0]|] eqn:E0; [|by eapply Hnew].
    destruct (Hg _ _ _ E0) as (suf & HL' & _). simplify_eq.
    destruct (av_quorum _ _ Ha _ _ _ E0) as (Q & H1 & H2 & HQ). exists Q. split; [done|]. split; [done|].
    intros v (H3 & H4 & H5)%HQ. rewrite Hv. split; [done|]. split; [done|].
    apply (keeps_mono w.(leaders)); [done|apply av_leads|]. eapply keeps_prefix; [by apply prefix_app_r|done].
  - intros src inc dst args reply [Hin|Hok]%Hrep Hs; [by eapply av_rep|auto].
  - intros j r [[-> ->]|[_ Hr]]%node_after; [done|by eapply av_terms].
  - done.
Qed.
End put.

(** ** New votes and new acknowledgements *)

Lemma ack_inv_votes w w' A vs :
  ack_inv w A -> w'.(nodes) = w.(nodes) -> w'.(net) = w.(net) -> w'.(leaders) = w.(leaders) ->
  w'.(votes) = w.(votes) ++ vs ->
  (forall v T i, (v, T, Z.of_nat i) ∈ vs ->
     (forall rf, cand w T i rf -> keeps w.(leaders) A v T rf.(logs)) /\
     exists rf, w.(nodes) !! i = Some rf /\ T <= rf.(currentTerm)) ->
  ack_inv w' A.
Proof.
  intros [H1 H2 H3 H4 H5 H6 H7 H8 H9] En Enet El Ev Hvs.
  split; unfold cand, asks, voters in *; rewrite ?En, ?Enet, ?El, ?Ev; try done.
  - intros v T i rf [Hin|Hin]%elem_of_app Hc; [by eapply H3|by eapply Hvs].
  - intros v T i [Hin|Hin]%elem_of_app; [by eapply H5|by eapply Hvs].
  - intros T i L HL. destruct (H6 T i L HL) as (Q & ? & ? & HQ). exists Q. split; [done|]. split; [done|].
    intros v (? & ? & ?)%HQ. split; [done|]. split; [|done]. apply elem_of_app. by left.
Qed.

Definition add_ack A (v : nat) (t : Z) (k : nat) : nat -> Z -> nat -> Prop :=
  fun v' t' k' => A v' t' k' \/ v' = v /\ t' = t /\ k' = k.

Lemma ack_inv_add w A v rf i L k :
  ack_inv w A -> (forall T c, (v, T, c) ∈ w.(votes) -> T <= rf.(currentTerm)) ->
  w.(nodes) !! v = Some rf -> w.(leaders) !! rf.(currentTerm) = Some (i, L) ->
  (k < length L)%nat -> take (S k) rf.(logs) = take (S k) L -> ack_inv w (add_ack A v rf.(currentTerm) k).
Proof.
  intros [H1 H2 H3 H4 H5 H6 H7 H8 H9] Hlate Hv HL Hk E.
  assert (holds w.(leaders) rf.(currentTerm) k rf.(logs)) as Hh by (by exists i, L).
  split; try done.
  - intros v' t k' [Hk'|(-> & -> & ->)]; [by eapply H1|]. exists rf, i, L. auto with lia.
  - intros v' r Hr t k1 k2 [Hk1|(-> & -> & ->)] Ht Hle Ho Hb; [by eapply H2|]. simplify_eq.
    by eapply holds_le.
  - intros v' T j r Hin Hc t k1 k2 [Hk1|(-> & -> & ->)] Ht Hle Ho Hb; [by eapply H3|].
    apply Hlate in Hin. lia.
  - intros T j L' HL'. destruct (H6 T j L' HL') as (Q & ? & ? & HQ). exists Q. split; [done|]. split; [done|].
    intros v' (? & Hin & Hk')%HQ. split; [done|]. split; [done|].
    intros t k1 k2 [Hk1|(-> & -> & ->)] Ht Hle Ho Hb; [by eapply Hk'|]. apply Hlate in Hin. lia.
  - intros src inc dst args reply Hin Hs. left. by eapply H7.
Qed.

(** ** Steps that keep the logs and the leaders *)

Lemma ack_inv_net w k A : ack_inv w A -> ack_inv (put_net (delete k w.(net)) w) A.
Proof.
  intros [H1 H2 H3 H4 H5 H6 H7 H8 H9]. split; try done.
  - intros i rf a Hc [(inc & dst & Hin%elem_of_delete)|Hg]; apply (H4 i rf); [done|left; eauto|done|by right].
  - intros src inc dst args reply Hin%elem_of_delete. by eapply H7.
Qed.

(** Vote requests and acknowledgements among the packets of a step. *)
Definition pkt_asked w A (p : Packet Cmd) : Prop :=
  match p with
  | VoteReq j _ _ a => asks w j a
  | AppRep _ _ dst args reply => reply.(aer_Success) = true -> A dst args.(ae_Term) (acked args)
  | _ => True
  end.

Lemma ack_inv_keep w w' A i rf rf' :
  cluster_wf n w -> ack_inv w A -> w.(nodes) !! i = Some rf -> w'.(nodes) = <[i := rf']> w.(nodes) ->
  w'.(votes) = w.(votes) -> w'.(leaders) = w.(leaders) ->
  rf.(currentTerm) <= rf'.(currentTerm) -> rf'.(logs) = rf.(logs) ->
  (rf'.(state) = Candidate -> rf'.(currentTerm) = rf.(currentTerm) -> rf.(state) = Candidate) ->
  go_votes_keep rf rf' -> (forall p, p ∈ w'.(net) -> p ∈ w.(net) \/ pkt_asked w A p) ->
  ack_inv w' A.
Proof.
  intros Hcw Ha Hi Hn Hv El Ht Hlog Hst Hgo Hp.
  assert (leads_grow w.(leaders) w'.(leaders)) as Hg by (rewrite El; apply leads_grow_refl).
  apply (ack_inv_put w w' A Hcw Ha i rf rf' Hi Hn Hv Hg Ht).
  - intros t k _ _ _ Hh. by rewrite Hlog.
  - intros Hs _. destruct (Z_lt_le_dec rf.(currentTerm) rf'.(currentTerm)); [by right|left].
    assert (rf'.(currentTerm) = rf.(currentTerm)) as E by lia. auto.
  - intros j a [(inc & dst & Hin)|(r & s & Hr & Hin)]; left.
    + destruct (Hp _ Hin) as [?|Hk]; [left; eauto|done].
    + rewrite Hn in Hr. apply list_lookup_insert_Some in Hr as [(-> & -> & _)|[_ Hr]]; right; eauto 6.
  - intros T j L Hnone. rewrite El. congruence.
  - rewrite Hlog. eapply Forall_impl; [by eapply av_terms|]. cbn. lia.
  - rewrite El. apply Ha.
  - intros src inc dst args reply Hin. by apply Hp in Hin as [?|?]; auto.
Qed.

Lemma ack_inv_send w A p : ack_inv w A -> pkt_asked w A p -> ack_inv (send p w) A.
Proof.
  intros [H1 H2 H3 H4 H5 H6 H7 H8 H9] Hp. split; try done.
  - intros i rf a Hc Hask. apply (H4 i rf a Hc). destruct Hask as [(inc & dst & Hin)|Hask]; [|by right].
    cbn in Hin. apply elem_of_app in Hin as [Hin|Hin%list_elem_of_singleton]; [left; eauto|].
    by subst p.
  - intros src inc dst args reply Hin. cbn in Hin.
    apply elem_of_app in Hin as [Hin|Hin%list_elem_of_singleton]; [by eapply H7|]. by subst p.
Qed.

(** A peer that adopts the term of a message, and nothing else that matters. *)
Lemma ack_inv_adopt w w' A i rf rf' t :
  cluster_wf n w -> ack_inv w A -> w.(nodes) !! i = Some rf -> w'.(nodes) = <[i := rf']> w.(nodes) ->
  w'.(votes) = w.(votes) -> w'.(leaders) = w.(leaders) ->
  rf'.(currentTerm) = (adopt t rf).(currentTerm) -> rf'.(state) = (adopt t rf).(state) -> rf'.(logs) = rf.(logs) ->
  rf'.(goroutines) = rf.(goroutines) -> (forall p, p ∈ w'.(net) -> p ∈ w.(net) \/ pkt_asked w A p) ->
  ack_inv w' A.
Proof.
  intros Hcw Ha Hi Hn Hv El Et Es Hlog Hgo Hp. rewrite adopt_term in Et.
  eapply (ack_inv_keep w w' A i rf rf'); [done..|lia|done| | |done].
  - rewrite Es. intros Hs E. rewrite adopt_low in Hs by lia. done.
  - intros s a. by rewrite Hgo.
Qed.
End ack_inv.
