(* ===== verification/RaftAckStep.v ===== *)
(** * RaftAckStep: acknowledgements along runs, and Leader Completeness

    Every timely step of the cluster keeps the invariant of RaftAck.v and only
    adds acknowledgements: a server acknowledges the entries of an AppendEntries
    it accepts, a leader those it appends.  Hence Leader Completeness: an entry
    that a majority holds in the term of the leader that created it is in the log
    of every later leader. *)

From S2P Require Import Prelude Gob Raft RaftFacts RaftHandlers RaftSpec RaftReplicate.
From S2P Require Import Cluster ClusterStep Election ElectionSafety Leaders RaftAck.
Local Open Scope Z_scope.

Section ack_step.
Context {Cmd : Type} `{!Gob (PVal Cmd)} `{!Rand} (n : nat).
Implicit Types (rf : Raft Cmd) (w : Cluster Cmd) (l L : list (LogEntry Cmd)).
Implicit Types (A : nat -> Z -> nat -> Prop) (ls : gmap Z (nat * list (LogEntry Cmd))).

(** ** Steps that leave the logs alone *)

Lemma ack_quiet w w' A i rf rf' :
  cluster_wf n w -> ack_inv n w A -> w.(nodes) !! i = Some rf -> quiet rf rf' -> same_history w w' ->
  w'.(nodes) = <[i := rf']> w.(nodes) ->
  (w'.(net) = w.(net) \/ (exists k, w'.(net) = delete k w.(net)) \/
   exists inc s args, w'.(net) = w.(net) ++ [AppReq i inc s args] /\
     GoHeartbeat s ∈ rf.(goroutines) /\ segment rf args) -> ack_inv n w' A.
Proof.
  intros Hcw Ha Hi Hq (Hv & _ & El) Hn Hnet. pose proof (q_core _ _ Hq) as Hc.
  apply (ack_inv_keep n w w' A i rf rf' Hcw Ha Hi Hn Hv El).
  - by rewrite (sc_term _ _ Hc).
  - apply Hc.
  - by rewrite (sc_state _ _ Hc).
  - by apply quiet_go_votes.
  - intros p Hp. destruct Hnet as [E|[[k E]|(inc & s & args & E & _)]]; rewrite E in Hp; [by left| |].
    + left. by eapply elem_of_delete.
    + apply elem_of_app in Hp as [?| ->%list_elem_of_singleton]; [by left|by right].
Qed.

Lemma ack_send_vote w w' A i k rf inc s a :
  cluster_wf n w -> ack_inv n w A -> w.(nodes) !! i = Some rf -> rf.(goroutines) !! k = Some (GoVote s a) ->
  same_history w w' -> w'.(nodes) = <[i := del_go k rf]> w.(nodes) ->
  w'.(net) = w.(net) ++ [VoteReq i inc s a] -> ack_inv n w' A.
Proof.
  intros Hcw Ha Hi Hk (Hv & _ & El) Hn Hnet.
  apply (ack_inv_keep n w w' A i rf _ Hcw Ha Hi Hn Hv El); [done|done|done| |].
  - intros s' a' Hin. cbn in Hin. by eapply elem_of_delete.
  - rewrite Hnet. intros p [?| ->%list_elem_of_singleton]%elem_of_app; [by left|right].
    right. exists rf, s. split; [done|]. by eapply list_elem_of_lookup_2.
Qed.

Lemma ack_crash w w' A i rf :
  cluster_wf n w -> ack_inv n w A -> w.(nodes) !! i = Some rf -> same_history w w' ->
  w'.(nodes) = <[i := start1 rf.(peers) i rf.(persister)]> w.(nodes) -> w'.(net) = w.(net) -> ack_inv n w' A.
Proof.
  intros Hcw Ha Hi (Hv & _ & El) Hn Hnet.
  destruct (start1_restores n i rf) as (Et & _ & Elog); [by eapply cw_node|].
  destruct (Make_fields (Cmd:=Cmd) (peers rf) (Z.of_nat i) (Copy (crash1 rf.(persister))))
    as (_ & _ & _ & Es & Eg & _).
  apply (ack_inv_keep n w w' A i rf _ Hcw Ha Hi Hn Hv El); [by rewrite Et|done| | |rewrite Hnet; by left].
  - unfold start1. by rewrite Es.
  - intros s a. unfold start1. rewrite Eg. by intros ?%not_elem_of_nil.
Qed.

Lemma ack_higher w w' A i rf t k :
  cluster_wf n w -> ack_inv n w A -> w.(nodes) !! i = Some rf -> w'.(votes) = w.(votes) ->
  w'.(leaders) = w.(leaders) -> w'.(nodes) = <[i := persist (adopt t rf)]> w.(nodes) ->
  w'.(net) = delete k w.(net) -> ack_inv n w' A.
Proof.
  intros Hcw Ha Hi Hv El Hn Hnet. destruct (adopt_frame t rf) as (_ & _ & Elog & _ & _ & _ & _ & Eg & _).
  apply (ack_inv_adopt n w w' A i rf _ t Hcw Ha Hi Hn Hv El); [done..|].
  rewrite Hnet. intros p Hp. left. by eapply elem_of_delete.
Qed.

(** ** Votes *)

(** A term without a leader adds nothing. *)
Lemma between_none ls t k T : ls !! T = None -> between ls t k T -> between ls t k (T + 1).
Proof.
  intros Hn Hb U i L HU HL. apply (Hb U i L); [|done]. assert (U <> T) by congruence. lia.
Qed.

(** The entries of a candidate are older than its election. *)
Lemma cand_terms w A T i rf e :
  leader_inv n w -> ack_inv n w A -> log_wf rf.(logs) -> cand w T i rf -> e ∈ rf.(logs) ->
  1 <= e.(le_Term) -> e.(le_Term) < T.
Proof.
  intros Hl Ha Hw (Hi & _ & HT & Hnone) He H1.
  pose proof (av_terms _ _ _ Ha _ _ Hi) as Hle. rewrite Forall_forall in Hle. specialize (Hle e He).
  apply list_elem_of_lookup_1 in He as [[|k] Hk].
  { rewrite log_wf_head in Hk by done. injection Hk as <-. cbn in H1. lia. }
  destruct (li_log _ _ Hl _ _ Hi _ _ Hk) as (j & L & HL & _).
  assert (e.(le_Term) <> T) by congruence. lia.
Qed.

(** Who gets a vote has what the voter acknowledged. *)
Lemma granted_keeps w A k src inc dst args rf rfc :
  cluster_wf n w -> leader_inv n w -> ack_inv n w A ->
  w.(net) !! k = Some (VoteReq src inc dst args) -> w.(nodes) !! dst = Some rf ->
  may_vote rf args -> up_to_date rf args -> cand w args.(rv_Term) src rfc ->
  keeps w.(leaders) A dst args.(rv_Term) rfc.(logs).
Proof.
  intros Hcw Hl Ha Hk Hi Hm Hu Hc t j j' HA Ht Hle Ho Hb. pose proof Hc as (Hs & _ & _ & Hnone).
  unfold up_to_date in Hu. rewrite (av_req _ _ _ Ha src rfc args Hc) in Hu.
  2:{ left. exists inc, dst. by eapply list_elem_of_lookup_2. }
  pose proof (wf_log _ (no_wf _ _ _ (cw_node _ _ Hcw _ _ Hi))) as Hw.
  pose proof (wf_log _ (no_wf _ _ _ (cw_node _ _ Hcw _ _ Hs))) as Hwc.
  eapply (uptodate_holds _ t j' args.(rv_Term)); [apply Ha|exact Hw|exact Hwc| | |done| |done|done|].
  - by apply (li_log _ _ Hl _ _ Hi).
  - by apply (li_log _ _ Hl _ _ Hs).
  - destruct (av_node _ _ _ Ha _ _ _ HA) as (r & _ & _ & Hr & Htr & _). simplify_eq.
    apply (av_log _ _ _ Ha _ _ Hi t j j'); try done; [lia|].
    eapply between_le; [by eapply between_none|]. destruct Hm as [?|[? _]]; lia.
  - intros e He H1. by eapply cand_terms.
Qed.

Lemma ack_request_vote w w' A k src inc dst args rf rf' reply :
  cluster_wf n w -> leader_inv n w -> ack_inv n w A ->
  w.(net) !! k = Some (VoteReq src inc dst args) -> w.(nodes) !! dst = Some rf ->
  rv_outcome rf args rf' reply -> w'.(nodes) = <[dst := rf']> w.(nodes) ->
  w'.(net) = delete k w.(net) ++ [VoteRep src inc dst args reply] ->
  w'.(votes) = w.(votes) ++ (if reply.(rvr_VoteGranted)
                             then [(dst, args.(rv_Term), args.(rv_CandidateId))] else []) ->
  w'.(leaders) = w.(leaders) -> ack_inv n w' A.
Proof.
  intros Hcw Hl Ha Hk Hi Ho Hn Hnet Hv El.
  set (w1 := mkCluster w'.(nodes) w'.(incs) w'.(net) w'.(applied) w.(votes) w'.(counted) w'.(leaders)).
  assert (forall p, p ∈ w1.(net) -> p ∈ w.(net) \/ pkt_asked w A p) as Hp.
  { cbn. rewrite Hnet. intros p [?| ->]%elem_of_delete_app; [by left|by right]. }
  destruct (adopt_frame args.(rv_Term) rf) as (_ & _ & Elog & _ & _ & _ & _ & Eg & _).
  assert (ack_inv n w1 A) as Ha1.
  { destruct Ho.
    - apply (ack_inv_keep n w w1 A dst rf _ Hcw Ha Hi Hn eq_refl El); try done. by intros s a.
    - by apply (ack_inv_adopt n w w1 A dst rf _ args.(rv_Term) Hcw Ha Hi Hn eq_refl El).
    - by apply (ack_inv_adopt n w w1 A dst rf _ args.(rv_Term) Hcw Ha Hi Hn eq_refl El). }
  apply (ack_inv_votes n w1 w' A _ Ha1 eq_refl eq_refl eq_refl Hv).
  destruct Ho as [|Hm Hu|Hm Hu]; cbn; intros v T i Hin; try by apply not_elem_of_nil in Hin.
  apply list_elem_of_singleton in Hin. injection Hin as -> -> Ec.
  pose proof (cw_pkt _ _ Hcw _ (list_elem_of_lookup_2 _ _ _ Hk)) as (Hne & _ & Ec' & _ & rs & Hs & Hts).
  assert (i = src) as -> by lia. rewrite Hn, El, list_lookup_insert_ne by done. split; [|eauto].
  intros rfc (Hc & Hst & HT & Hnone). cbn in Hc, Hnone. rewrite Hn, list_lookup_insert_ne in Hc by done.
  rewrite El in Hnone. by eapply granted_keeps.
Qed.

(** A server that stands for election votes for itself. *)
Lemma ack_election w A i rf rf1 e :
  cluster_wf n w -> ack_inv n w A -> w.(nodes) !! i = Some rf ->
  rf1 = set_state (if decide (rf.(state) = Follower) then Candidate else rf.(state))
          (resetElectionTimer (set_loop LoopSelect rf)) ->
  idx rf.(logs) (len rf.(logs) - 1) = Ret e ->
  ack_inv n (add_vote (i, rf.(currentTerm) + 1, Z.of_nat i) (put_node i (elected rf1 e) w)) A.
Proof.
  intros Hcw Ha Hi -> He. set (rf1 := set_state _ _). set (w1 := put_node i (elected rf1 e) w).
  assert (ack_inv n w1 A) as Ha1.
  { apply (ack_inv_put n w w1 A Hcw Ha i rf (elected rf1 e) Hi eq_refl eq_refl (leads_grow_refl _)).
    - cbn. lia.
    - intros t k _ _ _ Hh. exact Hh.
    - intros _ _. right. cbn. lia.
    - intros j a [?|(r & s & Hr & Hin)]; [left; by left|]. cbn in Hr.
      apply list_lookup_insert_Some in Hr as [(-> & <- & _)|[? Hr]]; [|left; right; eauto].
      cbn in Hin. apply elem_of_app in Hin as [?|Hin]; [left; right; eauto|right].
      apply list_elem_of_fmap in Hin as (p & [= -> ->] & _). split; [done|]. cbn.
      unfold last_entry. by rewrite (last_idx _ _ He).
    - intros T j L Hnone HL. cbn in HL. congruence.
    - cbn. eapply Forall_impl; [by eapply (av_terms _ _ _ Ha)|]. cbn. lia.
    - apply Ha.
    - intros src inc dst args reply Hin. by left. }
  apply (ack_inv_votes n w1 _ A [(i, rf.(currentTerm) + 1, Z.of_nat i)] Ha1); try done.
  assert (w1.(nodes) !! i = Some (elected rf1 e)) as Hi1
    by (apply list_lookup_insert_eq; by eapply lookup_lt_Some).
  intros v T j Hin%list_elem_of_singleton. injection Hin as -> -> E. assert (j = i) as -> by lia.
  split; [|exists (elected rf1 e); split; [done|cbn; lia]].
  intros r (Hr & _). rewrite Hi1 in Hr. injection Hr as <-. exact (av_log _ _ _ Ha _ _ Hi).
Qed.

(** ** AppendEntries *)

(** What the receiver of a leader's segment has of that leader's log. *)
Lemma append_match w src dst args rf prev :
  cluster_wf n w -> leader_inv n w -> from_leader w.(leaders) src args -> w.(nodes) !! dst = Some rf ->
  rf.(logs) !! Z.to_nat args.(ae_PrevLogIndex) = Some prev -> prev.(le_Term) = args.(ae_PrevLogTerm) ->
  let l' := merge_entries rf.(logs) (S (Z.to_nat args.(ae_PrevLogIndex))) args.(ae_Entries) in
  exists L, w.(leaders) !! args.(ae_Term) = Some (src, L) /\ (acked args < length L)%nat /\
    take (S (acked args)) l' = take (S (acked args)) L /\
    (l' = rf.(logs) \/ l' = take (S (acked args)) L) /\
    forall k, take (S k) rf.(logs) = take (S k) L -> (k < length L)%nat -> take (S k) l' = take (S k) rf.(logs).
Proof.
  intros Hcw Hl (L & prev' & HL & Hp' & Ht' & Hpre) Hi Hp Ht l'. exists L. split; [done|].
  destruct (li_wf _ _ Hl _ _ _ HL) as [HwL HcL].
  pose proof (wf_log _ (no_wf _ _ _ (cw_node _ _ Hcw _ _ Hi))) as Hw.
  assert (matching rf.(logs) L) as Hm by (eapply covered_matching; [done..|by eapply li_log|done]).
  assert (exists e e', rf.(logs) !! Z.to_nat args.(ae_PrevLogIndex) = Some e /\
    L !! Z.to_nat args.(ae_PrevLogIndex) = Some e' /\ e.(le_Term) = e'.(le_Term)) as Hpp.
  { exists prev, prev'. split; [done|]. split; [done|congruence]. }
  destruct (merge_entries_match _ _ _ _ Hm Hpre Hpp) as [E1 E2].
  split; [|split; [exact E1|split; [exact E2|]]].
  - unfold acked. apply prefix_length in Hpre. rewrite length_drop in Hpre. apply lookup_lt_Some in Hp'. lia.
  - intros k Hk Hlt. by eapply merge_keep.
Qed.

(** The entries that later leaders have survive a merge. *)
Lemma merge_holds ls t k T src L l l' :
  ls !! T = Some (src, L) -> t <= T -> between ls t k (T + 1) -> holds ls t k l ->
  (forall k, take (S k) l = take (S k) L -> (k < length L)%nat -> take (S k) l' = take (S k) l) ->
  holds ls t k l'.
Proof.
  intros HL Ht Hb Hh Hkeep. eapply holds_take; [done|].
  assert (holds ls t k L) as HhL.
  { destruct (decide (t = T)) as [->|]; [|apply (Hb T src L); [lia|done]].
    destruct Hh as (i & L' & HL' & Hk & _). exists src, L. split; [done|].
    assert (L' = L) as -> by congruence. done. }
  apply Hkeep; [|by eapply holds_len].
  destruct Hh as (i & Lt & HLt & _ & E), HhL as (i' & Lt' & HLt' & _ & E'). congruence.
Qed.

Lemma ack_append_success w w' A k src inc dst args rf rf' reply prev rf1 rf2 :
  cluster_wf n w -> leader_inv n w -> votes_inv w -> ack_inv n w A ->
  w.(net) !! k = Some (AppReq src inc dst args) -> w.(nodes) !! dst = Some rf ->
  ae_outcome rf args rf' reply -> rf.(currentTerm) <= args.(ae_Term) ->
  rf.(logs) !! Z.to_nat args.(ae_PrevLogIndex) = Some prev -> prev.(le_Term) = args.(ae_PrevLogTerm) ->
  rf1 = set_logs (merge_entries rf.(logs) (S (Z.to_nat args.(ae_PrevLogIndex))) args.(ae_Entries))
          (resetElectionTimer (adopt args.(ae_Term) rf)) ->
  follower_commit rf1 args.(ae_LeaderCommit) = Ret rf2 -> rf' = persist rf2 ->
  w'.(nodes) = <[dst := rf']> w.(nodes) -> w'.(net) = delete k w.(net) ++ [AppRep src inc dst args reply] ->
  same_history w w' -> ack_inv n w' (add_ack A dst args.(ae_Term) (acked args)).
Proof.
  intros Hcw Hl Hvi Ha Hk Hi Ho Hle Hp Ht -> Hf Erf Hn Hnet (Hv & _ & El).
  pose proof (li_pkt _ _ Hl _ _ _ _ (list_elem_of_lookup_2 _ _ _ Hk)) as Hfl.
  destruct (append_match w src dst args rf prev Hcw Hl Hfl Hi Hp Ht) as (L & HL & Hlt & Et & Eor & Hkeep).
  set (l' := merge_entries _ _ _) in *.
  apply follower_commit_frame in Hf as (gs & -> & _). cbn in Erf.
  assert (rf'.(logs) = l' /\ rf'.(currentTerm) = args.(ae_Term)) as [Elog ETerm].
  { rewrite Erf. cbn. rewrite adopt_term. split; [done|lia]. }
  set (w1 := put_net (delete k w.(net)) w').
  assert (forall p, p ∈ w1.(net) -> p ∈ w.(net)) as Hsub by (intros p; apply elem_of_delete).
  destruct (ae_outcome_go _ _ _ _ Ho) as (gs' & Eg & Hgs). clear Erf.
  assert (ack_inv n w1 A) as Ha1.
  { assert (leads_grow w.(leaders) w1.(leaders)) as Hgrow by (cbn; rewrite El; apply leads_grow_refl).
    apply (ack_inv_put n w w1 A Hcw Ha dst rf rf' Hi Hn Hv Hgrow).
    - by rewrite ETerm.
    - intros t j Htj _ Hb Hh. rewrite Elog. rewrite ETerm in Hb. eapply merge_holds; [done|lia|done..].
    - intros _ Hnone. cbn in Hnone. rewrite El, ETerm in Hnone. congruence.
    - intros j a [(inc' & d & Hin%Hsub)|(r & s & Hr & Hin)]; left; [left; eauto|right].
      cbn in Hr. rewrite Hn in Hr. apply list_lookup_insert_Some in Hr as [(<- & <- & _)|[? Hr]]; [|eauto].
      rewrite Eg in Hin. apply elem_of_app in Hin as [?|Hin]; [eauto|]. by destruct (Hgs _ Hin) as (? & ? & ?).
    - intros T j L' Hnone HL'. cbn in HL'. rewrite El in HL'. congruence.
    - rewrite Elog, ETerm. destruct Eor as [->| ->].
      + eapply Forall_impl; [by eapply (av_terms _ _ _ Ha)|]. cbn. lia.
      + apply Forall_take. by apply (av_lterms _ _ _ Ha _ src).
    - cbn. rewrite El. apply Ha.
    - intros ? ? ? ? ? Hin%Hsub. by left. }
  assert (w1.(nodes) !! dst = Some rf') as Hi1
    by (cbn; rewrite Hn; apply list_lookup_insert_eq; by eapply lookup_lt_Some).
  rewrite <- ETerm. destruct w' as [ns ics nt ap vs co lds]. cbn in *. subst ns nt vs lds.
  apply (ack_inv_send n w1 _ (AppRep src inc dst args reply)).
  - eapply (ack_inv_add n w1 A dst rf' src L); [done| |done|by rewrite ETerm|done|by rewrite Elog].
    cbn. intros T c Hin. destruct (vi_vote _ Hvi _ _ _ Hin) as (_ & r & Hr & ? & _). simplify_eq. lia.
  - intros _. cbn. right. by rewrite ETerm.
Qed.

(** Acknowledgements are only added. *)
Definition acks_grow A A' : Prop := forall v t k, A v t k -> A' v t k.

Lemma add_ack_grow A v t k : acks_grow A (add_ack A v t k).
Proof. intros v' t' k' ?. by left. Qed.

Lemma ack_append w w' A k src inc dst args rf rf' reply :
  cluster_wf n w -> leader_inv n w -> votes_inv w -> ack_inv n w A ->
  w.(net) !! k = Some (AppReq src inc dst args) -> w.(nodes) !! dst = Some rf ->
  ae_outcome rf args rf' reply -> w'.(nodes) = <[dst := rf']> w.(nodes) ->
  w'.(net) = delete k w.(net) ++ [AppRep src inc dst args reply] -> same_history w w' ->
  exists A', acks_grow A A' /\ ack_inv n w' A'.
Proof.
  intros Hcw Hl Hvi Ha Hk Hi Ho Hn Hnet Hh. pose proof Hh as (Hv & _ & El).
  destruct (adopt_frame args.(ae_Term) rf) as (_ & _ & Elog & _ & _ & _ & _ & Eg & _).
  assert (reply.(aer_Success) = false -> forall p, p ∈ w'.(net) -> p ∈ w.(net) \/ pkt_asked w A p) as Hp.
  { rewrite Hnet. intros Hs p [?| ->]%elem_of_delete_app; [by left|right]. cbn. by rewrite Hs. }
  pose proof Ho as Ho'. destruct Ho' as [| | |prev rf1 rf2 Hle Hpr Ht Erf1 Hf];
    [exists A; split; [by intros ???|]..|].
  - apply (ack_inv_keep n w w' A dst rf _ Hcw Ha Hi Hn Hv El); try done; [by intros s a|by apply Hp].
  - apply (ack_inv_adopt n w w' A dst rf _ args.(ae_Term) Hcw Ha Hi Hn Hv El); try done. by apply Hp.
  - apply (ack_inv_adopt n w w' A dst rf _ args.(ae_Term) Hcw Ha Hi Hn Hv El); try done. by apply Hp.
  - exists (add_ack A dst args.(ae_Term) (acked args)). split; [apply add_ack_grow|].
    by eapply ack_append_success.
Qed.

(** ** Winning an election *)

Lemma leads_grow_new ls T i L : ls !! T = None -> leads_grow ls (<[T := (i, L)]> ls).
Proof.
  intros Hn U j l HU. exists []. rewrite app_nil_r, lookup_insert_ne by congruence. done.
Qed.

Lemma ack_win w w' A src rf rf' :
  cluster_wf n w -> leader_inv n w -> votes_inv w' -> ack_inv n w A ->
  (forall U j, quorum n w U j -> quorum n w' U j) -> quorum n w' rf.(currentTerm) src ->
  w.(nodes) !! src = Some rf -> rf.(state) = Candidate -> rf'.(state) = Leader ->
  rf'.(currentTerm) = rf.(currentTerm) -> rf'.(logs) = rf.(logs) -> go_votes_keep rf rf' ->
  w'.(nodes) = <[src := rf']> w.(nodes) -> (forall p, p ∈ w'.(net) -> p ∈ w.(net)) ->
  w'.(votes) = w.(votes) -> w'.(leaders) = <[rf.(currentTerm) := (src, rf.(logs))]> w.(leaders) ->
  leads_grow w.(leaders) w'.(leaders) /\ ack_inv n w' A.
Proof.
  intros Hcw Hl Hv' Ha Hq HqT Hi Hs Es Et Elog Hgo Hn Hnet Hv El.
  pose proof (win_fresh n w w' src rf Hl Hv' Hi Hq HqT Hs) as Hnone.
  assert (leads_grow w.(leaders) w'.(leaders)) as Hg by (rewrite El; by apply leads_grow_new).
  split; [done|]. apply (ack_inv_put n w w' A Hcw Ha src rf rf' Hi Hn Hv Hg).
  - by rewrite Et.
  - intros t k _ _ _ Hh. by rewrite Elog.
  - congruence.
  - intros j a [(inc & d & Hin%Hnet)|(r & s & Hr & Hin)]; left; [left; eauto|right].
    rewrite Hn in Hr. apply list_lookup_insert_Some in Hr as [(<- & <- & _)|[? Hr]]; eauto.
  - intros T j L HT HL. rewrite El in HL.
    apply lookup_insert_Some in HL as [[<- [= <- <-]]|[? HL]]; [|congruence].
    destruct HqT as (Q & H1 & H2 & HQ). exists Q. split; [done|]. split; [done|].
    intros v [H3 H4]%HQ. split; [done|]. split; [done|]. rewrite Hv in H4.
    apply (keeps_mono w.(leaders)); [done| |by apply (av_vote _ _ _ Ha v _ src rf)].
    intros t k (r & j & L & _ & _ & HL & Hk)%(av_node _ _ _ Ha). eauto.
  - rewrite Elog, Et. by apply (av_terms _ _ _ Ha _ _ Hi).
  - rewrite El. intros T j L [[<- [= <- <-]]|[? HL]]%lookup_insert_Some;
      [by apply (av_terms _ _ _ Ha _ _ Hi)|by apply (av_lterms _ _ _ Ha _ j)].
  - intros ? ? ? ? ? Hin%Hnet. by left.
Qed.

Lemma ack_vote_reply w w' A k src inc dst args reply rf rf' :
  cluster_wf n w -> leader_inv n w -> votes_inv w' -> count_inv n w' -> ack_inv n w A ->
  (forall U j, quorum n w U j -> quorum n w' U j) -> timely (LDeliver k) w ->
  w.(net) !! k = Some (VoteRep src inc dst args reply) -> w.(nodes) !! src = Some rf ->
  vote_reply rf args reply rf' -> w'.(nodes) = <[src := rf']> w.(nodes) ->
  w'.(net) = delete k w.(net) -> w'.(votes) = w.(votes) ->
  w'.(leaders) = (if bool_decide (rf.(state) <> Leader) && bool_decide (rf'.(state) = Leader)
                  then <[rf'.(currentTerm) := (src, rf'.(logs))]> w.(leaders) else w.(leaders)) ->
  leads_grow w.(leaders) w'.(leaders) /\ ack_inv n w' A.
Proof.
  intros Hcw Hl Hv' Hc' Ha Hq Htm Hk Hi Hr Hn Hnet Hv Eld.
  assert (Hnet' : forall p, p ∈ w'.(net) -> p ∈ w.(net)) by (rewrite Hnet; intros p; apply elem_of_delete).
  assert (forall P : Prop, rf'.(state) <> Leader \/ rf' = rf -> (w'.(leaders) = w.(leaders) -> P) ->
            leads_grow w.(leaders) w'.(leaders) /\ P) as Hkeep.
  { intros P Hns HP. enough (w'.(leaders) = w.(leaders)) as E
      by (split; [rewrite E; apply leads_grow_refl|by apply HP]).
    rewrite Eld. destruct Hns as [Hns| ->]; [by rewrite (bool_decide_eq_false_2 _ Hns), andb_false_r|].
    by repeat case_bool_decide. }
  pose proof (vote_reply_go _ _ _ _ Hr) as (gs & Eg & Hgs).
  assert (go_votes_keep rf rf') as Hgo.
  { intros s a. rewrite Eg. intros [?|Hin]%elem_of_app; [done|]. by destruct (Hgs _ Hin). }
  destruct Hr as [? Hg Hs -> Hle|rf1 ? Hg Hs -> Hlt Hcv|_ Ht|_ Ht].
  - apply Hkeep; [left; cbn; congruence|intros El].
    apply (ack_inv_keep n w w' A src rf _ Hcw Ha Hi Hn Hv El); try done. by left; apply Hnet'.
  - apply convertTo_Leader_inv in Hcv as (_ & _ & _ & Et & _ & Es & El & Ec & _); [|done].
    rewrite !bool_decide_true in Eld by (congruence || done). cbn [andb] in Eld.
    pose proof (Htm _ _ _ _ _ _ Hk Hi Hg Hs) as HT. cbn in Et, El, Ec, Hlt.
    rewrite lookup_insert_eq in Hlt. cbn in Hlt. rewrite Et, El in Eld.
    pose proof (cw_node _ _ Hcw _ _ Hi) as Hok.
    eapply (ack_win w w' A src rf rf'); try done.
    eapply (count_quorum _ w' _ _ rf'); [done| | | |].
    + rewrite Hn. apply list_lookup_insert_eq. by eapply lookup_lt_Some.
    + rewrite <- (cw_len _ _ Hcw). by eapply lookup_lt_Some.
    + rewrite Ec, HT. apply lookup_insert_eq.
    + by rewrite <- (no_peers _ _ _ Hok).
  - apply Hkeep; [by right|intros El].
    apply (ack_inv_keep n w w' A src rf _ Hcw Ha Hi Hn Hv El); try done. by left; apply Hnet'.
  - apply Hkeep; [left; cbn; by rewrite adopt_higher_state|intros El]. by eapply (ack_higher w w' A src rf).
Qed.

(** ** A leader appends *)

Lemma ack_start w A i k rf rf' c t index :
  cluster_wf n w -> leader_inv n w -> votes_inv w -> ack_inv n w A -> w.(nodes) !! i = Some rf ->
  rf.(state) = Leader -> rf.(currentTerm) = t -> rf.(goroutines) !! k = Some (GoStart c t) ->
  Start_append (del_go k rf) c t = Ret (rf', index) ->
  leads_grow w.(leaders) (<[t := (i, rf'.(logs))]> w.(leaders)) /\
  ack_inv n (put_leader t i rf'.(logs) (put_node i rf' w)) (add_ack A i t (length rf.(logs))).
Proof.
  intros Hcw Hl Hvi Ha Hi Hs <- Hk Hst. pose proof (li_leader _ _ Hl _ _ Hi Hs) as HL.
  apply Start_append_inv in Hst as (mi & ni & _ & _ & Erf & _). cbn in Erf.
  assert (rf'.(logs) = rf.(logs) ++ [{| le_Command := c; le_Term := rf.(currentTerm) |}]) as Elog by (by subst rf').
  assert (rf'.(currentTerm) = rf.(currentTerm)) as Et by (by subst rf').
  set (w1 := put_leader _ _ _ _).
  assert (leads_grow w.(leaders) w1.(leaders)) as Hg.
  { intros U j l HU. cbn. destruct (decide (U = rf.(currentTerm))) as [->|].
    - rewrite lookup_insert_eq. rewrite HL in HU. injection HU as <- <-. eexists. rewrite Elog.
      split; [done|]. by repeat constructor.
    - exists []. by rewrite lookup_insert_ne, app_nil_r by done. }
  assert (Forall (fun e => e.(le_Term) <= rf'.(currentTerm)) rf'.(logs)) as Hterms.
  { rewrite Elog, Et. apply Forall_app. split; [by apply (av_terms _ _ _ Ha _ _ Hi)|]. by repeat constructor. }
  assert (ack_inv n w1 A) as Ha1.
  { apply (ack_inv_put n w w1 A Hcw Ha i rf rf' Hi eq_refl eq_refl Hg).
    - by rewrite Et.
    - intros u j _ _ _ Hh. rewrite Elog. eapply holds_prefix; [done|by apply prefix_app_r].
    - subst rf'. cbn. congruence.
    - intros j a [?|(r & s & Hr & Hin)]; left; [by left|right]. cbn in Hr.
      apply list_lookup_insert_Some in Hr as [(<- & <- & _)|[? Hr]]; [|eauto].
      exists rf, s. split; [done|]. subst rf'. cbn in Hin. by eapply elem_of_delete.
    - intros T j L Hnone. cbn. rewrite lookup_insert_ne by congruence. congruence.
    - done.
    - intros T j L. cbn. intros [[<- [= <- <-]]|[? HT]]%lookup_insert_Some; [by rewrite <- Et|].
      by apply (av_lterms _ _ _ Ha _ j).
    - intros. by left. }
  split; [done|]. rewrite <- Et. eapply (ack_inv_add n w1 A i rf' i rf'.(logs)); [done| | | |by rewrite Elog, length_app; cbn; lia|done].
  - intros T x Hin. cbn in Hin. destruct (vi_vote _ Hvi _ _ _ Hin) as (_ & r & Hr & ? & _). simplify_eq. lia.
  - cbn. apply list_lookup_insert_eq. by eapply lookup_lt_Some.
  - cbn. by rewrite Et, lookup_insert_eq.
Qed.

(** ** Every timely step *)

Lemma ack_summary lbl w w' A :
  cluster_wf n w -> votes_inv w -> count_inv n w -> leader_inv n w -> ack_inv n w A -> timely lbl w ->
  summary lbl w w' ->
  exists A', acks_grow A A' /\ leads_grow w.(leaders) w'.(leaders) /\ ack_inv n w' A'.
Proof.
  intros Hcw Hv Hc Hl Ha Htm Hs.
  pose proof (fun T j => quorum_mono n _ _ _ T j Hcw Hv Hs) as Hq.
  pose proof (votes_inv_step _ _ _ _ Hcw Hv Hs) as Hv'.
  pose proof (count_inv_step _ _ _ _ Hcw Hv Hc Hs) as Hc'.
  assert (w'.(leaders) = w.(leaders) -> ack_inv n w' A ->
    exists A', acks_grow A A' /\ leads_grow w.(leaders) w'.(leaders) /\ ack_inv n w' A') as Hsame.
  { intros E Ha'. exists A. split; [by intros ???|]. split; [|done]. rewrite E. apply leads_grow_refl. }
  destruct Hs as
    [lbl w k|lbl w w' i r r' Hi Hqt Hh Hn Hnet|lbl w w' i k r inc s a Hi Hk Hh Hn Hnet
    |w w' i r r1 e Hi Hlp Er He ->|w w' k src inc dst args r r' reply Hk Hi Ho Hn Hnet Evs _ Eld
    |w w' k src inc dst args r r' reply Hk Hi Ho Hn Hnet Hh
    |w w' k src inc dst args reply r r' Hk Hi Hr Hn Hnet Evs _ Eld
    |lbl w w' k i r t Hi Ht Hn Hnet Hh|w w' i k r r' c t index Hi Hk Hst ->
    |lbl w w' i r Hi Hn Hnet Hh].
  - apply Hsame; [done|by apply ack_inv_net].
  - apply Hsame; [apply Hh|by eapply ack_quiet].
  - apply Hsame; [apply Hh|by eapply ack_send_vote].
  - apply Hsame; [done|by apply (ack_election w A i r r1 e)].
  - apply Hsame; [done|by eapply ack_request_vote].
  - destruct (ack_append w w' A k src inc dst args r r' reply) as (A' & ? & ?); [done..|].
    exists A'. split; [done|]. split; [|done]. destruct Hh as (_ & _ & ->). apply leads_grow_refl.
  - exists A. split; [by intros ???|]. by eapply ack_vote_reply.
  - apply Hsame; [apply Hh|]. destruct Hh as (? & _ & ?). by eapply ack_higher.
  - destruct (Htm _ _ _ Hi Hk) as [Hld Et]. eexists. split; [apply add_ack_grow|].
    by apply (ack_start w A i k r r' c t index).
  - apply Hsame; [apply Hh|by eapply ack_crash].
Qed.

(** The entry that a step of [Start] appends. *)
Definition starts (lbl : Label Cmd) w (i : nat) (t : Z) (index : nat) : Prop :=
  exists k rf c, lbl = LGo i k /\ w.(nodes) !! i = Some rf /\
    rf.(goroutines) !! k = Some (GoStart c t) /\ index = length rf.(logs).

Lemma ack_step lbl w w' A :
  timely_reachable n w -> ack_inv n w A -> timely lbl w -> step lbl w = Some (Ret w') ->
  exists A', acks_grow A A' /\ leads_grow w.(leaders) w'.(leaders) /\ ack_inv n w' A' /\
    forall i t index, starts lbl w i t index -> A' i t index.
Proof.
  intros Hr Ha Htm Hs. pose proof (timely_leader_inv _ _ Hr) as Hl. apply timely_is_reachable in Hr.
  pose proof (reachable_wf _ _ Hr) as Hcw. pose proof (reachable_votes_inv _ _ Hr) as Hv.
  pose proof (reachable_count_inv _ _ Hr) as Hc.
  assert ((forall i t index, ~ starts lbl w i t index) -> exists A', acks_grow A A' /\
    leads_grow w.(leaders) w'.(leaders) /\ ack_inv n w' A' /\
    forall i t index, starts lbl w i t index -> A' i t index) as Hother.
  { intros Hno. destruct (step_summary _ _ _ _ Hcw Hs) as [->|Hsum].
    - exists A. split; [by intros ???|]. split; [apply leads_grow_refl|]. split; [done|]. by intros i t x []%Hno.
    - destruct (ack_summary lbl w w' A) as (A' & ? & ? & ?); [done..|]. exists A'. split; [done|].
      split; [done|]. split; [done|]. by intros i t x []%Hno. }
  destruct lbl as [| | | | |i k| | | |]; try (apply Hother; intros i' t' x' (k' & rf' & c' & E & _); discriminate E).
  destruct (w.(nodes) !! i) as [rf|] eqn:Hi; [|by cbn in Hs; rewrite Hi in Hs].
  destruct (rf.(goroutines) !! k) as [g|] eqn:Hk;
    [|cbn in Hs; rewrite Hi in Hs; cbn in Hs; rewrite Hk in Hs; by destruct (w.(incs) !! i)].
  assert ((exists c t, g = GoStart c t) \/ forall c t, g <> GoStart c t) as [(c & t & ->)|Hng]
    by (destruct g; first [left; by eauto|by right]).
  - cbn in Hs. rewrite Hi in Hs. cbn in Hs. rewrite Hk in Hs.
    destruct (w.(incs) !! i) as [inc|]; [|done]. cbn in Hs. injection Hs as Hs. bind_inv Hs.
    destruct x as [rf' index]. inv_res. destruct (Htm _ _ _ Hi Hk) as [Hld Et].
    exists (add_ack A i t (length rf.(logs))). split; [apply add_ack_grow|].
    destruct (ack_start w A i k rf rf' c t index) as [? ?]; [done..|]. split; [done|]. split; [done|].
    intros i' t' x' (k' & r' & c' & Elbl & Hr' & Hk' & ->). injection Elbl as <- <-.
    rewrite Hi in Hr'. injection Hr' as <-. rewrite Hk in Hk'. injection Hk' as <- <-. by right.
  - apply Hother. intros i' t' x' (k' & r' & c' & Elbl & Hr' & Hk' & ->). injection Elbl as <- <-.
    rewrite Hi in Hr'. injection Hr' as <-. rewrite Hk in Hk'. injection Hk' as ->. by eapply Hng.
Qed.

Lemma init_ack_inv : ack_inv n (init (Cmd:=Cmd) n) (fun _ _ _ => False).
Proof.
  split; try done.
  - by intros v rf _ t k k' [].
  - intros v T i rf Hin. by apply not_elem_of_nil in Hin.
  - intros i rf a _ [(? & ? & Hin)|(r & s & [_ ->]%init_node & Hin)]; by apply not_elem_of_nil in Hin.
  - intros v T i Hin. by apply not_elem_of_nil in Hin.
  - intros ? ? ? ? ? Hin. by apply not_elem_of_nil in Hin.
  - intros i rf [_ ->]%init_node. cbn. repeat constructor. cbn. lia.
Qed.

Lemma timely_ack_inv w : timely_reachable n w -> exists A, ack_inv n w A.
Proof.
  induction 1 as [|lbl w w' Hr [A IH] Htm Hs]; [eexists; apply init_ack_inv|].
  destruct (ack_step lbl w w' A) as (A' & _ & _ & ? & _); [done..|]. eauto.
Qed.
End ack_step.
