(* ===== verification/RaftCommit.v ===== *)
(** * RaftCommit: what a majority acknowledged, and what the servers commit

    Leader Completeness: an entry of a leader's term that a majority holds is in the
    log of every later leader.

    The commit index of a leader moves when a majority is known to hold an index
    ([commitScan]), that of a follower with the LeaderCommit of an AppendEntries;
    [setCommitIndex] starts a goroutine that delivers the entries.  The source
    tests neither that the entry is of the leader's term nor that a reply belongs
    to the leader's term.  [prudent] steps are those in which these tests would
    have passed or the commit index does not move; along them everything that is
    committed, on its way to an applyCh or delivered is an entry that a majority
    has acknowledged in the term of its leader. *)

From S2P Require Import Prelude Gob Raft RaftFacts RaftHandlers RaftSpec RaftReplicate Cluster ClusterStep.
From S2P Require Import Election ElectionSafety Leaders RaftTraces RaftSafety RaftAck RaftAckStep.
Local Open Scope Z_scope.

(** ** Leader Completeness *)

Section complete.
Context {Cmd : Type} `{!Gob (PVal Cmd)} `{!Rand} (n : nat).
Implicit Types (rf : Raft Cmd) (w : Cluster Cmd) (l L : list (LogEntry Cmd)).
Implicit Types (A : nat -> Z -> nat -> Prop) (ls : gmap Z (nat * list (LogEntry Cmd))).

(** ** Committed entries *)

(** The leader of [t] created the entry at [k], and a majority acknowledged it. *)
Definition committed ls A (t : Z) (k : nat) : Prop :=
  own ls t k /\ exists Q : list nat, NoDup Q /\ (n / 2 < length Q)%nat /\
    forall v, v ∈ Q -> (v < n)%nat /\ exists k1, (k <= k1)%nat /\ A v t k1.

Lemma committed_mono ls ls' A A' t k :
  leads_grow ls ls' -> acks_grow A A' -> committed ls A t k -> committed ls' A' t k.
Proof.
  intros Hg HA [Ho (Q & H1 & H2 & HQ)]. split; [by eapply own_mono|]. exists Q. split; [done|].
  split; [done|]. intros v (? & k1 & ? & ?)%HQ. eauto.
Qed.

(** All later leaders have it: by induction on the term, since a voter of the
    leader is one of those who acknowledged. *)
Lemma committed_later w A t k T i L :
  ack_inv n w A -> committed w.(leaders) A t k -> t < T -> w.(leaders) !! T = Some (i, L) ->
  holds w.(leaders) t k L.
Proof.
  intros Ha Hc. revert i L. induction T as [T IH] using (well_founded_induction (Z.lt_wf t)).
  intros i L Ht HL. assert (between w.(leaders) t k T) as Hb.
  { intros U j LU HU. apply IH; lia. }
  destruct Hc as [Ho (Q & H1 & H2 & HQ)]. destruct (av_quorum _ _ _ Ha _ _ _ HL) as (Q' & H1' & H2' & HQ').
  destruct (majorities_meet n Q Q') as (v & Hv & Hv'); [done..|by intros; apply HQ|by intros; apply HQ'|done|done|].
  destruct (HQ v Hv) as (_ & k1 & Hk1 & HA). destruct (HQ' v Hv') as (_ & _ & Hkeep). by eapply Hkeep.
Qed.

Lemma committed_between w A t k T :
  ack_inv n w A -> committed w.(leaders) A t k -> between w.(leaders) t k T.
Proof. intros Ha Hc U i L HU. eapply committed_later; [done..|lia]. Qed.

(** ** Along runs *)

Definition timely_step w w' : Prop := exists lbl, timely lbl w /\ step lbl w = Some (Ret w').

Lemma leads_grow_trans ls1 ls2 ls3 : leads_grow ls1 ls2 -> leads_grow ls2 ls3 -> leads_grow ls1 ls3.
Proof.
  intros H12 H23 T i l Hl. destruct (H12 _ _ _ Hl) as (s1 & H1 & F1). destruct (H23 _ _ _ H1) as (s2 & H2 & F2).
  exists (s1 ++ s2). rewrite app_assoc. split; [done|]. by apply Forall_app.
Qed.

Lemma ack_steps w w' A :
  rtc timely_step w w' -> timely_reachable n w -> ack_inv n w A ->
  timely_reachable n w' /\
  exists A', acks_grow A A' /\ leads_grow w.(leaders) w'.(leaders) /\ ack_inv n w' A'.
Proof.
  intros Hs. revert A. induction Hs as [w|w w1 w' (lbl & Htm & Hs) _ IH]; intros A Hr Ha.
  { split; [done|]. exists A. split; [by intros ???|]. split; [apply leads_grow_refl|done]. }
  destruct (ack_step n lbl w w1 A) as (A1 & HA1 & Hg1 & Ha1 & _); [done..|].
  destruct (IH A1) as (Hr' & A2 & HA2 & Hg2 & Ha2); [by eapply treach_step|done|].
  split; [done|]. exists A2. split; [intros v t k ?; by apply HA2, HA1|].
  split; [by eapply leads_grow_trans|done].
Qed.

(** Servers in the term of a leader that hold an entry of it acknowledge it. *)
Lemma ack_all w A i L t k (Q : list nat) :
  votes_inv w -> ack_inv n w A -> w.(leaders) !! t = Some (i, L) -> (k < length L)%nat ->
  (forall v, v ∈ Q -> exists rf, w.(nodes) !! v = Some rf /\ rf.(currentTerm) = t /\
     take (S k) rf.(logs) = take (S k) L) ->
  exists A', acks_grow A A' /\ ack_inv n w A' /\ forall v, v ∈ Q -> A' v t k.
Proof.
  intros Hvi Ha HL Hk. revert A Ha. induction Q as [|v Q IH]; intros A Ha HQ.
  { exists A. split; [by intros ???|]. split; [done|]. by intros v ?%not_elem_of_nil. }
  destruct (HQ v) as (rf & Hv & <- & E); [left|].
  destruct (IH (add_ack A v rf.(currentTerm) k)) as (A' & HA' & Ha' & Hall).
  - eapply ack_inv_add; [done| |done|done|done|done].
    intros T c Hin. destruct (vi_vote _ Hvi _ _ _ Hin) as (_ & r & Hr & ? & _). by simplify_eq.
  - intros v' Hv'. apply HQ. by right.
  - exists A'. split; [intros ? ? ? ?; by apply HA', add_ack_grow|]. split; [done|].
    intros v' [->|Hv']%elem_of_cons; [apply HA'; by right|by apply Hall].
Qed.

(** C4. Leader Completeness: in a timely run, when a majority of the servers are in
    the term of a leader and hold, like the leader, an entry of that term together
    with everything before it, then in every later state of the run, after any
    losses, crashes and elections, every leader of that or a later term has these
    entries in its log. *)
Theorem leader_completeness w w' ld rfl k e (Q : list nat) i rf' :
  timely_reachable n w -> rtc timely_step w w' ->
  w.(nodes) !! ld = Some rfl -> rfl.(state) = Leader ->
  rfl.(logs) !! k = Some e -> e.(le_Term) = rfl.(currentTerm) ->
  NoDup Q -> (n / 2 < length Q)%nat ->
  (forall v, v ∈ Q -> exists rf, w.(nodes) !! v = Some rf /\ rf.(currentTerm) = rfl.(currentTerm) /\
     take (S k) rf.(logs) = take (S k) rfl.(logs)) ->
  w'.(nodes) !! i = Some rf' -> rf'.(state) = Leader -> rfl.(currentTerm) <= rf'.(currentTerm) ->
  take (S k) rf'.(logs) = take (S k) rfl.(logs).
Proof.
  intros Hr Hs Hld Hst He Et HQ1 HQ2 HQ Hi Hst' Hle.
  pose proof (timely_leader_inv _ _ Hr) as Hl. pose proof (timely_is_reachable _ _ Hr) as Hr0.
  pose proof (reachable_wf _ _ Hr0) as Hcw. pose proof (reachable_votes_inv _ _ Hr0) as Hvi.
  pose proof (li_leader _ _ Hl _ _ Hld Hst) as HL. apply lookup_lt_Some in He as Hk.
  destruct (timely_ack_inv _ _ Hr) as [A0 Ha0].
  destruct (ack_all w A0 ld rfl.(logs) rfl.(currentTerm) k Q) as (A & _ & Ha & HA); [done..|].
  assert (committed w.(leaders) A rfl.(currentTerm) k) as Hc.
  { split; [split|].
    - destruct k as [|k]; [|lia]. pose proof (cw_node _ _ Hcw _ _ Hld) as Hok.
      rewrite log_wf_head in He by apply Hok. injection He as <-. cbn in Et.
      pose proof (no_term _ _ _ Hok) as H1. rewrite Hst in H1. specialize (H1 ltac:(done)). lia.
    - by exists ld, rfl.(logs), e.
    - exists Q. split; [done|]. split; [done|]. intros v Hv. split; [|eauto].
      destruct (HQ v Hv) as (rf & Hrf & _). rewrite <- (cw_len _ _ Hcw). by eapply lookup_lt_Some. }
  destruct (ack_steps w w' A Hs Hr Ha) as (Hr' & A' & HA' & Hg & Ha').
  pose proof (li_leader _ _ (timely_leader_inv _ _ Hr') _ _ Hi Hst') as HL'.
  destruct (Hg _ _ _ HL) as (suf & HLs & _).
  destruct (decide (rf'.(currentTerm) = rfl.(currentTerm))) as [E|Hne].
  - rewrite E, HLs in HL'. injection HL' as -> <-. by rewrite take_app_le by lia.
  - destruct (committed_later w' A' rfl.(currentTerm) k rf'.(currentTerm) i rf'.(logs)) as (j & L & HL2 & _ & Etk);
      [done|by eapply committed_mono|lia|done|].
    rewrite HLs in HL2. injection HL2 as <- <-. rewrite Etk. by rewrite take_app_le by lia.
Qed.
End complete.

Lemma run_timely_steps {Cmd} `{!Gob (PVal Cmd)} `{!Rand} (lbls : list (Label Cmd)) w w' :
  run_timely lbls w = Some w' -> rtc timely_step w w'.
Proof.
  revert w. induction lbls as [|lbl lbls IH]; cbn; intros w E; [by simplify_eq|].
  destruct (timelyb lbl w) eqn:Ht; [|done]. destruct (step lbl w) as [[w1|]|] eqn:Hs; [|done..].
  eapply rtc_l; [|by apply IH]. exists lbl. split; [by apply timelyb_timely|done].
Qed.

Lemma leader_completeness_witness :
  take 2 (server (commit0 ++ takeover) 1).(logs) = take 2 (server commit0 0).(logs).
Proof.
  apply (leader_completeness 3 (after commit0) (after (commit0 ++ takeover)) 0 (server commit0 0) 1
           {| le_Command := Some 7%nat; le_Term := 1 |} [0%nat; 1%nat] 1 (server (commit0 ++ takeover) 1)
           (after_timely _)).
  - apply (run_timely_steps takeover). vm_compute. reflexivity.
  - vm_compute. reflexivity.
  - vm_compute. reflexivity.
  - vm_compute. reflexivity.
  - vm_compute. reflexivity.
  - apply (bool_decide_unpack _). vm_compute. exact I.
  - cbn. lia.
  - intros v Hv. exists (server commit0 v).
    assert (v = 0%nat \/ v = 1%nat) as [->| ->] by set_solver; vm_compute; auto.
  - vm_compute. reflexivity.
  - vm_compute. reflexivity.
  - vm_compute. discriminate.
Defined.

Section commit.
Context {Cmd : Type} `{!Gob (PVal Cmd)} `{!Rand} (n : nat).
Implicit Types (rf : Raft Cmd) (w : Cluster Cmd) (l L : list (LogEntry Cmd)).
Implicit Types (A : nat -> Z -> nat -> Prop) (ls : gmap Z (nat * list (LogEntry Cmd))).

(** ** Prudent steps *)

(** [P] holds of the peer before and after every Success that a step handles. *)
Definition on_success (P : Raft Cmd -> AppendEntriesArgs Cmd -> Raft Cmd -> Prop) (lbl : Label Cmd) w : Prop :=
  match lbl with
  | LDeliver k =>
      forall src inc dst args reply rf rf',
        w.(net) !! k = Some (AppRep src inc dst args reply) -> w.(nodes) !! src = Some rf ->
        w.(incs) !! src = Some inc -> reply.(aer_Success) = true ->
        broadcastHeartbeat_reply rf dst args reply = Ret rf' -> P rf args rf'
  | _ => True
  end.

(** A leader handles it in the term of the request. *)
Definition in_term rf (args : AppendEntriesArgs Cmd) rf' : Prop :=
  rf.(state) = Leader -> rf.(currentTerm) = args.(ae_Term).

(** The commit index moves only in a leader, and to an entry of its term. *)
Definition own_commit rf (args : AppendEntriesArgs Cmd) rf' : Prop :=
  rf'.(commitIndex) = rf.(commitIndex) \/
  rf.(state) = Leader /\ exists e, rf.(logs) !! Z.to_nat rf'.(commitIndex) = Some e /\
    e.(le_Term) = rf.(currentTerm).

Definition prudent (lbl : Label Cmd) w : Prop :=
  on_success in_term lbl w /\ on_success own_commit lbl w.

(** ** The invariant *)

(** A log [l] of a server in term [T] agrees with a committed log up to [c]. *)
Definition reached ls A (T c : Z) l : Prop :=
  c <= 0 \/ exists t k, t <= T /\ committed n ls A t k /\ (Z.to_nat c <= k)%nat /\ holds ls t (Z.to_nat c) l.

(** Entry [e] is committed at index [j]. *)
Definition settled ls A (j : Z) (e : LogEntry Cmd) : Prop :=
  exists t k i L, committed n ls A t k /\ ls !! t = Some (i, L) /\ (Z.to_nat j <= k)%nat /\
    L !! Z.to_nat j = Some e.

Definition go_settled ls A (g : Goroutine Cmd) : Prop :=
  match g with
  | GoApply s es | GoApplied s es => forall j e, es !! j = Some e -> settled ls A (s + Z.of_nat j) e
  | _ => True
  end.

(** What a leader records of its followers was acknowledged in its term. *)
Definition match_ok A rf : Prop :=
  rf.(state) = Leader -> forall v m, rf.(matchIndex) !! v = Some m ->
    m <= 0 \/ exists k, (Z.to_nat m <= k)%nat /\ A v rf.(currentTerm) k.

Definition node_cm ls A rf : Prop :=
  reached ls A rf.(currentTerm) rf.(commitIndex) rf.(logs) /\ match_ok A rf /\
  forall g, g ∈ rf.(goroutines) -> go_settled ls A g.

Definition msg_cm ls A (m : ApplyMsg Cmd) : Prop :=
  exists e, m.(am_Command) = e.(le_Command) /\ settled ls A m.(CommandIndex) e.

Definition pkt_cm ls A (p : Packet Cmd) : Prop :=
  match p with
  | AppReq _ _ _ args =>
      args.(ae_LeaderCommit) <= 0 \/ exists t k, t <= args.(ae_Term) /\ committed n ls A t k /\
        (Z.to_nat args.(ae_LeaderCommit) <= k)%nat /\ (Z.to_nat args.(ae_LeaderCommit) <= acked args)%nat
  | _ => True
  end.

Record commit_inv w A : Prop := {
  cm_node : forall i rf, w.(nodes) !! i = Some rf -> node_cm w.(leaders) A rf;
  cm_msg : forall i ms m, w.(applied) !! i = Some ms -> m ∈ ms -> msg_cm w.(leaders) A m;
  cm_pkt : forall p, p ∈ w.(net) -> pkt_cm w.(leaders) A p;
}.

(** Leaders that append and new acknowledgements keep it all. *)
Section mono.
Context ls ls' A A' (Hg : leads_grow ls ls') (HA : acks_grow A A').

Lemma reached_mono T c l : reached ls A T c l -> reached ls' A' T c l.
Proof.
  intros [?|(t & k & ? & ? & ? & ?)]; [by left|right]. exists t, k. split; [done|].
  split; [by eapply committed_mono|]. split; [done|by eapply holds_mono].
Qed.

Lemma settled_mono j e : settled ls A j e -> settled ls' A' j e.
Proof.
  intros (t & k & i & L & Hc & HL & Hj & He). destruct (Hg _ _ _ HL) as (suf & HL' & _).
  exists t, k, i, (L ++ suf). split; [by eapply committed_mono|]. split; [done|]. split; [done|].
  by apply lookup_app_l_Some.
Qed.

Lemma node_cm_mono rf : node_cm ls A rf -> node_cm ls' A' rf.
Proof.
  intros (Hr & Hm & Hgo). split; [by apply reached_mono|]. split.
  - intros Hs v m Hv. destruct (Hm Hs v m Hv) as [?|(k & ? & ?)]; eauto.
  - intros g Hin. specialize (Hgo g Hin). destruct g; cbn in *; eauto using settled_mono.
Qed.

Lemma msg_cm_mono m : msg_cm ls A m -> msg_cm ls' A' m.
Proof. intros (e & ? & ?). exists e. eauto using settled_mono. Qed.

Lemma pkt_cm_mono p : pkt_cm ls A p -> pkt_cm ls' A' p.
Proof.
  destruct p; cbn; try done. intros [?|(t & k & ? & ? & ?)]; [by left|right].
  exists t, k. eauto using committed_mono.
Qed.
End mono.

(** A later leader has what was committed. *)
Lemma settled_later w A j t1 k1 i1 L1 t2 i2 L2 :
  ack_inv n w A -> committed n w.(leaders) A t1 k1 -> w.(leaders) !! t1 = Some (i1, L1) ->
  w.(leaders) !! t2 = Some (i2, L2) -> t1 <= t2 -> (j <= k1)%nat -> L2 !! j = L1 !! j.
Proof.
  intros Ha Hc HL1 HL2 Ht Hj. destruct (decide (t1 = t2)) as [<-|]; [congruence|].
  destruct (committed_later n w A t1 k1 t2 i2 L2) as (i & L & HL & Hk & E); [done..|lia|done|].
  assert (L = L1) as -> by congruence.
  rewrite <- (lookup_take_lt L2 (S k1)), E by lia. by rewrite lookup_take_lt by lia.
Qed.

(** Entries committed at one index are the same. *)
Lemma settled_agree w A j e1 e2 :
  ack_inv n w A -> settled w.(leaders) A j e1 -> settled w.(leaders) A j e2 -> e1 = e2.
Proof.
  intros Ha (t1 & k1 & i1 & L1 & Hc1 & HL1 & Hj1 & He1) (t2 & k2 & i2 & L2 & Hc2 & HL2 & Hj2 & He2).
  destruct (Z.le_ge_cases t1 t2).
  - pose proof (settled_later w A _ t1 k1 i1 L1 t2 i2 L2 Ha Hc1 HL1 HL2 ltac:(lia) Hj1). congruence.
  - pose proof (settled_later w A _ t2 k2 i2 L2 t1 i1 L1 Ha Hc2 HL2 HL1 ltac:(lia) Hj2). congruence.
Qed.

(** ** How a peer may change *)

(** A change that commits and delivers nothing. *)
Definition go_other (g : Goroutine Cmd) : Prop :=
  match g with GoApply _ _ | GoApplied _ _ => False | _ => True end.

Record cm_same rf rf' : Prop := {
  cs_commit : rf'.(commitIndex) = rf.(commitIndex);
  cs_logs : rf.(logs) `prefix_of` rf'.(logs);
  cs_term : rf.(currentTerm) <= rf'.(currentTerm);
  cs_match : rf'.(state) = Leader ->
    rf.(state) = Leader /\ rf'.(currentTerm) = rf.(currentTerm) /\ rf'.(matchIndex) = rf.(matchIndex);
  cs_go : forall g, g ∈ rf'.(goroutines) -> g ∈ rf.(goroutines) \/ go_other g;
}.

Lemma reached_prefix ls A T T' c l l' :
  reached ls A T c l -> T <= T' -> l `prefix_of` l' -> reached ls A T' c l'.
Proof.
  intros [?|(t & k & ? & ? & ? & ?)] HT Hp; [by left|right]. exists t, k. split; [lia|].
  split; [done|]. split; [done|by eapply holds_prefix].
Qed.

Lemma node_cm_same ls A rf rf' : node_cm ls A rf -> cm_same rf rf' -> node_cm ls A rf'.
Proof.
  intros (Hr & Hm & Hgo) [Ec El Et Hs Hg]. split; [|split].
  - rewrite Ec. by eapply reached_prefix.
  - intros Hld. destruct (Hs Hld) as (Hld0 & -> & ->). by apply Hm.
  - intros g [?|Ho]%Hg; [by apply Hgo|]. by destruct g.
Qed.

Lemma cm_same_spawn rf rf' gs :
  rf'.(commitIndex) = rf.(commitIndex) -> rf'.(logs) = rf.(logs) -> rf'.(currentTerm) = rf.(currentTerm) ->
  rf'.(state) = rf.(state) -> rf'.(matchIndex) = rf.(matchIndex) ->
  rf'.(goroutines) = rf.(goroutines) ++ gs -> (forall g, g ∈ gs -> go_other g) -> cm_same rf rf'.
Proof.
  intros Ec El Et Es Em Eg Hg. split; [done|by rewrite El|lia|by rewrite Es|].
  rewrite Eg. intros g [?|?]%elem_of_app; auto.
Qed.

Lemma cm_same_refl rf rf' :
  rf'.(commitIndex) = rf.(commitIndex) -> rf'.(logs) = rf.(logs) -> rf'.(currentTerm) = rf.(currentTerm) ->
  rf'.(state) = rf.(state) -> rf'.(matchIndex) = rf.(matchIndex) ->
  rf'.(goroutines) = rf.(goroutines) -> cm_same rf rf'.
Proof.
  intros. apply (cm_same_spawn _ _ []); try done; [by rewrite app_nil_r|by intros g ?%not_elem_of_nil].
Qed.

Lemma cm_same_trans rf1 rf2 rf3 : cm_same rf1 rf2 -> cm_same rf2 rf3 -> cm_same rf1 rf3.
Proof.
  intros [] []. split; [congruence|by etrans|lia| |].
  - intros Hs. destruct (cs_match1 Hs) as (Hs2 & ? & ?). destruct (cs_match0 Hs2) as (? & ? & ?).
    split; [done|]. split; congruence.
  - intros g [Hg|?]%cs_go1; [|by right]. by apply cs_go0.
Qed.

Lemma cm_same_del k rf : cm_same rf (del_go k rf).
Proof. split; cbn; try done. intros g Hg. left. by eapply elem_of_delete. Qed.

Lemma cm_same_adopt t rf : cm_same rf (adopt t rf).
Proof.
  destruct (adopt_frame t rf) as (_ & _ & El & Ec & _ & _ & Em & Eg & _). pose proof (adopt_term t rf) as Et.
  split; [done|by rewrite El|lia| |rewrite Eg; by left].
  intros Hs. destruct (adopt_state t rf) as [Hs' ?]; [by rewrite Hs|]. rewrite <- Hs'.
  split; [done|]. rewrite Em, Et. split; [lia|done].
Qed.

Lemma rv_cm rf args rf' reply : rv_outcome rf args rf' reply -> cm_same rf rf'.
Proof.
  pose proof (cm_same_adopt args.(rv_Term) rf) as Ha.
  intros []; [by apply cm_same_refl|..]; (eapply cm_same_trans; [exact Ha|by apply cm_same_refl]).
Qed.

Lemma vote_reply_cm ls A rf args reply rf' :
  node_cm ls A rf -> vote_reply rf args reply rf' -> node_cm ls A rf'.
Proof.
  intros Hn [? _ _ -> _|rf1 ? _ Hs -> _ Hc| |].
  - eapply node_cm_same; [done|]. by apply cm_same_refl.
  - destruct Hn as (Hr & Hm & Hgo). unfold convertTo in Hc. rewrite decide_False in Hc by (cbn; congruence).
    rewrite broadcastHeartbeat_eq in Hc. cbn in Hc. inv_res. split; [done|]. split.
    + intros _ v m Hv. cbn in Hv. left. apply list_lookup_fmap_Some in Hv as (? & -> & _). done.
    + cbn. intros g [?|(s & -> & _)%list_elem_of_fmap]%elem_of_app; [by apply Hgo|done].
  - done.
  - eapply node_cm_same; [done|]. eapply cm_same_trans; [apply cm_same_adopt|by apply cm_same_refl].
Qed.

(** ** Committing *)

(** The entries that [setCommitIndex] hands to its goroutine. *)
Lemma slice_settled ls A T c l la es :
  reached ls A T c l -> 0 <= la -> slice l (la + 1) (c + 1) = Ret es -> go_settled ls A (GoApply (la + 1) es).
Proof.
  intros Hr Hla (Hlo & Hhi & ->)%slice_Ret j e Hj. apply lookup_take_Some in Hj as [Hj Hlt].
  rewrite lookup_drop in Hj. destruct Hr as [?|(t & k & _ & Hc & Hk & (i & L & HL & Hlen & E))]; [lia|].
  exists t, k, i, L. split; [done|]. split; [done|].
  replace (Z.to_nat (la + 1 + Z.of_nat j)) with (Z.to_nat (la + 1) + j)%nat by lia. split; [lia|].
  rewrite <- Hj. rewrite <- (lookup_take_lt L (S (Z.to_nat c))), <- E by lia. by rewrite lookup_take_lt by lia.
Qed.

Lemma setCommitIndex_cm ls A rf ci rf' :
  0 <= rf.(lastApplied) -> match_ok A rf -> (forall g, g ∈ rf.(goroutines) -> go_settled ls A g) ->
  reached ls A rf.(currentTerm) ci rf.(logs) -> setCommitIndex rf ci = Ret rf' -> node_cm ls A rf'.
Proof.
  intros Hla Hm Hgo Hr (gs & -> & Hgs)%setCommitIndex_frame. split; [done|]. split; [done|].
  cbn. intros g [?|Hg]%elem_of_app; [by apply Hgo|].
  destruct Hgs as [->|(es & -> & _ & Hsl)]; [by apply not_elem_of_nil in Hg|].
  apply list_elem_of_singleton in Hg as ->. by eapply slice_settled.
Qed.

(** The leader of a later term holds what is committed. *)
Lemma leader_holds w A t k c T i L :
  ack_inv n w A -> committed n w.(leaders) A t k -> t <= T -> (c <= k)%nat ->
  w.(leaders) !! T = Some (i, L) -> (c < length L)%nat -> holds w.(leaders) t c L.
Proof.
  intros Ha Hc Ht Hk HL Hlt. destruct (decide (t = T)) as [->|]; [by exists i, L|].
  apply (holds_le _ _ k); [|done]. apply (committed_later n w A t k T i L); [done..|lia|done].
Qed.

(** The log after a merge: what was committed is still there, and so is what the
    leader says is committed. *)
Lemma merge_reached w A src dst args rf prev :
  cluster_wf n w -> leader_inv n w -> ack_inv n w A -> from_leader w.(leaders) src args ->
  w.(nodes) !! dst = Some rf -> rf.(currentTerm) <= args.(ae_Term) ->
  reached w.(leaders) A rf.(currentTerm) rf.(commitIndex) rf.(logs) ->
  (forall i inc, pkt_cm w.(leaders) A (AppReq i inc dst args)) ->
  rf.(logs) !! Z.to_nat args.(ae_PrevLogIndex) = Some prev -> prev.(le_Term) = args.(ae_PrevLogTerm) ->
  let l' := merge_entries rf.(logs) (S (Z.to_nat args.(ae_PrevLogIndex))) args.(ae_Entries) in
  reached w.(leaders) A args.(ae_Term) rf.(commitIndex) l' /\
  (0 < args.(ae_LeaderCommit) -> args.(ae_LeaderCommit) < len l' /\
     reached w.(leaders) A args.(ae_Term) args.(ae_LeaderCommit) l').
Proof.
  intros Hcw Hl Ha Hfl Hi Hle Hr Hp Hpr Ht l'.
  destruct (append_match n w src dst args rf prev Hcw Hl Hfl Hi Hpr Ht) as (L & HL & Hlt & Et & _ & Hkeep).
  fold l' in Et, Hkeep. split.
  - destruct Hr as [?|(t & k & Htr & Hc & Hk & Hh)]; [by left|right]. exists t, k. split; [lia|].
    split; [done|]. split; [done|]. eapply (merge_holds _ t _ args.(ae_Term) src L); [done|lia| |done|done].
    intros T i LT HT HLT. apply (holds_le _ _ k); [|done]. by eapply committed_between.
  - intros Hpos. destruct (Hp src 0%nat) as [?|(t & k & Htt & Hc & Hk & Hack)]; [lia|].
    assert (length l' > acked args)%nat as Hlen.
    { apply (f_equal length) in Et. rewrite !length_take in Et. lia. }
    split; [unfold len; lia|right]. exists t, k. split; [done|]. split; [done|]. split; [done|].
    eapply (holds_take _ _ _ L); [apply (leader_holds w A t k _ args.(ae_Term) src L); [done..|lia]|].
    apply (f_equal (take (S (Z.to_nat args.(ae_LeaderCommit))))) in Et.
    by rewrite !take_take, !Nat.min_l in Et by lia.
Qed.

Lemma append_cm w A k src inc dst args rf rf' reply :
  cluster_wf n w -> leader_inv n w -> ack_inv n w A -> commit_inv w A ->
  w.(net) !! k = Some (AppReq src inc dst args) -> w.(nodes) !! dst = Some rf ->
  ae_outcome rf args rf' reply -> node_cm w.(leaders) A rf'.
Proof.
  intros Hcw Hl Ha Hcm Hk Hi Ho. apply list_elem_of_lookup_2 in Hk.
  pose proof (cm_node _ _ Hcm _ _ Hi) as Hn. pose proof (cm_pkt _ _ Hcm _ Hk) as Hp.
  pose proof (cm_same_adopt args.(ae_Term) rf) as Had.
  destruct Ho as [| | |prev rf1 rf2 Hle Hpr Ht Erf1 Hf];
    try (eapply node_cm_same; [done|]; first [by apply cm_same_refl
         |eapply cm_same_trans; [exact Had|by apply cm_same_refl]]).
  apply (node_cm_same _ _ rf2); [|by apply cm_same_refl].
  destruct (merge_reached w A src dst args rf prev) as [Hr1 Hr2]; [done..|by eapply li_pkt|done|done|apply Hn|done|done|done|].
  pose proof (node_cm_same _ _ _ _ Hn Had) as (_ & Hm & Hgo).
  pose proof (no_wf _ _ _ (cw_node _ _ Hcw _ _ Hi)) as Hw.
  destruct (adopt_frame args.(ae_Term) rf) as (_ & _ & _ & Ec & Ela & _).
  assert (rf1.(currentTerm) = args.(ae_Term)) as Et by (rewrite Erf1; cbn; rewrite adopt_term; lia).
  assert (rf1.(commitIndex) = rf.(commitIndex) /\ rf1.(lastApplied) = rf.(lastApplied)) as [Ec1 Ela1]
    by (rewrite Erf1; done).
  assert (match_ok A rf1) as Hm1 by (rewrite Erf1; exact Hm).
  assert (forall g, g ∈ rf1.(goroutines) -> go_settled w.(leaders) A g) as Hgo1 by (rewrite Erf1; exact Hgo).
  set (l' := merge_entries _ _ _) in *. assert (rf1.(logs) = l') as El1 by (by rewrite Erf1). clear Erf1.
  unfold follower_commit in Hf. rewrite Ec1, El1 in Hf. pose proof (wf_commit _ Hw). case_if.
  - destruct Hr2 as [Hlt Hr2]; [lia|]. rewrite Z.min_l in Hf by lia.
    eapply setCommitIndex_cm; [|done|done| |done]; [rewrite Ela1; apply Hw|by rewrite Et, El1].
  - inv_res. split; [by rewrite Et, Ec1, El1|]. done.
Qed.

(** ** The leader counts *)

(** The positions of the elements that [filter] keeps. *)
Lemma filter_indexes {X} (P : X -> Prop) `{!forall x, Decision (P x)} (l : list X) :
  exists Q : list nat, NoDup Q /\ length Q = length (filter P l) /\
    forall v, v ∈ Q -> exists x, l !! v = Some x /\ P x.
Proof.
  induction l as [|x l (Q & HQ1 & HQ2 & HQ3)]; [exists []; split; [constructor|split; [done|by intros v ?%not_elem_of_nil]]|].
  assert (forall v, v ∈ S <$> Q -> exists y, (x :: l) !! v = Some y /\ P y) as HQ.
  { intros v (u & -> & Hu)%list_elem_of_fmap. by apply HQ3. }
  assert (NoDup (S <$> Q)) as HND by (by apply NoDup_fmap_2; [apply _|]).
  rewrite filter_cons. case_decide as Hx; [|exists (S <$> Q); by rewrite length_fmap].
  exists (0%nat :: (S <$> Q)). split; [|split].
  - constructor; [|done]. intros (u & ? & _)%list_elem_of_fmap. lia.
  - cbn. by rewrite length_fmap, HQ2.
  - intros v [->|Hv]%elem_of_cons; [by exists x|by apply HQ].
Qed.

Lemma match_majority rf A c :
  match_ok A rf -> rf.(state) = Leader -> raft_wf rf -> rf.(peers) = n -> majority rf c -> 0 < c ->
  exists Q : list nat, NoDup Q /\ (n / 2 < length Q)%nat /\
    forall v, v ∈ Q -> (v < n)%nat /\ exists k1, (Z.to_nat c <= k1)%nat /\ A v rf.(currentTerm) k1.
Proof.
  intros Hm Hs Hw Hp Hmaj Hc. unfold majority, matchCount, len in Hmaj. rewrite Hp in Hmaj.
  destruct (filter_indexes (fun m => c <= m) rf.(matchIndex)) as (Q & HQ1 & HQ2 & HQ3).
  exists Q. split; [done|]. split; [lia|]. intros v (m & Hv & Hcm)%HQ3. split.
  - rewrite <- Hp, <- (wf_match _ Hw). by eapply lookup_lt_Some.
  - destruct (Hm Hs v m Hv) as [?|(k & ? & ?)]; [lia|]. exists k. split; [lia|done].
Qed.

Lemma commitScan_cases fuel rf i rf' :
  commitScan fuel rf i = Ret rf' ->
  rf' = rf \/ exists c, rf.(commitIndex) < c /\ majority rf c /\ setCommitIndex rf c = Ret rf'.
Proof.
  revert i. induction fuel as [|fuel IH]; cbn; intros i E; [inv_res; by left|].
  case_if; [|inv_res; by left]. case_if; [|by eapply IH]. right. by exists i.
Qed.

(** A leader that moves its commit index to an entry of its term commits it. *)
Lemma leader_commits w A i rf rf1 c e :
  cluster_wf n w -> leader_inv n w -> w.(nodes) !! i = Some rf -> rf.(state) = Leader ->
  rf1.(currentTerm) = rf.(currentTerm) -> rf1.(state) = Leader -> raft_wf rf1 -> rf1.(peers) = n ->
  match_ok A rf1 -> majority rf1 c -> 0 < c -> rf.(logs) !! Z.to_nat c = Some e -> e.(le_Term) = rf.(currentTerm) ->
  reached w.(leaders) A rf.(currentTerm) c rf.(logs).
Proof.
  intros Hcw Hl Hi Hs Et Hs1 Hw1 Hp1 Hm1 Hmaj Hc He Ete. right.
  pose proof (li_leader _ _ Hl _ _ Hi Hs) as HL. exists rf.(currentTerm), (Z.to_nat c). split; [done|].
  split; [split; [split; [lia|by exists i, rf.(logs), e]|]|].
  - rewrite <- Et. by apply match_majority.
  - split; [done|]. exists i, rf.(logs). split; [done|]. split; [by eapply lookup_lt_Some|done].
Qed.

Lemma success_cm w A k src inc dst args reply rf rf' :
  cluster_wf n w -> leader_inv n w -> ack_inv n w A -> commit_inv w A -> prudent (LDeliver k) w ->
  w.(net) !! k = Some (AppRep src inc dst args reply) -> w.(nodes) !! src = Some rf ->
  w.(incs) !! src = Some inc -> reply.(aer_Success) = true ->
  broadcastHeartbeat_reply rf dst args reply = Ret rf' -> node_cm w.(leaders) A rf'.
Proof.
  intros Hcw Hl Ha Hcm Hpr Hk Hi Hinc Hok E.
  pose proof (proj1 Hpr _ _ _ _ _ _ _ Hk Hi Hinc Hok E) as Hterm.
  pose proof (proj2 Hpr _ _ _ _ _ _ _ Hk Hi Hinc Hok E) as Hmove. apply list_elem_of_lookup_2 in Hk.
  pose proof (cm_node _ _ Hcm _ _ Hi) as (Hr & Hm & Hgo). pose proof (cw_node _ _ Hcw _ _ Hi) as Hnok.
  pose proof (no_wf _ _ _ Hnok) as Hw.
  unfold broadcastHeartbeat_reply in E. rewrite Hok in E. do 2 bind_inv E.
  apply upd_Ret in E0 as [Hrange ->]. apply upd_Ret in E1 as [_ ->]. rewrite Nat2Z.id in *.
  match type of E with commitScan _ ?r _ = _ => set (rf1 := r) in E end.
  assert (match_ok A rf1) as Hm1.
  { intros Hs v m. cbn. intros [(<- & <- & _)|[_ Hv]]%list_lookup_insert_Some; [|by apply Hm]. right.
    exists (acked args). rewrite Hterm by done. split; [unfold acked, len; lia|by eapply av_rep]. }
  assert (raft_wf rf1) as Hw1 by (destruct Hw; split; cbn; rewrite ?length_insert; done).
  apply commitScan_cases in E as [->|(c & Hlt & Hmaj & Hset)]; [done|].
  apply (setCommitIndex_cm _ _ rf1 c); [apply Hw|done|done| |done].
  apply setCommitIndex_frame in Hset as (gs & -> & _). unfold own_commit in Hmove. cbn in Hmove, Hlt.
  destruct Hmove as [->|(Hs & e & He & Ete)]; [lia|]. pose proof (wf_commit _ Hw).
  apply (leader_commits w A src rf rf1 c e); try done; [apply Hnok|lia].
Qed.

(** A refusal commits nothing. *)
Lemma refusal_cm rf server args reply rf' :
  reply.(aer_Success) = false -> broadcastHeartbeat_reply rf server args reply = Ret rf' -> cm_same rf rf'.
Proof.
  intros Hok E. unfold broadcastHeartbeat_reply in E. rewrite Hok in E. case_if.
  - rewrite convertTo_Follower in E. cbn in E. inv_res.
    replace (toFollower _) with (adopt reply.(aer_Term) rf).
    + eapply cm_same_trans; [apply cm_same_adopt|by apply cm_same_refl].
    + unfold adopt. by destruct (Z.ltb_spec rf.(currentTerm) reply.(aer_Term)); [|lia].
  - bind_inv E. case_if; [|inv_res; by apply cm_same_refl].
    revert E. generalize (Z.to_nat args.(ae_PrevLogIndex)) as fuel.
    generalize args.(ae_PrevLogIndex) as i. intros i fuel. revert i.
    induction fuel as [|fuel IH]; cbn; intros i E; [inv_res; by apply cm_same_refl|].
    bind_inv E. case_if; [|by eapply IH]. bind_inv E. inv_res. by apply cm_same_refl.
Qed.
End commit.
