(* ===== verification/RaftMachine.v ===== *)
(** * RaftMachine: State Machine Safety

    Every timely and prudent step keeps the invariant of RaftCommit.v.  Hence all
    servers that deliver a command for an index deliver the same command, at any
    time of a run and in any incarnation; and a run in which a reply from an
    earlier leadership is counted shows that the prudence is needed. *)

From S2P Require Import Prelude Gob Raft RaftFacts RaftHandlers RaftSpec RaftReplicate Cluster ClusterStep.
From S2P Require Import Election ElectionSafety Leaders RaftTraces RaftSafety.
From S2P Require Import RaftAck RaftAckStep RaftCommit.
Local Open Scope Z_scope.

Section machine.
Context {Cmd : Type} `{!Gob (PVal Cmd)} `{!Rand} (n : nat).
Implicit Types (rf : Raft Cmd) (w : Cluster Cmd) (l L : list (LogEntry Cmd)).
Implicit Types (A : nat -> Z -> nat -> Prop) (ls : gmap Z (nat * list (LogEntry Cmd))).

(** ** Steps of the cluster *)

(** What a step adds, against the leaders and acknowledgements after it. *)
Record cm_step w ls A w' : Prop := {
  st_node : forall i rf', w'.(nodes) !! i = Some rf' -> w.(nodes) !! i = Some rf' \/ node_cm n ls A rf';
  st_msg : forall i ms m, w'.(applied) !! i = Some ms -> m ∈ ms ->
    (exists ms0, w.(applied) !! i = Some ms0 /\ m ∈ ms0) \/ msg_cm n ls A m;
  st_pkt : forall p, p ∈ w'.(net) -> p ∈ w.(net) \/ pkt_cm n ls A p;
}.

Lemma commit_inv_step w w' A A' :
  commit_inv n w A -> leads_grow w.(leaders) w'.(leaders) -> acks_grow A A' ->
  cm_step w w'.(leaders) A' w' -> commit_inv n w' A'.
Proof.
  intros [Hn Hm Hp] Hg HA [Sn Sm Sp]. split.
  - intros i rf [Hi|?]%Sn; [|done]. eapply node_cm_mono; [done..|by eapply Hn].
  - intros i ms m Hi Hin. destruct (Sm i ms m Hi Hin) as [(ms0 & ? & ?)|?]; [|done].
    eapply msg_cm_mono; [done..|by eapply Hm].
  - intros p [Hin|?]%Sp; [|done]. eapply pkt_cm_mono; [done..|by eapply Hp].
Qed.

(** The common case: one peer changes, packets may be added. *)
Lemma cm_step_put w w' ls A i rf rf' :
  w.(nodes) !! i = Some rf -> w'.(nodes) = <[i := rf']> w.(nodes) -> w'.(applied) = w.(applied) ->
  (forall p, p ∈ w'.(net) -> p ∈ w.(net) \/ pkt_cm n ls A p) -> node_cm n ls A rf' -> cm_step w ls A w'.
Proof.
  intros Hi Hn Hap Hp Hcm. split; [| |done].
  - intros j r. rewrite Hn. intros [(_ & <- & _)|[_ ?]]%list_lookup_insert_Some; auto.
  - intros j ms m. rewrite Hap. eauto.
Qed.

(** What a leader sends: its commit index is in the entries. *)
Lemma segment_cm ls A i inc dst rf args :
  node_cm n ls A rf -> segment rf args -> pkt_cm n ls A (AppReq i inc dst args).
Proof.
  intros ([?|(t & k & Ht & Hc & Hk & Hh)] & _) (_ & next & prev & Hnx & _ & ->); cbn; [by left|right].
  exists t, k. split; [done|]. split; [done|]. split; [done|]. apply holds_len in Hh.
  unfold acked. cbn. rewrite length_drop. lia.
Qed.

(** ** Goroutines *)

Section goroutine.
Context w (A : nat -> Z -> nat -> Prop) (Hcm : commit_inv n w A) (i k : nat) (g : Goroutine Cmd) (rf : Raft Cmd)
        (Hi : w.(nodes) !! i = Some rf) (Hk : rf.(goroutines) !! k = Some g).

Lemma del_cm : node_cm n w.(leaders) A (del_go k rf).
Proof. eapply node_cm_same; [by eapply cm_node|apply cm_same_del]. Qed.

Lemma go_cm : go_settled n w.(leaders) A g.
Proof. apply (cm_node _ _ _ Hcm _ _ Hi). by eapply list_elem_of_lookup_2. Qed.

(** A goroutine is replaced by another. *)
Lemma replace_cm g' rf' :
  go_settled n w.(leaders) A g' -> rf'.(goroutines) = delete k rf.(goroutines) ++ [g'] ->
  rf'.(commitIndex) = rf.(commitIndex) -> rf'.(logs) = rf.(logs) -> rf'.(currentTerm) = rf.(currentTerm) ->
  rf'.(state) = rf.(state) -> rf'.(matchIndex) = rf.(matchIndex) -> node_cm n w.(leaders) A rf'.
Proof.
  intros Hg' Eg Ec El Et Es Em. destruct (cm_node _ _ _ Hcm _ _ Hi) as (Hr & Hm & Hgo).
  unfold node_cm, match_ok. rewrite Ec, El, Et, Es, Em, Eg. split; [done|]. split; [done|].
  intros g0 [Hin%elem_of_delete| ->%list_elem_of_singleton]%elem_of_app; [by apply Hgo|done].
Qed.
End goroutine.

Lemma Start_append_cm ls A rf c t rf' index :
  node_cm n ls A rf -> raft_wf rf -> rf.(currentTerm) = t ->
  A (Z.to_nat rf.(me)) t (length rf.(logs)) ->
  Start_append rf c t = Ret (rf', index) -> node_cm n ls A rf'.
Proof.
  intros (Hr & Hm & Hgo) Hw <- HA E. unfold Start_append in E. do 2 bind_inv E. inv_res.
  apply upd_Ret in E0 as [_ ->]. split; [|split; [|exact Hgo]].
  - eapply reached_prefix; [exact Hr|done|by apply prefix_app_r].
  - intros Hs v m. cbn. intros [(<- & <- & _)|[_ Hv]]%list_lookup_insert_Some; [|by apply Hm]. right.
    exists (length rf.(logs)). split; [unfold len; lia|done].
Qed.

Lemma go_step_cm w w' A A' i k g rf inc :
  cluster_wf n w -> commit_inv n w A -> acks_grow A A' -> leads_grow w.(leaders) w'.(leaders) ->
  timely (LGo i k) w -> (forall j t index, starts (LGo i k) w j t index -> A' j t index) ->
  w.(nodes) !! i = Some rf -> rf.(goroutines) !! k = Some g ->
  run_goroutine i k g rf inc w = Ret w' -> cm_step w w'.(leaders) A' w'.
Proof.
  intros Hcw Hcm HA Hg Htm Hst Hi Hk E.
  pose proof (go_cm w A Hcm i k g rf Hi Hk) as Hgs.
  assert (forall rf', node_cm n w.(leaders) A rf' -> node_cm n w'.(leaders) A' rf') as Hup
    by (intros r Hr; exact (node_cm_mono n _ _ _ _ Hg HA r Hr)).
  pose proof (Hup _ (del_cm w A Hcm i k rf Hi)) as Hdel.
  destruct g as [s a|s|s [|e es]|s es|c t]; cbn in E.
  - inv_res. eapply cm_step_put; [done|reflexivity|done| |done].
    cbn. intros p [?| ->%list_elem_of_singleton]%elem_of_app; [by left|by right].
  - bind_inv E. destruct x as [args|]; inv_res.
    + eapply cm_step_put; [done|reflexivity|done| |done].
      cbn. intros p [?| ->%list_elem_of_singleton]%elem_of_app; [by left|right].
      apply broadcastHeartbeat_send_inv in E0. by eapply segment_cm.
    + eapply cm_step_put; [done|reflexivity|done|by left|done].
  - inv_res. eapply cm_step_put; [done|reflexivity|done|by left|done].
  - inv_res. split; [|intros j ms m Hj Hin|intros p Hp; by left].
    + cbn. intros j r [(_ & <- & _)|[_ ?]]%list_lookup_insert_Some; [right|by left]. apply Hup.
      eapply (replace_cm w A Hcm i k rf Hi (GoApplied s (e :: es))); done.
    + cbn in Hj. apply list_lookup_insert_Some in Hj as [(<- & <- & _)|[_ ?]]; [|eauto].
      apply elem_of_app in Hin as [Hin| ->%list_elem_of_singleton].
      * destruct (w.(applied) !! i) as [ms0|] eqn:E; [eauto|]. by apply not_elem_of_nil in Hin.
      * right. exists e. split; [done|]. cbn. apply (settled_mono n _ _ _ _ Hg HA).
        specialize (Hgs 0%nat e eq_refl). by rewrite Z.add_0_r in Hgs.
  - inv_res. eapply cm_step_put; [done|reflexivity|done|by left|]. apply Hup.
    eapply (replace_cm w A Hcm i k rf Hi (GoApply (s + 1) (tail es))); try done.
    intros j e Hj. rewrite lookup_tail in Hj. specialize (Hgs (S j) e Hj).
    by replace (s + 1 + Z.of_nat j) with (s + Z.of_nat (S j)) by lia.
  - bind_inv E. destruct x as [rf' index]. inv_res. destruct (Htm _ _ _ Hi Hk) as [_ Et].
    pose proof (cw_node _ _ Hcw _ _ Hi) as Hok.
    eapply cm_step_put; [done|reflexivity|done|by left|].
    eapply (Start_append_cm _ _ (del_go k rf)); [done| |done| |done].
    + destruct (no_wf _ _ _ Hok). by split.
    + cbn. apply Hst. exists k, rf, c. rewrite (no_me _ _ _ Hok), Nat2Z.id. done.
Qed.

(** ** Messages *)

Lemma deliver_cm w w' A A' k p :
  cluster_wf n w -> leader_inv n w -> ack_inv n w A -> commit_inv n w A -> acks_grow A A' ->
  leads_grow w.(leaders) w'.(leaders) -> prudent (LDeliver k) w -> w.(net) !! k = Some p ->
  deliver k p w = Some (Ret w') -> cm_step w w'.(leaders) A' w'.
Proof.
  intros Hcw Hl Ha Hcm HA Hg Hpr Hk E.
  pose proof (cw_pkt _ _ Hcw _ (list_elem_of_lookup_2 _ _ _ Hk)) as Hp.
  assert (forall i rf rf', w.(nodes) !! i = Some rf -> w'.(nodes) = <[i := rf']> w.(nodes) ->
    w'.(applied) = w.(applied) -> (forall q, q ∈ w'.(net) -> q ∈ w.(net) \/ pkt_cm n w'.(leaders) A' q) ->
    node_cm n w.(leaders) A rf' -> cm_step w w'.(leaders) A' w') as Hput.
  { intros i rf rf' ? ? ? ? Hr. eapply cm_step_put; [done..|]. exact (node_cm_mono n _ _ _ _ Hg HA rf' Hr). }
  assert (w' = put_net (delete k w.(net)) w -> cm_step w w'.(leaders) A' w') as Hdrop.
  { intros ->. split; [by left|eauto|]. cbn. intros q Hq. left. by eapply elem_of_delete. }
  assert (forall q q0 : Packet Cmd, q ∈ delete k w.(net) ++ [q0] -> pkt_cm n w'.(leaders) A' q0 ->
    q ∈ w.(net) \/ pkt_cm n w'.(leaders) A' q) as Hsent
    by (intros q q0 [?| ->]%elem_of_delete_app ?; auto).
  assert (forall q, q ∈ delete k w.(net) -> q ∈ w.(net) \/ pkt_cm n w'.(leaders) A' q) as Hdel
    by (intros q ?%elem_of_delete; auto).
  destruct p as [src inc dst args|src inc dst args reply|src inc dst args|src inc dst args reply]; cbn in E.
  - destruct (w.(nodes) !! dst) as [rf|] eqn:Hi; [|done]. cbn in E. injection E as E.
    bind_inv E. destruct x as [rf' reply]. injection E as E.
    apply RequestVote_inv in E0; [|apply (cw_node _ _ Hcw _ _ Hi)].
    apply (Hput dst rf rf'); [done|subst w'; by case_if|subst w'; by case_if| |].
    + assert (w'.(net) = delete k w.(net) ++ [VoteRep src inc dst args reply]) as -> by (subst w'; by case_if).
      intros q Hq. by eapply Hsent.
    + eapply node_cm_same; [by eapply cm_node|by eapply rv_cm].
  - destruct (w.(nodes) !! src) as [rf|] eqn:Hi; [|done]. cbn in E.
    case_decide; injection E as E; [|apply Hdrop; by inv_res].
    bind_inv E. injection E as E. apply startElection_reply_inv in E0.
    apply (Hput src rf x); [done|subst w'; by repeat case_if|subst w'; by repeat case_if| |].
    + assert (w'.(net) = delete k w.(net)) as -> by (subst w'; by repeat case_if). done.
    + eapply vote_reply_cm; [by eapply cm_node|done].
  - destruct (w.(nodes) !! dst) as [rf|] eqn:Hi; [|done]. cbn in E. injection E as E.
    bind_inv E. destruct x as [rf' reply]. injection E as E.
    apply AppendEntries_inv in E0; [|apply (cw_node _ _ Hcw _ _ Hi)|apply Hp].
    apply (Hput dst rf rf'); [done|by subst w'|by subst w'| |by eapply append_cm].
    subst w'. intros q Hq. apply (Hsent q (AppRep src inc dst args reply)); [exact Hq|done].
  - destruct (w.(nodes) !! src) as [rf|] eqn:Hi; [|done]. cbn in E.
    case_decide as Hinc; injection E as E; [|apply Hdrop; by inv_res].
    bind_inv E. injection E as E. apply (Hput src rf x); [done|by subst w'|by subst w'|by subst w'|].
    destruct (reply.(aer_Success)) eqn:Hok; [by eapply success_cm|].
    eapply node_cm_same; [by eapply cm_node|by eapply refusal_cm].
Qed.

(** ** Every timely and prudent step *)

Lemma step_cm lbl w w' A A' :
  cluster_wf n w -> leader_inv n w -> ack_inv n w A -> commit_inv n w A -> acks_grow A A' ->
  leads_grow w.(leaders) w'.(leaders) -> (forall i t index, starts lbl w i t index -> A' i t index) ->
  timely lbl w -> prudent lbl w -> step lbl w = Some (Ret w') -> cm_step w w'.(leaders) A' w'.
Proof.
  intros Hcw Hl Ha Hcm HA Hg Hst Htm Hpr E.
  assert (forall i rf rf', w.(nodes) !! i = Some rf -> w'.(nodes) = <[i := rf']> w.(nodes) ->
    w'.(applied) = w.(applied) -> w'.(net) = w.(net) -> cm_same rf rf' -> cm_step w w'.(leaders) A' w') as Hput.
  { intros i rf rf' Hi Hn Hap Hnet Hs. eapply cm_step_put; [done..|rewrite Hnet; by left|].
    apply (node_cm_mono n _ _ _ _ Hg HA). eapply node_cm_same; [by eapply cm_node|done]. }
  assert (w' = w -> cm_step w w'.(leaders) A' w') as Hsame by (intros ->; split; [by left|eauto|by left]).
  destruct lbl as [i|i|i|i|i|i k|k|k|i c|i]; cbn in E.
  7: destruct (w.(net) !! k) as [p|] eqn:Hp; [|done]; by eapply deliver_cm.
  7: { destruct (w.(net) !! k) as [p|]; [|done]. cbn in E. simplify_eq.
       split; [by left|eauto|]. cbn. intros q Hq. left. by eapply elem_of_delete. }
  all: destruct (w.(nodes) !! i) as [rf|] eqn:Hi; [|done]; cbn in E.
  1,2: destruct (expire _) as [t|]; [|done]; cbn in E; injection E as <-;
    eapply Hput; [done|reflexivity|done|done|by apply cm_same_refl].
  1,2: destruct (loop rf); try done; destruct (recv _) as [t|]; [|done]; cbn in E; injection E as <-;
    eapply Hput; [done|reflexivity|done|done|by apply cm_same_refl].
  - destruct (loop rf) eqn:Hlp; [done| |].
    + injection E as E. bind_inv E. injection E as <-.
      apply (onElectionTimer_inv n i) in E0 as (e & He & ->); [|by eapply cw_node].
      eapply Hput; [done|reflexivity|done|done|]. specialize (Htm _ Hi Hlp).
      split; cbn; [done|done|lia|by case_decide|].
      intros g [?|(q & -> & _)%list_elem_of_fmap]%elem_of_app; [by left|by right].
    + injection E as <-. eapply Hput; [done|reflexivity|done|done|].
      unfold onHeartbeatTimer. case_decide; [|by apply cm_same_refl].
      rewrite broadcastHeartbeat_eq. eapply cm_same_spawn; try done. by intros g (q & -> & _)%list_elem_of_fmap.
  - destruct (w.(incs) !! i) as [inc|]; [|done]. cbn in E.
    destruct (goroutines rf !! k) as [g|] eqn:Hgo; [|done]. injection E as E. by eapply go_step_cm.
  - case_bool_decide; injection E as <-; [|by apply Hsame].
    eapply Hput; [done|reflexivity|done|done|].
    eapply cm_same_spawn; [done..|]. by intros g ->%list_elem_of_singleton.
  - injection E as <-. split; [|intros j ms m Hj Hin|by left].
    + cbn. intros j r [(_ & <- & _)|[_ ?]]%list_lookup_insert_Some; [right|by left].
      destruct (Make_fields (Cmd:=Cmd) (peers rf) (Z.of_nat i) (Copy (crash1 rf.(persister))))
        as (_ & _ & _ & Es & Eg & _ & Ec & _). unfold start1. split; [left; by rewrite Ec|]. split.
      * intros Hs. congruence.
      * rewrite Eg. by intros g ?%not_elem_of_nil.
    + cbn in Hj. apply list_lookup_insert_Some in Hj as [(_ & <- & _)|[_ ?]]; [by apply not_elem_of_nil in Hin|eauto].
Qed.

Definition prudent_step w w' : Prop :=
  exists lbl, timely lbl w /\ prudent lbl w /\ step lbl w = Some (Ret w').

Lemma commit_steps w w' A :
  rtc prudent_step w w' -> timely_reachable n w -> ack_inv n w A -> commit_inv n w A ->
  timely_reachable n w' /\ exists A', acks_grow A A' /\ leads_grow w.(leaders) w'.(leaders) /\
    ack_inv n w' A' /\ commit_inv n w' A'.
Proof.
  intros Hs. revert A. induction Hs as [w|w w1 w' (lbl & Htm & Hpr & Hs) _ IH]; intros A Hr Ha Hc.
  { split; [done|]. exists A. split; [by intros ???|]. split; [apply leads_grow_refl|done]. }
  destruct (ack_step n lbl w w1 A) as (A1 & HA1 & Hg1 & Ha1 & Hst); [done..|].
  destruct (IH A1) as (Hr' & A2 & HA2 & Hg2 & Ha2 & Hc2); [by eapply treach_step|done| |].
  - eapply commit_inv_step; [done..|]. pose proof (timely_leader_inv _ _ Hr).
    apply timely_is_reachable, reachable_wf in Hr. by eapply step_cm.
  - split; [done|]. exists A2. split; [intros v t k ?; by apply HA2, HA1|].
    split; [by eapply leads_grow_trans|done].
Qed.

Lemma init_commit_inv A : commit_inv n (init (Cmd:=Cmd) n) A.
Proof.
  split.
  - intros i rf [_ ->]%init_node. split; [by left|]. split; [done|]. by intros g ?%not_elem_of_nil.
  - intros i ms m [-> _]%lookup_replicate Hin. by apply not_elem_of_nil in Hin.
  - intros p Hp. by apply not_elem_of_nil in Hp.
Qed.

(** C3. State Machine Safety: in a timely and prudent run, with any losses, delays,
    crashes and elections, two servers that deliver a command for the same index on
    their applyCh, at the same or at different times of the run and in the same or
    in different incarnations, deliver the same command. *)
Theorem state_machine_safety w w' i j ms ms' m m' :
  rtc prudent_step (init n) w -> rtc prudent_step w w' ->
  w.(applied) !! i = Some ms -> m ∈ ms -> w'.(applied) !! j = Some ms' -> m' ∈ ms' ->
  m.(CommandIndex) = m'.(CommandIndex) -> m.(am_Command) = m'.(am_Command).
Proof.
  intros H1 H2 Hi Hm Hj Hm' Eidx.
  destruct (commit_steps _ _ _ H1 (treach_init n) (init_ack_inv n) (init_commit_inv _))
    as (Hr & A & _ & _ & Ha & Hc).
  destruct (commit_steps _ _ _ H2 Hr Ha Hc) as (_ & A' & HA & Hg & Ha' & Hc').
  destruct (msg_cm_mono n _ _ _ _ Hg HA m (cm_msg _ _ _ Hc _ _ _ Hi Hm)) as (e & -> & He).
  destruct (cm_msg _ _ _ Hc' _ _ _ Hj Hm') as (e' & -> & He'). rewrite Eidx in He.
  by rewrite (settled_agree n w' A' _ e e' Ha' He He').
Qed.
End machine.

(** ** Prudent runs, decided *)

Section prudentb.
Context {Cmd : Type} `{!Gob (PVal Cmd)} `{!Rand}.
Implicit Types (w : Cluster Cmd).

Definition on_successb (P : Raft Cmd -> AppendEntriesArgs Cmd -> Raft Cmd -> bool) (lbl : Label Cmd) w : bool :=
  match lbl with
  | LDeliver k =>
      match w.(net) !! k with
      | Some (AppRep src inc dst args reply) =>
          match w.(nodes) !! src with
          | Some rf =>
              if bool_decide (w.(incs) !! src = Some inc) && reply.(aer_Success) then
                match broadcastHeartbeat_reply rf dst args reply with Ret rf' => P rf args rf' | Panic => true end
              else true
          | None => true
          end
      | _ => true
      end
  | _ => true
  end.

Definition in_termb (rf : Raft Cmd) (args : AppendEntriesArgs Cmd) (rf' : Raft Cmd) : bool :=
  bool_decide (rf.(state) = Leader -> rf.(currentTerm) = args.(ae_Term)).

Definition own_commitb (rf : Raft Cmd) (args : AppendEntriesArgs Cmd) (rf' : Raft Cmd) : bool :=
  (rf'.(commitIndex) =? rf.(commitIndex)) ||
  bool_decide (rf.(state) = Leader) &&
  match rf.(logs) !! Z.to_nat rf'.(commitIndex) with Some e => e.(le_Term) =? rf.(currentTerm) | None => false end.

Lemma on_successb_ok (P : Raft Cmd -> AppendEntriesArgs Cmd -> Raft Cmd -> bool) Q lbl w :
  (forall rf args rf', P rf args rf' = true -> Q rf args rf') ->
  on_successb P lbl w = true -> on_success Q lbl w.
Proof.
  intros HPQ. destruct lbl; try done. intros E src inc dst args reply rf rf' Hk Hs Hinc Hok Hb. cbn in E.
  rewrite Hk, Hs, bool_decide_true, Hok, Hb in E by done. by apply HPQ.
Qed.

Lemma in_termb_ok rf args rf' : in_termb rf args rf' = true -> in_term rf args rf'.
Proof. apply bool_decide_eq_true. Qed.

Lemma own_commitb_ok rf args rf' : own_commitb rf args rf' = true -> own_commit rf args rf'.
Proof.
  intros [E|[E1 E2]%andb_true_iff]%orb_true_iff; [left; lia|right].
  apply bool_decide_eq_true in E1. split; [done|].
  destruct (rf.(logs) !! Z.to_nat rf'.(commitIndex)) as [e|]; [|done]. exists e. split; [done|lia].
Qed.

Definition prudentb (lbl : Label Cmd) w : bool := on_successb in_termb lbl w && on_successb own_commitb lbl w.

Lemma prudentb_prudent lbl w : prudentb lbl w = true -> prudent lbl w.
Proof.
  intros [E1 E2]%andb_true_iff. split.
  - exact (on_successb_ok _ _ _ _ in_termb_ok E1).
  - exact (on_successb_ok _ _ _ _ own_commitb_ok E2).
Qed.

(** A run whose steps pass a test. *)
Fixpoint run_if (ok : Label Cmd -> Cluster Cmd -> bool) (lbls : list (Label Cmd)) w : option (Cluster Cmd) :=
  match lbls with
  | [] => Some w
  | lbl :: lbls =>
      if ok lbl w
      then match step lbl w with Some (Ret w') => run_if ok lbls w' | _ => None end
      else None
  end.

Lemma run_if_steps ok (R : relation (Cluster Cmd)) lbls w w' :
  (forall lbl w1 w2, ok lbl w1 = true -> step lbl w1 = Some (Ret w2) -> R w1 w2) ->
  run_if ok lbls w = Some w' -> rtc R w w'.
Proof.
  intros HR. revert w. induction lbls as [|lbl lbls IH]; cbn; intros w E; [by simplify_eq|].
  destruct (ok lbl w) eqn:Ht; [|done]. destruct (step lbl w) as [[w1|]|] eqn:Hs; [|done..].
  eapply rtc_l; [by eapply HR|by apply IH].
Qed.

Definition run_prudent : list (Label Cmd) -> Cluster Cmd -> option (Cluster Cmd) :=
  run_if (fun lbl w => timelyb lbl w && prudentb lbl w).

Lemma run_prudent_steps lbls w w' : run_prudent lbls w = Some w' -> rtc prudent_step w w'.
Proof.
  apply run_if_steps. intros lbl w1 w2 [H1 H2]%andb_true_iff Hs.
  exists lbl. split; [by apply timelyb_timely|]. split; [by apply prudentb_prudent|done].
Qed.

(** Without the test of the reply's term. *)
Definition own_step w w' : Prop :=
  exists lbl, timely lbl w /\ on_success own_commit lbl w /\ step lbl w = Some (Ret w').

Definition run_own : list (Label Cmd) -> Cluster Cmd -> option (Cluster Cmd) :=
  run_if (fun lbl w => timelyb lbl w && on_successb own_commitb lbl w).

Lemma run_own_steps lbls w w' : run_own lbls w = Some w' -> rtc own_step w w'.
Proof.
  apply run_if_steps. intros lbl w1 w2 [H1 H2]%andb_true_iff Hs. exists lbl. split; [by apply timelyb_timely|].
  split; [|done]. exact (on_successb_ok _ _ _ _ own_commitb_ok H2).
Qed.
End prudentb.

Lemma state_machine_safety_witness : (applied_msg 1 7).(am_Command) = (applied_msg 1 7).(am_Command).
Proof.
  apply (state_machine_safety 3 (after commit0) (after (commit0 ++ takeover)) 0 2 [applied_msg 1 7] [applied_msg 1 7]).
  - apply (run_prudent_steps commit0). vm_compute. reflexivity.
  - apply (run_prudent_steps takeover). vm_compute. reflexivity.
  - vm_compute. reflexivity.
  - left.
  - vm_compute. reflexivity.
  - left.
  - reflexivity.
Defined.

(** ** A reply of an earlier leadership

    Committing only entries of the leader's own term is not enough, because the
    handler of a Success does not compare the term of its request: server 1 accepts
    two entries of server 0 in term 1 and its answer is delayed; server 2 replaces
    the log of server 0 in term 2; server 0 is elected again in term 3 and counts
    the answer of term 1 for an entry that server 1 does not have. *)
Theorem stale_reply_is_unsafe :
  exists w : Cluster nat, rtc own_step (init 5) w /\
    w.(applied) !! 0%nat = Some [applied_msg 1 8] /\ w.(applied) !! 1%nat = Some [applied_msg 1 7].
Proof.
  destruct (run_own stale_reply (init 5)) as [w|] eqn:E; [|vm_compute in E; discriminate E].
  exists w. split; [exact (run_own_steps _ _ _ E)|].
  assert (applied <$> run_own stale_reply (init 5)
    = Some [[applied_msg 1 8]; [applied_msg 1 7]; []; []; []]) as Ha by (vm_compute; reflexivity).
  rewrite E in Ha. cbn in Ha. injection Ha as Hap. rewrite Hap. split; reflexivity.
Qed.
