(* ===== verification/RaftLog.v ===== *)
(** * RaftLog: a Raft cluster implements an agreed log

    What a service sees of Raft is one log: [Start] proposes commands, proposed
    commands enter the log, and every server gets the messages of the log from
    index 1 on, one after the other, possibly repeated, and again from the beginning
    after a restart.  [astep] is this machine; every timely and prudent run of the
    cluster has the trace of a run of it.  KvSystem.v builds the key/value service on
    the same machine. *)

From S2P Require Import Prelude Gob Raft RaftFacts RaftHandlers RaftSpec RaftReplicate Cluster ClusterStep.
From S2P Require Import Election ElectionSafety Leaders Apply RaftTraces RaftSafety.
From S2P Require Import RaftAck RaftAckStep RaftCommit RaftMachine.
From stdpp Require Import functions.
Local Open Scope Z_scope.

(** ** The agreed log *)

Section agreed.
Context {Cmd : Type}.

(** What happens at the interface: a command is appended by [Start], server [i]
    receives a message on its applyCh, server [i] restarts. *)
Inductive Obs :=
| OStart (command : option Cmd)
| ODeliver (i : nat) (m : ApplyMsg Cmd)
| ORestart (i : nat).

(** The log, the commands that may enter it, and the highest index that each server
    has received since it started. *)
Record ALog := mkALog { alog : list (option Cmd); proposed : list (option Cmd); received : nat -> nat }.

Inductive astep : ALog -> list Obs -> ALog -> Prop :=
| A_start a c :
    astep a [OStart c] (mkALog a.(alog) (a.(proposed) ++ [c]) a.(received))
| A_commit a c :
    c ∈ a.(proposed) -> astep a [] (mkALog (a.(alog) ++ [c]) a.(proposed) a.(received))
| A_deliver a i (k : nat) c :
    a.(alog) !! k = Some c -> (k <= a.(received) i)%nat ->
    astep a [ODeliver i {| CommandValid := true; am_Command := c; CommandIndex := Z.of_nat (S k) |}]
      (mkALog a.(alog) a.(proposed) (<[i := max (S k) (a.(received) i)]> a.(received)))
| A_restart a i :
    astep a [ORestart i] (mkALog a.(alog) a.(proposed) (<[i := 0%nat]> a.(received))).

Inductive atrace : ALog -> list Obs -> ALog -> Prop :=
| at_nil a : atrace a [] a
| at_step a o a1 tr a2 : astep a o a1 -> atrace a1 tr a2 -> atrace a (o ++ tr) a2.

Definition empty_log : ALog := mkALog [] [] (fun _ => 0%nat).

Lemma atrace_app a tr1 a1 tr2 a2 : atrace a tr1 a1 -> atrace a1 tr2 a2 -> atrace a (tr1 ++ tr2) a2.
Proof.
  induction 1 as [|a o b tr c Ho _ IH]; [done|]. intros H2. rewrite <- app_assoc. eapply at_step; eauto.
Qed.

Lemma atrace_one a o a1 : astep a o a1 -> atrace a o a1.
Proof. intros Ho. rewrite <- (app_nil_r o). eapply at_step; [done|constructor]. Qed.
End agreed.
Arguments Obs : clear implicits.
Arguments ALog : clear implicits.

Section refine.
Context {Cmd : Type} `{!Gob (PVal Cmd)} `{!Rand} (n : nat).
Implicit Types (rf : Raft Cmd) (w : Cluster Cmd) (l L : list (LogEntry Cmd)).
Implicit Types (A : nat -> Z -> nat -> Prop) (ls : gmap Z (nat * list (LogEntry Cmd))) (a : ALog Cmd).

(** ** What a step of the cluster shows *)

Definition obs (lbl : Label Cmd) w : list (Obs Cmd) :=
  match lbl with
  | LGo i k =>
      match w.(nodes) !! i with
      | Some rf =>
          match rf.(goroutines) !! k with
          | Some (GoApply s (e :: _)) => [ODeliver i (apply_msg s e)]
          | Some (GoStart c _) => [OStart c]
          | _ => []
          end
      | None => []
      end
  | LCrash i => [ORestart i]
  | _ => []
  end.

Inductive ptrace : Cluster Cmd -> list (Obs Cmd) -> Cluster Cmd -> Prop :=
| pt_nil w : ptrace w [] w
| pt_step lbl w w1 tr w2 :
    timely lbl w -> prudent lbl w -> step lbl w = Some (Ret w1) -> ptrace w1 tr w2 ->
    ptrace w (obs lbl w ++ tr) w2.

(** The channels after a step. *)
Definition applied_after (os : list (Obs Cmd)) w : list (list (ApplyMsg Cmd)) :=
  match os with
  | [ODeliver i m] => <[i := default [] (w.(applied) !! i) ++ [m]]> w.(applied)
  | [ORestart i] => <[i := []]> w.(applied)
  | _ => w.(applied)
  end.

Lemma deliver_applied k p w w' : deliver k p w = Some (Ret w') -> w'.(applied) = w.(applied).
Proof.
  destruct p as [src inc dst args|src inc dst args reply|src inc dst args|src inc dst args reply]; cbn; intros E.
  - destruct (w.(nodes) !! dst) as [rf|]; [|done]. cbn in E. injection E as E. bind_inv E.
    destruct x as [rf' reply]. inv_res. by destruct (rvr_VoteGranted reply).
  - destruct (w.(nodes) !! src) as [rf|]; [|done]. cbn in E. case_decide; injection E as E; [|by inv_res].
    bind_inv E. injection E as <-. by repeat case_match.
  - destruct (w.(nodes) !! dst) as [rf|]; [|done]. cbn in E. injection E as E. bind_inv E.
    destruct x as [rf' reply]. by inv_res.
  - destruct (w.(nodes) !! src) as [rf|]; [|done]. cbn in E. case_decide; injection E as E; [|by inv_res].
    bind_inv E. by inv_res.
Qed.

Lemma step_applied lbl w w' : step lbl w = Some (Ret w') -> w'.(applied) = applied_after (obs lbl w) w.
Proof.
  intros E. destruct lbl as [i|i|i|i|i|i k|k|k|i c|i]; cbn in E.
  7: destruct (w.(net) !! k) as [p|]; [|done]; by eapply deliver_applied.
  7: destruct (w.(net) !! k) as [p|]; [|done]; cbn in E; by simplify_eq.
  all: destruct (w.(nodes) !! i) as [rf|] eqn:Hi; [|done]; cbn in E.
  1,2: destruct (expire _) as [t|]; [|done]; cbn in E; by simplify_eq.
  1,2: destruct (loop rf); try done; destruct (recv _) as [t|]; [|done]; cbn in E; by simplify_eq.
  - destruct (loop rf); [done| |by simplify_eq]. injection E as E. bind_inv E. by inv_res.
  - destruct (w.(incs) !! i) as [inc|]; [|done]. cbn in E. cbn [obs]. rewrite Hi.
    destruct (goroutines rf !! k) as [g|]; [|done]. injection E as E.
    destruct g as [s a|s|s [|e es]|s es|c t]; cbn in E.
    + by inv_res.
    + bind_inv E. destruct x; by inv_res.
    + by inv_res.
    + by inv_res.
    + by inv_res.
    + bind_inv E. destruct x. by inv_res.
  - case_bool_decide; by simplify_eq.
  - by simplify_eq.
Qed.

(** The commands in the logs of leaders come from [Start]. *)
Lemma leaders_commands lbl w w' T i L k e :
  leader_inv n w -> summary lbl w w' -> w'.(leaders) !! T = Some (i, L) -> L !! S k = Some e ->
  (exists T' i' L', w.(leaders) !! T' = Some (i', L') /\ L' !! S k = Some e) \/ OStart e.(le_Command) ∈ obs lbl w.
Proof.
  intros Hl Hs HL He.
  assert (w'.(leaders) = w.(leaders) -> exists T' i' L', w.(leaders) !! T' = Some (i', L') /\ L' !! S k = Some e)
    as Hsame by (intros E; rewrite E in HL; eauto).
  assert (forall j rf, w.(nodes) !! j = Some rf -> rf.(logs) !! S k = Some e ->
    exists T' i' L', w.(leaders) !! T' = Some (i', L') /\ L' !! S k = Some e) as Hcov.
  { intros j rf Hj Hk. destruct (li_log _ _ Hl _ _ Hj _ _ Hk) as (i' & L' & HL' & E). exists e.(le_Term), i', L'.
    split; [done|]. rewrite <- (lookup_take_lt L' (S (S k))), <- E by lia. by rewrite lookup_take_lt by lia. }
  destruct Hs as
    [lbl w q|lbl w w' j r r' Hj Hq Hh Hn Hnet|lbl w w' j q r inc s x Hj Hk Hh Hn Hnet
    |w w' j r r1 x Hj Hlp -> Hx ->|w w' q src inc dst args r r' reply Hk Hj Ho Hn Hnet Evs _ Eld
    |w w' q src inc dst args r r' reply Hk Hj Ho Hn Hnet Hh
    |w w' q src inc dst args reply r r' Hk Hj Hr Hn Hnet Evs _ Eld
    |lbl w w' q j r t Hj Ht Hn Hnet Hh|w w' j q r r' c t index Hj Hk Hst ->
    |lbl w w' j r Hj Hn Hnet Hh];
    try (left; apply Hsame; first [done|apply Hh]).
  - left. destruct (bool_decide (r.(state) <> Leader) && bool_decide (r'.(state) = Leader)) eqn:E;
      [|by apply Hsame].
    rewrite Eld in HL. apply lookup_insert_Some in HL as [[_ [= <- <-]]|[_ HL]]; [|eauto].
    apply (Hcov src r Hj). enough (r'.(logs) = r.(logs)) as <- by done.
    destruct Hr as [? _ _ ->|? ? _ Hs -> _ Hc| |]; try done.
    + by apply convertTo_Leader_inv in Hc as (_ & _ & _ & _ & _ & _ & -> & _).
    + by destruct (adopt_frame reply.(rvr_Term) r) as (_ & _ & ? & _).
  - cbn in HL. apply lookup_insert_Some in HL as [[_ [= <- <-]]|[_ HL]]; [|left; eauto].
    apply Start_append_inv in Hst as (mi & ni & _ & _ & -> & _). cbn in He.
    apply lookup_app_Some in He as [He|[_ He]]; [left; by eapply Hcov|right].
    apply list_lookup_singleton_Some in He as [_ <-]. cbn. rewrite Hj, Hk. left.
Qed.

(** ** The simulation *)

Record sim w A a : Prop := {
  si_ack : ack_inv n w A;
  si_commit : commit_inv n w A;
  si_log : forall j c, a.(alog) !! j = Some c ->
    exists e, c = e.(le_Command) /\ settled n w.(leaders) A (Z.of_nat (S j)) e;
  si_proposed : forall T i L k e, w.(leaders) !! T = Some (i, L) -> L !! S k = Some e -> e.(le_Command) ∈ a.(proposed);
  si_received : forall i ms m, w.(applied) !! i = Some ms -> m ∈ ms -> m.(CommandIndex) <= Z.of_nat (a.(received) i);
}.

(** The log can be extended to any index that is settled. *)
Lemma extend_log w A a (j : nat) e :
  sim w A a -> settled n w.(leaders) A (Z.of_nat (S j)) e ->
  exists a', atrace a [] a' /\ sim w A a' /\ a'.(received) = a.(received) /\ a'.(alog) !! j = Some e.(le_Command).
Proof.
  intros Hs He. remember (S j - length a.(alog))%nat as d eqn:Hd. revert a Hs Hd.
  induction d as [|d IH]; intros a Hs Hd.
  { exists a. split; [constructor|]. split; [done|]. split; [done|].
    destruct (lookup_lt_is_Some_2 a.(alog) j) as [c Hc]; [lia|].
    destruct (si_log _ _ _ Hs j c Hc) as (e' & -> & He').
    by rewrite (settled_agree n w A _ e e' (si_ack _ _ _ Hs) He He'). }
  pose proof He as (t & k & i & L & Hc & HL & Hk & Hlk). rewrite Nat2Z.id in Hk, Hlk.
  destruct (lookup_lt_is_Some_2 L (S (length a.(alog)))) as [e1 He1].
  { apply lookup_lt_Some in Hlk. lia. }
  pose proof (si_proposed _ _ _ Hs _ _ _ _ _ HL He1) as Hin.
  destruct (IH (mkALog (a.(alog) ++ [e1.(le_Command)]) a.(proposed) a.(received))) as (a' & Htr & Hs' & Hr & Hl).
  - destruct Hs as [H1 H2 H3 H4 H5]. split; try done. cbn. intros q c Hq.
    apply lookup_app_Some in Hq as [Hq|[Hge Hq]]; [by apply H3|].
    apply list_lookup_singleton_Some in Hq as [Hq <-]. exists e1. split; [done|].
    exists t, k, i, L. rewrite Nat2Z.id. replace q with (length a.(alog)) by lia. split; [done|]. split; [done|].
    split; [lia|done].
  - cbn. rewrite length_app. cbn. lia.
  - exists a'. split; [|done]. exact (at_step _ [] _ [] _ (A_commit a _ Hin) Htr).
Qed.

(** The invariants after a step; the abstract state is that of before. *)
Lemma sim_keep lbl w w' A a :
  timely_reachable n w -> sim w A a -> timely lbl w -> prudent lbl w -> step lbl w = Some (Ret w') ->
  exists A', leads_grow w.(leaders) w'.(leaders) /\ acks_grow A A' /\ ack_inv n w' A' /\ commit_inv n w' A' /\
    (forall j c, a.(alog) !! j = Some c -> exists e, c = e.(le_Command) /\ settled n w'.(leaders) A' (Z.of_nat (S j)) e) /\
    (forall T i L k e, w'.(leaders) !! T = Some (i, L) -> L !! S k = Some e ->
       e.(le_Command) ∈ a.(proposed) \/ OStart e.(le_Command) ∈ obs lbl w).
Proof.
  intros Hr [H1 H2 H3 H4 _] Htm Hpr Hs. pose proof (timely_leader_inv _ _ Hr) as Hl.
  destruct (ack_step n lbl w w' A) as (A' & HA & Hg & Ha' & Hst); [done..|].
  apply timely_is_reachable, reachable_wf in Hr as Hcw. exists A'. split; [done|]. split; [done|]. split; [done|].
  split; [|split].
  - eapply commit_inv_step; [done..|]. by eapply step_cm.
  - intros j c (e & ? & ?)%H3. exists e. split; [done|]. by apply (settled_mono n _ _ _ _ Hg HA).
  - intros T i L k e HL He. destruct (step_summary _ _ _ _ Hcw Hs) as [->|Hsum]; [left; by eapply H4|].
    destruct (leaders_commands _ _ _ _ _ _ _ _ Hl Hsum HL He) as [(T' & i' & L' & HL' & He')|?]; [left|by right].
    by eapply H4.
Qed.

(** A step that delivers a message: it is a settled entry, and the next index or an
    earlier one. *)
Lemma deliver_obs lbl w w' A a i m :
  timely_reachable n w -> sim w A a -> step lbl w = Some (Ret w') -> obs lbl w = [ODeliver i m] ->
  exists (j : nat) e, m = apply_msg (Z.of_nat (S j)) e /\ settled n w.(leaders) A (Z.of_nat (S j)) e /\
    (j <= a.(received) i)%nat.
Proof.
  intros Hr Hs E Ho. destruct lbl as [| | | | |i' k| | | |]; try done. cbn in Ho.
  destruct (w.(nodes) !! i') as [rf|] eqn:Hi; [|done]. destruct (rf.(goroutines) !! k) as [g|] eqn:Hk; [|done].
  destruct g as [| |s [|e es]| |]; try done. injection Ho as <- <-. apply list_elem_of_lookup_2 in Hk as Hin.
  apply timely_is_reachable in Hr. pose proof (reachable_wf _ _ Hr) as Hcw.
  pose proof (no_go _ _ _ (cw_node _ _ Hcw _ _ Hi) _ Hin) as Hpos. cbn in Hpos.
  destruct (cm_node _ _ _ (si_commit _ _ _ Hs) _ _ Hi) as (_ & _ & Hgo).
  specialize (Hgo _ Hin 0%nat e eq_refl). rewrite Z.add_0_r in Hgo.
  destruct (reachable_apply_inv _ _ Hr _ _ Hi) as (ms & Hms & [_ Hb] & _). specialize (Hb _ Hin). cbn in Hb.
  exists (Z.to_nat (s - 1)), e. replace (Z.of_nat (S (Z.to_nat (s - 1)))) with s by lia.
  split; [done|]. split; [done|]. destruct (decide (s = 1)) as [->|Hne]; [lia|].
  destruct (Hb (s - 1)) as (m & Hm & Em); [lia|].
  pose proof (si_received _ _ _ Hs _ _ _ Hms Hm). lia.
Qed.

Lemma sim_step lbl w w' A a :
  timely_reachable n w -> sim w A a -> timely lbl w -> prudent lbl w -> step lbl w = Some (Ret w') ->
  exists A' a', atrace a (obs lbl w) a' /\ sim w' A' a'.
Proof.
  intros Hr Hs Htm Hpr E. pose proof (step_applied _ _ _ E) as Hap.
  assert (obs lbl w = [] \/ (exists c, obs lbl w = [OStart c]) \/ (exists i m, obs lbl w = [ODeliver i m]) \/
    exists i, obs lbl w = [ORestart i]) as [Ho|[[c Ho]|[(i & m & Ho)|[i Ho]]]].
  { destruct lbl; cbn; eauto 6. repeat case_match; eauto 7. }
  - rewrite Ho in Hap |- *. destruct (sim_keep _ _ _ _ _ Hr Hs Htm Hpr E) as (A' & _ & _ & H1 & H2 & H3 & H4).
    exists A', a. split; [constructor|]. split; [done|done|done| |rewrite Hap; apply Hs].
    intros T j L k e HL He. destruct (H4 _ _ _ _ _ HL He) as [?|Hin]; [done|].
    rewrite Ho in Hin. by apply not_elem_of_nil in Hin.
  - rewrite Ho in Hap |- *. destruct (sim_keep _ _ _ _ _ Hr Hs Htm Hpr E) as (A' & _ & _ & H1 & H2 & H3 & H4).
    exists A', (mkALog a.(alog) (a.(proposed) ++ [c]) a.(received)). split; [apply atrace_one, A_start|].
    split; [done|done|done| |rewrite Hap; apply Hs].
    intros T j L k e HL He. cbn. apply elem_of_app. destruct (H4 _ _ _ _ _ HL He) as [?|Hin]; [by left|right].
    rewrite Ho in Hin. apply list_elem_of_singleton in Hin. injection Hin as ->. by apply list_elem_of_singleton.
  - destruct (deliver_obs _ _ _ _ _ _ _ Hr Hs E Ho) as (j & e & Em & He & Hj).
    destruct (extend_log w A a j e Hs He) as (a1 & Htr & Hs1 & Hrec & Hl1).
    destruct (sim_keep _ _ _ _ _ Hr Hs1 Htm Hpr E) as (A' & _ & _ & H1 & H2 & H3 & H4).
    exists A', (mkALog a1.(alog) a1.(proposed) (<[i := max (S j) (a1.(received) i)]> a1.(received))). split.
    { rewrite Ho. apply (atrace_app _ [] a1); [done|]. rewrite Em. apply atrace_one, A_deliver; [done|]. by rewrite Hrec. }
    rewrite Ho in Hap. split; [done|done|done| |].
    + intros T j' L k e' HL He'. destruct (H4 _ _ _ _ _ HL He') as [?|Hin]; [done|].
      rewrite Ho in Hin. by apply list_elem_of_singleton in Hin.
    + intros i' ms m'. rewrite Hap. cbn [applied_after received]. intros Hi' Hm'.
      apply list_lookup_insert_Some in Hi' as [(<- & <- & _)|[Hne Hi']].
      * rewrite fn_lookup_insert. apply elem_of_app in Hm' as [Hm'| ->%list_elem_of_singleton].
        -- destruct (w.(applied) !! i) as [ms|] eqn:Ems; [|by apply not_elem_of_nil in Hm'].
           pose proof (si_received _ _ _ Hs1 _ _ _ Ems Hm'). lia.
        -- rewrite Em. cbn [CommandIndex apply_msg]. lia.
      * rewrite fn_lookup_insert_ne by done. by eapply (si_received _ _ _ Hs1).
  - destruct (sim_keep _ _ _ _ _ Hr Hs Htm Hpr E) as (A' & _ & _ & H1 & H2 & H3 & H4).
    exists A', (mkALog a.(alog) a.(proposed) (<[i := 0%nat]> a.(received))). rewrite Ho in Hap |- *.
    split; [apply atrace_one, A_restart|]. split; [done|done|done| |].
    + intros T j' L k e' HL He'. destruct (H4 _ _ _ _ _ HL He') as [?|Hin]; [done|].
      rewrite Ho in Hin. by apply list_elem_of_singleton in Hin.
    + intros i' ms m'. rewrite Hap. cbn [applied_after received]. intros Hi' Hm'.
      apply list_lookup_insert_Some in Hi' as [(<- & <- & _)|[Hne Hi']]; [by apply not_elem_of_nil in Hm'|].
      rewrite fn_lookup_insert_ne by done. by eapply (si_received _ _ _ Hs).
Qed.

Lemma init_sim : sim (init n) (fun _ _ _ => False) empty_log.
Proof.
  split; [apply init_ack_inv|apply init_commit_inv|done|done|].
  intros i ms m [-> _]%lookup_replicate Hin. by apply not_elem_of_nil in Hin.
Qed.

Lemma sim_trace w tr w' A a :
  ptrace w tr w' -> timely_reachable n w -> sim w A a -> exists A' a', atrace a tr a' /\ sim w' A' a'.
Proof.
  intros Ht. revert A a. induction Ht as [w|lbl w w1 tr w2 Htm Hpr Hs _ IH]; intros A a Hr Hsim.
  { exists A, a. split; [constructor|done]. }
  destruct (sim_step lbl w w1 A a) as (A1 & a1 & Htr & Hsim1); [done..|].
  destruct (IH A1 a1) as (A2 & a2 & Htr2 & Hsim2); [by eapply treach_step|done|].
  exists A2, a2. split; [by eapply atrace_app|done].
Qed.

(** C5. A Raft cluster implements an agreed log: whatever is seen of a timely and
    prudent run (which commands are appended by Start, which messages the servers
    deliver on their applyCh, and when servers restart) is seen of a run of the
    machine that keeps one log, adds proposed commands to it, and hands every server
    the entries of the log in order, with repetitions, from the beginning after a
    restart. *)
Theorem raft_refines_agreed_log tr w :
  ptrace (init n) tr w -> exists a, atrace empty_log tr a.
Proof.
  intros Ht. destruct (sim_trace _ _ _ _ _ Ht (treach_init n) init_sim) as (_ & a & Htr & _). by exists a.
Qed.
End refine.

(** ** An example *)

Fixpoint run_trace {Cmd} `{!Gob (PVal Cmd)} `{!Rand} (lbls : list (Label Cmd)) (w : Cluster Cmd)
    : option (list (Obs Cmd)) :=
  match lbls with
  | [] => Some []
  | lbl :: lbls =>
      if timelyb lbl w && prudentb lbl w
      then match step lbl w with Some (Ret w') => (obs lbl w ++.) <$> run_trace lbls w' | _ => None end
      else None
  end.

Lemma run_trace_ok {Cmd} `{!Gob (PVal Cmd)} `{!Rand} (lbls : list (Label Cmd)) w tr :
  run_trace lbls w = Some tr -> exists w', ptrace w tr w'.
Proof.
  revert w tr. induction lbls as [|lbl lbls IH]; cbn; intros w tr E; [injection E as <-; eexists; constructor|].
  destruct (timelyb lbl w && prudentb lbl w) eqn:Ht; [|done]. apply andb_true_iff in Ht as [H1 H2].
  destruct (step lbl w) as [[w1|]|] eqn:Hs; [|done..].
  destruct (run_trace lbls w1) as [tr1|] eqn:E1; [|done]. cbn in E. injection E as <-.
  destruct (IH _ _ E1) as [w' Hw']. exists w'. eapply pt_step; [by apply timelyb_timely|by apply prudentb_prudent|done|done].
Qed.

(** The run of RaftTraces.v: server 0 and server 1 deliver command 7, server 0
    restarts, server 2 delivers it under the next leader. *)
Lemma raft_refines_agreed_log_witness :
  exists a, atrace empty_log
    [OStart (Some 7%nat); ODeliver 0 (applied_msg 1 7); ODeliver 1 (applied_msg 1 7); ORestart 0;
     OStart (Some 9%nat); ODeliver 2 (applied_msg 1 7)] a.
Proof.
  destruct (run_trace_ok (commit0 ++ takeover) start3
    [OStart (Some 7%nat); ODeliver 0 (applied_msg 1 7); ODeliver 1 (applied_msg 1 7); ORestart 0;
     OStart (Some 9%nat); ODeliver 2 (applied_msg 1 7)]) as [w Hw]; [vm_compute; reflexivity|].
  exact (raft_refines_agreed_log 3 _ w Hw).
Defined.
