(* ===== verification/RaftElect.v ===== *)
(** * RaftElect: a majority can always elect a leader

    A cluster may be in any state that crashes, losses and races of timers have
    left.  [live_step Q] are the steps that the servers [Q] can make on their own:
    their timers, loops and goroutines, and the delivery of messages between them;
    no message is lost, nobody crashes, and the steps are timely and prudent.
    Election timers of servers that do not lead stay armed, so that a server of [Q]
    can raise its term above the others, ask for their votes and win. *)

From S2P Require Import Prelude Gob Raft RaftFacts RaftHandlers RaftSpec RaftReplicate Cluster ClusterStep.
From S2P Require Import Election ElectionSafety Leaders Apply RaftSafety.
From S2P Require Import RaftAck RaftAckStep RaftCommit RaftMachine.
Local Open Scope Z_scope.

Section invariants.
Context {Cmd : Type} `{!Gob (PVal Cmd)} `{!Rand}.
Implicit Types (rf : Raft Cmd) (w : Cluster Cmd).

(** ** Timers *)

(** A server that does not lead will see an election timeout: its timer runs, has
    fired, or the loop has taken the value. *)
Definition armed rf : Prop :=
  rf.(state) = Leader \/ is_Some rf.(electionTimer).(deadline) \/
  rf.(electionTimer).(C) = true \/ rf.(loop) = LoopElection.

Lemma armed_same rf rf' :
  rf'.(state) = rf.(state) -> rf'.(electionTimer) = rf.(electionTimer) -> rf'.(loop) = rf.(loop) ->
  armed rf -> armed rf'.
Proof. unfold armed. by intros -> -> ->. Qed.

Lemma armed_reset rf : armed (resetElectionTimer rf).
Proof. right. left. by eexists. Qed.

Lemma armed_adopt t rf : armed rf -> armed (adopt t rf).
Proof.
  intros Ha. unfold adopt, toFollower. case_if; [|done]. case_decide.
  - by apply (armed_same rf).
  - right. left. by eexists.
Qed.

Lemma armed_rv rf args rf' reply : rv_outcome rf args rf' reply -> armed rf -> armed rf'.
Proof.
  intros [] Ha; [exact Ha|exact (armed_adopt _ _ Ha)|exact (armed_reset _)].
Qed.

Lemma armed_ae rf args rf' reply : ae_outcome rf args rf' reply -> armed rf -> armed rf'.
Proof.
  intros [| | |prev rf1 rf2 _ _ _ -> (gs & -> & _)%follower_commit_frame] Ha;
    [exact Ha|exact (armed_reset _)..].
Qed.

Lemma armed_vote_reply rf args reply rf' : vote_reply rf args reply rf' -> armed rf -> armed rf'.
Proof.
  intros [? _ _ -> _|rf1 ? _ Hs -> _ Hc| |] Ha.
  - by apply (armed_same rf).
  - left. apply convertTo_Leader_inv in Hc as (_ & _ & _ & _ & _ & Hl & _); [done|exact Hs].
  - done.
  - exact (armed_adopt _ _ Ha).
Qed.

Lemma conflictScan_frame fuel rf s ct i rf' :
  conflictScan fuel rf s ct i = Ret rf' -> exists ni, rf' = set_nextIndex ni rf.
Proof.
  assert (exists ni, rf = set_nextIndex ni rf) as Hid by (exists rf.(nextIndex); by destruct rf).
  revert i. induction fuel as [|fuel IH]; cbn; intros i E; [by inv_res|].
  bind_inv E. case_if; [|by eapply IH]. bind_inv E. inv_res. by eexists.
Qed.

Lemma armed_append_reply rf s args reply rf' :
  raft_wf rf -> broadcastHeartbeat_reply rf s args reply = Ret rf' -> armed rf -> armed rf'.
Proof.
  intros Hw E Ha. unfold broadcastHeartbeat_reply in E. case_if; [|case_if].
  - do 2 bind_inv E. match type of E with commitScan _ ?r ?i = _ =>
      destruct (commitScan_spec r i) as (r' & c & gs & E' & -> & _); [apply Hw|cbn; lia|]
    end. cbn in E'. rewrite E in E'. inv_res. by apply (armed_same rf).
  - rewrite convertTo_Follower in E. cbn in E. inv_res.
    assert (toFollower (set_currentTerm reply.(aer_Term) rf) = adopt reply.(aer_Term) rf) as ->
      by (unfold adopt; by destruct (Z.ltb_spec rf.(currentTerm) reply.(aer_Term)); [|lia]).
    exact (armed_adopt _ _ Ha).
  - bind_inv E. case_if; [apply conflictScan_frame in E as [ni ->]|inv_res]; by apply (armed_same rf).
Qed.

(** ** In every run *)

Record ready (n : nat) w : Prop := {
  rd_armed : forall i rf, w.(nodes) !! i = Some rf -> armed rf;
  rd_incs : length w.(incs) = n;
}.

Lemma ready_put n w w' i rf rf' :
  ready n w -> w.(nodes) !! i = Some rf -> w'.(nodes) = <[i := rf']> w.(nodes) ->
  length w'.(incs) = length w.(incs) -> (armed rf -> armed rf') -> ready n w'.
Proof.
  intros [Ha Hn] Hi E El Hs. split; [|congruence]. intros j r. rewrite E.
  intros [(-> & -> & _)|[_ ?]]%list_lookup_insert_Some; eauto.
Qed.

Lemma run_goroutine_ready n w w' i k g rf inc :
  ready n w -> w.(nodes) !! i = Some rf -> run_goroutine i k g rf inc w = Ret w' -> ready n w'.
Proof.
  intros Hr Hi E. destruct g as [s a|s|s [|e es]|s es|c t]; cbn in E.
  2: bind_inv E; destruct x as [args|].
  7: bind_inv E; destruct x as [rf' index]; unfold Start_append in E0; do 2 bind_inv E0.
  all: inv_res; (eapply (ready_put n w); [done..|]); by apply armed_same.
Qed.

Lemma deliver_ready n w w' k p :
  cluster_wf n w -> ready n w -> w.(net) !! k = Some p -> deliver k p w = Some (Ret w') -> ready n w'.
Proof.
  intros Hcw Hr Hk E. pose proof (cw_pkt _ _ Hcw p (list_elem_of_lookup_2 _ _ _ Hk)) as Hp.
  destruct p as [src inc dst a|src inc dst a reply|src inc dst a|src inc dst a reply]; cbn in E.
  - destruct (w.(nodes) !! dst) as [rf|] eqn:Hd; [|done]. injection E as E. bind_inv E.
    destruct x as [rf' reply]. apply RequestVote_inv in E0; [|apply (cw_node _ _ Hcw _ _ Hd)].
    inv_res. eapply (ready_put n w); [done|done|by case_if|by case_if|by eapply armed_rv].
  - destruct (w.(nodes) !! src) as [rf|] eqn:Hd; [|done]. cbn in E. case_decide; [|by simplify_eq; destruct Hr].
    injection E as E. bind_inv E. apply startElection_reply_inv in E0. inv_res.
    eapply (ready_put n w); [done|done|by repeat case_if|by repeat case_if|by eapply armed_vote_reply].
  - destruct (w.(nodes) !! dst) as [rf|] eqn:Hd; [|done]. injection E as E. bind_inv E.
    destruct x as [rf' reply]. destruct Hp as (_ & _ & Hwf & _).
    apply AppendEntries_inv in E0; [|apply (cw_node _ _ Hcw _ _ Hd)|done].
    inv_res. eapply (ready_put n w); [done..|by eapply armed_ae].
  - destruct (w.(nodes) !! src) as [rf|] eqn:Hd; [|done]. cbn in E. case_decide; [|by simplify_eq; destruct Hr].
    injection E as E. bind_inv E. inv_res.
    eapply (ready_put n w); [done..|]. eapply armed_append_reply; [apply (cw_node _ _ Hcw _ _ Hd)|done].
Qed.

Lemma armed_Make (m : nat) (i : Z) ps : armed (Make (Cmd:=Cmd) m i ps).
Proof.
  right. left. unfold Make, readPersist, ReadRaftState.
  destruct (raftstate ps); [|destruct (decodeState _) as [[[? ?] ?]|]]; by eexists.
Qed.

Lemma step_ready n lbl w w' :
  cluster_wf n w -> ready n w -> step lbl w = Some (Ret w') -> ready n w'.
Proof.
  intros Hcw Hr E. destruct lbl as [i|i|i|i|i|i k|k|k|i c|i]; cbn in E.
  7: destruct (w.(net) !! k) as [p|] eqn:Hp; [|done]; by eapply deliver_ready.
  7: destruct (w.(net) !! k) as [p|] eqn:Hp; [|done]; cbn in E; simplify_eq; by destruct Hr.
  all: destruct (w.(nodes) !! i) as [rf|] eqn:Hi; [|done]; cbn in E.
  - destruct (expire _) as [t|] eqn:Ht; [|done]. cbn in E. simplify_eq.
    eapply (ready_put n w); [done..|]. unfold expire in Ht. destruct (deadline _); [|done]. simplify_eq.
    intros _. right. right. by left.
  - destruct (expire _) as [t|] eqn:Ht; [|done]. cbn in E. simplify_eq.
    eapply (ready_put n w); [done..|]. by apply armed_same.
  - destruct rf.(loop) eqn:Hl; try done. destruct (recv _) as [t|]; [|done]. cbn in E. simplify_eq.
    eapply (ready_put n w); [done..|]. intros _. do 3 right. done.
  - destruct rf.(loop) eqn:Hl; try done. destruct (recv _) as [t|]; [|done]. cbn in E. simplify_eq.
    eapply (ready_put n w); [done..|]. unfold armed. cbn. rewrite Hl. naive_solver.
  - destruct rf.(loop) eqn:Hl; [done| |]; injection E as E.
    + bind_inv E. apply (onElectionTimer_inv n i) in E0 as (e & _ & ->); [|by apply (cw_node _ _ Hcw)]. inv_res.
      eapply (ready_put n w); [done..|]. intros _. right. left. by eexists.
    + inv_res. eapply (ready_put n w); [done..|]. unfold onHeartbeatTimer.
      case_decide; [rewrite broadcastHeartbeat_eq|]; unfold armed; cbn; rewrite Hl; naive_solver.
  - destruct (w.(incs) !! i) as [inc|]; [|done]. cbn in E.
    destruct (rf.(goroutines) !! k) as [g|] eqn:Hg; [|done]. injection E as E. by eapply run_goroutine_ready.
  - case_bool_decide; simplify_eq; [|done]. eapply (ready_put n w); [done..|]. by apply armed_same.
  - simplify_eq. eapply (ready_put n w); [done|done|done|by cbn; rewrite length_alter|].
    intros _. apply armed_Make.
Qed.

Lemma reachable_ready n w : reachable n w -> ready n w.
Proof.
  induction 1 as [|lbl w w' Hr IH Hs]; [|by eapply step_ready; [apply reachable_wf|..]].
  split; [|by cbn; rewrite length_replicate]. intros i rf [_ ->]%init_node. apply armed_Make.
Qed.
End invariants.

(** ** What a set of servers can do on its own *)

Section live.
Context {Cmd : Type} `{!Gob (PVal Cmd)} `{!Rand} (n : nat) (Q : list nat).
Implicit Types (rf : Raft Cmd) (w : Cluster Cmd).

Definition between_servers (p : Packet Cmd) : Prop :=
  match p with
  | VoteReq src _ dst _ | VoteRep src _ dst _ _ | AppReq src _ dst _ | AppRep src _ dst _ _ => src ∈ Q /\ dst ∈ Q
  end.

Definition within (lbl : Label Cmd) w : Prop :=
  match lbl with
  | LExpireElection i | LExpireHeartbeat i | LRecvElection i | LRecvHeartbeat i
  | LLoop i | LGo i _ | LStart i _ => i ∈ Q
  | LDeliver k => exists p, w.(net) !! k = Some p /\ between_servers p
  | LDrop _ | LCrash _ => False
  end.

Definition live_step w w' : Prop :=
  exists lbl, within lbl w /\ timely lbl w /\ prudent lbl w /\ step lbl w = Some (Ret w').

Lemma live_is_prudent w w' : live_step w w' -> prudent_step w w'.
Proof. intros (lbl & _ & ? & ? & ?). by exists lbl. Qed.

(** Live steps that leave the peers as [ns] and deliver nothing to the services. *)
Definition becomes w w' (ns : list (Raft Cmd)) : Prop :=
  rtc live_step w w' /\ w'.(nodes) = ns /\ w'.(incs) = w.(incs) /\ w'.(applied) = w.(applied).

Lemma becomes_refl w : becomes w w w.(nodes).
Proof. done. Qed.

Lemma becomes_trans w w1 w2 ns1 ns2 : becomes w w1 ns1 -> becomes w1 w2 ns2 -> becomes w w2 ns2.
Proof.
  intros (H1 & _ & E2 & E3) (H1' & E1' & E2' & E3'). split; [by etrans|]. split; [done|]. split; congruence.
Qed.

Lemma becomes_step lbl w w' :
  within lbl w -> timely lbl w -> prudent lbl w -> step lbl w = Some (Ret w') ->
  w'.(incs) = w.(incs) -> w'.(applied) = w.(applied) -> becomes w w' w'.(nodes).
Proof. intros. split; [apply rtc_once; by exists lbl|done]. Qed.

(** A goroutine other than one of [Start] runs. *)
Lemma live_go w w' (i k inc : nat) g rf :
  i ∈ Q -> w.(nodes) !! i = Some rf -> w.(incs) !! i = Some inc -> rf.(goroutines) !! k = Some g ->
  (forall cmd t, g <> GoStart cmd t) -> run_goroutine i k g rf inc w = Ret w' -> live_step w w'.
Proof.
  intros HiQ Hi Hinc Hk Hg E. exists (LGo i k). split; [done|]. split; [|split; [done|]].
  - intros r cmd t Hr Hg'. simplify_eq. by destruct (Hg cmd t).
  - cbn [step]. rewrite Hi, Hinc. cbn [mbind option_bind]. rewrite Hk. cbn [mbind option_bind]. by rewrite E.
Qed.

(** ** Steps of one server *)

(** Server [c] can go from [rf] to [rf'] by itself. *)
Definition local (c : nat) rf rf' : Prop :=
  forall w, w.(nodes) !! c = Some rf -> exists w', becomes w w' (<[c := rf']> w.(nodes)).

Lemma local_refl c rf : local c rf rf.
Proof. intros w Hi. exists w. by rewrite list_insert_id by done. Qed.

Lemma local_trans c rf1 rf2 rf3 : local c rf1 rf2 -> local c rf2 rf3 -> local c rf1 rf3.
Proof.
  intros H1 H2 w Hi. destruct (H1 w Hi) as [w1 Hb1]. pose proof Hb1 as (_ & En & _).
  destruct (H2 w1) as [w2 Hb2]; [rewrite En; apply list_lookup_insert_eq; by eapply lookup_lt_Some|].
  exists w2. rewrite En, list_insert_insert_eq in Hb2. by eapply becomes_trans.
Qed.

Lemma local_step c rf rf' lbl (upd : Cluster Cmd -> Cluster Cmd) :
  (forall w, w.(nodes) !! c = Some rf -> within lbl w /\ timely lbl w /\ prudent lbl w /\
     step lbl w = Some (Ret (upd w)) /\ (upd w).(nodes) = <[c := rf']> w.(nodes) /\
     (upd w).(incs) = w.(incs) /\ (upd w).(applied) = w.(applied)) ->
  local c rf rf'.
Proof.
  intros Hu w Hi. destruct (Hu w Hi) as (? & ? & ? & ? & En & ? & ?). exists (upd w). rewrite <- En.
  by eapply becomes_step.
Qed.

Section server.
Context (c : nat) (Hc : c ∈ Q).

Lemma local_expire rf d :
  rf.(electionTimer).(deadline) = Some d ->
  local c rf (set_electionTimer {| deadline := None; C := true |} rf).
Proof.
  intros Hd. apply (local_step c rf _ (LExpireElection c)
    (put_node c (set_electionTimer {| deadline := None; C := true |} rf))).
  intros w Hi. cbn. rewrite Hi. cbn. unfold expire. by rewrite Hd.
Qed.

Lemma local_recv rf :
  rf.(loop) = LoopSelect -> rf.(electionTimer).(C) = true ->
  exists t, local c rf (set_loop LoopElection (set_electionTimer t rf)).
Proof.
  intros Hl HC. eexists. apply (local_step c rf _ (LRecvElection c)
    (put_node c (set_loop LoopElection (set_electionTimer
       {| deadline := rf.(electionTimer).(deadline); C := false |} rf)))).
  intros w Hi. cbn. rewrite Hi. cbn. unfold recv. by rewrite Hl, HC.
Qed.

Lemma local_idle rf :
  rf.(loop) = LoopHeartbeat -> rf.(state) <> Leader -> local c rf (set_loop LoopSelect rf).
Proof.
  intros Hl Hs. apply (local_step c rf _ (LLoop c) (put_node c (set_loop LoopSelect rf))).
  intros w Hi. cbn. rewrite Hi. cbn. rewrite Hl. unfold onHeartbeatTimer. rewrite decide_False by done.
  split; [done|]. split; [|done]. intros r Hr Hl'. simplify_eq. congruence.
Qed.

(** The loop of a server that does not lead reaches the election timeout. *)
Lemma local_timeout rf :
  rf.(state) <> Leader -> armed rf -> exists t, local c rf (set_loop LoopElection (set_electionTimer t rf)).
Proof.
  intros Hs Ha.
  assert (forall r, r.(loop) = LoopSelect -> is_Some r.(electionTimer).(deadline) \/ r.(electionTimer).(C) = true ->
    exists t, local c r (set_loop LoopElection (set_electionTimer t r))) as Hselect.
  { intros r Hl [[d Hd]|HC]; [|by apply local_recv].
    destruct (local_recv (set_electionTimer {| deadline := None; C := true |} r)) as [t Ht]; [done..|].
    exists t. eapply local_trans; [by eapply local_expire|exact Ht]. }
  destruct Ha as [?|Ha]; [done|]. destruct rf.(loop) eqn:Hl.
  - apply Hselect; [done|]. destruct Ha as [?|[?|?]]; [by left|by right|done].
  - exists rf.(electionTimer). assert (set_loop LoopElection (set_electionTimer rf.(electionTimer) rf) = rf) as ->
      by (destruct rf; cbn in *; by subst). apply local_refl.
  - destruct (Hselect (set_loop LoopSelect rf)) as [t Ht]; [done|destruct Ha as [?|[?|?]]; [by left|by right|done]|].
    exists t. eapply local_trans; [by apply local_idle|exact Ht].
Qed.

(** ** Campaigns *)

(** What candidate [c] asks the others. *)
Definition ballot rf : RequestVoteArgs :=
  {| rv_Term := rf.(currentTerm); rv_CandidateId := Z.of_nat c;
     rv_LastLogIndex := (last_entry rf.(logs)).2; rv_LastLogTerm := (last_entry rf.(logs)).1 |}.

(** [rf'] is [rf] as a candidate of a later term that has its own vote. *)
Record campaigns rf rf' : Prop := {
  cp_ok : node_ok n c rf';
  cp_term : rf.(currentTerm) < rf'.(currentTerm);
  cp_state : rf'.(state) = Candidate;
  cp_logs : rf'.(logs) = rf.(logs);
  cp_loop : rf'.(loop) = LoopSelect;
  cp_armed : armed rf';
  cp_count : rf'.(voteCount) !! rf'.(currentTerm) = Some 1;
  cp_go : forall p, (p < n)%nat -> p <> c -> GoVote p (ballot rf') ∈ rf'.(goroutines);
}.

Lemma node_ok_timer rf l t : node_ok n c rf -> node_ok n c (set_loop l (set_electionTimer t rf)).
Proof. intros [? ? Hw]. split; try done. by destruct Hw. Qed.

Lemma local_campaign rf :
  node_ok n c rf -> rf.(state) <> Leader -> armed rf -> exists rf', local c rf rf' /\ campaigns rf rf'.
Proof.
  intros Hok Hs Ha. destruct (local_timeout rf Hs Ha) as [t Ht].
  set (r := set_loop LoopElection (set_electionTimer t rf)) in *.
  pose proof (node_ok_timer rf LoopElection t Hok) as Hokr. fold r in Hokr.
  destruct (log_wf_last rf.(logs)) as (e & He & _); [apply Hok|].
  set (r1 := set_state Candidate (resetElectionTimer (set_loop LoopSelect r))).
  assert (onElectionTimer (set_loop LoopSelect r) = Ret (elected r1 e)) as Hel.
  { unfold onElectionTimer, convertTo. cbn.
    assert (0 <= rf.(me) < Z.of_nat rf.(peers)) as Hme by apply Hok. destruct (decide _) as [Hf|Hf].
    - rewrite decide_False by (rewrite Hf; done). by apply (startElection_eq r1).
    - assert (rf.(state) = Candidate) as Hcand by (cbn in Hf; by destruct rf.(state)).
      assert (set_state rf.(state) (resetElectionTimer (set_loop LoopSelect r)) = resetElectionTimer (set_loop LoopSelect r))
        as <- by done. rewrite Hcand. by apply startElection_eq. }
  exists (elected r1 e). split.
  - eapply local_trans; [exact Ht|]. apply (local_step c r _ (LLoop c)
      (fun w => add_vote (c, (elected r1 e).(currentTerm), Z.of_nat c) (put_node c (elected r1 e) w))).
    intros w Hi. cbn [step]. rewrite Hi. cbn [mbind option_bind]. cbn [loop r set_loop]. rewrite Hel. cbn.
    split; [done|]. split; [|done]. intros r' Hr' _. rewrite Hi in Hr'. injection Hr' as <-. exact Hs.
  - split; try done; cbn.
    + apply set_state_ok; [destruct Hokr as [? ? Hw]; split; try done; by destruct Hw|]. cbn. pose proof (wf_term _ (no_wf _ _ _ Hok)). lia.
    + lia.
    + right. left. by eexists.
    + by rewrite lookup_insert_eq.
    + intros p Hp Hpc. apply elem_of_app. right. apply list_elem_of_fmap. exists p. split.
      * f_equal. unfold ballot, vote_args, last_entry. cbn. by rewrite (last_idx _ _ He), (no_me _ _ _ Hok).
      * apply elem_of_others. cbn. rewrite (no_peers _ _ _ Hok), (no_me _ _ _ Hok). lia.
Qed.

(** Timeouts bring a candidate above any term. *)
Lemma local_raise rf (m : Z) :
  node_ok n c rf -> rf.(state) <> Leader -> armed rf ->
  exists rf', local c rf rf' /\ campaigns rf rf' /\ m < rf'.(currentTerm).
Proof.
  remember (Z.to_nat (m - rf.(currentTerm))) as k eqn:Hk. assert (Z.to_nat (m - rf.(currentTerm)) <= k)%nat as Hle by lia.
  clear Hk. revert rf Hle. induction k as [|k IH]; intros rf Hle Hok Hs Ha;
    destruct (local_campaign rf Hok Hs Ha) as (rf1 & Hl1 & Hc1); pose proof (cp_term _ _ Hc1).
  { exists rf1. split; [done|]. split; [done|]. lia. }
  destruct (IH rf1) as (rf2 & Hl2 & [] & Hm); [lia|apply Hc1|by rewrite (cp_state _ _ Hc1)|apply Hc1|].
  exists rf2. split; [by eapply local_trans|]. split; [|done].
  split; try done; [lia|]. by rewrite cp_logs0, (cp_logs _ _ Hc1).
Qed.
End server.

(** ** Votes *)

Lemma last_packet w ps p : w.(net) = ps ++ [p] -> w.(net) !! length ps = Some p.
Proof. intros ->. by rewrite lookup_app_r, Nat.sub_diag by lia. Qed.

(** A packet other than an answer to AppendEntries is delivered prudently. *)
Lemma deliver_prudent w k p :
  w.(net) !! k = Some p -> (forall src inc dst args reply, p <> AppRep src inc dst args reply) -> prudent (LDeliver k) w.
Proof. intros Hk Hp. split; intros src inc dst args reply rf rf' Hk'; simplify_eq; by edestruct Hp. Qed.

Lemma deliver_becomes w ps p w' :
  w.(net) = ps ++ [p] -> between_servers p -> timely (LDeliver (length ps)) w -> prudent (LDeliver (length ps)) w ->
  deliver (length ps) p w = Some (Ret w') -> w'.(incs) = w.(incs) -> w'.(applied) = w.(applied) ->
  becomes w w' w'.(nodes).
Proof.
  intros Hp Hb Ht Hpr Hd Ei Ea. apply last_packet in Hp. apply (becomes_step (LDeliver (length ps))); try done.
  - by exists p.
  - cbn [step]. by rewrite Hp.
Qed.

(** The goroutine of a candidate sends its request and the other server answers. *)
Lemma ask_vote w (c s k inc : nat) rfc rfs args rfs' reply :
  c ∈ Q -> s ∈ Q -> c <> s -> w.(nodes) !! c = Some rfc -> w.(nodes) !! s = Some rfs ->
  w.(incs) !! c = Some inc -> rfc.(goroutines) !! k = Some (GoVote s args) ->
  RequestVote rfs args = Ret (rfs', reply) ->
  exists w' ps, becomes w w' (<[s := rfs']> (<[c := del_go k rfc]> w.(nodes))) /\
    w'.(net) = ps ++ [VoteRep c inc s args reply].
Proof.
  intros Hc Hs Hcs Hic His Hinc Hk Hrv.
  set (w1 := send (VoteReq c inc s args) (put_node c (del_go k rfc) w)).
  assert (becomes w w1 w1.(nodes)) as Hb1.
  { split; [|done]. apply rtc_once. by apply (live_go w w1 c k inc (GoVote s args) rfc). }
  set (w2 := put_node s rfs' (put_net (delete (length w.(net)) w1.(net)) w1)).
  set (w3 := send (VoteRep c inc s args reply)
    (if reply.(rvr_VoteGranted) then add_vote (s, args.(rv_Term), args.(rv_CandidateId)) w2 else w2)).
  assert (w1.(net) !! length w.(net) = Some (VoteReq c inc s args)) as Hp by (by apply last_packet).
  assert (becomes w1 w3 w3.(nodes)) as Hb2.
  { apply (deliver_becomes w1 w.(net) (VoteReq c inc s args)); try done; try by unfold w3; case_if.
    - intros ? ? ? ? ? ? Hk'. congruence.
    - by eapply deliver_prudent.
    - cbn [deliver put_net nodes w1 send put_node]. rewrite list_lookup_insert_ne by done. rewrite His.
      cbn [mbind option_bind]. by rewrite Hrv. }
  exists w3. eexists. split; [|reflexivity]. eapply becomes_trans; [exact Hb1|].
  assert (w3.(nodes) = <[s := rfs']> (<[c := del_go k rfc]> w.(nodes))) as <- by (unfold w3; by case_if). done.
Qed.

(** The candidate handles the answer. *)
Lemma take_vote w ps (c s inc : nat) rf args reply rf' :
  c ∈ Q -> s ∈ Q -> w.(net) = ps ++ [VoteRep c inc s args reply] -> w.(nodes) !! c = Some rf ->
  w.(incs) !! c = Some inc -> (rf.(state) = Candidate -> rf.(currentTerm) = args.(rv_Term)) ->
  startElection_reply rf args reply = Ret rf' -> exists w', becomes w w' (<[c := rf']> w.(nodes)).
Proof.
  intros Hc Hs Hp Hi Hinc Ht Hr. pose proof (last_packet _ _ _ Hp) as Hk.
  set (w1 := put_node c rf' (put_net (delete (length ps) w.(net)) w)).
  set (w2 := if reply.(rvr_VoteGranted) && bool_decide (rf.(state) = Candidate)
             then add_counted (c, args.(rv_Term), s) w1 else w1).
  set (w3 := if bool_decide (rf.(state) <> Leader) && bool_decide (rf'.(state) = Leader)
             then put_leader rf'.(currentTerm) c rf'.(logs) w2 else w2).
  exists w3. assert (<[c := rf']> w.(nodes) = w3.(nodes)) as -> by (unfold w3, w2; by repeat case_if).
  apply (deliver_becomes w ps (VoteRep c inc s args reply)); try done; try by unfold w3, w2; repeat case_if.
  - intros src inc' dst a r rf0 Hk' Hrf _ Hst. simplify_eq. auto.
  - by eapply deliver_prudent.
  - cbn [deliver put_net nodes incs]. rewrite Hi. cbn [mbind option_bind]. rewrite decide_True by done. by rewrite Hr.
Qed.

(** ** Winning *)

Lemma elem_of_delete_ne {X} (l : list X) k x y : l !! k = Some y -> x ∈ l -> x <> y -> x ∈ delete k l.
Proof. intros Hk Hx Hne. rewrite (delete_Permutation _ _ _ Hk) in Hx. by apply elem_of_cons in Hx as [?|?]. Qed.

Lemma becomes_lookup w w' (i j : nat) rf rf' r :
  becomes w w' (<[i := rf']> w.(nodes)) -> w.(nodes) !! i = Some rf -> w.(nodes) !! j = Some r ->
  w'.(nodes) !! i = Some rf' /\ (i <> j -> w'.(nodes) !! j = Some r).
Proof.
  intros (_ & -> & _) Hi Hj. split; [apply list_lookup_insert_eq; by eapply lookup_lt_Some|].
  intros Hij. by rewrite list_lookup_insert_ne.
Qed.

Definition sound w : Prop := rtc prudent_step (init n) w.

Lemma sound_live w w' : sound w -> rtc live_step w w' -> sound w'.
Proof.
  unfold sound. intros Hs Hl. etrans; [done|]. eapply (rtc_subrel live_step); [|done]. apply live_is_prudent.
Qed.

Lemma sound_timely w : sound w -> timely_reachable n w.
Proof.
  intros Hs. by destruct (commit_steps n _ _ _ Hs (treach_init n) (init_ack_inv n) (init_commit_inv n _)).
Qed.

Lemma sound_wf w : sound w -> cluster_wf n w.
Proof. intros Hs. by apply reachable_wf, timely_is_reachable, sound_timely. Qed.

Lemma sound_ready w : sound w -> ready n w.
Proof. intros Hs. by apply reachable_ready, timely_is_reachable, sound_timely. Qed.

(** A server that just won: it has heard of nobody's log. *)
Record fresh_leader (T : Z) (L : list (LogEntry Cmd)) rf : Prop := {
  fl_state : rf.(state) = Leader;
  fl_term : rf.(currentTerm) = T;
  fl_logs : rf.(logs) = L;
  fl_loop : rf.(loop) = LoopSelect;
  fl_beat : is_Some rf.(heartbeatTimer).(deadline);
  fl_next : forall k x, rf.(nextIndex) !! k = Some x -> x = len L;
  fl_match : forall k x, rf.(matchIndex) !! k = Some x -> x = 0;
}.

(** A vote that makes or does not yet make a majority. *)
Lemma count_vote rf args reply v :
  rf.(peers) = n -> rf.(state) = Candidate -> rf.(loop) = LoopSelect -> args.(rv_Term) = rf.(currentTerm) ->
  rf.(voteCount) !! rf.(currentTerm) = Some v -> reply.(rvr_VoteGranted) = true ->
  exists rf', startElection_reply rf args reply = Ret rf' /\
    if Z.of_nat (n / 2) <? v + 1 then fresh_leader rf.(currentTerm) rf.(logs) rf'
    else rf' = addVote rf.(currentTerm) rf.
Proof.
  intros Hp Hs Hl Ht Hv Hg. unfold startElection_reply. rewrite Hg, bool_decide_true by done. cbn [andb].
  rewrite Ht. unfold addVote at 2. cbn. rewrite Hv, lookup_insert_eq, Hp. cbn.
  case_if; [|by eexists]. unfold convertTo. rewrite decide_False by (cbn; congruence).
  rewrite broadcastHeartbeat_eq. eexists. split; [reflexivity|]. split; cbn; try done.
  - intros k x (? & -> & _)%list_lookup_fmap_Some. done.
  - intros k x (? & -> & _)%list_lookup_fmap_Some. done.
Qed.

(** No server of [Q] other than [c] is in a term above [T]. *)
Definition led_by (c : nat) (T : Z) w : Prop :=
  forall s, s ∈ Q -> s <> c -> exists r, w.(nodes) !! s = Some r /\ r.(currentTerm) <= T.

(** A server behind the candidate grants its vote. *)
Lemma grants c rf r :
  raft_wf r -> r.(currentTerm) < rf.(currentTerm) -> log_le (last_entry r.(logs)) (last_entry rf.(logs)) ->
  exists r' reply, RequestVote r (ballot c rf) = Ret (r', reply) /\ reply.(rvr_VoteGranted) = true /\
    r'.(currentTerm) = rf.(currentTerm).
Proof.
  intros Hw Ht Hle. destruct (RequestVote_outcome r (ballot c rf) Hw) as (r' & reply & E & Ho).
  exists r', reply. split; [done|]. assert (may_vote r (ballot c rf)) as Hm by (left; exact Ht).
  destruct Ho as [|? Hu|]; [done|by destruct Hu|]. split; [done|]. cbn. rewrite adopt_term. cbn. lia.
Qed.

Lemma gather c rest w rf (v : Z) :
  sound w -> c ∈ Q -> w.(nodes) !! c = Some rf -> rf.(state) = Candidate -> rf.(loop) = LoopSelect ->
  rf.(voteCount) !! rf.(currentTerm) = Some v -> led_by c rf.(currentTerm) w -> NoDup rest -> c ∉ rest ->
  (forall s, s ∈ rest -> s ∈ Q /\ GoVote s (ballot c rf) ∈ rf.(goroutines) /\
     exists r, w.(nodes) !! s = Some r /\ r.(currentTerm) < rf.(currentTerm) /\
       log_le (last_entry r.(logs)) (last_entry rf.(logs))) ->
  Z.of_nat (n / 2) < v + len rest -> v <= Z.of_nat (n / 2) ->
  exists w' rf', rtc live_step w w' /\ w'.(nodes) !! c = Some rf' /\
    fresh_leader rf.(currentTerm) rf.(logs) rf' /\ led_by c rf.(currentTerm) w'.
Proof.
  intros Hs Hc Hi Hst Hl Hv Hled Hnd Hcr. revert w rf v Hs Hi Hst Hl Hv Hled.
  induction Hnd as [|s rest Hsr Hnd IH]; intros w rf v Hs Hi Hst Hl Hv Hled Hall Hn Hle.
  { change (len (@nil nat)) with 0 in Hn. lia. }
  apply not_elem_of_cons in Hcr as [Hcs Hcr].
  destruct (Hall s) as (HsQ & [k Hk]%list_elem_of_lookup & r & Hr & Hrt & Hrl); [by left|].
  pose proof (sound_wf _ Hs) as Hcw. pose proof (cw_node _ _ Hcw _ _ Hi) as Hok.
  destruct (lookup_lt_is_Some_2 w.(incs) c) as [inc Hinc].
  { rewrite (rd_incs _ _ (sound_ready _ Hs)), <- (cw_len _ _ Hcw). by eapply lookup_lt_Some. }
  destruct (grants c rf r) as (r' & reply & Erv & Hg & Hrt'); [apply (cw_node _ _ Hcw _ _ Hr)|done..|].
  destruct (ask_vote w c s k inc rf r (ballot c rf) r' reply) as (w1 & ps & Hb1 & Hnet); [done..|].
  pose proof Hb1 as (_ & En1 & Ei1 & _).
  assert (w1.(nodes) !! c = Some (del_go k rf)) as Hi1.
  { rewrite En1, list_lookup_insert_ne by done. apply list_lookup_insert_eq. by eapply lookup_lt_Some. }
  destruct (count_vote (del_go k rf) (ballot c rf) reply v) as (rf' & Erep & Hrf'); [apply Hok|done..|].
  destruct (take_vote w1 ps c s inc (del_go k rf) (ballot c rf) reply rf') as [w2 Hb2];
    [done|done|done|done|by rewrite Ei1|done|done|].
  pose proof (becomes_trans _ _ _ _ _ Hb1 Hb2) as Hb. pose proof Hb as (Hrtc & En & _). rewrite En1 in En.
  assert (forall j x, j <> c -> j <> s -> w.(nodes) !! j = Some x -> w2.(nodes) !! j = Some x) as Hother.
  { intros j x Hjc Hjs Hx. rewrite En, !list_lookup_insert_ne by done. done. }
  assert (w2.(nodes) !! c = Some rf') as Hi2.
  { rewrite En. apply list_lookup_insert_eq. rewrite !length_insert. by eapply lookup_lt_Some. }
  assert (w2.(nodes) !! s = Some r') as Hs2.
  { rewrite En, list_lookup_insert_ne by done. apply list_lookup_insert_eq. rewrite length_insert. by eapply lookup_lt_Some. }
  assert (led_by c rf.(currentTerm) w2) as Hled2.
  { intros j Hj Hjc. destruct (decide (j = s)) as [->|Hjs]; [exists r'; split; [done|lia]|].
    destruct (Hled j Hj Hjc) as (x & Hx & ?). exists x. split; [by apply Hother|done]. }
  destruct (Z.of_nat (n / 2) <? v + 1) eqn:Hmaj; zbool; [by exists w2, rf'|]. subst rf'.
  destruct (IH Hcr w2 (addVote rf.(currentTerm) (del_go k rf)) (v + 1)) as (w3 & rf3 & Hrtc3 & H3 & H3');
    [by eapply sound_live|done|done|done|cbn; by rewrite Hv, lookup_insert_eq|done| | |lia|].
  - intros j Hj. destruct (Hall j) as (HjQ & Hjg & x & Hx & ? & ?); [by right|].
    assert (j <> s) by (by intros ->). split; [done|]. split.
    + cbn. eapply elem_of_delete_ne; [done|done|congruence].
    + exists x. split; [apply Hother; [by intros ->|done|done]|done].
  - unfold len in *. cbn [length] in Hn. lia.
  - exists w3, rf3. split; [by etrans|done].
Qed.

(** ** The election *)

(** Every server keeps its log. *)
Definition same_logs w w' : Prop :=
  forall j r, w.(nodes) !! j = Some r -> exists r', w'.(nodes) !! j = Some r' /\ r'.(logs) = r.(logs).

Lemma same_logs_put w w' (i : nat) rf rf' :
  w.(nodes) !! i = Some rf -> w'.(nodes) = <[i := rf']> w.(nodes) -> rf'.(logs) = rf.(logs) -> same_logs w w'.
Proof.
  intros Hi En El j r Hj. rewrite En. destruct (decide (j = i)) as [->|].
  - rewrite list_lookup_insert_eq by (by eapply lookup_lt_Some). simplify_eq. eauto.
  - rewrite list_lookup_insert_ne by done. eauto.
Qed.

Lemma same_logs_trans w1 w2 w3 : same_logs w1 w2 -> same_logs w2 w3 -> same_logs w1 w3.
Proof.
  intros H1 H2 j r Hj. destruct (H1 j r Hj) as (r' & Hj' & <-). by apply H2.
Qed.

(** A leader [c] steps down when [s] campaigns in a later term. *)
Lemma stand_down w (c s : nat) rfc rfs :
  sound w -> c ∈ Q -> s ∈ Q -> w.(nodes) !! c = Some rfc -> w.(nodes) !! s = Some rfs ->
  rfc.(state) = Leader -> rfs.(state) <> Leader ->
  exists w' rfc', rtc live_step w w' /\ w'.(nodes) !! c = Some rfc' /\ rfc'.(state) <> Leader /\ same_logs w w'.
Proof.
  intros Hs Hc HsQ Hic His Hlc Hls. assert (c <> s) as Hcs by (intros ->; congruence).
  pose proof (sound_wf _ Hs) as Hcw.
  destruct (local_raise s HsQ rfs rfc.(currentTerm)) as (r & Hl & Hcp & Ht);
    [by apply (cw_node _ _ Hcw)|done|by eapply rd_armed, His; apply sound_ready|].
  destruct (Hl w His) as [w1 Hb1]. destruct (becomes_lookup _ _ _ _ _ _ _ Hb1 His Hic) as [His1 Hic1].
  specialize (Hic1 ltac:(done)). pose proof Hb1 as (Hrtc1 & En1 & _).
  assert (sound w1) as Hs1 by (by eapply sound_live). pose proof (sound_wf _ Hs1) as Hcw1.
  assert (exists k, r.(goroutines) !! k = Some (GoVote c (ballot s r))) as [k Hk].
  { apply list_elem_of_lookup, Hcp; [|done]. rewrite <- (cw_len _ _ Hcw). by eapply lookup_lt_Some. }
  destruct (lookup_lt_is_Some_2 w1.(incs) s) as [inc Hinc].
  { rewrite (rd_incs _ _ (sound_ready _ Hs1)), <- (cw_len _ _ Hcw1). by eapply lookup_lt_Some. }
  destruct (RequestVote_outcome rfc (ballot s r)) as (rfc' & reply & Erv & Ho); [apply (cw_node _ _ Hcw _ _ Hic)|].
  destruct (ask_vote w1 s c k inc r rfc (ballot s r) rfc' reply) as (w2 & ps & Hb2 & _); [done..|].
  pose proof Hb2 as (Hrtc2 & En2 & _). exists w2, rfc'. split; [by etrans|].
  assert (rfc'.(state) = Follower /\ rfc'.(logs) = rfc.(logs)) as [Hst Hlg].
  { destruct (adopt_frame (ballot s r).(rv_Term) rfc) as (_ & _ & El & _).
    pose proof (adopt_higher_state (ballot s r).(rv_Term) rfc Ht) as Ef.
    destruct Ho as [Hm| |]; [destruct Hm; by left|done|done]. }
  split; [rewrite En2; apply list_lookup_insert_eq; rewrite length_insert; by eapply lookup_lt_Some|].
  split; [by rewrite Hst|].
  eapply same_logs_trans; [eapply (same_logs_put w w1); [exact His|exact En1|apply Hcp]|].
  eapply (same_logs_trans _ (put_node s (del_go k r) w1)); [by apply (same_logs_put w1 _ s r (del_go k r))|].
  eapply (same_logs_put _ _ c rfc); [|exact En2|done]. cbn. by rewrite list_lookup_insert_ne.
Qed.

Lemma log_le_total a b : log_le a b \/ log_le b a.
Proof. unfold log_le. lia. Qed.
Lemma log_le_trans a b c : log_le a b -> log_le b c -> log_le a c.
Proof. unfold log_le. lia. Qed.

(** Among the servers one has the most up-to-date log, and their terms are bounded. *)
Lemma best_server w (P : list nat) :
  P <> [] -> (forall s, s ∈ P -> is_Some (w.(nodes) !! s)) ->
  exists c rfc (m : Z), c ∈ P /\ w.(nodes) !! c = Some rfc /\
    forall s r, s ∈ P -> w.(nodes) !! s = Some r ->
      log_le (last_entry r.(logs)) (last_entry rfc.(logs)) /\ r.(currentTerm) <= m.
Proof.
  induction P as [|p P IH]; intros Hne Hall; [done|].
  destruct (Hall p) as [rp Hp]; [by left|]. destruct (decide (P = [])) as [->|HP].
  - exists p, rp, rp.(currentTerm). split; [by left|]. split; [done|].
    intros s r ->%list_elem_of_singleton Hr. simplify_eq. split; [unfold log_le; lia|lia].
  - destruct IH as (c & rfc & m & Hc & Hi & Hbest); [done|intros; apply Hall; by right|].
    assert (forall s r, s ∈ p :: P -> w.(nodes) !! s = Some r -> r.(currentTerm) <= Z.max m rp.(currentTerm)) as Hm.
    { intros s r [->|Hs]%elem_of_cons Hr; [simplify_eq; lia|]. destruct (Hbest s r Hs Hr). lia. }
    destruct (log_le_total (last_entry rp.(logs)) (last_entry rfc.(logs))) as [Hle|Hle].
    + exists c, rfc, (Z.max m rp.(currentTerm)). split; [by right|]. split; [done|].
      intros s r Hs Hr. split; [|by eapply Hm]. apply elem_of_cons in Hs as [->|Hs]; [by simplify_eq|by eapply Hbest].
    + exists p, rp, (Z.max m rp.(currentTerm)). split; [by left|]. split; [done|].
      intros s r Hs Hr. split; [|by eapply Hm]. apply elem_of_cons in Hs as [->|Hs].
      * simplify_eq. unfold log_le. lia.
      * eapply log_le_trans; [by eapply Hbest|done].
Qed.

Section majority.
Context (Hn : (1 < n)%nat) (HND : NoDup Q) (Hmaj : (n / 2 < length Q)%nat) (HQ : forall i, i ∈ Q -> (i < n)%nat).

Lemma member_node w (i : nat) : sound w -> i ∈ Q -> is_Some (w.(nodes) !! i).
Proof. intros Hs Hi. apply lookup_lt_is_Some_2. rewrite (cw_len _ _ (sound_wf _ Hs)). auto. Qed.

Lemma others_length (c : nat) : c ∈ Q -> length Q = S (length (filter (fun s => s <> c) Q)).
Proof.
  intros Hc. revert HND Hc. clear. induction 1 as [|x l Hx Hl IH]; intros Hc; [by apply not_elem_of_nil in Hc|].
  cbn [length]. f_equal. rewrite filter_cons. case_decide as Hd.
  - apply elem_of_cons in Hc as [->|Hc]; [done|]. cbn [length]. by apply IH.
  - assert (x = c) as -> by (destruct (decide (x = c)); tauto). clear -Hx. induction l as [|y l IH]; [done|].
    apply not_elem_of_cons in Hx as [? ?]. rewrite filter_cons, decide_True by done. cbn. f_equal. by apply IH.
Qed.

(** A candidate with the best log and the highest term wins. *)
Lemma campaign_wins w (c : nat) rf (m : Z) :
  sound w -> c ∈ Q -> w.(nodes) !! c = Some rf -> rf.(state) <> Leader ->
  (forall s r, s ∈ Q -> w.(nodes) !! s = Some r ->
     log_le (last_entry r.(logs)) (last_entry rf.(logs)) /\ r.(currentTerm) <= m) ->
  exists w' rf', rtc live_step w w' /\ w'.(nodes) !! c = Some rf' /\ m < rf'.(currentTerm) /\
    fresh_leader rf'.(currentTerm) rf.(logs) rf' /\ led_by c rf'.(currentTerm) w'.
Proof.
  intros Hs Hc Hi Hst Hbest. pose proof (sound_wf _ Hs) as Hcw.
  destruct (local_raise c Hc rf m) as (r & Hl & Hcp & Ht);
    [by apply (cw_node _ _ Hcw)|done|by eapply rd_armed, Hi; apply sound_ready|].
  destruct (Hl w Hi) as [w1 Hb]. pose proof Hb as (Hrtc & En & _).
  assert (forall s x, s <> c -> w.(nodes) !! s = Some x -> w1.(nodes) !! s = Some x) as Hother.
  { intros s x Hsc Hx. by rewrite En, list_lookup_insert_ne by done. }
  assert (sound w1) as Hs1 by (by eapply sound_live).
  destruct (gather c (filter (fun s => s <> c) Q) w1 r 1) as (w2 & rf' & Hrtc2 & Hi2 & Hfl & Hled); try done; try apply Hcp.
  - rewrite En. apply list_lookup_insert_eq. by eapply lookup_lt_Some.
  - intros s HsQ Hsc. destruct (member_node w s Hs HsQ) as [x Hx]. exists x. split; [by apply Hother|].
    destruct (Hbest s x HsQ Hx). lia.
  - by apply NoDup_filter.
  - by intros [? _]%list_elem_of_filter.
  - intros s [Hsc HsQ]%list_elem_of_filter. split; [done|]. split; [apply Hcp; [by apply HQ|done]|].
    destruct (member_node w s Hs HsQ) as [x Hx]. exists x. destruct (Hbest s x HsQ Hx).
    split; [by apply Hother|]. split; [lia|]. by rewrite (cp_logs _ _ _ Hcp).
  - pose proof (others_length c Hc). unfold len. lia.
  - assert (1 <= n / 2)%nat by (apply (Nat.div_le_lower_bound n 2 1); lia). lia.
  - exists w2, rf'. split; [by etrans|]. split; [done|]. rewrite (fl_term _ _ _ Hfl), <- (cp_logs _ _ _ Hcp). done.
Qed.

Lemma can_elect w :
  sound w -> (exists s r, s ∈ Q /\ w.(nodes) !! s = Some r /\ r.(state) <> Leader) ->
  exists w' c rf, rtc live_step w w' /\ c ∈ Q /\ w'.(nodes) !! c = Some rf /\
    fresh_leader rf.(currentTerm) rf.(logs) rf /\ led_by c rf.(currentTerm) w'.
Proof.
  intros Hs (s & rs & HsQ & His & Hns).
  destruct (best_server w Q) as (c & rfc & m0 & Hc & Hi & Hbest);
    [by intros ->; apply not_elem_of_nil in HsQ|by intros; apply member_node|].
  assert (exists w1 rf1, rtc live_step w w1 /\ w1.(nodes) !! c = Some rf1 /\ rf1.(state) <> Leader /\
    same_logs w w1) as (w1 & rf1 & Hrtc1 & Hi1 & Hst1 & Hsame).
  { destruct (decide (rfc.(state) = Leader)) as [Hl|Hl]; [by apply (stand_down w c s rfc rs)|].
    exists w, rfc. split; [done|]. split; [done|]. split; [done|]. intros j r Hj. eauto. }
  assert (sound w1) as Hs1 by (by eapply sound_live).
  destruct (best_server w1 Q) as (c1 & rfc1 & m & _ & _ & Hm);
    [by intros ->; apply not_elem_of_nil in HsQ|by intros; apply member_node|].
  destruct (campaign_wins w1 c rf1 m) as (w2 & rf2 & Hrtc2 & Hi2 & _ & Hfl & Hled); [done..| |].
  - intros j r Hj Hr. split; [|by eapply Hm]. destruct (member_node w j Hs Hj) as [r0 Hr0].
    destruct (Hsame _ _ Hr0) as (? & ? & El); simplify_eq. destruct (Hsame _ _ Hi) as (? & ? & El'); simplify_eq.
    rewrite El, El'. by eapply Hbest.
  - exists w2, c, rf2. split; [by etrans|]. rewrite (fl_logs _ _ _ Hfl). done.
Qed.
End majority.
End live.
