(* ===== verification/RaftProgress.v ===== *)
(** * RaftProgress: a majority can always commit

    From any state that a timely and prudent run can reach, a majority of servers
    that stay up and can talk to each other has a run of its own in which a new
    command is replicated, committed and delivered by all of them.  RaftElect.v
    gives a leader; here it appends the command, repairs the log of one server
    after the other, commits when a majority holds the entry, tells the others,
    and everyone delivers. *)

From S2P Require Import Prelude Gob Raft RaftFacts RaftHandlers RaftSpec RaftReplicate Cluster ClusterStep.
From S2P Require Import Election ElectionSafety Leaders Apply RaftTraces RaftSafety.
From S2P Require Import RaftAck RaftAckStep RaftCommit RaftMachine RaftLog RaftElect.
Local Open Scope Z_scope.

Section progress.
Context {Cmd : Type} `{!Gob (PVal Cmd)} `{!Rand} (n : nat) (Q : list nat).
Context (Hn : (1 < n)%nat) (HND : NoDup Q) (Hmaj : (n / 2 < length Q)%nat) (HQ : forall i, i ∈ Q -> (i < n)%nat).
Implicit Types (rf ld r : Raft Cmd) (w : Cluster Cmd).

(** ** What is committed is in the leader's log *)

Lemma leader_has_committed w A (c : nat) rf t k :
  sound n w -> ack_inv n w A -> w.(nodes) !! c = Some rf -> rf.(state) = Leader -> led_by Q c rf.(currentTerm) w ->
  committed n w.(leaders) A t k -> (k < length rf.(logs))%nat.
Proof.
  intros Hs Ha Hi Hst Hled Hcom. pose proof (timely_leader_inv _ _ (sound_timely _ _ Hs)) as Hl.
  pose proof (li_leader _ _ Hl _ _ Hi Hst) as HL. pose proof Hcom as [Hown (Q' & HND' & Hmaj' & HQ')].
  assert (t <= rf.(currentTerm)) as Ht.
  { destruct (majorities_meet n Q Q') as (v & Hv & Hv'); [done..|by intros j [? _]%HQ'|done|done|].
    destruct (HQ' v Hv') as (_ & k1 & _ & HA). destruct (av_node _ _ _ Ha _ _ _ HA) as (r & i & L & Hr & Htr & _).
    destruct (decide (v = c)) as [->|Hvc]; [by simplify_eq|]. destruct (Hled v Hv Hvc) as (r' & Hr' & ?).
    simplify_eq. lia. }
  destruct (decide (t = rf.(currentTerm))) as [->|Hne].
  - destruct Hown as (_ & i & L & e & HL' & He & _). rewrite HL in HL'. simplify_eq. by eapply lookup_lt_Some.
  - eapply holds_len, (committed_later n w A t k rf.(currentTerm)); [exact Ha|exact Hcom|lia|exact HL].
Qed.

(** The commit index and what was delivered are behind the leader's log. *)
Lemma leader_is_ahead w (c i : nat) rf r :
  sound n w -> w.(nodes) !! c = Some rf -> rf.(state) = Leader -> led_by Q c rf.(currentTerm) w ->
  w.(nodes) !! i = Some r -> r.(commitIndex) < len rf.(logs) /\ r.(lastApplied) < len rf.(logs).
Proof.
  intros Hs Hc Hst Hled Hi.
  destruct (commit_steps n _ _ _ Hs (treach_init n) (init_ack_inv n) (init_commit_inv n _)) as (Hr & A & _ & _ & Ha & Hcm).
  pose proof (leader_has_committed w A c rf) as Hk.
  assert (0 < len rf.(logs)) as Hpos.
  { pose proof (log_wf_len _ (wf_log _ (no_wf _ _ _ (cw_node _ _ (sound_wf _ _ Hs) _ _ Hc)))). lia. }
  split.
  - destruct (cm_node _ _ _ Hcm _ _ Hi) as ([?|(t & k & _ & Hcom & Hle & _)] & _); [lia|].
    specialize (Hk t k Hs Ha Hc Hst Hled Hcom). unfold len. lia.
  - destruct (Z_le_gt_dec r.(lastApplied) 0) as [?|Hla]; [lia|].
    destruct (reachable_apply_inv _ _ (timely_is_reachable _ _ Hr) _ _ Hi) as (ms & Hms & [Hd _] & _).
    destruct (Hd r.(lastApplied)) as (m & Hm & Em); [lia|].
    destruct (cm_msg _ _ _ Hcm _ _ _ Hms Hm) as (e & _ & t & k & i' & L & Hcom & _ & Hle & _).
    specialize (Hk t k Hs Ha Hc Hst Hled Hcom). unfold len. lia.
Qed.

(** ** Heartbeats *)

(** The loop of a leader takes a heartbeat: one goroutine per other server. *)
Lemma local_beat (c : nat) ld :
  c ∈ Q -> ld.(state) = Leader -> ld.(loop) = LoopSelect -> is_Some ld.(heartbeatTimer).(deadline) ->
  exists t, is_Some t.(deadline) /\
    local Q c ld (set_heartbeatTimer t (set_goroutines (ld.(goroutines) ++ map GoHeartbeat (others ld)) ld)).
Proof.
  intros Hc Hst Hl [d Hd]. eexists. split; [|].
  2:{ set (l1 := set_heartbeatTimer {| deadline := None; C := true |} ld).
    set (l2 := set_loop LoopHeartbeat (set_heartbeatTimer {| deadline := None; C := false |} ld)).
    eapply (local_trans Q c _ l1); [|eapply (local_trans Q c _ l2)].
    - apply (local_step Q c ld _ (LExpireHeartbeat c) (put_node c l1)).
      intros w Hi. cbn. rewrite Hi. cbn. unfold expire. by rewrite Hd.
    - apply (local_step Q c l1 _ (LRecvHeartbeat c) (put_node c l2)).
      intros w Hi. cbn. rewrite Hi. cbn. by rewrite Hl.
    - eapply (local_step Q c l2 _ (LLoop c) (put_node c (onHeartbeatTimer (set_loop LoopSelect l2)))).
      intros w Hi. cbn [step]. rewrite Hi. split; [done|]. split; [intros r Hr Hlr; simplify_eq|].
      split; [done|]. split; [done|]. split; [|done]. cbn [nodes put_node]. f_equal.
      unfold onHeartbeatTimer. rewrite decide_True by exact Hst. rewrite broadcastHeartbeat_eq. cbn.
      unfold set_heartbeatTimer, set_goroutines. cbn. rewrite <- Hl. reflexivity. }
  by eexists.
Qed.

(** The goroutine sends the entries and the follower answers. *)
Lemma ask_append w (c s k inc : nat) ld r args r' reply :
  c ∈ Q -> s ∈ Q -> c <> s -> w.(nodes) !! c = Some ld -> w.(nodes) !! s = Some r ->
  w.(incs) !! c = Some inc -> ld.(goroutines) !! k = Some (GoHeartbeat s) ->
  broadcastHeartbeat_send (del_go k ld) s = Ret (Some args) -> AppendEntries r args = Ret (r', reply) ->
  exists w' ps, becomes Q w w' (<[s := r']> (<[c := del_go k ld]> w.(nodes))) /\
    w'.(net) = ps ++ [AppRep c inc s args reply].
Proof.
  intros Hc Hs Hcs Hic His Hinc Hk Hsend Hae.
  set (w1 := send (AppReq c inc s args) (put_node c (del_go k ld) w)).
  assert (becomes Q w w1 w1.(nodes)) as Hb1.
  { split; [|done]. apply rtc_once. apply (live_go Q w w1 c k inc (GoHeartbeat s) ld); [done..|]. cbn [run_goroutine]. by rewrite Hsend. }
  set (w3 := send (AppRep c inc s args reply) (put_node s r' (put_net (delete (length w.(net)) w1.(net)) w1))).
  assert (w1.(net) !! length w.(net) = Some (AppReq c inc s args)) as Hp by (by apply last_packet).
  exists w3. eexists. split; [|reflexivity]. eapply becomes_trans; [exact Hb1|].
  apply (deliver_becomes Q w1 w.(net) (AppReq c inc s args)); try done.
  - intros ? ? ? ? ? ? Hk'. congruence.
  - by eapply deliver_prudent.
  - cbn [deliver put_net nodes w1 send put_node]. rewrite list_lookup_insert_ne by done. rewrite His.
    cbn [mbind option_bind]. by rewrite Hae.
Qed.

(** The leader handles the answer. *)
Lemma take_append w ps (c s inc : nat) rf args reply rf' :
  c ∈ Q -> s ∈ Q -> w.(net) = ps ++ [AppRep c inc s args reply] -> w.(nodes) !! c = Some rf ->
  w.(incs) !! c = Some inc -> broadcastHeartbeat_reply rf s args reply = Ret rf' ->
  (reply.(aer_Success) = true -> in_term rf args rf' /\ own_commit rf args rf') ->
  exists w', becomes Q w w' (<[c := rf']> w.(nodes)).
Proof.
  intros Hc Hs Hp Hi Hinc Hr Hpr. pose proof (last_packet _ _ _ Hp) as Hk.
  exists (put_node c rf' (put_net (delete (length ps) w.(net)) w)).
  apply (deliver_becomes Q w ps (AppRep c inc s args reply)); try done.
  - intros ? ? ? ? ? ? Hk'. congruence.
  - split; intros src inc' dst a rp r1 r2 Hk' Hn1 _ Hsu Hrep; simplify_eq; rewrite Hr in Hrep; inv_res; by apply Hpr.
  - cbn [deliver put_net nodes incs]. rewrite Hi. cbn [mbind option_bind]. rewrite decide_True by done. by rewrite Hr.
Qed.

Lemma exchange_append w (c s k : nat) ld r args r' reply ld' :
  sound n w -> c ∈ Q -> s ∈ Q -> c <> s -> w.(nodes) !! c = Some ld -> w.(nodes) !! s = Some r ->
  ld.(goroutines) !! k = Some (GoHeartbeat s) -> broadcastHeartbeat_send (del_go k ld) s = Ret (Some args) ->
  AppendEntries r args = Ret (r', reply) -> broadcastHeartbeat_reply (del_go k ld) s args reply = Ret ld' ->
  (reply.(aer_Success) = true -> in_term (del_go k ld) args ld' /\ own_commit (del_go k ld) args ld') ->
  exists w', becomes Q w w' (<[c := ld']> (<[s := r']> w.(nodes))).
Proof.
  intros Hs Hc HsQ Hcs Hi Hr Hk Hsend Hae Hrep Hpru. pose proof (sound_wf _ _ Hs) as Hcw.
  destruct (lookup_lt_is_Some_2 w.(incs) c) as [inc Hinc].
  { rewrite (rd_incs _ _ (sound_ready _ _ Hs)), <- (cw_len _ _ Hcw). by eapply lookup_lt_Some. }
  destruct (ask_append w c s k inc ld r args r' reply) as (w1 & ps & Hb1 & Hnet); [done..|].
  pose proof Hb1 as (_ & En1 & Ei1 & _).
  destruct (take_append w1 ps c s inc (del_go k ld) args reply ld') as [w2 Hb2]; try done.
  - rewrite En1, list_lookup_insert_ne by done. apply list_lookup_insert_eq. by eapply lookup_lt_Some.
  - by rewrite Ei1.
  - exists w2. rewrite En1, (list_insert_insert_ne _ s c), list_insert_insert_eq in Hb2 by done.
    rewrite (list_insert_insert_ne _ c s) by done. rewrite list_insert_insert_ne in Hb2 by done.
    by eapply becomes_trans.
Qed.

(** ** Replicating an entry

    Server [c] leads term [T] with log [L], whose last entry [e] at [idx] is of its
    own term. *)

Section entry.
Context (c idx : nat) (Hc : c ∈ Q) (T : Z) (L : list (LogEntry Cmd)) (e : LogEntry Cmd).
Context (HL : length L = S idx) (He : L !! idx = Some e) (HeT : e.(le_Term) = T) (Hidx : (0 < idx)%nat).

(** A goroutine is about to deliver [e]. *)
Definition pending rf : Prop :=
  exists a es (j : nat), GoApply a es ∈ rf.(goroutines) /\ a + Z.of_nat j = Z.of_nat idx /\ es !! j = Some e.

(** [rf] has not committed [idx], or is about to deliver it. *)
Definition due rf : Prop :=
  rf.(commitIndex) < Z.of_nat idx /\ rf.(lastApplied) < Z.of_nat idx \/ pending rf.

Lemma pending_mono rf rf' : (forall g, g ∈ rf.(goroutines) -> g ∈ rf'.(goroutines)) -> pending rf -> pending rf'.
Proof. intros Hg (a & es & j & Hin & ?). exists a, es, j. split; [by apply Hg|done]. Qed.

Lemma due_mono rf rf' :
  rf'.(commitIndex) = rf.(commitIndex) -> rf'.(lastApplied) = rf.(lastApplied) ->
  (forall g, g ∈ rf.(goroutines) -> g ∈ rf'.(goroutines)) -> due rf -> due rf'.
Proof. unfold due. intros -> -> Hg [?|Hp]; [by left|right]. by eapply pending_mono. Qed.

(** Finished heartbeats do not matter. *)
Lemma due_del_go k s rf : rf.(goroutines) !! k = Some (GoHeartbeat s) -> due rf -> due (del_go k rf).
Proof.
  intros Hk [?|(a & es & j & Hin & ?)]; [by left|right]. exists a, es, j. split; [|done].
  cbn. by eapply elem_of_delete_ne.
Qed.

Lemma setCommitIndex_due rf ci rf' :
  0 <= rf.(lastApplied) -> rf.(logs) !! idx = Some e -> ci <= Z.of_nat idx -> due rf ->
  setCommitIndex rf ci = Ret rf' -> due rf' /\ (ci = Z.of_nat idx -> pending rf').
Proof.
  intros Hla Hle Hci Hd E. destruct Hd as [[Hcm Hap]|Hp].
  2:{ assert (pending rf'); [|by split; [right|]]. apply setCommitIndex_frame in E as (gs & -> & _).
      eapply pending_mono; [|exact Hp]. cbn. intros g Hg. apply elem_of_app. by left. }
  destruct (decide (ci = Z.of_nat idx)) as [->|Hne].
  - assert (pending rf'); [|by split; [right|]]. unfold setCommitIndex in E. cbn in E.
    destruct (Z.ltb_spec rf.(lastApplied) (Z.of_nat idx)); [|lia]. bind_inv E. inv_res.
    apply slice_Ret in E0 as (Hlo & Hhi & ->).
    exists (rf.(lastApplied) + 1). eexists _, (idx - Z.to_nat (rf.(lastApplied) + 1))%nat.
    split; [cbn; apply elem_of_app; right; by left|]. split; [lia|].
    rewrite lookup_take_lt by lia. rewrite lookup_drop.
    by replace (Z.to_nat (rf.(lastApplied) + 1) + (idx - Z.to_nat (rf.(lastApplied) + 1)))%nat with idx by lia.
  - split; [|done]. apply setCommitIndex_frame in E as (gs & -> & _). left. cbn. lia.
Qed.

Lemma follower_commit_due rf lc rf' :
  0 <= rf.(lastApplied) -> rf.(logs) !! idx = Some e -> lc <= Z.of_nat idx -> due rf ->
  follower_commit rf lc = Ret rf' -> due rf' /\ (lc = Z.of_nat idx -> pending rf').
Proof.
  intros Hla Hle Hlc Hd E. pose proof (lookup_lt_Some _ _ _ Hle) as Hlen. unfold follower_commit in E.
  destruct (Z.ltb_spec rf.(commitIndex) lc).
  - rewrite Z.min_l in E by (unfold len; lia). by eapply setCommitIndex_due.
  - inv_res. split; [done|]. intros ->. destruct Hd as [[? ?]|?]; [lia|done].
Qed.

(** The leader: what it knows of the others is nothing or all, and it commits
    as soon as it knows of a majority. *)
Record lead_ok ld : Prop := {
  lo_state : ld.(state) = Leader;
  lo_term : ld.(currentTerm) = T;
  lo_logs : ld.(logs) = L;
  lo_loop : ld.(loop) = LoopSelect;
  lo_beat : is_Some ld.(heartbeatTimer).(deadline);
  lo_next : forall s, (s < n)%nat -> s <> c ->
    exists k : nat, ld.(nextIndex) !! s = Some (Z.of_nat k) /\ (0 < k <= S idx)%nat;
  lo_match : forall v m, ld.(matchIndex) !! v = Some m -> m = 0 \/ m = Z.of_nat idx;
  lo_commit : ld.(commitIndex) <= Z.of_nat idx;
  lo_maj : majority ld (Z.of_nat idx) -> ld.(commitIndex) = Z.of_nat idx;
  lo_due : due ld;
}.

Lemma lead_ok_del_go k s ld : ld.(goroutines) !! k = Some (GoHeartbeat s) -> lead_ok ld -> lead_ok (del_go k ld).
Proof. intros Hk []. split; try done. by eapply due_del_go. Qed.

Lemma lead_ok_next s (k : nat) ld :
  (0 < k <= S idx)%nat -> lead_ok ld -> lead_ok (set_nextIndex (<[s := Z.of_nat k]> ld.(nextIndex)) ld).
Proof.
  intros Hk []. split; try done. intros s' Hs' Hne. cbn. destruct (lo_next0 s' Hs' Hne) as (k' & Hk' & ?).
  destruct (decide (s = s')) as [->|].
  - exists k. rewrite list_lookup_insert_eq by (by eapply lookup_lt_Some). done.
  - exists k'. by rewrite list_lookup_insert_ne.
Qed.

(** Counting at any index above the commit index is counting at [idx]. *)
Lemma majority_any rf i :
  (forall v m, rf.(matchIndex) !! v = Some m -> m = 0 \/ m = Z.of_nat idx) -> 0 < i <= Z.of_nat idx ->
  majority rf i -> majority rf (Z.of_nat idx).
Proof.
  intros Hm Hi. unfold majority, matchCount. intros Hlt. eapply Z.lt_le_trans; [exact Hlt|].
  unfold len. apply inj_le. revert Hm. generalize rf.(matchIndex) as l. clear -Hi. intros l Hm.
  induction l as [|x l IH]; [done|]. rewrite !filter_cons.
  assert (length (filter (fun m => (i <= m)%Z) l) <= length (filter (fun m => (Z.of_nat idx <= m)%Z) l))%nat.
  { apply IH. intros v m Hv. by apply (Hm (S v)). }
  destruct (Hm 0%nat x eq_refl) as [->| ->]; repeat case_decide; cbn [length]; lia.
Qed.

(** The leader handles a Success for its whole log. *)
Lemma lead_success ld s args reply :
  lead_ok ld -> raft_wf ld -> ld.(peers) = n -> (s < n)%nat -> s <> c ->
  args.(ae_PrevLogIndex) + len args.(ae_Entries) = Z.of_nat idx -> reply.(aer_Success) = true ->
  exists ld', broadcastHeartbeat_reply ld s args reply = Ret ld' /\ lead_ok ld' /\
    ld'.(matchIndex) = <[s := Z.of_nat idx]> ld.(matchIndex) /\ ld.(commitIndex) <= ld'.(commitIndex) /\
    own_commit ld args ld'.
Proof.
  intros Hld Hw Hp Hs Hsc Hm Hok. rewrite success_scan by (by rewrite ?Hp). rewrite Hm. cbn zeta.
  replace (Z.of_nat idx + 1) with (Z.of_nat (S idx)) by lia.
  match goal with |- context [commitScan _ ?r _] => set (r1 := r) end.
  assert (lead_ok (set_nextIndex (<[s := Z.of_nat (S idx)]> ld.(nextIndex)) ld)) as Hnx by (apply lead_ok_next; [lia|done]).
  assert (forall v m, r1.(matchIndex) !! v = Some m -> m = 0 \/ m = Z.of_nat idx) as Hmt.
  { intros v m [(-> & -> & _)|[_ ?]]%list_lookup_insert_Some; [by right|by eapply lo_match]. }
  assert (len r1.(logs) - 1 = Z.of_nat idx) as El by (cbn; rewrite (lo_logs _ Hld); unfold len; lia).
  change (len ld.(logs) - 1) with (len r1.(logs) - 1). rewrite El.
  destruct (commitScan_spec r1 (Z.of_nat idx)) as (ld' & ci & gs & E & Hsh & _ & Hmax & Hci);
    [apply Hw|lia|].
  assert (ld'.(matchIndex) = r1.(matchIndex) /\ ld'.(commitIndex) = ci /\ ld'.(peers) = r1.(peers)) as (Em & Ec & Ep)
    by (by rewrite Hsh).
  assert (majority ld' (Z.of_nat idx) -> ci = Z.of_nat idx) as Hmj.
  { unfold majority. rewrite Em, Ep. intros Hj. pose proof (lo_commit _ Hld). destruct (Z_lt_le_dec ci (Z.of_nat idx)).
    - exfalso. apply (Hmax (Z.of_nat idx)); [lia|exact Hj].
    - destruct Hci as [->|[? _]]; cbn in *; lia. }
  assert (ci = ld.(commitIndex) \/ ld.(commitIndex) < ci /\ ci = Z.of_nat idx) as Hci'.
  { destruct Hci as [->|[Hr Hj]]; [by left|right]. split; [apply Hr|]. apply Hmj.
    unfold majority. rewrite Em, Ep. eapply majority_any; [exact Hmt| |exact Hj]. pose proof (wf_commit _ Hw). cbn in Hr. lia. }
  assert (due ld') as Hdue.
  { assert (due r1) as Hd1 by (eapply due_mono; [..|exact (lo_due _ Hld)]; done).
    destruct (commitScan_cases _ _ _ _ E) as [->|(c' & Hlt & Hj & Eset)]; [done|].
    eapply (setCommitIndex_due r1 c'); [apply Hw|cbn; by rewrite (lo_logs _ Hld)| |done|exact Eset].
    apply setCommitIndex_frame in Eset as (gs' & Eset & _). rewrite Eset in Ec. cbn in Ec.
    pose proof (lo_commit _ Hld). lia. }
  exists ld'. split; [exact E|]. pose proof (lo_commit _ Hld) as Hle. split; [|split; [exact Em|split; [lia|]]].
  - destruct Hnx. split; try (rewrite Hsh; done); rewrite ?Em, ?Ec; [lia|done|done].
  - unfold own_commit. rewrite (lo_logs _ Hld), Ec. destruct Hci' as [->|[_ ->]]; [by left|right]. split; [apply Hld|].
    rewrite Nat2Z.id. exists e. by rewrite (lo_term _ Hld).
Qed.

(** A follower that is not in a later term answers Success and has the entry, or
    says where to go on. *)
Lemma follower_append ld r next prev :
  lead_ok ld -> raft_wf ld -> raft_wf r -> r.(currentTerm) <= T -> due r -> matching r.(logs) L ->
  (0 < next <= S idx)%nat -> L !! pred next = Some prev ->
  exists r' reply, AppendEntries r (append_args ld next prev) = Ret (r', reply) /\ r'.(currentTerm) = T /\ due r' /\
    if reply.(aer_Success) then ld.(commitIndex) = Z.of_nat idx -> pending r'
    else reply.(aer_Term) <= T /\ exists ci : nat, reply.(aer_ConflictIndex) = Z.of_nat ci /\ (0 < ci <= pred next)%nat.
Proof.
  intros Hld Hwl Hw Ht Hd Hm Hnx Hp. set (args := append_args ld next prev).
  assert (args_wf args) as Ha by (apply append_args_wf; [apply Hwl..|lia|by rewrite (lo_logs _ Hld)]).
  destruct (AppendEntries_outcome r args Hw Ha) as (r' & reply & E & Ho). exists r', reply. split; [done|].
  assert (args.(ae_Term) = T) as Eat by apply Hld. assert (Z.to_nat args.(ae_PrevLogIndex) = pred next) as Enp by (cbn; lia).
  destruct (adopt_frame args.(ae_Term) r) as (_ & _ & El & Ecm & Eap & _ & _ & Eg & _).
  assert ((adopt args.(ae_Term) r).(currentTerm) = T) as Etm by (rewrite adopt_term; lia).
  assert (due (adopt args.(ae_Term) r)) as Hda by (eapply due_mono; [..|exact Hd]; rewrite ?Eg; done).
  destruct Ho as [Hlt|Hle Hsh|x ci Hle Hx Hne Hci _ _|x r1 r2 Hle Hx Heq -> Hf]; cbn [aer_Success aer_Term aer_ConflictIndex].
  - lia.
  - split; [exact Etm|]. split; [exact Hda|]. split; [lia|]. exists (length r.(logs)). split; [done|].
    pose proof (log_wf_len _ (wf_log _ Hw)). cbn in Hsh. unfold len in *. lia.
  - split; [exact Etm|]. split; [exact Hda|]. split; [lia|]. exists ci. split; [done|]. by rewrite <- Enp.
  - rewrite Enp in *. replace (S (pred next)) with next in Hf by lia.
    destruct (merge_entries_match r.(logs) L (pred next) (drop next L)) as [Hpre _]; [done| |by exists x, prev|].
    { by replace (S (pred next)) with next by lia. }
    replace (S (pred next)) with next in Hpre by lia. rewrite length_drop, HL in Hpre.
    replace (next + (S idx - next))%nat with (S idx) in Hpre by lia. rewrite (take_ge L) in Hpre by lia.
    assert (merge_entries r.(logs) next args.(ae_Entries) !! idx = Some e) as Hme.
    { cbn. rewrite (lo_logs _ Hld). rewrite <- (lookup_take_lt _ (S idx)), Hpre by lia. done. }
    match type of Hf with follower_commit ?x _ = _ =>
      destruct (follower_commit_due x args.(ae_LeaderCommit) r2) as [Hdue Hpend]; [|exact Hme|apply Hld| |exact Hf|]
    end.
    + change (0 <= (adopt args.(ae_Term) r).(lastApplied)). rewrite Eap. apply Hw.
    + exact Hda.
    + assert (r2.(currentTerm) = T) as Et2 by (apply follower_commit_frame in Hf as (gs & -> & _); exact Etm).
      split; [exact Et2|]. split; [by apply (due_mono r2)|]. intros Hci. by apply (pending_mono r2), Hpend.
Qed.

(** *** Exchanges in the cluster *)

Record leading w ld : Prop := {
  le_sound : sound n w;
  le_node : w.(nodes) !! c = Some ld;
  le_ok : lead_ok ld;
  le_rest : forall s, s ∈ Q -> s <> c -> exists r, w.(nodes) !! s = Some r /\ r.(currentTerm) <= T /\ due r;
}.

(** The leader and server [s] have moved on. *)
Record follows (s : nat) w ld w' ld' : Prop := {
  fo_steps : rtc (live_step Q) w w';
  fo_lead : leading w' ld';
  fo_other : forall j r, j <> c -> j <> s -> w.(nodes) !! j = Some r -> w'.(nodes) !! j = Some r;
  fo_match : forall v, ld.(matchIndex) !! v = Some (Z.of_nat idx) -> ld'.(matchIndex) !! v = Some (Z.of_nat idx);
  fo_commit : ld.(commitIndex) <= ld'.(commitIndex);
}.

Lemma follows_trans s w1 l1 w2 l2 w3 l3 : follows s w1 l1 w2 l2 -> follows s w2 l2 w3 l3 -> follows s w1 l1 w3 l3.
Proof.
  intros [H1 _ Ho1 Hm1 Hc1] [H2 Hl Ho2 Hm2 Hc2]. split; [by etrans|done|by eauto|by eauto|lia].
Qed.

Lemma lead_beat s w ld :
  leading w ld -> s ∈ Q -> s <> c -> exists w' ld' k, follows s w ld w' ld' /\
    ld'.(goroutines) !! k = Some (GoHeartbeat s) /\ ld'.(nextIndex) = ld.(nextIndex) /\
    ld'.(commitIndex) = ld.(commitIndex).
Proof.
  intros [Hs Hi Hok Hrest] HsQ Hsc.
  destruct (local_beat c ld) as (t & Ht & Hl); [done|apply Hok..|].
  destruct (Hl w Hi) as [w' Hb]. destruct Hb as (Hrtc & En & _).
  set (ld' := set_heartbeatTimer _ _) in *. pose proof (cw_node _ _ (sound_wf _ _ Hs) _ _ Hi) as Hno.
  assert (exists k, ld'.(goroutines) !! k = Some (GoHeartbeat s)) as [k Hk].
  { apply list_elem_of_lookup. cbn. apply elem_of_app. right. apply list_elem_of_fmap. exists s. split; [done|].
    apply elem_of_others. rewrite (no_peers _ _ _ Hno), (no_me _ _ _ Hno). split; [by apply HQ|lia]. }
  assert (forall j r, j <> c -> w.(nodes) !! j = Some r -> w'.(nodes) !! j = Some r) as Hother.
  { intros j r Hj Hr. by rewrite En, list_lookup_insert_ne. }
  exists w', ld', k. split; [|done]. split; [done| |by auto|done|done]. split.
  - by eapply sound_live.
  - rewrite En. apply list_lookup_insert_eq. by eapply lookup_lt_Some.
  - destruct Hok. split; try done. eapply due_mono; [..|exact lo_due0]; try done.
    cbn. intros g Hg. apply elem_of_app. by left.
  - intros j Hj Hjc. destruct (Hrest j Hj Hjc) as (r & Hr & ?). eauto.
Qed.

(** The leader handles either answer. *)
Lemma lead_reply ld s (next : nat) prev reply :
  lead_ok ld -> raft_wf ld -> ld.(peers) = n -> (s < n)%nat -> s <> c ->
  (0 < next <= S idx)%nat -> L !! pred next = Some prev ->
  (if reply.(aer_Success) then True
   else reply.(aer_Term) <= T /\ exists ci : nat, reply.(aer_ConflictIndex) = Z.of_nat ci /\ (0 < ci <= pred next)%nat) ->
  exists ld', broadcastHeartbeat_reply ld s (append_args ld next prev) reply = Ret ld' /\ lead_ok ld' /\
    (forall v, ld.(matchIndex) !! v = Some (Z.of_nat idx) -> ld'.(matchIndex) !! v = Some (Z.of_nat idx)) /\
    ld.(commitIndex) <= ld'.(commitIndex) /\
    if reply.(aer_Success)
    then own_commit ld (append_args ld next prev) ld' /\ ld'.(matchIndex) !! s = Some (Z.of_nat idx)
    else exists next' : nat, ld'.(nextIndex) !! s = Some (Z.of_nat next') /\ (next' < next)%nat.
Proof.
  intros Hok Hw Hp Hs Hsc Hnx Hprev Hrep. destruct reply.(aer_Success) eqn:Hsu.
  - destruct (lead_success ld s (append_args ld next prev) reply) as (ld' & E & Hok' & Em & Hle & Hown); try done.
    { cbn. rewrite (lo_logs _ Hok). unfold len. rewrite length_drop, HL. lia. }
    exists ld'. split; [done|]. split; [done|]. rewrite Em.
    split; [|split; [done|split; [done|]]].
    + intros v Hv. destruct (decide (s = v)) as [->|].
      * apply list_lookup_insert_eq. by eapply lookup_lt_Some.
      * by rewrite list_lookup_insert_ne.
    + apply list_lookup_insert_eq. by rewrite (wf_match _ Hw), Hp.
  - destruct Hrep as (Ht & ci & Hci & Hr).
    assert (s < length ld.(nextIndex))%nat as Hlen by (by rewrite (wf_next _ Hw), Hp).
    destruct (refusal_backs_off ld s (append_args ld next prev) reply (pred next) ci) as (n' & Hn' & E); try done.
    { by rewrite (lo_term _ Hok). }
    { cbn. lia. }
    { rewrite (lo_logs _ Hok). lia. }
    eexists. split; [exact E|]. split; [apply lead_ok_next; [lia|done]|]. split; [done|]. split; [done|].
    exists n'. split; [by apply list_lookup_insert_eq|lia].
Qed.

(** One exchange with [s]. *)
Lemma lead_exchange s w ld k (next : nat) :
  leading w ld -> s ∈ Q -> s <> c -> ld.(goroutines) !! k = Some (GoHeartbeat s) ->
  ld.(nextIndex) !! s = Some (Z.of_nat next) ->
  exists w' ld', follows s w ld w' ld' /\
    (ld'.(matchIndex) !! s = Some (Z.of_nat idx) /\
     (ld.(commitIndex) = Z.of_nat idx -> exists r, w'.(nodes) !! s = Some r /\ pending r) \/
     exists next' : nat, ld'.(nextIndex) !! s = Some (Z.of_nat next') /\ (next' < next)%nat).
Proof.
  intros [Hs Hi Hok Hrest] HsQ Hsc Hk Hnx. pose proof (sound_wf _ _ Hs) as Hcw.
  pose proof (cw_node _ _ Hcw _ _ Hi) as Hno. destruct (Hrest s HsQ Hsc) as (r & Hr & Hrt & Hdue).
  assert (lead_ok (del_go k ld)) as Hok1 by (by eapply lead_ok_del_go).
  assert (raft_wf (del_go k ld)) as Hw1 by (destruct (no_wf _ _ _ Hno); by split).
  assert (0 < next <= S idx)%nat as Hrange.
  { destruct (lo_next _ Hok s (HQ s HsQ) Hsc) as (next0 & Hn0 & ?). rewrite Hnx in Hn0. injection Hn0 as Hn0. lia. }
  destruct (broadcastHeartbeat_send_eq (del_go k ld) s next) as (prev & Hp & Hsend);
    [apply Hok1|done|rewrite (lo_logs _ Hok1); lia|]. rewrite (lo_logs _ Hok1) in Hp.
  pose proof (timely_leader_inv _ _ (sound_timely _ _ Hs)) as Hli.
  destruct (follower_append (del_go k ld) r next prev) as (r' & reply & Eae & Hrt' & Hdue' & Hrep); try done.
  { apply (cw_node _ _ Hcw _ _ Hr). }
  { rewrite <- (lo_logs _ Hok). eapply covered_matching; [apply (cw_node _ _ Hcw _ _ Hr)|apply Hno|by eapply li_log..]. }
  destruct (lead_reply (del_go k ld) s next prev reply) as (ld' & Ebr & Hok' & Hmat & Hcmt & Hcase);
    [done|done|apply Hno|by apply HQ|done|done|done|by destruct (aer_Success reply)|].
  destruct (exchange_append w c s k ld r (append_args (del_go k ld) next prev) r' reply ld') as [w' (Hrtc & En & _)]; try done.
  { intros Hsu. rewrite Hsu in Hcase. split; [done|by destruct Hcase]. }
  assert (w'.(nodes) !! s = Some r') as Hr'.
  { rewrite En, list_lookup_insert_ne by done. apply list_lookup_insert_eq. by eapply lookup_lt_Some. }
  assert (forall j x, j <> c -> j <> s -> w.(nodes) !! j = Some x -> w'.(nodes) !! j = Some x) as Hother.
  { intros j x Hjc Hjs Hx. by rewrite En, !list_lookup_insert_ne. }
  exists w', ld'. split.
  - split; [done| |done|done|done]. split; [by eapply sound_live| |done|].
    + rewrite En. apply list_lookup_insert_eq. rewrite length_insert. by eapply lookup_lt_Some.
    + intros j Hj Hjc. destruct (decide (j = s)) as [->|Hjs]; [exists r'; split; [done|split; [lia|done]]|].
      destruct (Hrest j Hj Hjc) as (x & Hx & ?). exists x. split; [by apply Hother|done].
  - destruct (aer_Success reply); [left|by right]. split; [apply Hcase|]. eauto.
Qed.

(** The leader brings [s] up to date, and tells it of the commit. *)
Lemma lead_sync s w ld :
  leading w ld -> s ∈ Q -> s <> c -> exists w' ld', follows s w ld w' ld' /\
    ld'.(matchIndex) !! s = Some (Z.of_nat idx) /\
    (ld.(commitIndex) = Z.of_nat idx -> exists r, w'.(nodes) !! s = Some r /\ pending r).
Proof.
  intros Hld HsQ Hsc. destruct (lo_next _ (le_ok _ _ Hld) s (HQ s HsQ) Hsc) as (next & Hnx & _).
  revert w ld Hld Hnx. induction next as [next IH] using lt_wf_ind. intros w ld Hld Hnx.
  destruct (lead_beat s w ld Hld HsQ Hsc) as (w1 & ld1 & k & Hf1 & Hk & Enx & Ecm).
  destruct (lead_exchange s w1 ld1 k next) as (w2 & ld2 & Hf2 & Hcase); [apply Hf1|done|done|done|by rewrite Enx|].
  pose proof (follows_trans _ _ _ _ _ _ _ Hf1 Hf2) as Hf. destruct Hcase as [[Hm Hp]|(next' & Hn' & Hlt)].
  - exists w2, ld2. split; [done|]. split; [done|]. by rewrite <- Ecm.
  - destruct (IH next' Hlt w2 ld2) as (w3 & ld3 & Hf3 & Hm3 & Hp3); [apply Hf2|done|].
    exists w3, ld3. split; [by eapply follows_trans|]. split; [done|]. intros Hcm. apply Hp3.
    pose proof (fo_commit _ _ _ _ _ Hf). pose proof (lo_commit _ (le_ok _ _ (fo_lead _ _ _ _ _ Hf2))). lia.
Qed.

Lemma lead_sync_all (P : list nat) w ld :
  NoDup P -> (forall s, s ∈ P -> s ∈ Q /\ s <> c) -> leading w ld ->
  exists w' ld', rtc (live_step Q) w w' /\ leading w' ld' /\ ld.(commitIndex) <= ld'.(commitIndex) /\
    (forall v, ld.(matchIndex) !! v = Some (Z.of_nat idx) \/ v ∈ P -> ld'.(matchIndex) !! v = Some (Z.of_nat idx)) /\
    (forall j r, j <> c -> j ∉ P -> w.(nodes) !! j = Some r -> w'.(nodes) !! j = Some r) /\
    (ld.(commitIndex) = Z.of_nat idx -> forall s, s ∈ P -> exists r, w'.(nodes) !! s = Some r /\ pending r).
Proof.
  intros HNP. revert w ld. induction HNP as [|s P Hsp HNP IH]; intros w ld HP Hld.
  { exists w, ld. split; [done|]. split; [done|]. split; [done|]. split; [by intros v [?|?%not_elem_of_nil]|].
    split; [done|]. by intros _ s ?%not_elem_of_nil. }
  destruct (HP s) as [HsQ Hsc]; [by left|].
  destruct (lead_sync s w ld Hld HsQ Hsc) as (w1 & ld1 & [Hrtc1 Hld1 Ho1 Hm1 Hc1] & Hs1 & Hp1).
  destruct (IH w1 ld1) as (w2 & ld2 & Hrtc2 & Hld2 & Hc2 & Hm2 & Ho2 & Hp2); [intros; apply HP; by right|done|].
  exists w2, ld2. split; [by etrans|]. split; [done|]. split; [lia|]. split; [|split].
  - intros v [Hv|[->|Hv]%elem_of_cons]; apply Hm2; auto.
  - intros j r Hjc [Hjs HjP]%not_elem_of_cons Hr. by apply Ho2, Ho1.
  - intros Hcm x [->|Hx]%elem_of_cons.
    + destruct (Hp1 Hcm) as (r & Hr & ?). exists r. split; [by apply Ho2|done].
    + apply Hp2; [|done]. pose proof (lo_commit _ (le_ok _ _ Hld1)). lia.
Qed.

Lemma count_indexes {X} (P : X -> Prop) `{!forall x, Decision (P x)} (l : list X) (R : list nat) :
  NoDup R -> (forall v, v ∈ R -> exists x, l !! v = Some x /\ P x) -> (length R <= length (filter P l))%nat.
Proof.
  revert R. induction l as [|x l IH] using rev_ind; intros R HR Hall.
  { destruct R as [|v R]; [done|]. destruct (Hall v) as (? & ? & _); [by left|done]. }
  assert (forall R', NoDup R' -> length l ∉ R' -> (forall v, v ∈ R' -> v ∈ R) ->
    (length R' <= length (filter P l))%nat) as Hsub.
  { intros R' HR' Hl Hin. apply IH; [done|]. intros v Hv. destruct (Hall v (Hin v Hv)) as (y & Hy & ?). exists y. split; [|done].
    apply lookup_app_Some in Hy as [?|[? Hy]]; [done|]. apply list_lookup_singleton_Some in Hy as [? _].
    destruct Hl. by replace (length l) with v by lia. }
  rewrite filter_app, length_app. destruct (decide (length l ∈ R)) as [Hin|Hnin]; [|specialize (Hsub R HR Hnin); naive_solver lia].
  destruct (Hall _ Hin) as (y & Hy & Hpy). rewrite lookup_app_r, Nat.sub_diag in Hy by lia. injection Hy as <-.
  rewrite (filter_cons_True P x []) by done. cbn [length].
  apply list_elem_of_split in Hin as (R1 & R2 & ->). apply NoDup_app in HR as (N1 & N12 & [N3 N2]%NoDup_cons).
  specialize (Hsub (R1 ++ R2)). rewrite !length_app in *. cbn [length]. rewrite filter_nil. cbn [length].
  enough (length R1 + length R2 <= length (filter P l))%nat by lia. apply Hsub.
  - apply NoDup_app. split; [done|]. split; [|done]. intros z Hz Hz'. apply (N12 z Hz). by right.
  - rewrite elem_of_app. intros [Hz|Hz]; [|done]. apply (N12 _ Hz). by left.
  - intros v. rewrite !elem_of_app, elem_of_cons. tauto.
Qed.

(** ** Commit and delivery *)

(** After one round the entry is committed, after two everyone has a goroutine
    that delivers it. *)
Lemma lead_commit w ld :
  leading w ld -> ld.(matchIndex) !! c = Some (Z.of_nat idx) ->
  exists w', rtc (live_step Q) w w' /\ sound n w' /\
    forall i, i ∈ Q -> exists r, w'.(nodes) !! i = Some r /\ pending r.
Proof.
  intros Hld Hmc. set (P := filter (fun s => s <> c) Q).
  assert (NoDup P) as HNP by (by apply NoDup_filter).
  assert (forall s, s ∈ P <-> s ∈ Q /\ s <> c) as HP by (intros s; unfold P; rewrite list_elem_of_filter; tauto).
  destruct (lead_sync_all P w ld) as (w1 & ld1 & Hrtc1 & Hld1 & _ & Hm1 & _); [done|by intros s ?%HP|done|].
  assert (ld1.(commitIndex) = Z.of_nat idx) as Hcm.
  { apply (lo_maj _ (le_ok _ _ Hld1)). unfold majority, matchCount, len.
    rewrite (no_peers _ _ _ (cw_node _ _ (sound_wf _ _ (le_sound _ _ Hld1)) _ _ (le_node _ _ Hld1))).
    apply inj_lt. eapply Nat.lt_le_trans; [exact Hmaj|]. apply count_indexes; [done|].
    intros v Hv. exists (Z.of_nat idx). split; [|done]. apply Hm1.
    destruct (decide (v = c)) as [->|]; [by left|right; by apply HP]. }
  destruct (lead_sync_all P w1 ld1) as (w2 & ld2 & Hrtc2 & Hld2 & Hc2 & _ & _ & Hp2); [done|by intros s ?%HP|done|].
  exists w2. split; [by etrans|]. split; [apply Hld2|]. intros i Hi. destruct (decide (i = c)) as [->|Hic].
  - exists ld2. split; [apply Hld2|].
    destruct (lo_due _ (le_ok _ _ Hld2)) as [[? _]|?]; [lia|done].
  - by apply Hp2, HP.
Qed.

(** The goroutine of a server delivers the entry. *)
Lemma deliver_pending w (i : nat) rf :
  sound n w -> i ∈ Q -> w.(nodes) !! i = Some rf -> pending rf ->
  exists w', rtc (live_step Q) w w' /\
    (exists ms, w'.(applied) !! i = Some ms /\ apply_msg (Z.of_nat idx) e ∈ ms) /\
    forall j, j <> i -> w'.(nodes) !! j = w.(nodes) !! j /\ w'.(applied) !! j = w.(applied) !! j.
Proof.
  clear HL He HeT Hidx. intros Hs HiQ Hi (a & es & j & Hin & Ea & Hes). revert w rf a es Hs Hi Hin Ea Hes.
  induction j as [|j IH]; intros w rf a es Hs Hi [k Hk]%list_elem_of_lookup Ea Hes;
    (destruct es as [|x es]; [done|]); pose proof (sound_wf _ _ Hs) as Hcw.
  all: destruct (lookup_lt_is_Some_2 w.(incs) i) as [inc Hinc];
    [rewrite (rd_incs _ _ (sound_ready _ _ Hs)), <- (cw_len _ _ Hcw); by eapply lookup_lt_Some|].
  all: destruct (reachable_apply_inv _ _ (timely_is_reachable _ _ (sound_timely _ _ Hs)) _ _ Hi) as (ms & Hms & _).
  all: set (rf1 := spawn (GoApplied a (x :: es)) (del_go k rf));
    set (w1 := put_applied i (ms ++ [apply_msg a x]) (put_node i rf1 w)).
  all: assert (live_step Q w w1) as Hst1.
  1,3: apply (live_go Q w w1 i k inc (GoApply a (x :: es)) rf); [done..|]; cbn [run_goroutine]; unfold w1; by rewrite Hms.
  all: assert (w1.(nodes) !! i = Some rf1) as Hi1 by (apply list_lookup_insert_eq; by eapply lookup_lt_Some).
  all: assert (forall j, j <> i -> w1.(nodes) !! j = w.(nodes) !! j /\ w1.(applied) !! j = w.(applied) !! j) as Hf1
    by (intros j' Hj'; cbn; by rewrite !list_lookup_insert_ne).
  - exists w1. split; [by apply rtc_once|]. split; [|done]. eexists.
    split; [apply list_lookup_insert_eq; by eapply lookup_lt_Some|]. apply elem_of_app. right.
    injection Hes as ->. replace a with (Z.of_nat idx) by lia. by left.
  - set (rf2 := spawn (GoApply (a + 1) es) (apply_done (del_go (length (delete k rf.(goroutines))) rf1) a)).
    set (w2 := put_node i rf2 w1).
    assert (live_step Q w1 w2) as Hst2.
    { apply (live_go Q w1 w2 i (length (delete k rf.(goroutines))) inc (GoApplied a (x :: es)) rf1); [done|exact Hi1|exact Hinc| |done|done].
      cbn. by rewrite lookup_app_r, Nat.sub_diag by lia. }
    destruct (IH w2 rf2 (a + 1) es) as (w3 & Hrtc3 & Hms3 & Hf3).
    + eapply sound_live; [exact Hs|]. eapply rtc_l; [exact Hst1|by apply rtc_once].
    + apply list_lookup_insert_eq. by eapply lookup_lt_Some.
    + cbn. apply elem_of_app. right. by left.
    + lia.
    + done.
    + exists w3. split; [eapply rtc_l; [exact Hst1|]; by eapply rtc_l|]. split; [done|].
      intros j' Hj'. destruct (Hf3 j' Hj') as [-> ->]. destruct (Hf1 j' Hj') as [<- <-]. cbn. by rewrite list_lookup_insert_ne.
Qed.

Lemma deliver_all_pending w (P : list nat) :
  sound n w -> NoDup P -> (forall i, i ∈ P -> i ∈ Q /\ exists r, w.(nodes) !! i = Some r /\ pending r) ->
  exists w', rtc (live_step Q) w w' /\
    (forall i, i ∈ P -> exists ms, w'.(applied) !! i = Some ms /\ apply_msg (Z.of_nat idx) e ∈ ms) /\
    forall j, j ∉ P -> w'.(applied) !! j = w.(applied) !! j.
Proof.
  intros Hs HNP. revert w Hs. induction HNP as [|i P Hi HNP IH]; intros w Hs HP.
  { exists w. split; [done|]. split; [by intros i ?%not_elem_of_nil|done]. }
  destruct (HP i) as (HiQ & r & Hr & Hp); [by left|].
  destruct (deliver_pending w i r Hs HiQ Hr Hp) as (w1 & Hrtc1 & (ms & Hms & Hin) & Hf1).
  destruct (IH w1) as (w2 & Hrtc2 & Hd2 & Hf2).
  - by eapply sound_live.
  - intros j Hj. destruct (HP j) as (HjQ & x & Hx & ?); [by right|]. split; [done|]. exists x.
    destruct (Hf1 j) as [-> _]; [by intros ->|done].
  - exists w2. split; [by etrans|]. split.
    + intros j [->|Hj]%elem_of_cons; [|by apply Hd2]. exists ms. rewrite Hf2 by done. done.
    + intros j [Hji HjP]%not_elem_of_cons. rewrite Hf2 by done. by destruct (Hf1 j Hji) as [_ ->].
Qed.
End entry.

(** ** What was delivered before *)

Lemma live_applied w w' i ms m :
  live_step Q w w' -> w.(applied) !! i = Some ms -> m ∈ ms -> exists ms', w'.(applied) !! i = Some ms' /\ m ∈ ms'.
Proof.
  intros (lbl & Hin & _ & _ & Hst) Hms Hm. rewrite (step_applied lbl w w' Hst). unfold applied_after.
  destruct (obs lbl w) as [|[c|j m'|j] [|? ?]] eqn:Eo; eauto.
  - destruct (decide (i = j)) as [->|Hne]; [|rewrite list_lookup_insert_ne by done; eauto].
    rewrite Hms, list_lookup_insert_eq by (by eapply lookup_lt_Some). eexists. split; [done|]. apply elem_of_app. by left.
  - by destruct lbl; cbn in Eo; repeat case_match.
Qed.

(** No service has received [index] or a later one. *)
Definition new_index (index : Z) w : Prop :=
  forall i ms m, w.(applied) !! i = Some ms -> m ∈ ms -> m.(CommandIndex) < index.

Lemma new_index_back index w w' : rtc (live_step Q) w w' -> new_index index w' -> new_index index w.
Proof.
  intros Hrtc. induction Hrtc as [|w w1 w' Hst _ IH]; [done|]. intros Hnew%IH i ms m Hms Hm.
  destruct (live_applied w w1 i ms m Hst Hms Hm) as (ms' & Hms' & Hm'). by eapply Hnew.
Qed.

(** A leader that a majority follows has every entry that was ever delivered. *)
Lemma leader_beyond_delivered w (c i : nat) rf ms m :
  sound n w -> w.(nodes) !! c = Some rf -> rf.(state) = Leader -> led_by Q c rf.(currentTerm) w ->
  w.(applied) !! i = Some ms -> m ∈ ms -> m.(CommandIndex) < len rf.(logs).
Proof.
  intros Hs Hc Hst Hled Hms Hm.
  destruct (commit_steps n _ _ _ Hs (treach_init n) (init_ack_inv n) (init_commit_inv n _)) as (Hr & A & _ & _ & Ha & Hcm).
  destruct (cm_msg _ _ _ Hcm _ _ _ Hms Hm) as (e & _ & t & k & i' & L & Hcom & _ & Hle & _).
  pose proof (leader_has_committed w A c rf t k Hs Ha Hc Hst Hled Hcom). unfold len. lia.
Qed.

(** ** The command *)

(** What a fresh leader knows after appending an entry is no majority. *)
Lemma one_is_no_majority (c : nat) rf (i : Z) (l : list Z) :
  rf.(peers) = n -> 0 < i -> (forall k x, l !! k = Some x -> x = 0) -> rf.(matchIndex) = <[c := i]> l -> ~ majority rf i.
Proof.
  intros Hp Hi Hz Em. unfold majority, matchCount, len. rewrite Hp, Em.
  destruct (filter_indexes (fun m => i <= m) (<[c := i]> l)) as (R & HNR & <- & HR).
  assert (length R <= 1)%nat as Hlen.
  { apply (submseteq_length R [c]), NoDup_submseteq; [done|]. intros v Hv. destruct (HR v Hv) as (x & Hx & Hix).
    apply list_lookup_insert_Some in Hx as [(-> & _)|[_ Hx]]; [by left|]. apply Hz in Hx. lia. }
  assert (1 <= n / 2)%nat by (apply (Nat.div_le_lower_bound n 2 1); lia). lia.
Qed.

(** The leader after [Start]. *)
Definition started (c : nat) (e : LogEntry Cmd) rf : Raft Cmd :=
  persist (set_nextIndex (<[c := len rf.(logs) + 1]> rf.(nextIndex))
    (set_matchIndex (<[c := len rf.(logs)]> rf.(matchIndex)) (set_logs (rf.(logs) ++ [e]) rf))).

Lemma Start_append_eq (c : nat) rf cmd t :
  raft_wf rf -> rf.(me) = Z.of_nat c -> (c < rf.(peers))%nat ->
  Start_append rf cmd t = Ret (started c {| le_Command := cmd; le_Term := t |} rf, len rf.(logs)).
Proof.
  intros Hw Hme Hc. unfold Start_append. cbn [set_logs matchIndex me]. rewrite Hme.
  rewrite (upd_of_nat rf.(matchIndex)) by (by rewrite (wf_match _ Hw)). cbn [mbind res_bind set_matchIndex set_logs nextIndex me]. rewrite Hme.
  by rewrite upd_of_nat by (by rewrite (wf_next _ Hw)).
Qed.

Lemma lead_ok_started (c : nat) rf (e : LogEntry Cmd) gs :
  raft_wf rf -> rf.(peers) = n -> fresh_leader rf.(currentTerm) rf.(logs) rf ->
  rf.(commitIndex) < len rf.(logs) -> rf.(lastApplied) < len rf.(logs) ->
  lead_ok c (length rf.(logs)) rf.(currentTerm) (rf.(logs) ++ [e]) e (started c e (set_goroutines gs rf)).
Proof.
  intros Hw Hp Hfl Hcm Hap. pose proof (log_wf_len _ (wf_log _ Hw)) as Hlen. destruct Hfl. split; try done.
  - intros s Hs Hsc. exists (length rf.(logs)). split; [|unfold len in *; lia].
    change (<[c := len rf.(logs) + 1]> rf.(nextIndex) !! s = Some (len rf.(logs))). rewrite list_lookup_insert_ne by done.
    destruct (lookup_lt_is_Some_2 rf.(nextIndex) s) as [x Hx].
    { by rewrite (wf_next _ Hw), Hp. } rewrite Hx. by rewrite (fl_next _ _ Hx).
  - intros v m [(-> & <- & _)|[_ Hx]]%list_lookup_insert_Some; [by right|left]. by eapply fl_match.
  - cbn. unfold len in *. lia.
  - intros Hj. exfalso. eapply one_is_no_majority; [..|exact Hj]; [exact Hp|unfold len in *; lia|exact fl_match|done].
  - left. done.
Qed.

Lemma lead_start w (c : nat) rf (cmd : option Cmd) :
  sound n w -> c ∈ Q -> w.(nodes) !! c = Some rf -> fresh_leader rf.(currentTerm) rf.(logs) rf ->
  led_by Q c rf.(currentTerm) w ->
  let e := {| le_Command := cmd; le_Term := rf.(currentTerm) |} in
  exists w' ld, rtc (live_step Q) w w' /\
    leading c (length rf.(logs)) rf.(currentTerm) (rf.(logs) ++ [e]) e w' ld /\
    ld.(matchIndex) !! c = Some (len rf.(logs)).
Proof.
  intros Hs Hc Hi Hfl Hled e. pose proof (sound_wf _ _ Hs) as Hcw. pose proof (cw_node _ _ Hcw _ _ Hi) as Hno.
  pose proof (no_wf _ _ _ Hno) as Hw. pose proof (no_peers _ _ _ Hno) as Hpe. pose proof (fl_state _ _ _ Hfl) as Hst.
  assert (forall i r, w.(nodes) !! i = Some r -> r.(commitIndex) < len rf.(logs) /\ r.(lastApplied) < len rf.(logs)) as Hahead
    by (intros i r Hr; by eapply leader_is_ahead).
  set (rf1 := spawn (GoStart cmd rf.(currentTerm)) rf). set (w1 := put_node c rf1 w).
  assert (live_step Q w w1) as Hst1.
  { exists (LStart c cmd). split; [done|]. split; [done|]. split; [done|]. cbn. rewrite Hi. cbn. by rewrite bool_decide_true. }
  set (k := length rf.(goroutines)). set (ld := started c e (del_go k rf1)).
  assert (w1.(nodes) !! c = Some rf1) as Hi1 by (apply list_lookup_insert_eq; by eapply lookup_lt_Some).
  assert (rf1.(goroutines) !! k = Some (GoStart cmd rf.(currentTerm))) as Hk by (cbn; by rewrite lookup_app_r, Nat.sub_diag).
  set (w2 := put_leader rf.(currentTerm) c ld.(logs) (put_node c ld w1)).
  assert (live_step Q w1 w2) as Hst2.
  { destruct (lookup_lt_is_Some_2 w.(incs) c) as [inc Hinc].
    { rewrite (rd_incs _ _ (sound_ready _ _ Hs)), <- (cw_len _ _ Hcw). by eapply lookup_lt_Some. }
    exists (LGo c k). split; [done|]. split.
    { intros r cmd' t Hr Hg. rewrite Hi1 in Hr. injection Hr as <-. rewrite Hk in Hg. injection Hg as <- <-. done. }
    split; [done|]. cbn [step]. rewrite Hi1. cbn [mbind option_bind]. change w1.(incs) with w.(incs). rewrite Hinc.
    cbn [mbind option_bind]. rewrite Hk. cbn [mbind option_bind run_goroutine].
    rewrite (Start_append_eq c); [done|destruct Hw; by split|apply Hno|]. cbn. rewrite Hpe. by apply HQ. }
  assert (rtc (live_step Q) w w2) as Hrtc by (eapply rtc_l; [exact Hst1|by apply rtc_once]).
  exists w2, ld. split; [done|]. destruct (Hahead c rf Hi) as [Hcm Hap]. split; [split|].
  - by eapply sound_live.
  - apply list_lookup_insert_eq. by eapply lookup_lt_Some.
  - by apply (lead_ok_started c rf e).
  - intros s HsQ Hsc. destruct (Hled s HsQ Hsc) as (r & Hr & Ht). exists r. split; [|split; [done|left; by apply (Hahead s)]].
    cbn. by rewrite !list_lookup_insert_ne.
  - cbn. apply list_lookup_insert_eq. rewrite (wf_match _ Hw), Hpe. by apply HQ.
Qed.

Lemma can_commit w (cmd : option Cmd) :
  sound n w -> (exists s r, s ∈ Q /\ w.(nodes) !! s = Some r /\ r.(state) <> Leader) ->
  exists w' (idx : Z), rtc (live_step Q) w w' /\ new_index idx w /\ forall i, i ∈ Q -> exists ms,
    w'.(applied) !! i = Some ms /\ {| CommandValid := true; am_Command := cmd; CommandIndex := idx |} ∈ ms.
Proof.
  intros Hs Hex. destruct (can_elect n Q Hn HND Hmaj HQ w Hs Hex) as (w1 & c & rf & Hrtc1 & Hc & Hi & Hfl & Hled).
  assert (sound n w1) as Hs1 by (by eapply sound_live). pose proof (cw_node _ _ (sound_wf _ _ Hs1) _ _ Hi) as Hno.
  pose proof (log_wf_len _ (wf_log _ (no_wf _ _ _ Hno))) as Hlen.
  destruct (lead_start w1 c rf cmd) as (w2 & ld & Hrtc2 & Hld & Hmc); [done..|].
  set (e := {| le_Command := cmd; le_Term := rf.(currentTerm) |}) in *.
  destruct (lead_commit c (length rf.(logs)) Hc rf.(currentTerm) (rf.(logs) ++ [e]) e) with w2 ld
    as (w3 & Hrtc3 & Hs3 & Hp3); try done.
  - rewrite length_app. cbn. lia.
  - by rewrite lookup_app_r, Nat.sub_diag.
  - unfold len in *. lia.
  - destruct (deliver_all_pending (length rf.(logs)) e w3 Q) as (w4 & Hrtc4 & Hd & _); [done|done|by auto|].
    exists w4, (len rf.(logs)). split; [etrans; [done|]; etrans; [done|]; by etrans|]. split; [|done].
    eapply new_index_back; [exact Hrtc1|]. intros i ms m Hms Hm. eapply (leader_beyond_delivered w1 c i rf ms m); try done.
    by destruct Hfl.
Qed.
End progress.

(** ** The guarantees *)

Section guarantees.
Context {Cmd : Type} `{!Gob (PVal Cmd)} `{!Rand} (n : nat).
Implicit Types (rf r : Raft Cmd) (w : Cluster Cmd).

(** C6. Progress of a majority.  A cluster of at least two servers may be in any
    state that a timely and prudent run reaches, with whatever crashes, losses and
    partitions have left in logs, terms, timers and goroutines.  If a majority [Q]
    of the servers, one of which does not take itself for a leader, stays up and
    its messages arrive, then there is a run of these servers alone, again timely
    and prudent, in which a new command is committed and delivered by every server
    of [Q], at the same index, one that no service has received anything at before. *)
Theorem majority_can_commit (Q : list nat) w (cmd : option Cmd) :
  rtc prudent_step (init n) w -> (1 < n)%nat ->
  NoDup Q -> (forall i, i ∈ Q -> (i < n)%nat) -> (n / 2 < length Q)%nat ->
  (exists s r, s ∈ Q /\ w.(nodes) !! s = Some r /\ r.(state) <> Leader) ->
  exists w' (index : Z), rtc (live_step Q) w w' /\ new_index index w /\ forall i, i ∈ Q -> exists ms,
    w'.(applied) !! i = Some ms /\ {| CommandValid := true; am_Command := cmd; CommandIndex := index |} ∈ ms.
Proof. intros. by apply (can_commit n). Qed.

(** Somebody does not lead: the voters of a leader are in its term or in a later
    one. *)
Lemma someone_follows w :
  timely_reachable n w -> (1 < n)%nat -> exists s r, (s < n)%nat /\ w.(nodes) !! s = Some r /\ r.(state) <> Leader.
Proof.
  intros Hr Hn. pose proof (timely_is_reachable _ _ Hr) as Hre. pose proof (reachable_wf _ _ Hre) as Hcw.
  pose proof (reachable_votes_inv _ _ Hre) as Hvi. pose proof (timely_leader_inv _ _ Hr) as Hli.
  destruct (best_server w (seq 0 n)) as (c & rfc & M & _ & _ & HM).
  { by destruct n; [lia|]. }
  { intros s [_ Hs]%elem_of_seq. apply lookup_lt_is_Some_2. by rewrite (cw_len _ _ Hcw). }
  destruct (lookup_lt_is_Some_2 w.(nodes) 0) as [r Hi]; [rewrite (cw_len _ _ Hcw); lia|].
  remember (Z.to_nat (M - r.(currentTerm))) as k eqn:Hk. assert (0 < n)%nat as H0 by lia.
  revert H0 r Hi Hk. generalize 0%nat at 1 2 as i. induction k as [k IH] using lt_wf_ind. intros i Hin r Hi Hk.
  destruct (decide (r.(state) = Leader)) as [Hl|Hl]; [|by exists i, r].
  destruct (li_quorum _ _ Hli _ _ _ (li_leader _ _ Hli _ _ Hi Hl)) as (R & HNR & Hlen & HR).
  assert (exists v, v ∈ R /\ v <> i) as (v & Hv & Hvi').
  { destruct R as [|a [|b R]]; cbn in Hlen.
    - lia.
    - assert (1 <= n / 2)%nat by (apply (Nat.div_le_lower_bound n 2 1); lia). cbn in *. lia.
    - destruct (decide (a = i)) as [->|]; [|exists a; split; [by left|done]].
      exists b. split; [right; by left|]. intros ->. apply NoDup_cons in HNR as [Hn' _]. apply Hn'. by left. }
  destruct (HR v Hv) as [Hvn Hvote]. destruct (vi_vote _ Hvi _ _ _ Hvote) as (_ & x & Hx & Hle & _).
  destruct (decide (x.(state) = Leader)) as [Hxl|Hxl]; [|by exists v, x].
  destruct (decide (x.(currentTerm) = r.(currentTerm))) as [Et|Hne].
  - pose proof (li_leader _ _ Hli _ _ Hi Hl) as H1. pose proof (li_leader _ _ Hli _ _ Hx Hxl) as H2.
    rewrite Et, H1 in H2. by simplify_eq.
  - eapply (IH (Z.to_nat (M - x.(currentTerm)))); [|done|done|done].
    destruct (HM v x) as [_ ?]; [apply elem_of_seq; lia|done|]. lia.
Qed.

(** C7. Progress of the cluster.  When all of at least two servers stay up and their
    messages arrive, a command can be committed and delivered by all of them, at a
    new index, from every state that a timely and prudent run reaches. *)
Theorem cluster_can_commit w (cmd : option Cmd) :
  rtc prudent_step (init n) w -> (1 < n)%nat ->
  exists w' (index : Z), rtc (live_step (seq 0 n)) w w' /\ new_index index w /\ forall i, (i < n)%nat -> exists ms,
    w'.(applied) !! i = Some ms /\ {| CommandValid := true; am_Command := cmd; CommandIndex := index |} ∈ ms.
Proof.
  intros Hs Hn. destruct (someone_follows w) as (s & r & Hsn & Hr & Hst); [by apply sound_timely|done|].
  destruct (can_commit n (seq 0 n)) with w cmd as (w' & index & Hrtc & Hnew & Hd); try done.
  - apply NoDup_seq.
  - rewrite length_seq. apply Nat.div_lt; lia.
  - intros i [_ ?]%elem_of_seq. lia.
  - exists s, r. split; [apply elem_of_seq; lia|done].
  - exists w', index. split; [done|]. split; [done|]. intros i Hi. apply Hd, elem_of_seq. lia.
Qed.
End guarantees.

(** ** One server

    A candidate becomes leader when it handles a vote of another server; a server
    that is alone never does. *)
Theorem alone_never_leads {Cmd} `{!Gob (PVal Cmd)} `{!Rand} (w : Cluster Cmd) i rf :
  reachable 1 w -> w.(nodes) !! i = Some rf -> rf.(state) <> Leader.
Proof.
  intros Hr. revert i rf. induction Hr as [|lbl w w' Hr IH Hst]; intros i rf Hi.
  { apply init_node in Hi as [_ ->]. by destruct (Make_fields 1 (Z.of_nat i) MakePersister (Cmd:=Cmd)) as (_ & _ & _ & -> & _). }
  pose proof (reachable_wf _ _ Hr) as Hcw.
  assert (forall j r r', w.(nodes) !! j = Some r -> w'.(nodes) = <[j := r']> w.(nodes) ->
    (r.(state) <> Leader -> r'.(state) <> Leader) -> rf.(state) <> Leader) as Hput.
  { intros j r r' Hj En Hrr. rewrite En in Hi. apply list_lookup_insert_Some in Hi as [(-> & -> & _)|[_ Hi]]; eauto. }
  destruct (step_summary 1 _ _ _ Hcw Hst) as [->|Hsum]; [by eapply IH|].
  destruct Hsum as [| lbl w w' j r r' Hj [[]] _ En _|lbl w w' j k r inc s a Hj Hk _ En _|w w' j r r1 e Hj Hl -> He ->
    |w w' k src inc dst args r r' reply Hk Hj Ho En _ _ _ _|w w' k src inc dst args r r' reply Hk Hj Ho En _ _
    |w w' k src inc dst args reply r r' Hk Hj _ En _ _ _ _|lbl w w' k j r t Hj Ht En _ _
    |w w' j k r r' cmd t index Hj Hk Est ->|lbl w w' j r Hj En _ _].
  - by eapply IH.
  - eapply Hput; [done..|]. congruence.
  - eapply Hput; [done..|]. done.
  - eapply (Hput j); [done|reflexivity|]. cbn. intros Hs. by case_decide.
  - eapply Hput; [done..|]. intros Hs Hs'. destruct Ho; cbn in Hs'; [done|..];
      (destruct (adopt_state args.(rv_Term) r) as [? _]; congruence).
  - eapply Hput; [done..|]. intros Hs Hs'.
    destruct Ho as [| | |prev r1 r2 _ _ _ -> (gs & -> & _)%follower_commit_frame]; cbn in Hs'; [done|..];
      (destruct (adopt_state args.(ae_Term) r) as [? _]; congruence).
  - exfalso. destruct (cw_pkt _ _ Hcw _ (list_elem_of_lookup_2 _ _ _ Hk)) as (Hne & Hd & _).
    apply lookup_lt_Some in Hj. rewrite (cw_len _ _ Hcw) in Hj. lia.
  - eapply Hput; [done..|]. cbn. by rewrite adopt_higher_state.
  - eapply Hput; [done|reflexivity|]. unfold Start_append in Est. do 2 bind_inv Est. by inv_res.
  - eapply Hput; [done..|]. intros _. unfold start1.
    by destruct (Make_fields (Cmd:=Cmd) r.(peers) (Z.of_nat j) (Copy (crash1 r.(persister)))) as (_ & _ & _ & -> & _).
Qed.

(** ** Examples *)

(** After server 0 committed a command and is gone, servers 1 and 2 go on. *)
Lemma majority_can_commit_witness :
  exists w' (index : Z), rtc (live_step [1%nat; 2%nat]) (after commit0) w' /\
    new_index index (after commit0) /\ forall i, i ∈ [1%nat; 2%nat] -> exists ms,
    w'.(applied) !! i = Some ms /\
    {| CommandValid := true; am_Command := Some 9%nat; CommandIndex := index |} ∈ ms.
Proof.
  apply (majority_can_commit 3 [1%nat; 2%nat] (after commit0) (Some 9%nat)).
  - apply (run_prudent_steps commit0). vm_compute. reflexivity.
  - lia.
  - apply (bool_decide_unpack (NoDup [1%nat; 2%nat])). vm_compute. exact I.
  - intros i Hi. apply elem_of_cons in Hi as [->|Hi]; [lia|]. apply list_elem_of_singleton in Hi as ->. lia.
  - vm_compute. lia.
  - exists 1%nat, (server commit0 1). split; [by left|]. split; [vm_compute; reflexivity|]. vm_compute. discriminate.
Defined.

(** Two leaderships and a crash later a cluster of three goes on. *)
Lemma cluster_can_commit_witness :
  exists w' (index : Z), rtc (live_step (seq 0 3)) (after (commit0 ++ takeover)) w' /\
    new_index index (after (commit0 ++ takeover)) /\ forall i, (i < 3)%nat -> exists ms,
    w'.(applied) !! i = Some ms /\
    {| CommandValid := true; am_Command := Some 11%nat; CommandIndex := index |} ∈ ms.
Proof.
  apply (cluster_can_commit 3 (after (commit0 ++ takeover)) (Some 11%nat)); [|lia].
  apply (run_prudent_steps (commit0 ++ takeover)). vm_compute. reflexivity.
Defined.
