(* ===== verification/Testbed.v ===== *)
(** * Testbed: servers on the simulated network

    The part the test configurations have in common: [n] servers, each with its
    sending ends on the network of LabRpc.v, and the persisters that outlive
    them.  [cfg.saved[i]] and a running server share one [*Persister], and a
    server that was "killed" keeps running; so persisters and server objects live
    in stores ([pheap], [insts]) and are named by location.  An object is kept
    with the location of its persister, and [exec] runs it and writes the
    persister through.

    [TestServer] is what a configuration needs of the kind of server it tests. *)

From S2P Require Import Prelude Gob Raft LabRpc ConfigBase.
Local Open Scope Z_scope.

(** The methods of [*Raft] that reflection sees. *)
Definition raft_methods : list Method :=
  [{| m_Name := "AppendEntries"; m_PkgPath := ""; m_In := [KPtr; KPtr; KPtr]; m_NumOut := 0 |};
   {| m_Name := "GetState"; m_PkgPath := ""; m_In := [KPtr]; m_NumOut := 2 |};
   {| m_Name := "Kill"; m_PkgPath := ""; m_In := [KPtr]; m_NumOut := 0 |};
   {| m_Name := "RequestVote"; m_PkgPath := ""; m_In := [KPtr; KPtr; KPtr]; m_NumOut := 0 |};
   {| m_Name := "Start"; m_PkgPath := ""; m_In := [KPtr; KOther]; m_NumOut := 3 |}].

Lemma readPersist_persister {Cmd} `{!Gob (PVal Cmd)} (rf : Raft Cmd) data :
  (readPersist rf data).(persister) = rf.(persister).
Proof. unfold readPersist. destruct data; [done|]. by destruct (decodeState _) as [[[? ?] ?]|]. Qed.

Lemma Make_persister {Cmd} `{!Gob (PVal Cmd)} `{!Rand} n i ps :
  (Make n i ps : Raft Cmd).(persister) = ps.
Proof. unfold Make. by rewrite readPersist_persister. Qed.

Class TestServer (Cmd S : Type) := {
  start_server : nat -> nat -> Persister -> S;     (* n, me, persister *)
  raft_of : S -> Raft Cmd;
  services_of : list Service;
  (** a new server has persisted nothing yet *)
  start_persister : forall n me ps, (raft_of (start_server n me ps)).(persister) = ps;
}.

Record Bed (S : Type) := mkBed {
  bnet : Network;
  size : nat;                                (* cfg.n *)
  endnames : list (option (list Name));      (* None: nil *)
  bservers : list (option nat);
  saved : list (option nat);
  pheap : list Persister;
  insts : list (S * nat);
  bdraws : nat;                              (* calls of randstring so far *)
}.
Arguments mkBed {S} _ _ _ _ _ _ _ _.
Arguments bnet {S} _.
Arguments size {S} _.
Arguments endnames {S} _.
Arguments bservers {S} _.
Arguments saved {S} _.
Arguments pheap {S} _.
Arguments insts {S} _.
Arguments bdraws {S} _.

Section bed.
Context {Cmd S : Type} `{!TestServer Cmd S} `{!CryptoRand}.
Implicit Types b : Bed S.

Definition on_net (f : Network -> Network) b : Bed S :=
  mkBed (f b.(bnet)) b.(size) b.(endnames) b.(bservers) b.(saved) b.(pheap) b.(insts) b.(bdraws).
Definition set_endnames (v : list (option (list Name))) (d : nat) b : Bed S :=
  mkBed b.(bnet) b.(size) v b.(bservers) b.(saved) b.(pheap) b.(insts) d.
Definition set_bservers (v : list (option nat)) b : Bed S :=
  mkBed b.(bnet) b.(size) b.(endnames) v b.(saved) b.(pheap) b.(insts) b.(bdraws).
Definition set_saved (v : list (option nat)) b : Bed S :=
  mkBed b.(bnet) b.(size) b.(endnames) b.(bservers) v b.(pheap) b.(insts) b.(bdraws).
Definition set_pheap (v : list Persister) b : Bed S :=
  mkBed b.(bnet) b.(size) b.(endnames) b.(bservers) b.(saved) v b.(insts) b.(bdraws).
Definition set_insts (v : list (S * nat)) b : Bed S :=
  mkBed b.(bnet) b.(size) b.(endnames) b.(bservers) b.(saved) b.(pheap) v b.(bdraws).

(** A test with [n] servers before any is started. *)
Definition empty_bed (n : nat) : Bed S :=
  mkBed MakeNetwork n (replicate n None) (replicate n None) (replicate n None) [] [] 0.

(** ** Ends *)

(** [cfg.endnames[i][j]]: indexing nil panics. *)
Definition end_of b (i j : Z) : res Name :=
  ns ← idx b.(endnames) i;
  l ← res_of_option ns;
  idx l j.

Definition enable_end (i j : Z) (yes : bool) b : res (Bed S) :=
  e ← end_of b i j; Ret (on_net (Enable e yes) b).

(** [cfg.endnames[i] != nil]. *)
Definition has_endnames b (i : Z) : res bool :=
  ns ← idx b.(endnames) i; Ret (bool_decide (ns <> None)).

(** [randstring(20)] [n] times. *)
Fixpoint fresh_names (k n : nat) : res (list Name) :=
  match n with
  | O => Ret []
  | Datatypes.S n => s ← randstring k 20; l ← fresh_names (Datatypes.S k) n; Ret (NStr s :: l)
  end.

Definition new_endnames (i : Z) b : res (Bed S) :=
  l ← fresh_names b.(bdraws) b.(size);
  v ← upd b.(endnames) i (Some l);
  Ret (set_endnames v (b.(bdraws) + b.(size)) b).

(** [MakeEnd] and [Connect] for one end of server [i]. *)
Definition make_end (i j : Z) b : res (Bed S) :=
  e ← end_of b i j;
  r ← MakeEnd e b.(bnet);
  Ret (on_net (fun _ => Connect e (NInt j) r) b).

Definition indices b : list Z := map Z.of_nat (seq 0 b.(size)).

Definition make_ends (i : Z) b : res (Bed S) := each (indices b) (make_end i) b.

(** ** Persisters *)

Definition new_persister (ps : Persister) b : Bed S * nat :=
  (set_pheap (b.(pheap) ++ [ps]) b, length b.(pheap)).

Definition persister_at b (p : nat) : res Persister := res_of_option (b.(pheap) !! p).

(** [cfg.saved[i] = ...]: a new persister. *)
Definition put_saved (i : Z) (ps : Persister) b : res (Bed S) :=
  let '(b, q) := new_persister ps b in
  v ← upd b.(saved) i (Some q);
  Ret (set_saved v b).

(** [if cfg.saved[i] != nil { cfg.saved[i] = cfg.saved[i].Copy() }]. *)
Definition copy_saved (i : Z) b : res (Bed S) :=
  o ← idx b.(saved) i;
  match o with
  | None => Ret b
  | Some p => ps ← persister_at b p; put_saved i (Copy ps) b
  end.

(** ... [else { cfg.saved[i] = MakePersister() }]. *)
Definition renew_saved (i : Z) b : res (Bed S) :=
  o ← idx b.(saved) i;
  match o with
  | None => put_saved i MakePersister b
  | Some p => ps ← persister_at b p; put_saved i (Copy ps) b
  end.

(** ** Server objects *)

(** Make server [i] on the persister [cfg.saved[i]] and register it. *)
Definition launch (i : Z) b : res (Bed S) :=
  o ← idx b.(saved) i;
  p ← res_of_option o;
  ps ← persister_at b p;
  let r := length b.(insts) in
  let b := set_insts (b.(insts) ++ [(start_server b.(size) (Z.to_nat i) ps, p)]) b in
  v ← upd b.(bservers) i (Some r);
  let b := set_bservers v b in
  let srv := foldl (fun s v => AddService v s) MakeServer services_of in
  let '(rn, sp) := new_server srv b.(bnet) in
  Ret (on_net (fun _ => AddServer (NInt i) sp rn) b).

(** [cfg.servers[i] = nil]; [Kill] does nothing. *)
Definition forget (i : Z) b : res (Bed S) :=
  o ← idx b.(bservers) i;
  match o with
  | None => Ret b
  | Some _ => v ← upd b.(bservers) i None; Ret (set_bservers v b)
  end.

(** The object at [r] runs: it changes to [f s], and what it persists goes to
    its persister. *)
Definition exec (r : nat) (f : S -> S) b : Bed S :=
  match b.(insts) !! r with
  | None => b
  | Some (s, p) =>
      set_pheap (<[p := (raft_of (f s)).(persister)]> b.(pheap))
        (set_insts (<[r := (f s, p)]> b.(insts)) b)
  end.

(** A new incarnation of server [i]: fresh names and ends, so that the ends of
    an earlier one cannot be used, a fresh persister with the saved content, and
    the server on the network. *)
Definition restart (i : Z) b : res (Bed S) :=
  b ← new_endnames i b;
  b ← make_ends i b;
  b ← renew_saved i b;
  launch i b.

(** What is saved for server [i]. *)
Definition saved_state b (i : nat) : option Persister :=
  p ← mjoin (b.(saved) !! i); b.(pheap) !! p.

(** ** Lemmas *)

(** The current name of the end from [i] to [j]. *)
Definition name_at b (i j : nat) : option Name :=
  l ← mjoin (b.(endnames) !! i); l !! j.

Lemma end_of_name b (i j : nat) e :
  end_of b (Z.of_nat i) (Z.of_nat j) = Ret e <-> name_at b i j = Some e.
Proof.
  unfold end_of, name_at, idx. rewrite !Nat2Z.id.
  destruct (Z.leb_spec 0 (Z.of_nat i)), (Z.leb_spec 0 (Z.of_nat j)); try lia.
  destruct (b.(endnames) !! i) as [[l|]|]; cbn; try done.
  destruct (l !! j); cbn; split; intros; simplify_eq; done.
Qed.

Lemma is_enabled_Enable rn e yes e' :
  is_enabled (Enable e yes rn) e' = if decide (e' = e) then yes else is_enabled rn e'.
Proof.
  unfold is_enabled, Enable. cbn. rewrite lookup_insert.
  destruct (decide (e = e')), (decide (e' = e)); congruence || done.
Qed.

(** Only the table [enabled] differs. *)
Definition re_enabled (rn rn' : Network) : Prop :=
  exists en, rn' = set_tables rn rn.(ends) en rn.(LabRpc.servers) rn.(connections).

(** Some pair of [ps] names the end [e]. *)
Definition named b (ps : list (Z * Z)) (e : Name) : Prop :=
  exists p, p ∈ ps /\ end_of b p.1 p.2 = Ret e.

(** The end [e] is enabled after the ends that satisfy [hit] are set to [yes]. *)
Definition enabled_after (yes : bool) (hit : Name -> Prop) (rn : Network) (e : Name) : Prop :=
  if yes then hit e \/ is_enabled rn e = true else ~ hit e /\ is_enabled rn e = true.

(** A loop that sets the ends of [ps] to [yes]. *)
Lemma each_enable yes (ps : list (Z * Z)) b b' :
  each ps (fun p => enable_end p.1 p.2 yes) b = Ret b' ->
  exists rn, b' = on_net (fun _ => rn) b /\ re_enabled b.(bnet) rn /\
    (forall p, p ∈ ps -> exists e, end_of b p.1 p.2 = Ret e) /\
    (forall e, is_enabled rn e = true <-> enabled_after yes (named b ps) b.(bnet) e).
Proof.
  revert b. induction ps as [|p ps IH]; intros b E; cbn in E.
  - inv_res. exists b'.(bnet). split; [by destruct b'|].
    split; [exists b'.(bnet).(enabled); destruct b' as [[]]; reflexivity|]. split.
    + intros p Hp. by apply not_elem_of_nil in Hp.
    + assert (forall e, ~ named b' [] e) as Hn by (intros e (p & Hp & _); by apply not_elem_of_nil in Hp).
      intros e. specialize (Hn e). unfold enabled_after. destruct yes; tauto.
  - bind_inv E. unfold enable_end in E0. destruct (end_of b p.1 p.2) as [e|] eqn:Ee; [|done].
    cbn in E0. inv_res. apply IH in E as (rn & -> & Hre & Hall & Hen). exists rn.
    split; [done|]. split; [destruct Hre as [en ->]; by exists en|]. split.
    + intros q [->|Hq]%elem_of_cons; [by exists e|]. by apply Hall.
    + intros e'. rewrite Hen. unfold enabled_after. cbn. rewrite is_enabled_Enable.
      assert (named b (p :: ps) e' <-> e' = e \/ named (on_net (Enable e yes) b) ps e') as Hnm.
      { unfold named. split.
        - intros (q & [->|Hq]%elem_of_cons & Hx); [left; congruence|right; by exists q].
        - intros [->|(q & Hq & Hx)]; [exists p; split; [constructor|done]|].
          exists q. split; [by constructor|done]. }
      destruct (decide (e' = e)), yes; naive_solver.
Qed.

Lemma each_enable_Ret yes (ps : list (Z * Z)) b :
  (forall p, p ∈ ps -> exists e, end_of b p.1 p.2 = Ret e) ->
  exists b', each ps (fun p => enable_end p.1 p.2 yes) b = Ret b'.
Proof.
  intros Hall. destruct (each_Ret (fun b1 => b1.(endnames) = b.(endnames)) ps
    (fun p => enable_end p.1 p.2 yes) b) as (b' & E & _); [|done|by exists b'].
  intros p b1 Hp Hb1. destruct (Hall p Hp) as [e He].
  exists (on_net (Enable e yes) b1). unfold enable_end.
  assert (end_of b1 p.1 p.2 = Ret e) as -> by (unfold end_of in *; by rewrite Hb1). done.
Qed.
End bed.
