(* ===== verification/TestbedTheory.v ===== *)
(** * TestbedTheory: names, persisters and servers of a test stay apart

    [names_ok]: the current end names are distinct ends of the network that lead
    where they should; [heap_ok]: what is saved for a server is the persister of
    its current incarnation and of no other; [srv_ok]: a server object is
    registered under one name.  Restarting a server keeps all three. *)

From S2P Require Import Prelude Gob Raft LabRpc LabRpcTheory ConfigBase Testbed.
Local Open Scope Z_scope.

(** The network on its own: requests are taken and counted, handlers run. *)
Definition net_runs (rn rn' : Network) : Prop :=
  rn'.(ends) = rn.(ends) /\ rn'.(enabled) = rn.(enabled) /\
  rn'.(LabRpc.servers) = rn.(LabRpc.servers) /\ rn'.(connections) = rn.(connections) /\
  length rn'.(srv_heap) = length rn.(srv_heap).

Section theory.
Context {Cmd S : Type} `{!TestServer Cmd S} `{!CryptoRand}.
Implicit Types b : Bed S.

(** ** Making ends *)

Fixpoint connect_ends (k : nat) (l : list Name) (rn : Network) : res Network :=
  match l with
  | [] => Ret rn
  | e :: l => r ← MakeEnd e rn; connect_ends (Datatypes.S k) l (Connect e (NInt (Z.of_nat k)) r)
  end.

Lemma make_ends_from i l k b l1 :
  b.(endnames) !! i = Some (Some (l1 ++ l)) -> length l1 = k ->
  each (map Z.of_nat (seq k (length l))) (make_end (Z.of_nat i)) b
  = rn ← connect_ends k l b.(bnet); Ret (on_net (fun _ => rn) b).
Proof.
  revert k b l1. induction l as [|e l IH]; intros k b l1 Hl Hk; cbn.
  { by destruct b. }
  assert (end_of b (Z.of_nat i) (Z.of_nat k) = Ret e) as He.
  { apply end_of_name. unfold name_at. rewrite Hl. cbn.
    rewrite lookup_app_r by lia. by rewrite Hk, Nat.sub_diag. }
  assert (make_end (Z.of_nat i) (Z.of_nat k) b
    = r ← MakeEnd e (bnet b); Ret (on_net (fun _ => Connect e (NInt (Z.of_nat k)) r) b)) as ->
    by (unfold make_end; by rewrite He).
  destruct (MakeEnd e (bnet b)) as [r|]; cbn; [|done].
  erewrite (IH (Datatypes.S k) _ (l1 ++ [e])); [|cbn; by rewrite <- app_assoc|rewrite length_app; cbn; lia].
  by destruct (connect_ends _ _ _).
Qed.

Lemma connect_ends_spec k l rn rn' :
  connect_ends k l rn = Ret rn' ->
  NoDup l /\ (forall e, e ∈ l -> e ∉ rn.(ends)) /\
  (forall e, e ∈ rn'.(ends) <-> e ∈ rn.(ends) \/ e ∈ l) /\
  (forall j e, l !! j = Some e -> connection rn' e = Some (NInt (Z.of_nat (k + j)))) /\
  (forall e, e ∉ l -> connection rn' e = connection rn e /\ is_enabled rn' e = is_enabled rn e) /\
  (forall e, e ∈ l -> is_enabled rn' e = false) /\
  rn'.(LabRpc.servers) = rn.(LabRpc.servers) /\ rn'.(srv_heap) = rn.(srv_heap).
Proof.
  revert k rn. induction l as [|x l IH]; intros k rn E; cbn in E.
  { inv_res. split; [constructor|]. split; [by intros e ?%not_elem_of_nil|].
    split; [intros e; rewrite elem_of_nil; tauto|].
    repeat split; try done; by intros e ?%not_elem_of_nil. }
  bind_inv E. unfold MakeEnd in E0. case_if; [done|]. inv_res.
  apply bool_decide_eq_false in Heqb.
  apply IH in E as (Hnd & Hnew & Hends & Hconn & Hold & Hdis & Hsrv & Hheap). cbn in *.
  assert (x ∉ l) as Hx by (intros Hx; apply Hnew in Hx; by apply Hx, elem_of_union_l, elem_of_singleton).
  split; [by constructor|].
  split; [intros e [->|He]%elem_of_cons; [done|]; intros Hin; by apply (Hnew e He), elem_of_union_r|].
  split; [intros e; rewrite Hends, elem_of_cons, elem_of_union, elem_of_singleton; tauto|].
  destruct (Hold x Hx) as [Hcx Hex]. unfold connection, is_enabled in *. cbn in *.
  rewrite lookup_insert_eq in Hcx. rewrite lookup_insert_eq in Hex.
  split.
  { intros [|j] e Hj; cbn in Hj; [simplify_eq; rewrite Hcx, Nat.add_0_r; done|].
    rewrite (Hconn j e Hj). by replace (k + Datatypes.S j)%nat with (Datatypes.S k + j)%nat by lia. }
  split; [|split; [|done]].
  - intros e He. destruct (Hold e) as [-> ->]; [set_solver|].
    rewrite !lookup_insert_ne by (intros ->; apply He; constructor). done.
  - intros e [->|He]%elem_of_cons; [by rewrite Hex|by apply Hdis].
Qed.

(** ** Names *)

Record names_ok b : Prop := {
  no_len : length b.(endnames) = b.(size);
  no_row : forall i l, b.(endnames) !! i = Some (Some l) -> length l = b.(size);
  no_known : forall i j e, name_at b i j = Some e ->
    e ∈ b.(bnet).(ends) /\ connection b.(bnet) e = Some (NInt (Z.of_nat j));
  no_inj : forall i j i' j' e, name_at b i j = Some e -> name_at b i' j' = Some e ->
    i = i' /\ j = j';
}.

Lemma name_at_row b i l j : b.(endnames) !! i = Some (Some l) -> name_at b i j = l !! j.
Proof. intros Hr. unfold name_at. by rewrite Hr. Qed.

Lemma name_at_Some b i j e : name_at b i j = Some e ->
  exists l, b.(endnames) !! i = Some (Some l) /\ l !! j = Some e.
Proof.
  unfold name_at. destruct (b.(endnames) !! i) as [[l|]|]; cbn; [|done..]. intros. by exists l.
Qed.

Lemma name_at_lt b i j e : names_ok b -> name_at b i j = Some e ->
  (i < b.(size))%nat /\ (j < b.(size))%nat.
Proof.
  intros Hok (l & Hl & Hj)%name_at_Some. split.
  - rewrite <- (no_len b Hok). by eapply lookup_lt_Some.
  - rewrite <- (no_row b Hok i l Hl). by eapply lookup_lt_Some.
Qed.

(** A row of names exists exactly when its entries do. *)
Lemma name_at_total b i l j : names_ok b -> b.(endnames) !! i = Some (Some l) ->
  (j < b.(size))%nat -> exists e, name_at b i j = Some e.
Proof.
  intros Hok Hl Hj. rewrite (name_at_row b i l j Hl).
  apply lookup_lt_is_Some. by rewrite (no_row b Hok i l Hl).
Qed.

Lemma fresh_names_length k n l : fresh_names k n = Ret l -> length l = n.
Proof.
  revert k l. induction n as [|n IH]; intros k l E; cbn in E; [by inv_res|].
  repeat bind_inv E. inv_res. cbn. f_equal. by eapply IH.
Qed.

(** What new names change: row [i] is a row of ends that did not exist. *)
Record renamed (i : nat) b b' : Prop := {
  rn_size : b'.(size) = b.(size);
  rn_rows : exists l, b'.(endnames) = <[i := Some l]> b.(endnames) /\ length l = b.(size) /\
    NoDup l /\ (forall e, e ∈ l -> e ∉ b.(bnet).(ends)) /\
    (forall e, e ∈ b'.(bnet).(ends) <-> e ∈ b.(bnet).(ends) \/ e ∈ l) /\
    (forall j e, l !! j = Some e -> connection b'.(bnet) e = Some (NInt (Z.of_nat j))) /\
    (forall e, e ∉ l -> connection b'.(bnet) e = connection b.(bnet) e /\
       is_enabled b'.(bnet) e = is_enabled b.(bnet) e) /\
    (forall e, e ∈ l -> is_enabled b'.(bnet) e = false);
  rn_rest : b'.(bservers) = b.(bservers) /\ b'.(saved) = b.(saved) /\ b'.(pheap) = b.(pheap) /\
    b'.(insts) = b.(insts) /\ b'.(bnet).(LabRpc.servers) = b.(bnet).(LabRpc.servers) /\
    b'.(bnet).(srv_heap) = b.(bnet).(srv_heap);
}.

Lemma new_ends_renamed (i : nat) b b1 b2 :
  new_endnames (Z.of_nat i) b = Ret b1 -> make_ends (Z.of_nat i) b1 = Ret b2 -> renamed i b b2.
Proof.
  intros H1 H2. unfold new_endnames in H1. repeat bind_inv H1. inv_res.
  apply fresh_names_length in E. apply upd_Ret in E0 as [Hi ->]. rewrite Nat2Z.id in *.
  unfold make_ends, indices in H2. cbn [size set_endnames] in H2. rewrite <- E in H2.
  rewrite (make_ends_from i x 0 _ []) in H2;
    [|cbn; apply list_lookup_insert_eq; unfold len in Hi; lia|done].
  bind_inv H2. inv_res.
  apply connect_ends_spec in E0 as (Hnd & Hnew & Hends & Hconn & Hold & Hdis & Hsrv & Hheap).
  split; [done| |done]. exists x. by repeat (split; [done|]).
Qed.

Lemma name_at_insert i l b b' j k :
  b'.(endnames) = <[i := Some l]> b.(endnames) -> (i < length b.(endnames))%nat ->
  name_at b' j k = if decide (j = i) then l !! k else name_at b j k.
Proof.
  intros He Hi. unfold name_at. rewrite He. case_decide as Hd.
  - subst. by rewrite list_lookup_insert_eq.
  - by rewrite list_lookup_insert_ne.
Qed.

Lemma renamed_names_ok (i : nat) b b' :
  (i < b.(size))%nat -> renamed i b b' -> names_ok b -> names_ok b'.
Proof.
  intros Hi [Hsz (l & He & Hl & Hnd & Hnew & Hends & Hconn & Hold & _) _] Hok.
  destruct Hok as [Hlen Hrow Hkn Hinj].
  assert (forall j k, name_at b' j k = if decide (j = i) then l !! k else name_at b j k) as Hn
    by (intros; apply name_at_insert; [done|by rewrite Hlen]).
  assert (forall j k e, name_at b j k = Some e -> e ∉ l) as Hfresh.
  { intros j k e [He' _]%Hkn Hin. by apply Hnew in Hin. }
  split.
  - by rewrite He, length_insert, Hsz.
  - intros j l' Hj. rewrite He in Hj. rewrite Hsz. destruct (decide (j = i)) as [->|Hne].
    + rewrite list_lookup_insert_eq in Hj by lia. by simplify_eq.
    + rewrite list_lookup_insert_ne in Hj by done. by eapply Hrow.
  - intros j k e. rewrite Hn, Hends. case_decide as Hd; intros Hk.
    + split; [right; by eapply list_elem_of_lookup_2|by apply Hconn].
    + destruct (Hkn j k e Hk) as [? ?]. split; [by left|].
      destruct (Hold e) as [-> _]; [by eapply Hfresh|done].
  - intros j k j' k' e. rewrite !Hn. case_decide as Hd; case_decide as Hd'; intros Hk Hk'.
    + subst. split; [done|]. by eapply NoDup_lookup.
    + exfalso. eapply Hfresh; [exact Hk'|]. by eapply list_elem_of_lookup_2.
    + exfalso. eapply Hfresh; [exact Hk|]. by eapply list_elem_of_lookup_2.
    + by eapply Hinj.
Qed.

Lemma names_ok_same b b' :
  b'.(endnames) = b.(endnames) -> b'.(size) = b.(size) -> b'.(bnet).(ends) = b.(bnet).(ends) ->
  b'.(bnet).(connections) = b.(bnet).(connections) -> names_ok b -> names_ok b'.
Proof.
  intros He Hz Hn Hc [Hlen Hrow Hkn Hinj].
  split; unfold name_at, connection in *; rewrite ?He, ?Hz, ?Hn, ?Hc; done.
Qed.

(** ** Persisters *)

(** [x]: a server that is being replaced, if any. *)
Record heap_but (x : option nat) b : Prop := {
  hb_servers : length b.(bservers) = b.(size);
  hb_len : length b.(saved) = b.(size);
  hb_saved : forall i p, b.(saved) !! i = Some (Some p) -> (p < length b.(pheap))%nat;
  hb_saved_inj : forall i j p, b.(saved) !! i = Some (Some p) -> b.(saved) !! j = Some (Some p) ->
    i = j;
  hb_inst : forall r s p, b.(insts) !! r = Some (s, p) ->
    b.(pheap) !! p = Some (raft_of s).(persister);
  hb_inst_inj : forall r r' s s' p, b.(insts) !! r = Some (s, p) ->
    b.(insts) !! r' = Some (s', p) -> r = r';
  hb_live : forall i r, x <> Some i -> b.(bservers) !! i = Some (Some r) ->
    exists s p, b.(insts) !! r = Some (s, p) /\ b.(saved) !! i = Some (Some p);
  hb_owner : forall i p r s, b.(saved) !! i = Some (Some p) -> b.(insts) !! r = Some (s, p) ->
    x <> Some i /\ b.(bservers) !! i = Some (Some r);
}.

Abbreviation heap_ok := (heap_but None).

Lemma hb_inst_lt x b r s p : heap_but x b -> b.(insts) !! r = Some (s, p) ->
  (p < length b.(pheap))%nat.
Proof. intros Hb Hr. by eapply lookup_lt_Some, (hb_inst x b Hb). Qed.

Lemma put_saved_spec (i : nat) ps b b' :
  put_saved (Z.of_nat i) ps b = Ret b' ->
  (i < length b.(saved))%nat /\
  b' = set_saved (<[i := Some (length b.(pheap))]> b.(saved)) (set_pheap (b.(pheap) ++ [ps]) b).
Proof.
  unfold put_saved, new_persister. intros E. bind_inv E. inv_res.
  apply upd_Ret in E0 as [Hi ->]. cbn in *. rewrite Nat2Z.id. unfold len in Hi. split; [lia|done].
Qed.

Lemma put_saved_heap (i : nat) ps b b' x :
  x = None \/ x = Some i -> heap_but x b -> put_saved (Z.of_nat i) ps b = Ret b' ->
  heap_but (Some i) b'.
Proof.
  intros Hx Hb [Hi ->]%put_saved_spec. destruct Hb as [Hs Hv Hsv Hinj Hin Hii Hl Ho].
  assert (forall j p, <[i := Some (length (pheap b))]> (saved b) !! j = Some (Some p) ->
    (j = i /\ p = length (pheap b)) \/ (j <> i /\ saved b !! j = Some (Some p))) as Hc.
  { intros j p. destruct (decide (j = i)) as [->|Hne].
    - rewrite list_lookup_insert_eq by done. intros [= <-]. auto.
    - rewrite list_lookup_insert_ne by done. auto. }
  assert (forall r s, insts b !! r <> Some (s, length (pheap b))) as Hfr.
  { intros r s Hr%Hin%lookup_lt_Some. lia. }
  split; cbn; rewrite ?length_insert; try done.
  - intros j p [[-> ->]|[_ Hj]]%Hc; rewrite length_app; cbn; [lia|]. apply Hsv in Hj. lia.
  - intros j k p [[-> ->]|[? Hj]]%Hc [[-> Hp]|[? Hk]]%Hc; try done.
    + apply Hsv in Hk. lia.
    + apply Hsv in Hj. lia.
    + by eapply Hinj.
  - intros r s p Hr%Hin. by apply lookup_app_l_Some.
  - intros j r Hj Hr. destruct (Hl j r) as (s & p & ? & ?); [naive_solver|done|].
    exists s, p. split; [done|]. rewrite list_lookup_insert_ne; [done|congruence].
  - intros j p r s [[-> ->]|[Hj Hp]]%Hc Hr; [by apply Hfr in Hr|].
    destruct (Ho j p r s Hp Hr) as [_ ?]. split; [congruence|done].
Qed.

Lemma saved_state_put (i : nat) ps b b' j x :
  heap_but x b -> put_saved (Z.of_nat i) ps b = Ret b' ->
  saved_state b' j = if decide (j = i) then Some ps else saved_state b j.
Proof.
  intros Hb [Hi ->]%put_saved_spec. unfold saved_state. cbn. case_decide as Hd.
  - subst. rewrite list_lookup_insert_eq by done. cbn. by apply list_lookup_middle.
  - rewrite list_lookup_insert_ne by done. destruct (saved b !! j) as [[p|]|] eqn:E; cbn; try done.
    apply lookup_app_l. by eapply (hb_saved x b Hb).
Qed.

Lemma copy_saved_cases (i : nat) b b' :
  copy_saved (Z.of_nat i) b = Ret b' ->
  (b.(saved) !! i = Some None /\ b' = b) \/
  exists ps, saved_state b i = Some ps /\ put_saved (Z.of_nat i) ps b = Ret b'.
Proof.
  unfold copy_saved. intros E. bind_inv E. apply idx_Ret in E0 as [_ E0]. rewrite Nat2Z.id in E0.
  destruct x as [p|]; [|inv_res; auto]. right. bind_inv E. exists x. unfold saved_state.
  rewrite E0. cbn. unfold persister_at in E1. destruct (pheap b !! p); cbn in E1; [|done].
  inv_res. split; [done|]. by destruct x.
Qed.

Lemma renew_saved_cases (i : nat) b b' :
  renew_saved (Z.of_nat i) b = Ret b' ->
  exists ps, ps = default MakePersister (saved_state b i) /\ put_saved (Z.of_nat i) ps b = Ret b'.
Proof.
  unfold renew_saved. intros E. bind_inv E. apply idx_Ret in E0 as [_ E0]. rewrite Nat2Z.id in E0.
  unfold saved_state. rewrite E0.
  destruct x as [p|]; cbn; [|by exists MakePersister]. bind_inv E.
  unfold persister_at in E1. destruct (pheap b !! p); cbn in E1; [|done].
  inv_res. exists x. split; [done|]. by destruct x.
Qed.

Lemma copy_saved_heap (i : nat) b b' :
  heap_ok b -> copy_saved (Z.of_nat i) b = Ret b' -> heap_but (Some i) b'.
Proof.
  intros Hb [[Hi ->]|(ps & _ & E)]%copy_saved_cases;
    [|by apply (put_saved_heap i ps b b' None); [left|..]].
  destruct Hb as [Hs Hv Hsv Hinj Hin Hii Hl Ho]. split; try done.
  - intros j r _. by apply Hl.
  - intros j p r s Hj Hr. destruct (Ho j p r s Hj Hr) as [_ ?]. split; [congruence|done].
Qed.

Lemma copy_saved_state (i : nat) b b' j :
  heap_ok b -> copy_saved (Z.of_nat i) b = Ret b' -> saved_state b' j = saved_state b j.
Proof.
  intros Hb [[_ ->]|(ps & Hps & E)]%copy_saved_cases; [done|].
  rewrite (saved_state_put i ps b b' j _ Hb E). by case_decide; subst.
Qed.

Lemma forget_heap (i : nat) b b' :
  heap_but (Some i) b -> forget (Z.of_nat i) b = Ret b' ->
  heap_ok b' /\ b'.(bservers) !! i = Some None /\ (forall j, saved_state b' j = saved_state b j).
Proof.
  intros Hb E. unfold forget in E. bind_inv E. apply idx_Ret in E0 as [_ Hx]. rewrite Nat2Z.id in Hx.
  assert (b'.(bservers) = <[i := None]> b.(bservers) /\
          b' = set_bservers b'.(bservers) b) as [Hs' Hb'].
  { destruct x as [r|].
    - bind_inv E. inv_res. apply upd_Ret in E0 as [_ ->]. by rewrite Nat2Z.id.
    - inv_res. split; [by rewrite list_insert_id|by destruct b']. }
  apply lookup_lt_Some in Hx as Hi. rewrite Hb'. clear Hb'. split; [|split; [|done]].
  - destruct Hb as [Hs Hv Hsv Hinj Hin Hii Hl Ho]. split; cbn; try done.
    + by rewrite Hs', length_insert.
    + intros j r _. rewrite Hs'. destruct (decide (j = i)) as [->|Hne].
      * by rewrite list_lookup_insert_eq.
      * rewrite list_lookup_insert_ne by done. apply Hl. congruence.
    + intros j p r s Hj Hr. destruct (Ho j p r s Hj Hr) as [Hne ?]. split; [done|].
      rewrite Hs', list_lookup_insert_ne; [done|congruence].
  - cbn. by rewrite Hs', list_lookup_insert_eq.
Qed.

(** What [launch] does: a new object on the saved persister, registered under
    its index with a new server of the network. *)
Lemma launch_spec (i : nat) b b' :
  launch (Z.of_nat i) b = Ret b' -> exists p ps,
    b.(saved) !! i = Some (Some p) /\ b.(pheap) !! p = Some ps /\ (i < length b.(bservers))%nat /\
    b'.(saved) = b.(saved) /\ b'.(pheap) = b.(pheap) /\ b'.(size) = b.(size) /\
    b'.(endnames) = b.(endnames) /\
    b'.(insts) = b.(insts) ++ [(start_server b.(size) i ps, p)] /\
    b'.(bservers) = <[i := Some (length b.(insts))]> b.(bservers) /\
    exists srv, b'.(bnet) = AddServer (NInt (Z.of_nat i)) (length b.(bnet).(srv_heap))
                             (set_srv_heap b.(bnet) (b.(bnet).(srv_heap) ++ [srv])).
Proof.
  unfold launch. intros E. repeat bind_inv E. inv_res.
  apply idx_Ret in E0 as [_ Hx]. rewrite Nat2Z.id in Hx.
  destruct x as [p|]; cbn in E1; [|done]. inv_res.
  unfold persister_at in E2. destruct (pheap b !! x0) as [ps|] eqn:Ep; cbn in E2; [|done]. inv_res.
  apply upd_Ret in E3 as [Hi ->]. cbn in *. rewrite Nat2Z.id in *. unfold len in Hi.
  exists x0, x1. repeat (split; [done || lia|]). by eexists.
Qed.

Lemma launch_heap (i : nat) b b' :
  heap_but (Some i) b -> launch (Z.of_nat i) b = Ret b' -> heap_ok b'.
Proof.
  intros [Hs Hv Hsv Hinj Hin Hii Hl Ho] (p & ps & Hp & Hps & Hi & Ev & Eh & Ez & Ee & Ei & Es & _)%launch_spec.
  assert (forall r s, insts b !! r <> Some (s, p)) as Hfr.
  { intros r s Hr. by destruct (Ho i p r s Hp Hr). }
  split; rewrite ?Ev, ?Eh, ?Ei, ?Es, ?Ez, ?length_insert; try done.
  - intros r s q [[_ Hr]|[_ [= <- <-]]]%lookup_snoc_Some; [by apply Hin in Hr|].
    by rewrite start_persister.
  - intros r r' s s' q [[_ Hr]|[-> [= <- <-]]]%lookup_snoc_Some
      [[_ Hr']|[-> Hq]]%lookup_snoc_Some.
    + by eapply Hii.
    + simplify_eq. by apply Hfr in Hr.
    + by apply Hfr in Hr'.
    + done.
  - intros j r _. destruct (decide (j = i)) as [->|Hne].
    + rewrite list_lookup_insert_eq by done. intros [= <-].
      exists (start_server (size b) i ps), p. split; [by apply list_lookup_middle|done].
    + rewrite list_lookup_insert_ne by done. intros Hr.
      destruct (Hl j r) as (s & q & ? & ?); [congruence|done|].
      exists s, q. split; [by apply lookup_app_l_Some|done].
  - intros j q r s Hj [[_ Hr]|[-> [= <- <-]]]%lookup_snoc_Some; (split; [done|]).
    + destruct (Ho j q r s Hj Hr) as [Hne ?]. rewrite list_lookup_insert_ne; [done|congruence].
    + assert (j = i) as -> by (by eapply Hinj). by rewrite list_lookup_insert_eq.
Qed.

(** The object at [r] runs. *)
Lemma exec_heap r f b : heap_ok b -> heap_ok (exec r f b).
Proof.
  intros [Hs Hv Hsv Hinj Hin Hii Hl Ho]. unfold exec.
  destruct (insts b !! r) as [[s p]|] eqn:Er; [|by split].
  assert (forall r' s' p', <[r := (f s, p)]> (insts b) !! r' = Some (s', p') ->
    (r' = r /\ s' = f s /\ p' = p) \/ (r' <> r /\ insts b !! r' = Some (s', p'))) as Hc.
  { intros r' s' p'. destruct (decide (r' = r)) as [->|Hne].
    - rewrite list_lookup_insert_eq by (by eapply lookup_lt_Some). intros [= <- <-]. auto.
    - rewrite list_lookup_insert_ne by done. auto. }
  split; cbn; rewrite ?length_insert; try done.
  - intros r' s' p' [(-> & -> & ->)|[Hne Hr']]%Hc.
    + apply list_lookup_insert_eq. by eapply lookup_lt_Some, Hin.
    + rewrite list_lookup_insert_ne; [by apply Hin in Hr'|].
      intros <-. apply Hne. by eapply Hii.
  - intros r1 r2 s1 s2 q [(-> & -> & ->)|[Hn1 H1]]%Hc [(-> & -> & Hq)|[Hn2 H2]]%Hc; try done.
    + exfalso. apply Hn2. by eapply Hii.
    + subst. exfalso. apply Hn1. by eapply Hii.
    + by eapply Hii.
  - intros j r' _ Hr'. destruct (Hl j r') as (s' & q & Hq & ?); [done|done|].
    destruct (decide (r' = r)) as [->|Hne].
    + simplify_eq. eexists _, _. rewrite list_lookup_insert_eq by (by eapply lookup_lt_Some). eauto.
    + exists s', q. by rewrite list_lookup_insert_ne.
  - intros j q r' s' Hj [(-> & -> & ->)|[_ Hr']]%Hc; by eapply Ho.
Qed.

(** What the current server of [i] persists is saved for [i]... *)
Lemma exec_live_saved r f b i s p :
  heap_ok b -> b.(insts) !! r = Some (s, p) -> b.(bservers) !! i = Some (Some r) ->
  saved_state (exec r f b) i = Some (raft_of (f s)).(persister).
Proof.
  intros Hb Hr Hi. destruct (hb_live None b Hb i r) as (s' & p' & Hr' & Hp'); [done..|].
  simplify_eq. unfold exec, saved_state. rewrite Hr. cbn. rewrite Hp'. cbn.
  apply list_lookup_insert_eq. by eapply hb_inst_lt.
Qed.

(** ... and a server that was replaced no longer reaches what is saved. *)
Lemma exec_dead_saved r f b i :
  heap_ok b -> b.(bservers) !! i <> Some (Some r) -> saved_state (exec r f b) i = saved_state b i.
Proof.
  intros Hb Hi. unfold exec. destruct (insts b !! r) as [[s p]|] eqn:Er; [|done].
  unfold saved_state. cbn. destruct (saved b !! i) as [[q|]|] eqn:Es; cbn; try done.
  rewrite list_lookup_insert_ne; [done|]. intros <-.
  by destruct (hb_owner None b Hb i p r s Es Er).
Qed.

(** ** Servers of the network *)

Record srv_ok (rn : Network) : Prop := {
  so_lt : forall s p, server_at rn s = Some p -> (p < length rn.(srv_heap))%nat;
  so_inj : forall s s' p, server_at rn s = Some p -> server_at rn s' = Some p -> s = s';
}.

Lemma server_at_Add s p rn s' :
  server_at (AddServer s p rn) s' = if decide (s' = s) then Some p else server_at rn s'.
Proof.
  unfold server_at. cbn. rewrite lookup_insert.
  destruct (decide (s = s')), (decide (s' = s)); congruence || done.
Qed.

Lemma server_at_Delete s rn s' :
  server_at (DeleteServer s rn) s' = if decide (s' = s) then None else server_at rn s'.
Proof.
  unfold server_at. cbn. rewrite lookup_insert.
  destruct (decide (s = s')), (decide (s' = s)); congruence || done.
Qed.

Lemma srv_ok_same rn rn' :
  rn'.(LabRpc.servers) = rn.(LabRpc.servers) -> rn'.(srv_heap) = rn.(srv_heap) ->
  srv_ok rn -> srv_ok rn'.
Proof. intros Hs Hh [Hl Hi]. split; unfold server_at; rewrite Hs, ?Hh; [apply Hl|apply Hi]. Qed.

Lemma srv_ok_Delete s rn : srv_ok rn -> srv_ok (DeleteServer s rn).
Proof.
  intros [Hl Hi]. split; intros s1; rewrite ?server_at_Delete.
  - intros p. case_decide; [done|]. apply Hl.
  - intros s2 p. rewrite !server_at_Delete. do 2 case_decide; try done. apply Hi.
Qed.

Lemma srv_ok_new s rn srv : srv_ok rn ->
  srv_ok (AddServer s (length rn.(srv_heap)) (set_srv_heap rn (rn.(srv_heap) ++ [srv]))).
Proof.
  intros [Hl Hi]. split; intros s1; rewrite ?server_at_Add.
  - intros p. cbn. rewrite length_app. cbn. case_decide; [intros [= <-]; lia|].
    intros Hp%Hl. lia.
  - intros s2 p. rewrite !server_at_Add. do 2 case_decide; subst; try done.
    + intros [= <-] Hp%Hl. lia.
    + intros Hp%Hl [= <-]. lia.
    + apply Hi.
Qed.

(** The server object of a name that is deleted is registered nowhere. *)
Lemma Delete_detached s p rn :
  srv_ok rn -> server_at rn s = Some p -> detached (DeleteServer s rn) p.
Proof.
  intros [_ Hi] Hp s'. rewrite server_at_Delete. case_decide as Hd; [done|].
  intros Hp'. by apply Hd, (Hi s' s p).
Qed.

(** ** Restarting a server *)

Record bed_ok b : Prop := {
  bo_names : names_ok b;
  bo_heap : heap_ok b;
  bo_srv : srv_ok b.(bnet);
}.

Lemma empty_bed_ok n : bed_ok (empty_bed n).
Proof.
  assert (forall (A : Type) i (a : A), replicate n (@None A) !! i <> Some (Some a)) as Hr
    by (by intros A i a [? _]%lookup_replicate).
  split; split; cbn; rewrite ?length_replicate; try done.
  - intros i l Hi. by apply Hr in Hi.
  - intros i j e (l & Hi & _)%name_at_Some. by apply Hr in Hi.
  - intros i j i' j' e (l & Hi & _)%name_at_Some. by apply Hr in Hi.
  - intros i p Hi. by apply Hr in Hi.
  - intros i j p Hi. by apply Hr in Hi.
  - intros i r _ Hi. by apply Hr in Hi.
Qed.

(** A restarted server runs on what was saved for it, in a new object, and its
    ends are new. *)
Record restarted (i : nat) b b' : Prop := {
  rs_ok : bed_ok b';
  rs_size : b'.(size) = b.(size);
  rs_names : exists b1, renamed i b b1 /\ b'.(endnames) = b1.(endnames) /\
    b'.(bnet).(enabled) = b1.(bnet).(enabled) /\ b'.(bnet).(ends) = b1.(bnet).(ends) /\
    b'.(bnet).(connections) = b1.(bnet).(connections);
  rs_inst : exists p, b'.(insts) = b.(insts) ++
    [(start_server b.(size) i (default MakePersister (saved_state b i)), p)] /\
    b'.(bservers) = <[i := Some (length b.(insts))]> b.(bservers);
  rs_saved : forall j, saved_state b' j =
    if decide (j = i) then Some (default MakePersister (saved_state b i)) else saved_state b j;
}.

Lemma restart_spec (i : nat) b b' :
  (i < b.(size))%nat -> bed_ok b -> restart (Z.of_nat i) b = Ret b' -> restarted i b b'.
Proof.
  intros Hi [Hn Hh Hs] E. unfold restart in E. bind_inv E. bind_inv E. bind_inv E.
  assert (renamed i b x0) as Hren by (by eapply new_ends_renamed).
  pose proof (renamed_names_ok i b x0 Hi Hren Hn) as Hn'.
  pose proof Hren as [Hz (l & He & _) (Rs & Rv & Rh & Ri & Rt & Rp)].
  assert (heap_ok x0) as Hh0.
  { destruct Hh. split; rewrite ?Rs, ?Rv, ?Rh, ?Ri, ?Hz; done. }
  assert (forall j, saved_state x0 j = saved_state b j) as Hss
    by (intros j; unfold saved_state; by rewrite Rv, Rh).
  apply renew_saved_cases in E2 as (ps & Eps & Ep). rewrite Hss in Eps.
  pose proof (put_saved_heap i ps x0 x1 None (or_introl eq_refl) Hh0 Ep) as Hh1.
  assert (forall j, saved_state x1 j = if decide (j = i) then Some ps else saved_state b j) as Hs1.
  { intros j. rewrite (saved_state_put i ps x0 x1 j None Hh0 Ep). by rewrite Hss. }
  pose proof (launch_heap i x1 b' Hh1 E) as Hh'.
  apply put_saved_spec in Ep as [_ Ex1].
  apply launch_spec in E as (p & ps' & Hp & Hps & _ & Ev & Eh & Ez & Ee & Ei & Es & srv & Enet).
  assert (saved_state x1 i = Some ps') as Hps' by (unfold saved_state; by rewrite Hp).
  rewrite Hs1, decide_True in Hps' by done. simplify_eq.
  split.
  - split; [|done|].
    + eapply names_ok_same, Hn'; rewrite ?Ee, ?Ez, ?Enet; done.
    + rewrite Enet. apply srv_ok_new. cbn. by eapply srv_ok_same.
  - by rewrite Ez.
  - exists x0. rewrite Ee, Enet. done.
  - exists p. rewrite Ei, Es. cbn. by rewrite Ri, Rs, Hz.
  - intros j. unfold saved_state at 1. rewrite Ev, Eh. apply Hs1.
Qed.
End theory.

Abbreviation heap_ok := (heap_but None).
