(* ===== verification/SvcConfig.v ===== *)
(** * SvcConfig: the tester of a replicated service (src/kvraft/config.go)

    [config] is a testbed (Testbed.v) with servers of any kind that run on Raft,
    and the clerks that were made, each with the names of its ends.  A [*Clerk] is
    the number of its creation.  src/shardmaster/config.go is the same program on
    another kind of server.  [Panic] is a panic of the test. *)

From S2P Require Import Prelude Gob Raft LabRpc ConfigBase Testbed.
Local Open Scope Z_scope.

Record config (S : Type) := mkConfig {
  bed : Bed S;                       (* net, n, kvservers, saved, endnames *)
  clerks : gmap nat (list Name);
  nclerks : nat;                     (* clerks made so far *)
  nextClientId : Z;
  rpcs0 : Z;
  ops : Z;                           (* int32 *)
}.
Arguments mkConfig {S} _ _ _ _ _ _.
Arguments bed {S} _.
Arguments clerks {S} _.
Arguments nclerks {S} _.
Arguments nextClientId {S} _.
Arguments rpcs0 {S} _.
Arguments ops {S} _.

Section svc.
Context {Cmd S : Type} `{!TestServer Cmd S} `{!CryptoRand}.
Implicit Types cfg : config S.

Definition set_bed (b : Bed S) cfg : config S :=
  mkConfig b cfg.(clerks) cfg.(nclerks) cfg.(nextClientId) cfg.(rpcs0) cfg.(ops).
Definition set_clerks (v : gmap nat (list Name)) cfg : config S :=
  mkConfig cfg.(bed) v cfg.(nclerks) cfg.(nextClientId) cfg.(rpcs0) cfg.(ops).

Definition with_bed (f : Bed S -> res (Bed S)) cfg : res (config S) :=
  b ← f cfg.(bed); Ret (set_bed b cfg).

Definition checkTimeout (failed : bool) (elapsed : Z) : res unit :=
  if negb failed && (120 <? elapsed) then Panic else Ret tt.

(** [Kill] does nothing. *)
Definition cleanup (failed : bool) (elapsed : Z) cfg : res (config S) :=
  cfg ← with_bed (fun b => r ← Cleanup b.(bnet); Ret (on_net (fun _ => r) b)) cfg;
  _ ← checkTimeout failed elapsed;
  Ret cfg.

(** ** Sizes of what is saved *)

(** [cfg.saved[i]]; a method of a nil persister panics. *)
Definition saved_at cfg (i : Z) : res Persister :=
  o ← idx cfg.(bed).(saved) i; p ← res_of_option o; persister_at cfg.(bed) p.

Definition LogSize cfg : res Z :=
  each (indices cfg.(bed)) (fun i logsize =>
    ps ← saved_at cfg i;
    let n := RaftStateSize ps in
    Ret (if logsize <? n then n else logsize)) 0.

Definition SnapshotSize cfg : res Z :=
  each (indices cfg.(bed)) (fun i snapshotsize =>
    ps ← saved_at cfg i;
    let n := Raft.SnapshotSize ps in
    Ret (if snapshotsize <? n then n else snapshotsize)) 0.

(** ** Attaching and detaching servers *)

Definition connectUnlocked (i : Z) (to : list Z) cfg : res (config S) :=
  cfg ← each to (fun j => with_bed (enable_end i j true)) cfg;
  each to (fun j => with_bed (enable_end j i true)) cfg.

Definition connect (i : Z) (to : list Z) cfg : res (config S) := connectUnlocked i to cfg.

(** The second loop asks for the names of server [j], not of [from[j]]. *)
Definition disconnectUnlocked (i : Z) (from : list Z) cfg : res (config S) :=
  cfg ← each from (fun fj cfg =>
    h ← has_endnames cfg.(bed) i;
    if (h : bool) then with_bed (enable_end i fj false) cfg else Ret cfg) cfg;
  each (zip (seq 0 (length from)) from) (fun p cfg =>
    h ← has_endnames cfg.(bed) (Z.of_nat p.1);
    if (h : bool) then with_bed (enable_end p.2 i false) cfg else Ret cfg) cfg.

Definition disconnect (i : Z) (from : list Z) cfg : res (config S) := disconnectUnlocked i from cfg.

Definition All cfg : list Z := indices cfg.(bed).

Definition ConnectAll cfg : res (config S) :=
  each (indices cfg.(bed)) (fun i cfg => connectUnlocked i (All cfg) cfg) cfg.

(** A round of the loops of [partition]. *)
Definition side (mine others : list Z) (i : Z) cfg : res (config S) :=
  cfg ← disconnectUnlocked i others cfg; connectUnlocked i mine cfg.

Definition partition (p1 p2 : list Z) cfg : res (config S) :=
  cfg ← each p1 (side p1 p2) cfg;
  each p2 (side p2 p1) cfg.

(** ** Clerks *)

Definition add_draw (b : Bed S) : Bed S := set_endnames b.(endnames) (Datatypes.S b.(bdraws)) b.

(** The loop of [makeClient]: a fresh end to every server. *)
Definition client_end (j : Z) (st : list Name * Bed S) : res (list Name * Bed S) :=
  let '(names, b) := st in
  s ← randstring b.(bdraws) 20;
  let b := add_draw b in
  r ← MakeEnd (NStr s) b.(bnet);
  Ret (names ++ [NStr s], on_net (fun _ => Connect (NStr s) (NInt j) r) b).

(** [cfg.clerks[ck]]: nil for a clerk that is not there. *)
Definition endnames_of (ck : nat) cfg : list Name := default [] (cfg.(clerks) !! ck).

Definition enable_client (yes : bool) (ck : nat) (js : list Z) cfg : res (config S) :=
  let endnames := endnames_of ck cfg in
  each js (fun j cfg => s ← idx endnames j; Ret (set_bed (on_net (Enable s yes) cfg.(bed)) cfg)) cfg.

Definition ConnectClientUnlocked (ck : nat) (to : list Z) cfg := enable_client true ck to cfg.
Definition ConnectClient (ck : nat) (to : list Z) cfg := ConnectClientUnlocked ck to cfg.
Definition DisconnectClientUnlocked (ck : nat) (from : list Z) cfg := enable_client false ck from cfg.
Definition DisconnectClient (ck : nat) (from : list Z) cfg := DisconnectClientUnlocked ck from cfg.

(** The clerk, the handles it gets ([Intn] are the draws of the shuffle), and
    the configuration. *)
Definition makeClient (to : list Z) (Intn : nat -> Z) cfg : res (nat * list Name * config S) :=
  '(endnames, b) ← each (indices cfg.(bed)) client_end ([], cfg.(bed));
  handles ← random_handles Intn endnames;
  let ck := cfg.(nclerks) in
  let cfg := mkConfig b (<[ck := endnames]> cfg.(clerks)) (Datatypes.S ck)
               (cfg.(nextClientId) + 1) cfg.(rpcs0) cfg.(ops) in
  cfg ← ConnectClientUnlocked ck to cfg;
  Ret (ck, handles, cfg).

(** [os.Remove] of the names does not touch the configuration. *)
Definition deleteClient (ck : nat) cfg : config S := set_clerks (delete ck cfg.(clerks)) cfg.

(** ** Servers *)

Definition ShutdownServer (i : Z) cfg : res (config S) :=
  cfg ← disconnectUnlocked i (All cfg) cfg;
  with_bed (fun b =>
    let b := on_net (DeleteServer (NInt i)) b in
    b ← copy_saved i b;
    forget i b) cfg.

Definition StartServer (i : Z) cfg : res (config S) := with_bed (restart i) cfg.

(** The first server that claims to lead; a nil server panics. *)
Fixpoint Leader_from cfg (js : list Z) : res (bool * Z) :=
  match js with
  | [] => Ret (false, 0)
  | i :: js =>
      o ← idx cfg.(bed).(bservers) i;
      r ← res_of_option o;
      s ← res_of_option (cfg.(bed).(insts) !! r);
      if (GetState (raft_of s.1)).2 then Ret (true, i) else Leader_from cfg js
  end.

Definition Leader cfg : res (bool * Z) := Leader_from cfg (indices cfg.(bed)).

(** ** Partitions *)

(** A round of the loop of [make_partition]: the state is [j], [p1] and [p2]. *)
Definition place (l i : Z) (st : Z * list Z * list Z) : res (Z * list Z * list Z) :=
  let '(j, p1, p2) := st in
  if i =? l then Ret st
  else if j <? len p1 then p1 ← upd p1 j i; Ret (j + 1, p1, p2)
  else p2 ← upd p2 (j - len p1) i; Ret (j + 1, p1, p2).

Definition make_partition cfg : res (list Z * list Z) :=
  '(_, l) ← Leader cfg;
  let n := Z.of_nat cfg.(bed).(size) in
  let p1 := replicate (Z.to_nat (n / 2 + 1)) 0 in
  let p2 := replicate (Z.to_nat (n / 2)) 0 in
  '(_, p1, p2) ← each (indices cfg.(bed)) (place l) (0, p1, p2);
  p2 ← upd p2 (len p2 - 1) l;
  Ret (p1, p2).

(** ** Making a configuration *)

Definition make_config (n : nat) (unreliable : bool) : res (config S) :=
  let cfg := mkConfig (empty_bed n) ∅ 0 (Z.of_nat n + 1000) 0 0 in
  cfg ← each (indices cfg.(bed)) StartServer cfg;
  cfg ← ConnectAll cfg;
  Ret (set_bed (on_net (Reliable (negb unreliable)) cfg.(bed)) cfg).

(** ** Statistics *)

Definition rpcTotal cfg : Z := GetTotalCount cfg.(bed).(bnet).

Definition begin cfg : config S :=
  mkConfig cfg.(bed) cfg.(clerks) cfg.(nclerks) cfg.(nextClientId) (rpcTotal cfg) 0.

Definition op cfg : config S :=
  mkConfig cfg.(bed) cfg.(clerks) cfg.(nclerks) cfg.(nextClientId) cfg.(rpcs0) (wrap32 (cfg.(ops) + 1)).

(** [end]: the numbers it prints (peers, RPCs, operations). *)
Definition end_ (failed : bool) (elapsed : Z) cfg : res (option (Z * Z * Z)) :=
  _ ← checkTimeout failed elapsed;
  if failed then Ret None
  else Ret (Some (Z.of_nat cfg.(bed).(size), rpcTotal cfg - cfg.(rpcs0), cfg.(ops))).
End svc.
