(* ===== verification/SvcTheory.v ===== *)
(** * SvcTheory: the tester of a service keeps its ends in order

    The operations that attach and detach servers are sequences of [Enable]s
    ([ops_of]); the last one that names an end decides.  [svc_ok] says that the
    ends of servers and clerks are distinct and lead where they should, and that
    what is saved for a server belongs to its current incarnation. *)

From S2P Require Import Prelude Gob Raft LabRpc LabRpcTheory ConfigBase Testbed TestbedTheory SvcConfig.
Local Open Scope Z_scope.

(** ** Loops *)

Lemma each_map {A B S} (g : A -> B) (l : list A) (f : B -> S -> res S) s :
  each (map g l) f s = each l (fun x => f (g x)) s.
Proof. revert s. induction l as [|x l IH]; intros s; [done|]. cbn. destruct (f _ s); [apply IH|done]. Qed.

(** Bodies that agree on the states the loop goes through. *)
Lemma each_ext {A S} (P : S -> Prop) (l : list A) (f g : A -> S -> res S) s :
  P s -> (forall x s, x ∈ l -> P s -> f x s = g x s) ->
  (forall x s s', x ∈ l -> P s -> g x s = Ret s' -> P s') -> each l f s = each l g s.
Proof.
  revert s. induction l as [|x l IH]; intros s Hs He Hk; [done|]. cbn.
  rewrite (He x s) by (done || constructor). destruct (g x s) as [s1|] eqn:E; [|done]. cbn.
  apply IH; [eapply Hk; [constructor|exact Hs|exact E]|..]; intros; [apply He|eapply Hk]; try done;
    by constructor.
Qed.

Lemma each_bind {A B S} (l : list A) (h : A -> list B) (f : B -> S -> res S) s :
  each (l ≫= h) f s = each l (fun x => each (h x) f) s.
Proof.
  revert s. induction l as [|x l IH]; intros s; [done|]. cbn. rewrite each_app.
  destruct (each (h x) f s); cbn; [apply IH|done].
Qed.

(** ** Sequences of [Enable] *)

Section ops.
Context {Cmd S : Type} `{!TestServer Cmd S} `{!CryptoRand}.
Implicit Types (b : Bed S) (cfg : config S).

Record EnOp := mkOp { o_yes : bool; o_from : Z; o_to : Z }.

Definition en_op (o : EnOp) : config S -> res (config S) :=
  with_bed (enable_end o.(o_from) o.(o_to) o.(o_yes)).

Definition names b (o : EnOp) (e : Name) : Prop := end_of b o.(o_from) o.(o_to) = Ret e.

(** What a sequence of operations has done to the end [e]. *)
Definition settled b (os : list EnOp) (rn : Network) (e : Name) : Prop :=
  (forall v, (exists o, o ∈ os /\ names b o e) -> (forall o, o ∈ os -> names b o e -> o.(o_yes) = v) ->
     is_enabled rn e = v) /\
  ((forall o, o ∈ os -> ~ names b o e) -> is_enabled rn e = is_enabled b.(bnet) e).

Global Instance names_dec b o e : Decision (names b o e).
Proof.
  unfold names. destruct (end_of b _ _) as [e'|]; [|by right].
  destruct (decide (e' = e)) as [->|]; [by left|right; congruence].
Defined.

(** The first operation names [e0]; the rest decides the ends that it names. *)
Lemma settled_cons b o os e0 rn e :
  names b o e0 -> settled (on_net (Enable e0 o.(o_yes)) b) os rn e -> settled b (o :: os) rn e.
Proof.
  intros Ho [Hv Hn]. cbn in Hn. rewrite is_enabled_Enable in Hn.
  assert (names b o e <-> e = e0) as He by (unfold names in *; split; congruence).
  destruct (decide (Exists (fun o => names b o e) os)) as [Hex%Exists_exists|Hno].
  - split.
    + intros v _ Hall. apply Hv; [done|]. intros o' Hin. apply Hall. by constructor.
    + intros Hnone. destruct Hex as (o' & Hin & Hx). by destruct (Hnone o' ltac:(by constructor)).
  - rewrite <- Forall_Exists_neg, Forall_forall in Hno. specialize (Hn Hno). split.
    + intros v (o' & [->|Hin]%elem_of_cons & Hx) Hall; [|by destruct (Hno o' Hin)].
      rewrite Hn, decide_True by (by apply He). apply Hall; [constructor|done].
    + intros Hnone. rewrite Hn, decide_False; [done|]. rewrite <- He. apply Hnone. constructor.
Qed.

Lemma each_ops os cfg :
  (forall o, o ∈ os -> exists e, names cfg.(bed) o e) ->
  exists rn, each os en_op cfg = Ret (set_bed (on_net (fun _ => rn) cfg.(bed)) cfg) /\
    re_enabled cfg.(bed).(bnet) rn /\ forall e, settled cfg.(bed) os rn e.
Proof.
  revert cfg. induction os as [|o os IH]; intros cfg Hall; cbn.
  { exists cfg.(bed).(bnet). split; [by destruct cfg as [[]]|].
    split; [exists cfg.(bed).(bnet).(enabled); by destruct cfg as [[[]]]|].
    intros e. split; [|done]. intros v (o & Ho & _). by apply not_elem_of_nil in Ho. }
  destruct (Hall o) as [e0 He0]; [constructor|].
  assert (en_op o cfg = Ret (set_bed (on_net (Enable e0 o.(o_yes)) cfg.(bed)) cfg)) as ->.
  { unfold en_op, with_bed, enable_end. unfold names in He0. by rewrite He0. }
  destruct (IH (set_bed (on_net (Enable e0 o.(o_yes)) cfg.(bed)) cfg)) as (rn & E & [en Hre] & Hset).
  { intros o' Ho'. destruct (Hall o') as [e He]; [by constructor|]. by exists e. }
  exists rn. split; [exact E|]. split; [exists en; exact Hre|]. intros e. by eapply settled_cons.
Qed.

(** ** The operations as sequences *)

Definition connect_ops (i : Z) (to : list Z) : list EnOp :=
  map (mkOp true i) to ++ map (fun j => mkOp true j i) to.
Definition disconnect_ops (i : Z) (from : list Z) : list EnOp :=
  map (mkOp false i) from ++ map (fun j => mkOp false j i) from.
Definition side_ops (mine others : list Z) (i : Z) : list EnOp :=
  disconnect_ops i others ++ connect_ops i mine.
Definition partition_ops (p1 p2 : list Z) : list EnOp :=
  (p1 ≫= side_ops p1 p2) ++ (p2 ≫= side_ops p2 p1).

(** Every server has a row of names. *)
Definition all_named b : Prop :=
  length b.(endnames) = b.(size) /\
  forall i, (i < b.(size))%nat -> exists l, b.(endnames) !! i = Some (Some l) /\ length l = b.(size).

Definition in_range b (l : list Z) : Prop := Forall (fun j => 0 <= j < Z.of_nat b.(size)) l.

Lemma all_named_end b i j : all_named b -> 0 <= i < Z.of_nat b.(size) -> 0 <= j < Z.of_nat b.(size) ->
  exists e, end_of b i j = Ret e.
Proof.
  intros [_ Hn] Hi Hj. destruct (Hn (Z.to_nat i)) as (l & Hl & Hlen); [lia|].
  unfold end_of. destruct (idx_in_range l j) as [e He]; [unfold len; lia|]. exists e.
  assert (idx (endnames b) i = Ret (Some l)) as -> by (apply idx_Ret; split; [lia|done]). exact He.
Qed.

Lemma all_named_has b i : all_named b -> 0 <= i < Z.of_nat b.(size) -> has_endnames b i = Ret true.
Proof.
  intros [_ Hn] Hi. destruct (Hn (Z.to_nat i)) as (l & Hl & _); [lia|]. unfold has_endnames.
  assert (idx (endnames b) i = Ret (Some l)) as -> by (apply idx_Ret; split; [lia|done]).
  change (Ret (bool_decide (Some l <> None)) = Ret true). by rewrite bool_decide_true.
Qed.

(** Operations leave everything but the network as it is. *)
Definition same_rows cfg cfg' : Prop :=
  cfg'.(bed).(endnames) = cfg.(bed).(endnames) /\ cfg'.(bed).(size) = cfg.(bed).(size).

Lemma same_rows_named cfg cfg' : same_rows cfg cfg' -> all_named cfg.(bed) -> all_named cfg'.(bed).
Proof. intros [He Hz]. unfold all_named. by rewrite He, Hz. Qed.

Lemma en_op_rows o cfg cfg' : en_op o cfg = Ret cfg' -> same_rows cfg cfg'.
Proof. unfold en_op, with_bed, enable_end. intros E. bind_inv E. bind_inv E0. inv_res. done. Qed.

Lemma each_rows os cfg cfg' : each os en_op cfg = Ret cfg' -> same_rows cfg cfg'.
Proof.
  eapply (each_keeps (fun c => same_rows cfg c)); [|done].
  intros o c c' _ [H1 H2] [H3 H4]%en_op_rows. split; congruence.
Qed.

Lemma connect_as_ops i to cfg : connectUnlocked i to cfg = each (connect_ops i to) en_op cfg.
Proof. 
  unfold connectUnlocked, connect_ops. rewrite each_app, each_map.
  change (each to (fun j => with_bed (enable_end i j true)) cfg)
    with (each to (fun x => en_op (mkOp true i x)) cfg).
  destruct (each to (fun x => en_op (mkOp true i x)) cfg) as [c|]; [|done]. cbn. by rewrite each_map.
Qed.

Lemma disconnect_as_ops i from cfg :
  all_named cfg.(bed) -> 0 <= i < Z.of_nat cfg.(bed).(size) ->
  (length from <= cfg.(bed).(size))%nat ->
  disconnectUnlocked i from cfg = each (disconnect_ops i from) en_op cfg.
Proof.
  intros Hn Hi Hl. unfold disconnectUnlocked, disconnect_ops.
  rewrite each_app, each_map.
  rewrite (each_ext (same_rows cfg) from _ (fun j => en_op (mkOp false i j))); [|done|..].
  - destruct (each from (fun j => en_op (mkOp false i j)) cfg) as [cfg1|] eqn:E1; [|done]. cbn.
    rewrite <- each_map in E1. apply each_rows in E1 as H1.
    assert (forall k l c, same_rows cfg c -> (k + length l <= size (bed cfg))%nat ->
      each (zip (seq k (length l)) l) (fun p cfg => h ← has_endnames (bed cfg) (Z.of_nat p.1);
        if (h : bool) then with_bed (enable_end p.2 i false) cfg else Ret cfg) c
      = each l (fun j => en_op (mkOp false j i)) c) as Hz; [|rewrite each_map; apply Hz; [done|cbn; lia]].
    intros k l. revert k. induction l as [|j l IH]; intros k c Hc Hk; cbn; [done|]. cbn in Hk.
    rewrite all_named_has; [|exact (same_rows_named _ _ Hc Hn)|destruct Hc as [_ ->]; lia]. cbn.
    change (with_bed (enable_end j i false) c) with (en_op (mkOp false j i) c).
    destruct (en_op _ c) as [c1|] eqn:E; [|done]. cbn. apply IH; [|lia].
    apply en_op_rows in E as [? ?]. destruct Hc. split; congruence.
  - intros j c _ Hc. rewrite all_named_has; [done|by eapply same_rows_named|]. by destruct Hc as [_ ->].
  - intros j c c' _ [? ?] [? ?]%en_op_rows. split; congruence.
Qed.

Lemma each_bind_ext {A} (l : list A) (h : A -> list EnOp) (f : A -> config S -> res (config S)) cfg :
  (forall x c, x ∈ l -> same_rows cfg c -> f x c = each (h x) en_op c) ->
  each l f cfg = each (l ≫= h) en_op cfg.
Proof.
  intros Hf. rewrite each_bind. apply (each_ext (same_rows cfg)); [done|done|].
  intros x c c' _ [? ?] [? ?]%each_rows. split; congruence.
Qed.

Lemma side_as_ops mine others i cfg :
  all_named cfg.(bed) -> 0 <= i < Z.of_nat cfg.(bed).(size) ->
  (length others <= cfg.(bed).(size))%nat ->
  side mine others i cfg = each (side_ops mine others i) en_op cfg.
Proof.
  intros Hn Hi Hl. unfold side, side_ops. rewrite each_app, disconnect_as_ops by done.
  destruct (each (disconnect_ops i others) en_op cfg) as [c|]; [|done]. cbn. apply connect_as_ops.
Qed.

Lemma partition_as_ops p1 p2 cfg :
  all_named cfg.(bed) -> in_range cfg.(bed) p1 -> in_range cfg.(bed) p2 ->
  (length p1 <= cfg.(bed).(size))%nat -> (length p2 <= cfg.(bed).(size))%nat ->
  partition p1 p2 cfg = each (partition_ops p1 p2) en_op cfg.
Proof.
  intros Hn H1 H2 Hl1 Hl2. unfold partition, partition_ops. rewrite each_app.
  rewrite (each_bind_ext p1 (side_ops p1 p2)).
  - destruct (each (p1 ≫= side_ops p1 p2) en_op cfg) as [c|] eqn:E; [|done]. cbn.
    apply each_rows in E as Hc. apply each_bind_ext. intros i c' Hi [He Hz].
    assert (same_rows cfg c') as Hc' by (destruct Hc; split; congruence).
    apply side_as_ops; [by eapply same_rows_named|..]; destruct Hc' as [_ ->]; [|done].
    unfold in_range in H2. rewrite Forall_forall in H2. by apply H2.
  - intros i c Hi Hc. apply side_as_ops; [by eapply same_rows_named|..]; destruct Hc as [_ ->]; [|done].
    unfold in_range in H1. rewrite Forall_forall in H1. by apply H1.
Qed.

Lemma elem_of_connect_ops i to v a c :
  mkOp v a c ∈ connect_ops i to <-> v = true /\ ((a = i /\ c ∈ to) \/ (c = i /\ a ∈ to)).
Proof.
  unfold connect_ops. rewrite elem_of_app, !list_elem_of_fmap. split.
  - intros [(j & [= -> -> ->] & ?)|(j & [= -> -> ->] & ?)]; auto.
  - intros (-> & [[-> ?]|[-> ?]]); [left|right]; eauto.
Qed.

Lemma elem_of_disconnect_ops i from v a c :
  mkOp v a c ∈ disconnect_ops i from <-> v = false /\ ((a = i /\ c ∈ from) \/ (c = i /\ a ∈ from)).
Proof.
  unfold disconnect_ops. rewrite elem_of_app, !list_elem_of_fmap. split.
  - intros [(j & [= -> -> ->] & ?)|(j & [= -> -> ->] & ?)]; auto.
  - intros (-> & [[-> ?]|[-> ?]]); [left|right]; eauto.
Qed.

(** [partition] sets an end exactly when both servers are on a side: to true
    within a side, and to false across. *)
Lemma elem_of_partition_ops p1 p2 v a c :
  mkOp v a c ∈ partition_ops p1 p2 <->
  if v then (a ∈ p1 /\ c ∈ p1) \/ (a ∈ p2 /\ c ∈ p2)
  else (a ∈ p1 /\ c ∈ p2) \/ (a ∈ p2 /\ c ∈ p1).
Proof.
  unfold partition_ops, side_ops. rewrite elem_of_app, !list_elem_of_bind.
  setoid_rewrite elem_of_app. setoid_rewrite elem_of_connect_ops.
  setoid_rewrite elem_of_disconnect_ops. destruct v; split.
  - intros [(x & [[? ?]|[_ [[-> ?]|[-> ?]]]] & ?)|(x & [[? ?]|[_ [[-> ?]|[-> ?]]]] & ?)]; auto; done.
  - intros [[? ?]|[? ?]]; [left|right]; exists a; (split; [right|done]); auto.
  - intros [(x & [[_ [[-> ?]|[-> ?]]]|[? ?]] & ?)|(x & [[_ [[-> ?]|[-> ?]]]|[? ?]] & ?)]; auto; done.
  - intros [[? ?]|[? ?]]; [left|right]; exists a; (split; [left|done]); auto.
Qed.
End ops.

(** ** The invariant *)

Section inv.
Context {Cmd S : Type} `{!TestServer Cmd S} `{!CryptoRand} {n : nat}.
Implicit Types (b : Bed S) (cfg : config S).

Record svc_ok cfg : Prop := {
  so_size : cfg.(bed).(size) = n;
  so_bed : bed_ok cfg.(bed);
  so_rows : forall i, (i < cfg.(bed).(size))%nat -> exists l, cfg.(bed).(endnames) !! i = Some (Some l);
  so_clerk_len : forall ck l, cfg.(clerks) !! ck = Some l ->
    (ck < cfg.(nclerks))%nat /\ length l = cfg.(bed).(size);
  so_clerk : forall ck l j e, cfg.(clerks) !! ck = Some l -> l !! j = Some e ->
    e ∈ cfg.(bed).(bnet).(ends) /\ connection cfg.(bed).(bnet) e = Some (NInt (Z.of_nat j)) /\
    forall i k, name_at cfg.(bed) i k <> Some e;
  so_clerk_inj : forall ck l j ck' l' j' e, cfg.(clerks) !! ck = Some l -> l !! j = Some e ->
    cfg.(clerks) !! ck' = Some l' -> l' !! j' = Some e -> ck = ck' /\ j = j';
}.

Lemma svc_ok_named cfg : svc_ok cfg -> all_named cfg.(bed).
Proof.
  intros Hok. pose proof (bo_names _ (so_bed _ Hok)) as Hn. split; [by apply no_len|].
  intros i Hi. destruct (so_rows _ Hok i Hi) as [l Hl]. exists l. split; [done|]. by eapply no_row.
Qed.

(** What changes only the servers' objects, their persisters, who is enabled and the
    names of servers on the network keeps the invariant. *)
Lemma svc_ok_frame cfg b :
  svc_ok cfg -> bed_ok b -> b.(endnames) = cfg.(bed).(endnames) -> b.(size) = cfg.(bed).(size) ->
  b.(bnet).(ends) = cfg.(bed).(bnet).(ends) ->
  b.(bnet).(connections) = cfg.(bed).(bnet).(connections) -> svc_ok (set_bed b cfg).
Proof.
  intros [Hn' Hb Hr Hl Hc Hi] Hb' He Hz Hn Hco. split; cbn; try done.
  - by rewrite Hz.
  - by rewrite He, Hz.
  - by rewrite Hz.
  - intros ck l j e. unfold name_at, connection in *. rewrite He, Hn, Hco. apply Hc.
Qed.

Lemma bed_ok_net b rn :
  bed_ok b -> rn.(ends) = b.(bnet).(ends) -> rn.(connections) = b.(bnet).(connections) ->
  srv_ok rn -> bed_ok (on_net (fun _ => rn) b).
Proof. intros [Hn [] _] He Hc Hs. split; [by eapply names_ok_same, Hn|by split|done]. Qed.

Lemma svc_ok_enable e v cfg : svc_ok cfg -> svc_ok (set_bed (on_net (Enable e v) cfg.(bed)) cfg).
Proof.
  intros Hok. pose proof (so_bed _ Hok) as Hb. apply svc_ok_frame; [done| |done..].
  apply (bed_ok_net (bed cfg) (Enable e v (bnet (bed cfg)))); [done..|].
  eapply srv_ok_same, (bo_srv _ Hb); done.
Qed.

Lemma en_op_ok o cfg cfg' : en_op o cfg = Ret cfg' -> svc_ok cfg -> svc_ok cfg'.
Proof.
  unfold en_op, with_bed, enable_end. intros E Hok. bind_inv E. bind_inv E0. inv_res.
  by apply svc_ok_enable.
Qed.

Lemma connect_svc_ok i to cfg cfg' : connectUnlocked i to cfg = Ret cfg' -> svc_ok cfg -> svc_ok cfg'.
Proof.
  rewrite connect_as_ops. intros E Hok. eapply (each_keeps svc_ok), E; [|done].
  intros o c c' _ Hc Ho. by eapply en_op_ok.
Qed.

Lemma disconnect_svc_ok i from cfg cfg' :
  disconnectUnlocked i from cfg = Ret cfg' -> svc_ok cfg -> svc_ok cfg'.
Proof.
  unfold disconnectUnlocked. intros E Hok. bind_inv E.
  assert (forall i j c c', (h ← has_endnames (bed c) i;
    if (h : bool) then with_bed (enable_end i j false) c else Ret c) = Ret c' \/
    with_bed (enable_end i j false) c = Ret c' -> svc_ok c -> svc_ok c') as Hstep.
  { intros i' j' c c' [Ec|Ec] Hc; [|by eapply (en_op_ok (mkOp false i' j'))].
    bind_inv Ec. destruct x0; [by eapply (en_op_ok (mkOp false i' j'))|by inv_res]. }
  assert (svc_ok x) as Hx.
  { eapply (each_keeps svc_ok), E0; [|done]. intros j c c' _ Hc Ec. exact (Hstep i j c c' (or_introl Ec) Hc). }
  eapply (each_keeps svc_ok), E; [|done]. intros p c c' _ Hc Ec. cbn in Ec. bind_inv Ec.
  destruct x0; [|by inv_res]. exact (Hstep p.2 i c c' (or_intror Ec) Hc).
Qed.

Lemma ConnectAll_svc_ok cfg cfg' : ConnectAll cfg = Ret cfg' -> svc_ok cfg -> svc_ok cfg'.
Proof.
  unfold ConnectAll. intros E Hok. eapply (each_keeps svc_ok), E; [|done].
  intros i c c' _ Hc Ec. exact (connect_svc_ok _ _ _ _ Ec Hc).
Qed.

Lemma partition_svc_ok p1 p2 cfg cfg' : partition p1 p2 cfg = Ret cfg' -> svc_ok cfg -> svc_ok cfg'.
Proof.
  assert (forall m o i c c', side m o i c = Ret c' -> svc_ok c -> svc_ok c') as Hside.
  { intros m o i c c' E Hc. unfold side in E. bind_inv E. eapply connect_svc_ok; [exact E|].
    by eapply disconnect_svc_ok. }
  unfold partition. intros E Hok. bind_inv E.
  eapply (each_keeps svc_ok), E; [intros i c c' _ Hc Ec; by eapply Hside|].
  eapply (each_keeps svc_ok), E0; [intros i c c' _ Hc Ec; by eapply Hside|done].
Qed.

Lemma client_svc_ok v ck js cfg cfg' : enable_client v ck js cfg = Ret cfg' -> svc_ok cfg -> svc_ok cfg'.
Proof.
  unfold enable_client. intros E Hok. eapply (each_keeps svc_ok), E; [|done].
  intros j c c' _ Hc Ec. cbn in Ec. bind_inv Ec. inv_res. by apply svc_ok_enable.
Qed.

Lemma delete_svc_ok ck cfg : svc_ok cfg -> svc_ok (deleteClient ck cfg).
Proof.
  intros [Hz Hb Hr Hl Hc Hi]. split; cbn; try done.
  - intros ck' l [_ Hd]%lookup_delete_Some. by eapply Hl.
  - intros ck' l j e [_ Hd]%lookup_delete_Some. by eapply Hc.
  - intros c1 l1 j1 c2 l2 j2 e [_ H1]%lookup_delete_Some Hj1 [_ H2]%lookup_delete_Some. by eapply Hi.
Qed.

Lemma exec_svc_ok r f cfg : svc_ok cfg -> svc_ok (set_bed (exec r f cfg.(bed)) cfg).
Proof.
  intros Hok. pose proof (so_bed _ Hok) as [Hn Hh Hs].
  pose proof (exec_heap r f _ Hh) as Hh'. apply svc_ok_frame; [done|split|..];
    unfold exec in *; destruct (insts (bed cfg) !! r) as [[s p]|]; try done.
  by eapply names_ok_same, Hn.
Qed.
End inv.
Arguments svc_ok {Cmd S _} n cfg.
