(* ===== verification/SvcSteps.v ===== *)
(** * SvcSteps: what the operations of the tester of a service do

    Starting and shutting down servers and making clerks keep the invariant of
    SvcTheory.v; [shut] and [client_made] say what they do.  [svc_reach] are the
    configurations a test can reach. *)

From S2P Require Import Prelude Gob Raft LabRpc LabRpcTheory ConfigBase Testbed TestbedTheory SvcConfig SvcTheory.
Local Open Scope Z_scope.

Section main.
Context {Cmd S : Type} `{!TestServer Cmd S} `{!CryptoRand} {n : nat}.
Implicit Types (b : Bed S) (cfg : config S).

(** ** Starting servers *)

(** Row [i] of the names; all others stay. *)
Lemma renamed_name_at i b b1 j k e :
  (i < length b.(endnames))%nat -> renamed i b b1 -> name_at b1 j k = Some e ->
  (j = i /\ e ∉ b.(bnet).(ends)) \/ (j <> i /\ name_at b j k = Some e).
Proof.
  intros Hi [_ (l & He & _ & _ & Hnew & _) _]. rewrite (name_at_insert i l b b1 j k He Hi).
  case_decide as Hd; [|by right]. intros Hk. left. split; [done|].
  by eapply Hnew, list_elem_of_lookup_2.
Qed.

Lemma StartServer_size i cfg cfg' : StartServer (Z.of_nat i) cfg = Ret cfg' ->
  bed_ok cfg.(bed) -> (i < cfg.(bed).(size))%nat.
Proof.
  unfold StartServer, with_bed. intros E Hb. bind_inv E. unfold restart in E0. bind_inv E0.
  unfold new_endnames in E1. bind_inv E1. bind_inv E1. apply upd_Ret in E3 as [Hi _].
  rewrite <- (no_len _ (bo_names _ Hb)). unfold len in Hi. lia.
Qed.

Lemma StartServer_restarted i cfg cfg' : StartServer (Z.of_nat i) cfg = Ret cfg' ->
  bed_ok cfg.(bed) -> (i < cfg.(bed).(size))%nat /\ restarted i cfg.(bed) cfg'.(bed) /\
  cfg' = set_bed cfg'.(bed) cfg.
Proof.
  intros E Hb. pose proof (StartServer_size i cfg cfg' E Hb) as Hi. split; [done|].
  unfold StartServer, with_bed in E. bind_inv E. inv_res. split; [|done]. by apply restart_spec.
Qed.

(** A restart keeps the names of clerks apart from the new ones. *)
Lemma StartServer_ok i cfg cfg' :
  StartServer (Z.of_nat i) cfg = Ret cfg' -> bed_ok cfg.(bed) ->
  (forall ck l, cfg.(clerks) !! ck = Some l -> (ck < cfg.(nclerks))%nat /\ length l = cfg.(bed).(size)) ->
  (forall ck l j e, cfg.(clerks) !! ck = Some l -> l !! j = Some e ->
    e ∈ cfg.(bed).(bnet).(ends) /\ connection cfg.(bed).(bnet) e = Some (NInt (Z.of_nat j)) /\
    forall i k, name_at cfg.(bed) i k <> Some e) ->
  forall ck l j e, cfg'.(clerks) !! ck = Some l -> l !! j = Some e ->
    e ∈ cfg'.(bed).(bnet).(ends) /\ connection cfg'.(bed).(bnet) e = Some (NInt (Z.of_nat j)) /\
    forall i k, name_at cfg'.(bed) i k <> Some e.
Proof.
  intros E Hb Hl Hc ck l j e. destruct (StartServer_restarted i cfg cfg' E Hb) as (Hi & [_ _ Hnm _ _] & ->).
  cbn. intros Hck Hj. destruct (Hc ck l j e Hck Hj) as (Hin & Hco & Hap).
  destruct Hnm as (b1 & Hren & He & _ & Hends & Hconn).
  pose proof Hren as [_ (l' & _ & _ & _ & Hnew & Hin' & _ & Hold & _) _].
  assert (e ∉ l') as Hnl by (intros Hx; by apply Hnew in Hx).
  assert (connection (bnet (bed cfg')) e = connection (bnet b1) e) as -> by (unfold connection; by rewrite Hconn).
  rewrite Hends, Hin'. split; [by left|].
  split; [by destruct (Hold e Hnl) as [-> _]|]. intros a k. unfold name_at. rewrite He.
  fold (name_at b1 a k). intros Hx. eapply renamed_name_at in Hx as [[_ Hx]|[_ Hx]]; [done|by apply Hap in Hx|..|exact Hren].
  by rewrite (no_len _ (bo_names _ Hb)).
Qed.

Lemma StartServer_svc_ok i cfg cfg' :
  StartServer (Z.of_nat i) cfg = Ret cfg' -> svc_ok n cfg -> svc_ok n cfg'.
Proof.
  intros E [Hn Hb Hr Hl Hc Hi]. pose proof (StartServer_ok i cfg cfg' E Hb Hl Hc) as Hc'.
  destruct (StartServer_restarted i cfg cfg' E Hb) as (Hlt & [Hok Hz (b1 & Hren & He & _) _ _] & Ecfg).
  split; [congruence|done| |rewrite Ecfg; cbn; by rewrite Hz|done|by rewrite Ecfg].
  intros j Hj. rewrite Hz in Hj. destruct Hren as [_ (l & Hen & _) _]. rewrite He, Hen.
  destruct (decide (j = i)) as [->|Hne].
  - exists l. apply list_lookup_insert_eq. by rewrite (no_len _ (bo_names _ Hb)).
  - rewrite list_lookup_insert_ne by done. by apply Hr.
Qed.

(** ** Shutting down *)

(** After [ShutdownServer i]. *)
Record shut (i : nat) cfg cfg' : Prop := {
  sh_ok : svc_ok n cfg';
  sh_size : cfg'.(bed).(size) = cfg.(bed).(size);
  sh_lt : (i < cfg.(bed).(size))%nat;
  sh_names : cfg'.(bed).(endnames) = cfg.(bed).(endnames);
  sh_off : forall j e, name_at cfg'.(bed) i j = Some e \/ name_at cfg'.(bed) j i = Some e ->
    is_enabled cfg'.(bed).(bnet) e = false;
  sh_insts : cfg'.(bed).(insts) = cfg.(bed).(insts);
  sh_gone : cfg'.(bed).(bservers) !! i = Some None;
  sh_saved : forall j, saved_state cfg'.(bed) j = saved_state cfg.(bed) j;
  sh_server : forall sp, server_at cfg.(bed).(bnet) (NInt (Z.of_nat i)) = Some sp ->
    detached cfg'.(bed).(bnet) sp;
}.

Lemma elem_of_All cfg (j : nat) : Z.of_nat j ∈ All cfg <-> (j < cfg.(bed).(size))%nat.
Proof.
  unfold All, indices. rewrite list_elem_of_fmap. split.
  - intros (k & ?%Nat2Z.inj & Hk%elem_of_seq). lia.
  - intros Hj. exists j. split; [done|]. apply elem_of_seq. lia.
Qed.

(** Detaching a server from all disables every end of it. *)
Lemma disconnect_all i cfg :
  svc_ok n cfg -> (i < cfg.(bed).(size))%nat -> exists rn,
    disconnectUnlocked (Z.of_nat i) (All cfg) cfg = Ret (set_bed (on_net (fun _ => rn) cfg.(bed)) cfg) /\
    re_enabled cfg.(bed).(bnet) rn /\
    forall j e, name_at cfg.(bed) i j = Some e \/ name_at cfg.(bed) j i = Some e ->
      is_enabled rn e = false.
Proof.
  intros Hok Hi. pose proof (svc_ok_named _ Hok) as Hn. pose proof (bo_names _ (so_bed _ Hok)) as Hnm.
  rewrite disconnect_as_ops; [|done|lia|by unfold All, indices; rewrite length_map, length_seq].
  destruct (each_ops (disconnect_ops (Z.of_nat i) (All cfg)) cfg) as (rn & E & Hre & Hset).
  { intros [v a c] Ho. apply elem_of_disconnect_ops in Ho as (_ & Ho). apply all_named_end; [done|..];
      cbn; destruct Ho as [[-> Hc]|[-> Hc]];
      unfold All, indices in Hc; apply list_elem_of_fmap in Hc as (k & -> & ?%elem_of_seq) || idtac; lia. }
  exists rn. split; [done|]. split; [done|]. intros j e He.
  assert ((j < size (bed cfg))%nat) as Hj by (destruct He as [He|He]; apply name_at_lt in He; tauto).
  destruct (Hset e) as [Hv _]. apply Hv.
  - destruct He as [He|He]; apply end_of_name in He;
      [exists (mkOp false (Z.of_nat i) (Z.of_nat j))|exists (mkOp false (Z.of_nat j) (Z.of_nat i))];
      (split; [|exact He]); apply elem_of_disconnect_ops; (split; [done|]); [left|right];
      by rewrite elem_of_All.
  - intros [v a c] [-> _]%elem_of_disconnect_ops _. done.
Qed.

Lemma ShutdownServer_shut i cfg cfg' :
  svc_ok n cfg -> (i < cfg.(bed).(size))%nat -> ShutdownServer (Z.of_nat i) cfg = Ret cfg' ->
  shut i cfg cfg'.
Proof.
  intros Hok Hi E. unfold ShutdownServer in E.
  destruct (disconnect_all i cfg Hok Hi) as (rn & Ed & Hre & Hoff). rewrite Ed in E. cbn in E.
  assert (svc_ok n (set_bed (on_net (fun _ => rn) (bed cfg)) cfg)) as Hok1
    by (by eapply disconnect_svc_ok).
  destruct Hre as [en ->]. unfold with_bed in E. bind_inv E. inv_res. bind_inv E0. rename x0 into b1.
  remember (on_net (DeleteServer (NInt (Z.of_nat i))) _) as b0 eqn:Eb0.
  assert (bed_ok b0) as Hb0.
  { rewrite Eb0. pose proof (so_bed _ Hok1) as Hb1. cbn in Hb1. destruct Hb1 as [Hn [] Hs].
    split; [by eapply names_ok_same, Hn|by split|by apply srv_ok_Delete]. }
  pose proof (copy_saved_heap i b0 b1 (bo_heap _ Hb0) E) as Hh1.
  destruct (forget_heap i b1 x Hh1 E0) as (Hh & Hgone & Hsv).
  assert (forall j, saved_state b1 j = saved_state b0 j) as Hsv0
    by exact (fun j => copy_saved_state i b0 b1 j (bo_heap _ Hb0) E).
  assert (b1.(bnet) = b0.(bnet) /\ b1.(size) = b0.(size) /\ b1.(endnames) = b0.(endnames) /\
          b1.(insts) = b0.(insts)) as (F1 & F2 & F3 & F4).
  { apply copy_saved_cases in E as [[_ ->]|(ps & _ & [_ ->]%put_saved_spec)]; done. }
  assert (x.(bnet) = b0.(bnet) /\ x.(size) = b0.(size) /\ x.(endnames) = b0.(endnames) /\
          x.(insts) = b0.(insts)) as (G1 & G2 & G3 & G4).
  { unfold forget in E0. bind_inv E0. destruct x0 as [r|]; [bind_inv E0|]; inv_res; done. }
  assert (svc_ok n (set_bed x cfg)) as Hokx.
  { apply svc_ok_frame; rewrite ?G1, ?G2, ?G3; try (by rewrite Eb0); try done.
    split; [|done|by rewrite G1; apply Hb0].
    eapply names_ok_same, (bo_names _ Hb0); by rewrite ?G1. }
  split; cbn; rewrite ?G1, ?G2, ?G3, ?G4; try (by rewrite Eb0); try done.
  - intros j e He. unfold name_at in He. rewrite G3, Eb0 in He. rewrite Eb0. by apply (Hoff j e).
  - intros j. rewrite Hsv, Hsv0, Eb0. done.
  - intros sp Hsp. rewrite Eb0. apply (Delete_detached (NInt (Z.of_nat i)) sp); [|exact Hsp].
    eapply srv_ok_same, (bo_srv _ (so_bed _ Hok)); done.
Qed.

(** ** Clerks *)

Lemma mbind_Ret {A B} (a : A) (f : A -> res B) : (Ret a ≫= f) = f a.
Proof. done. Qed.

Lemma client_ends_from k m ns b :
  each (map Z.of_nat (seq k m)) client_end (ns, b)
  = l ← fresh_names b.(bdraws) m; rn ← connect_ends k l b.(bnet);
    Ret (ns ++ l, on_net (fun _ => rn) (set_endnames b.(endnames) (b.(bdraws) + m) b)).
Proof.
  revert k ns b. induction m as [|m IH]; intros k ns b.
  { cbn. rewrite app_nil_r, Nat.add_0_r. by destruct b. }
  cbn [seq map each fresh_names].
  change (client_end (Z.of_nat k) (ns, b)) with
    (s ← randstring b.(bdraws) 20; r ← MakeEnd (NStr s) b.(bnet);
     Ret (ns ++ [NStr s], on_net (fun _ => Connect (NStr s) (NInt (Z.of_nat k)) r) (add_draw b))).
  destruct (randstring (bdraws b) 20) as [s|]; [|done].
  rewrite !(mbind_Ret s).
  destruct (MakeEnd (NStr s) (bnet b)) as [r|] eqn:Em.
  - rewrite (mbind_Ret r), mbind_Ret, IH. cbn.
    destruct (fresh_names _ m) as [l|]; [|done]. cbn. rewrite Em. cbn.
    destruct (connect_ends _ l _) as [rn|]; [|done]. cbn. rewrite <- app_assoc. cbn.
    by replace (bdraws b + Datatypes.S m)%nat with (Datatypes.S (bdraws b) + m)%nat by lia.
  - destruct (fresh_names _ m) as [l|]; [|done]. cbn. by rewrite Em.
Qed.

(** A loop of [Enable]s over the names of a clerk. *)
Lemma enable_client_spec v ck l js cfg :
  cfg.(clerks) !! ck = Some l -> Forall (fun j => 0 <= j < Z.of_nat (length l)) js ->
  exists rn, enable_client v ck js cfg = Ret (set_bed (on_net (fun _ => rn) cfg.(bed)) cfg) /\
    re_enabled cfg.(bed).(bnet) rn /\
    forall e, is_enabled rn e =
      if decide (Exists (fun j => l !! Z.to_nat j = Some e) js) then v
      else is_enabled cfg.(bed).(bnet) e.
Proof.
  intros Hl. unfold enable_client, endnames_of. rewrite Hl. cbn. clear Hl. revert cfg.
  induction js as [|j js IH]; intros cfg Hjs; cbn.
  { exists cfg.(bed).(bnet). split; [by destruct cfg as [[]]|].
    split; [exists cfg.(bed).(bnet).(enabled); by destruct cfg as [[[]]]|].
    intros e. rewrite decide_False; [done|by intros ?%Exists_nil]. }
  apply Forall_cons in Hjs as [Hj Hjs].
  destruct (lookup_lt_is_Some_2 l (Z.to_nat j)) as [s Hs]; [lia|].
  assert (idx l j = Ret s) as -> by (apply idx_Ret; split; [lia|done]). cbn.
  destruct (IH (set_bed (on_net (Enable s v) (bed cfg)) cfg) Hjs) as (rn & E & [en Hre] & Hen).
  exists rn. split; [exact E|]. split; [exists en; exact Hre|]. intros e. rewrite Hen. cbn.
  rewrite is_enabled_Enable. rewrite (decide_ext _ _ _ _ (Exists_cons (fun j => l !! Z.to_nat j = Some e) j js)).
  repeat case_decide; try done; try naive_solver.
Qed.

(** After [makeClient]: the names of the clerk are new ends, one to each server. *)
Record client_made (to : list Z) (Intn : nat -> Z) cfg (ck : nat) (hs : list Name) cfg' : Prop := {
  cm_ck : ck = cfg.(nclerks);
  cm_names : exists l rn rn', fresh_names cfg.(bed).(bdraws) cfg.(bed).(size) = Ret l /\
    connect_ends 0 l cfg.(bed).(bnet) = Ret rn /\ random_handles Intn l = Ret hs /\
    re_enabled rn rn' /\
    cfg' = mkConfig (on_net (fun _ => rn') (set_endnames cfg.(bed).(endnames)
             (cfg.(bed).(bdraws) + cfg.(bed).(size)) cfg.(bed)))
             (<[ck := l]> cfg.(clerks)) (Datatypes.S ck) (cfg.(nextClientId) + 1) cfg.(rpcs0) cfg.(ops) /\
    (Forall (fun j => 0 <= j < Z.of_nat cfg.(bed).(size)) to ->
     forall e, is_enabled rn' e =
       if decide (Exists (fun j => l !! Z.to_nat j = Some e) to) then true else is_enabled rn e);
}.

Lemma enable_client_re v ck js cfg cfg' : enable_client v ck js cfg = Ret cfg' ->
  exists rn, cfg' = set_bed (on_net (fun _ => rn) cfg.(bed)) cfg /\ re_enabled cfg.(bed).(bnet) rn.
Proof.
  unfold enable_client. generalize (endnames_of ck cfg) as l. intros l. revert cfg.
  induction js as [|j js IH]; intros cfg E; cbn in E.
  { inv_res. exists cfg'.(bed).(bnet). split; [by destruct cfg' as [[]]|].
    exists cfg'.(bed).(bnet).(enabled); by destruct cfg' as [[[]]]. }
  bind_inv E. bind_inv E0. inv_res. apply IH in E as (rn & -> & [en Hen]). exists rn. split; [done|].
  exists en. exact Hen.
Qed.

Lemma makeClient_made to Intn cfg ck hs cfg' :
  makeClient to Intn cfg = Ret (ck, hs, cfg') -> client_made to Intn cfg ck hs cfg'.
Proof.
  unfold makeClient, indices. rewrite client_ends_from. intros E.
  destruct (fresh_names _ _) as [l|] eqn:Ef; [|done]. cbn in E.
  destruct (connect_ends _ _ _) as [rn|] eqn:Ec; [|done]. cbn in E.
  destruct (random_handles Intn l) as [handles|] eqn:Eh; [|done]. cbn in E.
  unfold ConnectClientUnlocked in E. bind_inv E. inv_res. split; [done|].
  exists l, rn. destruct (enable_client_re _ _ _ _ _ E0) as (rn' & Ecfg & Hre). exists rn'.
  split_and!; [done|done|done|exact Hre|by rewrite Ecfg|]. intros Hto.
  apply fresh_names_length in Ef. rewrite <- Ef in Hto.
  match type of E0 with enable_client _ _ _ ?c = _ => set (c1 := c) in * end.
  assert (clerks c1 !! nclerks cfg = Some l) as Hck by apply lookup_insert_eq.
  destruct (enable_client_spec true _ l to _ Hck Hto) as (rn2 & E2 & _ & Hen).
  rewrite E0 in E2. injection E2 as E2. rewrite Ecfg in E2.
  assert (rn' = rn2) as -> by (apply (f_equal (fun c => bnet (bed c))) in E2; exact E2).
  exact Hen.
Qed.

Lemma makeClient_svc_ok to Intn cfg ck hs cfg' :
  makeClient to Intn cfg = Ret (ck, hs, cfg') -> svc_ok n cfg -> svc_ok n cfg'.
Proof.
  intros [-> (l & rn & rn' & Ef & Ec & _ & [en ->] & -> & _)]%makeClient_made [Hz [Hn Hh Hs] Hr Hl Hc Hi].
  apply fresh_names_length in Ef.
  apply connect_ends_spec in Ec as (Hnd & Hnew & Hends & Hconn & Hold & _ & Hsrv & Hheap).
  assert (forall e, e ∈ ends (bnet (bed cfg)) -> e ∉ l) as Hfr by (intros e He Hx; by apply Hnew in Hx).
  split; cbn; [done|..].
  - split; cbn.
    + destruct Hn as [Hlen Hrow Hkn Hinj]. split; cbn; try done. intros i j e He.
      destruct (Hkn i j e He) as [Hin Hco]. split; [apply Hends; by left|].
      exact (eq_trans (proj1 (Hold e (Hfr e Hin))) Hco).
    + destruct Hh. by split.
    + by eapply srv_ok_same, Hs.
  - done.
  - intros ck l'. rewrite lookup_insert_Some. intros [[<- <-]|[Hne [Hlt Hlen]%Hl]]; [split; [lia|done]|split; [lia|done]].
  - intros ck l' j e. rewrite lookup_insert_Some. intros [[<- <-]|[Hne Hck]] Hj.
    + split; [apply Hends; right; by eapply list_elem_of_lookup_2|].
      split; [exact (Hconn j e Hj)|]. intros i k Hx. apply (no_known _ Hn) in Hx as [Hx _].
      eapply Hfr; [exact Hx|]. by eapply list_elem_of_lookup_2.
    + destruct (Hc ck l' j e Hck Hj) as (Hin & Hco & Hap). split; [apply Hends; by left|].
      split; [|done]. exact (eq_trans (proj1 (Hold e (Hfr e Hin))) Hco).
  - intros c1 l1 j1 c2 l2 j2 e. rewrite !lookup_insert_Some.
    intros [[<- <-]|[N1 H1]] Hj1 [[<- <-]|[N2 H2]] Hj2.
    + split; [done|]. by eapply NoDup_lookup.
    + exfalso. destruct (Hc c2 l2 j2 e H2 Hj2) as (Hin & _). eapply Hfr; [exact Hin|]. by eapply list_elem_of_lookup_2.
    + exfalso. destruct (Hc c1 l1 j1 e H1 Hj1) as (Hin & _). eapply Hfr; [exact Hin|]. by eapply list_elem_of_lookup_2.
    + by eapply Hi.
Qed.

(** ** Reachable configurations *)

Inductive svc_step : config S -> config S -> Prop :=
| st_start i cfg cfg' : StartServer (Z.of_nat i) cfg = Ret cfg' -> svc_step cfg cfg'
| st_shutdown i cfg cfg' : (i < cfg.(bed).(size))%nat ->
    ShutdownServer (Z.of_nat i) cfg = Ret cfg' -> svc_step cfg cfg'
| st_connect i to cfg cfg' : connect i to cfg = Ret cfg' -> svc_step cfg cfg'
| st_disconnect i from cfg cfg' : disconnect i from cfg = Ret cfg' -> svc_step cfg cfg'
| st_connect_all cfg cfg' : ConnectAll cfg = Ret cfg' -> svc_step cfg cfg'
| st_partition p1 p2 cfg cfg' : partition p1 p2 cfg = Ret cfg' -> svc_step cfg cfg'
| st_client to Intn ck hs cfg cfg' : makeClient to Intn cfg = Ret (ck, hs, cfg') -> svc_step cfg cfg'
| st_delete ck cfg : svc_step cfg (deleteClient ck cfg)
| st_connect_client ck to cfg cfg' : ConnectClient ck to cfg = Ret cfg' -> svc_step cfg cfg'
| st_disconnect_client ck from cfg cfg' :
    DisconnectClient ck from cfg = Ret cfg' -> svc_step cfg cfg'
| st_begin cfg : svc_step cfg (begin cfg)
| st_op cfg : svc_step cfg (op cfg)
| st_exec r f cfg : svc_step cfg (set_bed (exec r f cfg.(bed)) cfg)
| st_net rn cfg : net_runs cfg.(bed).(bnet) rn ->
    svc_step cfg (set_bed (on_net (fun _ => rn) cfg.(bed)) cfg).

Inductive svc_reach : config S -> Prop :=
| sr_make unreliable cfg : make_config n unreliable = Ret cfg -> svc_reach cfg
| sr_step cfg cfg' : svc_reach cfg -> svc_step cfg cfg' -> svc_reach cfg'.

Lemma svc_step_ok cfg cfg' : svc_step cfg cfg' -> svc_ok n cfg -> svc_ok n cfg'.
Proof.
  intros Hs Hok. destruct Hs.
  - by eapply StartServer_svc_ok.
  - eapply sh_ok. by eapply ShutdownServer_shut.
  - by eapply connect_svc_ok.
  - by eapply disconnect_svc_ok.
  - by eapply ConnectAll_svc_ok.
  - by eapply partition_svc_ok.
  - by eapply makeClient_svc_ok.
  - by apply delete_svc_ok.
  - by eapply client_svc_ok.
  - by eapply client_svc_ok.
  - by destruct Hok.
  - by destruct Hok.
  - by apply exec_svc_ok.
  - pose proof (so_bed _ Hok) as Hb. destruct H0 as (He & _ & Hs & Hc & Hh).
    apply svc_ok_frame; [done| |done..]. apply bed_ok_net; [done..|].
    destruct (bo_srv _ Hb) as [Hl Hi]. split; unfold server_at; rewrite Hs, ?Hh; [apply Hl|apply Hi].
Qed.

(** After the servers below [k] were started: rows for them, and no clerks. *)
Definition started_upto (k : nat) cfg : Prop :=
  bed_ok cfg.(bed) /\ cfg.(bed).(size) = n /\ cfg.(clerks) = ∅ /\
  forall i, (i < k)%nat -> exists l, cfg.(bed).(endnames) !! i = Some (Some l).

Lemma start_all u cfg :
  each (map Z.of_nat (seq 0 n)) StartServer (mkConfig (empty_bed n) ∅ 0 u 0 0) = Ret cfg ->
  svc_ok n cfg.
Proof.
  intros E. assert (started_upto (0 + n) cfg) as (Hb & Hz & Hc & Hr).
  { eapply (each_seq started_upto); [| |exact E].
    - intros k c c' _ (Hb & Hz & Hc & Hr) Es.
      destruct (StartServer_restarted k c c' Es Hb) as (Hlt & [Hok Hz' (b1 & Hren & He & _) _ _] & Ecfg).
      split; [done|]. split; [congruence|]. split; [by rewrite Ecfg|]. intros i Hi.
      destruct Hren as [_ (l & Hen & _) _]. rewrite He, Hen. destruct (decide (i = k)) as [->|Hne].
      + exists l. apply list_lookup_insert_eq. by rewrite (no_len _ (bo_names _ Hb)).
      + rewrite list_lookup_insert_ne by done. apply Hr. lia.
    - split; [apply empty_bed_ok|]. split; [done|]. split; [done|lia]. }
  split; rewrite ?Hc; try done. by rewrite Hz.
Qed.

Lemma svc_ok_Reliable v cfg : svc_ok n cfg -> svc_ok n (set_bed (on_net (Reliable v) cfg.(bed)) cfg).
Proof.
  intros Hok. apply svc_ok_frame; [done| |done..].
  apply (bed_ok_net (bed cfg) (Reliable v (bnet (bed cfg)))); [exact (so_bed _ Hok)|done..|].
  eapply srv_ok_same, (bo_srv _ (so_bed _ Hok)); done.
Qed.

Lemma make_config_ok unreliable cfg : make_config n unreliable = Ret cfg -> svc_ok n cfg.
Proof.
  unfold make_config. intros E. bind_inv E. bind_inv E. inv_res. apply svc_ok_Reliable.
  eapply ConnectAll_svc_ok; [eassumption|]. by eapply start_all.
Qed.

Lemma svc_reach_ok cfg : svc_reach cfg -> svc_ok n cfg.
Proof. induction 1; [by eapply make_config_ok|by eapply svc_step_ok]. Qed.
End main.
Arguments svc_reach {Cmd S _ _} n cfg.
