(* ===== verification/SvcMain.v ===== *)
(** * SvcMain: the guarantees of the tester of a service

    In every configuration a test can reach, all ends are distinct and lead where
    they should; [partition] lets exactly the servers of one side talk, and
    [make_partition] puts the leader in the minority; a server that was shut down is
    cut off, and its successor starts from the state that was persisted last,
    snapshot included; a new clerk reaches exactly the servers it was given. *)

From S2P Require Import Prelude Gob Raft LabRpc LabRpcTheory ConfigBase Testbed TestbedTheory SvcConfig SvcTheory SvcSteps.
Local Open Scope Z_scope.

Section main.
Context {Cmd S : Type} `{!TestServer Cmd S} `{!CryptoRand} (n : nat).
Implicit Types (b : Bed S) (cfg : config S).

(** The end [e] is that of clerk [ck] to server [j]. *)
Definition clerk_end cfg (ck j : nat) (e : Name) : Prop :=
  exists l, cfg.(clerks) !! ck = Some l /\ l !! j = Some e.

(** C36. In every configuration a test can reach, every server and every clerk has
    an end to each server [j], which leads to [j]; and no two of these ends are the
    same, so that attaching or detaching one never touches another. *)
Theorem svc_ends_apart cfg :
  svc_reach n cfg ->
  (forall i j, (i < n)%nat -> (j < n)%nat -> exists e, name_at cfg.(bed) i j = Some e /\
     connection cfg.(bed).(bnet) e = Some (NInt (Z.of_nat j))) /\
  (forall ck, is_Some (cfg.(clerks) !! ck) -> forall j, (j < n)%nat -> exists e,
     clerk_end cfg ck j e /\ connection cfg.(bed).(bnet) e = Some (NInt (Z.of_nat j))) /\
  (forall i j i' j' e, name_at cfg.(bed) i j = Some e -> name_at cfg.(bed) i' j' = Some e ->
     i = i' /\ j = j') /\
  (forall ck j ck' j' e, clerk_end cfg ck j e -> clerk_end cfg ck' j' e -> ck = ck' /\ j = j') /\
  (forall ck j i k e, clerk_end cfg ck j e -> name_at cfg.(bed) i k <> Some e).
Proof.
  intros Hr. apply svc_reach_ok in Hr as [Hz Hb Hrow Hl Hc Hi]. pose proof (bo_names _ Hb) as Hn.
  split; [|split; [|split; [apply Hn|split]]].
  - intros i j Hlt Hj. rewrite <- Hz in Hlt, Hj. destruct (Hrow i Hlt) as [l Hrl].
    destruct (name_at_total _ i l j Hn Hrl Hj) as [e He]. exists e. split; [done|].
    by apply (no_known _ Hn) in He as [_ ?].
  - intros ck [l Hck] j Hj. destruct (Hl ck l Hck) as [_ Hlen].
    destruct (lookup_lt_is_Some_2 l j) as [e He]; [lia|]. exists e. split; [by exists l|].
    by destruct (Hc ck l j e Hck He) as (_ & ? & _).
  - intros ck j ck' j' e (l & Hck & Hj) (l' & Hck' & Hj'). by eapply Hi.
  - intros ck j i k e (l & Hck & Hj). by destruct (Hc ck l j e Hck Hj) as (_ & _ & ?).
Qed.

(** ** Partitions *)

(** The servers [i] and [j] are on one side. *)
Definition together (p1 p2 : list Z) (i j : nat) : Prop :=
  (Z.of_nat i ∈ p1 /\ Z.of_nat j ∈ p1) \/ (Z.of_nat i ∈ p2 /\ Z.of_nat j ∈ p2).
Definition across (p1 p2 : list Z) (i j : nat) : Prop :=
  (Z.of_nat i ∈ p1 /\ Z.of_nat j ∈ p2) \/ (Z.of_nat i ∈ p2 /\ Z.of_nat j ∈ p1).

Lemma partition_effect p1 p2 cfg :
  svc_ok n cfg -> in_range cfg.(bed) p1 -> in_range cfg.(bed) p2 -> NoDup p1 -> NoDup p2 ->
  (forall x, x ∈ p1 -> x ∉ p2) ->
  exists rn, partition p1 p2 cfg = Ret (set_bed (on_net (fun _ => rn) cfg.(bed)) cfg) /\
    re_enabled cfg.(bed).(bnet) rn /\
    (forall i j e, name_at cfg.(bed) i j = Some e -> together p1 p2 i j -> is_enabled rn e = true) /\
    (forall i j e, name_at cfg.(bed) i j = Some e -> across p1 p2 i j -> is_enabled rn e = false) /\
    (forall e, (forall i j, name_at cfg.(bed) i j = Some e ->
        ~ together p1 p2 i j /\ ~ across p1 p2 i j) ->
      is_enabled rn e = is_enabled cfg.(bed).(bnet) e).
Proof.
  intros Hok H1 H2 N1 N2 Hd. pose proof (svc_ok_named _ Hok) as Hn.
  pose proof (bo_names _ (so_bed _ Hok)) as Hnm.
  assert (forall p, in_range cfg.(bed) p -> NoDup p -> (length p <= size (bed cfg))%nat) as Hlen.
  { intros p Hp Hnd. transitivity (length (map Z.of_nat (seq 0 (size (bed cfg)))));
      [|by rewrite length_map, length_seq].
    apply submseteq_length, NoDup_submseteq; [done|]. intros x Hx. unfold in_range in Hp.
    rewrite Forall_forall in Hp. apply Hp in Hx. apply list_elem_of_fmap.
    exists (Z.to_nat x). split; [lia|]. apply elem_of_seq. lia. }
  rewrite partition_as_ops by auto. unfold in_range in H1, H2. rewrite Forall_forall in H1, H2.
  assert (forall v a c, mkOp v a c ∈ partition_ops p1 p2 -> 0 <= a < Z.of_nat (size (bed cfg)) /\
    0 <= c < Z.of_nat (size (bed cfg))) as Hrange.
  { intros v a c Ho. apply elem_of_partition_ops in Ho.
    destruct v; destruct Ho as [[? ?]|[? ?]]; split; auto. }
  destruct (each_ops (partition_ops p1 p2) cfg) as (rn & E & Hre & Hset).
  { intros [v a c] [Ha Hc]%Hrange. by apply all_named_end. }
  assert (forall i j e, name_at (bed cfg) i j = Some e -> forall v a c,
    mkOp v a c ∈ partition_ops p1 p2 -> names (bed cfg) (mkOp v a c) e ->
    a = Z.of_nat i /\ c = Z.of_nat j) as Hinj.
  { intros i j e He v a c [Ha Hc]%Hrange Hx. unfold names in Hx. cbn in Hx.
    rewrite <- (Z2Nat.id a), <- (Z2Nat.id c) in Hx by lia. apply end_of_name in Hx.
    destruct (no_inj _ Hnm _ _ _ _ _ He Hx) as [-> ->]. lia. }
  exists rn. split; [done|]. split; [done|]. split; [|split].
  - intros i j e He Ht. apply (proj1 (Hset e)).
    + exists (mkOp true (Z.of_nat i) (Z.of_nat j)). split; [by apply elem_of_partition_ops|].
      by apply end_of_name.
    + intros [v a c] Ho Hx. destruct (Hinj _ _ _ He _ _ _ Ho Hx) as [-> ->]. cbn.
      apply elem_of_partition_ops in Ho. destruct v; [done|]. exfalso.
      pose proof (Hd (Z.of_nat i)). pose proof (Hd (Z.of_nat j)). unfold together, across in Ht. tauto.
  - intros i j e He Ht. apply (proj1 (Hset e)).
    + exists (mkOp false (Z.of_nat i) (Z.of_nat j)). split; [by apply elem_of_partition_ops|].
      by apply end_of_name.
    + intros [v a c] Ho Hx. destruct (Hinj _ _ _ He _ _ _ Ho Hx) as [-> ->]. cbn.
      apply elem_of_partition_ops in Ho. destruct v; [|done]. exfalso.
      pose proof (Hd (Z.of_nat i)). pose proof (Hd (Z.of_nat j)). unfold together, across in Ht. tauto.
  - intros e Hno. apply (proj2 (Hset e)). intros [v a c] Ho Hx. destruct (Hrange _ _ _ Ho) as [Ha Hc].
    pose proof Hx as Hx'. unfold names in Hx'. cbn in Hx'.
    rewrite <- (Z2Nat.id a), <- (Z2Nat.id c) in Hx' by lia. apply end_of_name in Hx'.
    destruct (Hno _ _ Hx') as [Ht Hac]. apply elem_of_partition_ops in Ho.
    unfold together, across in *. rewrite !Z2Nat.id in Ht, Hac by lia. destruct v; tauto.
Qed.

(** [partition] of two disjoint groups of servers never fails; after it an end
    between two servers of one group is enabled, an end from one group to the
    other is disabled, and every other end, in particular those of clerks, is as
    it was. *)
Theorem partition_separates p1 p2 cfg :
  svc_reach n cfg -> Forall (fun j => 0 <= j < Z.of_nat n) p1 -> Forall (fun j => 0 <= j < Z.of_nat n) p2 ->
  NoDup p1 -> NoDup p2 -> (forall x, x ∈ p1 -> x ∉ p2) ->
  exists cfg', partition p1 p2 cfg = Ret cfg' /\
    (forall i j e, name_at cfg'.(bed) i j = Some e <-> name_at cfg.(bed) i j = Some e) /\
    (forall i j e, name_at cfg.(bed) i j = Some e -> together p1 p2 i j ->
       is_enabled cfg'.(bed).(bnet) e = true) /\
    (forall i j e, name_at cfg.(bed) i j = Some e -> across p1 p2 i j ->
       is_enabled cfg'.(bed).(bnet) e = false) /\
    (forall ck j e, clerk_end cfg ck j e ->
       is_enabled cfg'.(bed).(bnet) e = is_enabled cfg.(bed).(bnet) e).
Proof.
  intros Hr H1 H2 N1 N2 Hd. pose proof (svc_reach_ok _ Hr) as Hok. pose proof (so_size _ Hok) as Hz.
  destruct (partition_effect p1 p2 cfg Hok) as (rn & E & _ & Ht & Ha & Ho); try done;
    [unfold in_range; by rewrite Hz..|].
  eexists. split; [exact E|]. split; [done|]. split; [exact Ht|]. split; [exact Ha|].
  intros ck j e (l & Hck & Hj). apply Ho. intros i k He.
  by destruct (so_clerk _ Hok ck l j e Hck Hj) as (_ & _ & Hap); destruct (Hap i k He).
Qed.

(** ** Shutting down and starting again *)

(** Objects run: the servers, also those that were shut down. *)
Definition objects_run : config S -> config S -> Prop :=
  rtc (fun c c' => exists r f, c' = set_bed (exec r f c.(bed)) c).

Lemma objects_run_saved i cfg cfg' :
  objects_run cfg cfg' -> svc_ok n cfg -> cfg.(bed).(bservers) !! i = Some None ->
  svc_ok n cfg' /\ cfg'.(bed).(bservers) !! i = Some None /\
  saved_state cfg'.(bed) i = saved_state cfg.(bed) i /\
  cfg'.(bed).(endnames) = cfg.(bed).(endnames) /\ cfg'.(bed).(bnet) = cfg.(bed).(bnet) /\
  length cfg'.(bed).(insts) = length cfg.(bed).(insts).
Proof.
  intros Hr Hok Hi. induction Hr as [|c c1 c2 (r & f & ->) _ IH]; [done|].
  pose proof (exec_svc_ok r f c Hok) as Hok1.
  assert (saved_state (exec r f (bed c)) i = saved_state (bed c) i) as Hs.
  { apply exec_dead_saved; [apply (so_bed _ Hok)|]. rewrite Hi. congruence. }
  assert ((exec r f (bed c)).(bservers) = (bed c).(bservers) /\
    (exec r f (bed c)).(endnames) = (bed c).(endnames) /\ (exec r f (bed c)).(bnet) = (bed c).(bnet) /\
    length (exec r f (bed c)).(insts) = length (bed c).(insts)) as (F1 & F2 & F3 & F4).
  { unfold exec. destruct (insts (bed c) !! r) as [[s p]|]; cbn; by rewrite ?length_insert. }
  destruct IH as (? & ? & G1 & G2 & G3 & G4); [done|cbn; by rewrite F1|].
  cbn in *. split_and!; [done|done|congruence|congruence|congruence|congruence].
Qed.

(** [ShutdownServer] followed by [StartServer], whatever the objects do in
    between: the ends of the server and the ends to it are disabled, its server
    object is registered nowhere, and the new server is a new object that starts
    from the state its predecessor had persisted when it was shut down, snapshot
    included; what the old object does afterwards is not saved for it. *)
Theorem shutdown_then_start i r s p cfg cfg1 cfg2 cfg3 :
  svc_reach n cfg -> (i < n)%nat ->
  cfg.(bed).(bservers) !! i = Some (Some r) -> cfg.(bed).(insts) !! r = Some (s, p) ->
  ShutdownServer (Z.of_nat i) cfg = Ret cfg1 -> objects_run cfg1 cfg2 ->
  StartServer (Z.of_nat i) cfg2 = Ret cfg3 ->
  (forall j e, name_at cfg2.(bed) i j = Some e \/ name_at cfg2.(bed) j i = Some e ->
     is_enabled cfg2.(bed).(bnet) e = false) /\
  (forall sp, server_at cfg.(bed).(bnet) (NInt (Z.of_nat i)) = Some sp ->
     detached cfg2.(bed).(bnet) sp) /\
  exists r' p', r' <> r /\ cfg3.(bed).(bservers) !! i = Some (Some r') /\
    cfg3.(bed).(insts) !! r' = Some (start_server n i (raft_of s).(persister), p') /\
    saved_state cfg3.(bed) i = Some (raft_of s).(persister) /\
    forall f, saved_state (exec r f cfg3.(bed)) i = saved_state cfg3.(bed) i.
Proof.
  intros Hr Hi Hsrv Hinst E1 Hrun E3. pose proof (svc_reach_ok _ Hr) as Hok.
  pose proof (so_size _ Hok) as Hz. rewrite <- Hz in Hi.
  destruct (ShutdownServer_shut i cfg cfg1 Hok Hi E1) as [Hok1 Hz1 _ Hnm1 Hoff Hin1 Hgone Hsv1 Hdet].
  destruct (objects_run_saved i cfg1 cfg2 Hrun Hok1 Hgone) as (Hok2 & Hg2 & Hs2 & Hn2 & Hnet2 & Hl2).
  assert (saved_state cfg.(bed) i = Some (raft_of s).(persister)) as Hsv.
  { destruct (hb_live _ _ (bo_heap _ (so_bed _ Hok)) i r) as (s' & q & Hq & Hsq); [done..|]. simplify_eq.
    unfold saved_state. rewrite Hsq. cbn. by rewrite (hb_inst _ _ (bo_heap _ (so_bed _ Hok)) _ _ _ Hinst). }
  split; [|split].
  - intros j e He. rewrite Hnet2. apply (Hoff j). unfold name_at in *. by rewrite <- Hn2.
  - intros sp Hsp. rewrite Hnet2. by apply Hdet.
  - destruct (StartServer_restarted i cfg2 cfg3 E3 (so_bed _ Hok2))
      as (Hi2 & [Hb3 _ _ [p' [Hin3 Hsr3]] Hsv3] & _).
    rewrite Hs2, Hsv1, Hsv, (so_size _ Hok2) in Hin3. cbn in Hin3.
    exists (length (insts (bed cfg2))), p'.
    assert (length (insts (bed cfg2)) <> r) as Hne
      by (apply lookup_lt_Some in Hinst; rewrite Hl2, Hin1; lia).
    assert (bservers (bed cfg3) !! i = Some (Some (length (insts (bed cfg2))))) as Hs3.
    { rewrite Hsr3. apply list_lookup_insert_eq. by eapply lookup_lt_Some. }
    split; [done|]. split; [done|]. split; [rewrite Hin3; by apply list_lookup_middle|].
    split; [rewrite Hsv3, decide_True by done; by rewrite Hs2, Hsv1, Hsv|].
    intros f. apply exec_dead_saved; [apply Hb3|]. rewrite Hs3. congruence.
Qed.

(** ** Clerks *)

(** [makeClient] gives the clerk, in some order, one end to every server; the
    ends are new to the network, and exactly those to the servers in [to] are
    enabled; [ConnectClient] and [DisconnectClient] enable and disable exactly the
    ends of that clerk to the servers they name. *)
Theorem makeClient_reaches to Intn ck hs cfg cfg' :
  svc_reach n cfg -> Forall (fun j => 0 <= j < Z.of_nat n) to ->
  (forall i, (0 <= Intn i <= Z.of_nat i)) ->
  makeClient to Intn cfg = Ret (ck, hs, cfg') ->
  cfg.(clerks) !! ck = None /\
  (exists l, cfg'.(clerks) !! ck = Some l /\ hs ≡ₚ l /\ length l = n) /\
  (forall j e, clerk_end cfg' ck j e -> e ∉ cfg.(bed).(bnet).(ends) /\
     connection cfg'.(bed).(bnet) e = Some (NInt (Z.of_nat j)) /\
     (is_enabled cfg'.(bed).(bnet) e = true <-> Z.of_nat j ∈ to)) /\
  (forall v js cfg2, Forall (fun j => 0 <= j < Z.of_nat n) js -> enable_client v ck js cfg' = Ret cfg2 ->
     forall e, is_enabled cfg2.(bed).(bnet) e =
       if decide (Exists (fun j => endnames_of ck cfg' !! Z.to_nat j = Some e) js) then v
       else is_enabled cfg'.(bed).(bnet) e).
Proof.
  intros Hr Hto Hdraw E. pose proof (svc_reach_ok _ Hr) as Hok. pose proof (so_size _ Hok) as Hz.
  pose proof (makeClient_svc_ok _ _ _ _ _ _ E Hok) as Hok'.
  apply makeClient_made in E as [-> (l & rn & rn' & Ef & Ec & Eh & [en Hre] & Ecfg & Hen)].
  rewrite Hz in Hen. specialize (Hen Hto). apply fresh_names_length in Ef.
  assert (cfg'.(clerks) !! nclerks cfg = Some l) as Hl by (rewrite Ecfg; apply lookup_insert_eq).
  pose proof (connect_ends_spec _ _ _ _ Ec) as (Hnd & Hnew & _ & Hconn & _ & Hdis & _).
  split; [|split; [|split]].
  - destruct (clerks cfg !! nclerks cfg) as [l'|] eqn:El; [|done]. apply (so_clerk_len _ Hok) in El. lia.
  - exists l. split; [done|]. split; [|congruence].
    destruct (random_handles_perm Intn l) as (sa & Es & Hp); [intros i; specialize (Hdraw i); lia|].
    rewrite Es in Eh. injection Eh as <-. exact Hp.
  - intros j e (l' & Hl' & Hj). assert (l' = l) as -> by congruence. split; [by eapply Hnew, list_elem_of_lookup_2|].
    split; [by destruct (so_clerk _ Hok' _ _ _ _ Hl Hj) as (_ & ? & _)|].
    replace (bnet (bed cfg')) with rn' by (by rewrite Ecfg). rewrite Hen. case_decide as Hex.
    + split; [|done]. intros _. apply Exists_exists in Hex as (x & Hx & Hxe).
      assert (Z.to_nat x = j) by (by eapply NoDup_lookup). rewrite Forall_forall in Hto.
      specialize (Hto x Hx). by replace (Z.of_nat j) with x by lia.
    + rewrite Hdis by (by eapply list_elem_of_lookup_2). split; [done|]. intros Hj'. exfalso.
      apply Hex, Exists_exists. exists (Z.of_nat j). by rewrite Nat2Z.id.
  - intros v js cfg2 Hjs E2 e.
    destruct (enable_client_spec v (nclerks cfg) l js cfg' Hl) as (rn2 & E2' & _ & Hen2);
      [by rewrite Ef, Hz|].
    rewrite E2 in E2'. injection E2' as ->. unfold endnames_of. rewrite Hl. apply Hen2.
Qed.
End main.

(** ** The leader in the minority

    [make_partition] fills two arrays with the servers other than the leader and
    puts the leader at the end of the smaller one.  For an odd number of servers
    the arrays are a partition; for an even number the smaller array keeps a zero,
    and server 0 ends up on both sides. *)

(** Writing at the end of the filled part of an array. *)
Lemma upd_filled (l : list Z) q x : (0 < q)%nat ->
  upd (l ++ replicate q 0) (len l) x = Ret ((l ++ [x]) ++ replicate (q - 1) 0).
Proof.
  intros Hq. apply upd_Ret. unfold len. rewrite length_app, length_replicate. split; [lia|].
  rewrite Nat2Z.id. destruct q as [|q]; [lia|]. cbn.
  replace (length l) with (length l + 0)%nat by lia. rewrite insert_app_r. cbn.
  by rewrite <- app_assoc, Nat.sub_0_r.
Qed.

(** The servers below [k] other than [l]. *)
Definition others_of (l : Z) (k : nat) : list Z := filter (fun x => x <> l) (map Z.of_nat (seq 0 k)).

Lemma others_of_S l k :
  others_of l (S k) = others_of l k ++ (if decide (Z.of_nat k = l) then [] else [Z.of_nat k]).
Proof.
  unfold others_of. rewrite seq_S, map_app, filter_app. f_equal.
  change (map Z.of_nat [(0 + k)%nat]) with [Z.of_nat k].
  rewrite filter_cons, filter_nil. repeat case_decide; tauto || done.
Qed.

Lemma others_of_length (l k : nat) :
  length (others_of (Z.of_nat l) k) = if decide (l < k)%nat then (k - 1)%nat else k.
Proof.
  induction k as [|k IH]; [done|]. rewrite others_of_S, length_app, IH.
  repeat case_decide; cbn; lia.
Qed.

Lemma len_snoc (l : list Z) x : len (l ++ [x]) = len l + 1.
Proof. unfold len. rewrite length_app. cbn. lia. Qed.

(** The state of the loop after the servers below [k]. *)
Definition placed (l : Z) (a c k : nat) (st : Z * list Z * list Z) : Prop :=
  let os := others_of l k in
  st = (len os, take a os ++ replicate (a - length os) 0, drop a os ++ replicate (c - (length os - a)) 0).

Lemma place_step (l a c k : nat) st :
  (length (others_of (Z.of_nat l) (S k)) <= a + c)%nat -> placed (Z.of_nat l) a c k st ->
  exists st', place (Z.of_nat l) (Z.of_nat k) st = Ret st' /\ placed (Z.of_nat l) a c (S k) st'.
Proof.
  unfold placed. rewrite others_of_S, length_app. set (os := others_of (Z.of_nat l) k).
  intros Hle ->. unfold place. case_decide as Hd.
  { rewrite Hd, Z.eqb_refl. eexists. split; [done|]. by rewrite app_nil_r, Nat.add_0_r. }
  cbn [length] in Hle. destruct (Z.eqb_spec (Z.of_nat k) (Z.of_nat l)) as [|_]; [done|].
  assert (len (take a os ++ replicate (a - length os) 0) = Z.of_nat a) as Hlen.
  { unfold len. rewrite length_app, length_take, length_replicate. lia. }
  rewrite Hlen. unfold len at 1. destruct (Z.ltb_spec (Z.of_nat (length os)) (Z.of_nat a)) as [Hlt|Hge].
  - rewrite (take_ge os) by lia. rewrite upd_filled by lia. cbn [mbind res_bind].
    eexists. split; [done|]. rewrite !drop_ge by (rewrite ?length_app; cbn; lia).
    rewrite take_ge by (rewrite length_app; cbn; lia).
    rewrite !len_snoc. cbn [length].
    replace (a - (length os + 1))%nat with (a - length os - 1)%nat by lia.
    by replace (c - (length os + 1 - a))%nat with (c - (length os - a))%nat by lia.
  - replace (len os - Z.of_nat a) with (len (drop a os)) by (unfold len; rewrite length_drop; lia).
    rewrite upd_filled by (cbn; lia). cbn [mbind res_bind]. eexists. split; [done|].
    rewrite take_app_le, drop_app_le by lia. rewrite !len_snoc. cbn [length].
    replace (a - (length os + 1))%nat with (a - length os)%nat by lia.
    by replace (c - (length os + 1 - a))%nat with (c - (length os - a) - 1)%nat by lia.
Qed.

Section partition.
Context {Cmd S : Type} `{!TestServer Cmd S} `{!CryptoRand}.
Implicit Types cfg : config S.

Lemma Leader_from_range cfg js lead l : Leader_from cfg js = Ret (lead, l) ->
  l ∈ js \/ (l = 0 /\ lead = false).
Proof.
  induction js as [|i js IH]; intros E; cbn in E; [inv_res; by right|].
  repeat bind_inv E. case_match; [inv_res; left; constructor|].
  destruct (IH E) as [?|?]; [left; by constructor|by right].
Qed.

(** The arrays for [2 * m + 1] servers. *)
Lemma make_partition_odd cfg lead (l m : nat) :
  cfg.(bed).(size) = (2 * m + 1)%nat -> (1 <= m)%nat -> (l < cfg.(bed).(size))%nat ->
  Leader cfg = Ret (lead, Z.of_nat l) ->
  exists p1 p2, make_partition cfg = Ret (p1, p2) /\ length p1 = (m + 1)%nat /\ length p2 = m /\
    Z.of_nat l ∈ p2 /\ p1 ++ p2 ≡ₚ map Z.of_nat (seq 0 cfg.(bed).(size)).
Proof.
  intros Hz Hm Hl HL. unfold make_partition. rewrite HL. cbn [mbind res_bind]. unfold indices. rewrite Hz in *.
  set (os := others_of (Z.of_nat l) (2 * m + 1)).
  assert (length os = (2 * m)%nat) as Hos by (unfold os; rewrite others_of_length, decide_True by lia; lia).
  destruct (each_seq_Ret (placed (Z.of_nat l) (m + 1) m) 0 (2 * m + 1) (place (Z.of_nat l))
    (0, replicate (m + 1) 0, replicate m 0)) as (st & E & Hst).
  { intros j s Hj Hs. apply place_step; [|done]. rewrite others_of_length. case_decide; lia. }
  { unfold placed, others_of. cbn. by rewrite drop_nil, take_nil, !Nat.sub_0_r. }
  assert (Z.of_nat (2 * m + 1) / 2 = Z.of_nat m) as ->
    by (symmetry; apply (Z.div_unique _ 2 _ 1); lia).
  replace (Z.to_nat (Z.of_nat m + 1)) with (m + 1)%nat by lia. rewrite Nat2Z.id.
  rewrite E. rewrite Nat.add_0_l in Hst. unfold placed in Hst. fold os in Hst. rewrite Hst.
  cbn [mbind res_bind].
  rewrite Hos. replace (m + 1 - 2 * m)%nat with 0%nat by lia. cbn [replicate]. rewrite app_nil_r.
  replace (m - (2 * m - (m + 1)))%nat with 1%nat by lia.
  replace (len (drop (m + 1) os ++ replicate 1 0) - 1) with (len (drop (m + 1) os))
    by (unfold len; rewrite length_app; cbn; lia).
  rewrite upd_filled by lia. cbn [mbind res_bind Nat.sub replicate]. rewrite app_nil_r. eexists _, _. split; [done|].
  rewrite length_app, length_take, length_drop, Hos. cbn. split; [lia|]. split; [lia|].
  split; [apply elem_of_app; right; constructor|].
  rewrite app_assoc, take_drop. unfold os, others_of.
  apply NoDup_Permutation.
  - apply NoDup_app. split; [|split; [|apply NoDup_singleton]].
    + apply NoDup_filter, (NoDup_fmap_2 Z.of_nat), NoDup_seq.
    + intros x Hx ->%list_elem_of_singleton. by apply list_elem_of_filter in Hx as [? _].
  - apply (NoDup_fmap_2 Z.of_nat), NoDup_seq.
  - intros x. rewrite elem_of_app, list_elem_of_filter, list_elem_of_singleton. split.
    + intros [[_ ?]| ->]; [done|]. apply list_elem_of_fmap. exists l. split; [done|]. apply elem_of_seq. lia.
    + intros Hx. destruct (decide (x = Z.of_nat l)); auto.
Qed.

(** For an odd number [2m+1] of servers (at least three), the arrays of
    [make_partition] split the servers with the leader among the [m] of the
    minority, and [partition] on them cuts the leader off from the majority: it
    reaches and is reached by the servers of the minority only. *)
Theorem leader_in_minority m lead (l : nat) cfg :
  svc_reach (2 * m + 1) cfg -> (1 <= m)%nat ->
  Leader cfg = Ret (lead, Z.of_nat l) ->
  exists p1 p2 cfg', make_partition cfg = Ret (p1, p2) /\ partition p1 p2 cfg = Ret cfg' /\
    length p1 = (m + 1)%nat /\ length p2 = m /\ Z.of_nat l ∈ p2 /\
    p1 ++ p2 ≡ₚ map Z.of_nat (seq 0 (2 * m + 1)) /\
    forall j e, name_at cfg.(bed) l j = Some e \/ name_at cfg.(bed) j l = Some e ->
      (is_enabled cfg'.(bed).(bnet) e = true <-> Z.of_nat j ∈ p2).
Proof.
  intros Hr Hm HL. pose proof (svc_reach_ok _ Hr) as Hok. pose proof (so_size _ Hok) as Hz.
  assert ((l < 2 * m + 1)%nat) as Hl.
  { unfold Leader, indices in HL. rewrite Hz in HL. apply Leader_from_range in HL as [Hl|[Hl _]]; [|lia].
    apply list_elem_of_fmap in Hl as (k & Hk & ?%elem_of_seq). lia. }
  destruct (make_partition_odd cfg lead l m Hz Hm) as (p1 & p2 & E & L1 & L2 & Hin & Hp); [lia|done|].
  rewrite Hz in Hp.
  assert (NoDup (p1 ++ p2)) as Hnd by (rewrite Hp; apply (NoDup_fmap_2 Z.of_nat), NoDup_seq).
  assert (forall x, x ∈ p1 ++ p2 <-> 0 <= x < Z.of_nat (2 * m + 1)) as Hel.
  { intros x. rewrite Hp, list_elem_of_fmap. split.
    - intros (k & -> & ?%elem_of_seq). lia.
    - intros Hx. exists (Z.to_nat x). split; [lia|]. apply elem_of_seq. lia. }
  apply NoDup_app in Hnd as (N1 & Hd & N2).
  destruct (partition_effect (2 * m + 1) p1 p2 cfg Hok) as (rn & Ep & _ & Ht & Ha & _); try done.
  { unfold in_range. rewrite Hz. apply Forall_forall. intros x Hx. apply Hel, elem_of_app. by left. }
  { unfold in_range. rewrite Hz. apply Forall_forall. intros x Hx. apply Hel, elem_of_app. by right. }
  exists p1, p2. eexists. split; [done|]. split; [exact Ep|]. split; [done|]. split; [done|].
  split; [done|]. split; [done|]. cbn. intros j e He.
  assert ((j < 2 * m + 1)%nat) as Hj.
  { rewrite <- Hz. pose proof (bo_names _ (so_bed _ Hok)).
    destruct He as [He|He]; apply name_at_lt in He; tauto. }
  assert (Z.of_nat j ∈ p1 ++ p2) as [Hj1|Hj2]%elem_of_app by (apply Hel; lia).
  - assert (is_enabled rn e = false) as ->
      by (destruct He as [He|He]; apply (Ha _ _ _ He); unfold across; tauto).
    split; [done|]. intros Hj2. by apply Hd in Hj1.
  - assert (is_enabled rn e = true) as ->
      by (destruct He as [He|He]; apply (Ht _ _ _ He); unfold together; tauto).
    done.
Qed.
End partition.
