(* ===== verification/RaftConfig.v ===== *)
(** * RaftConfig: the tester of Raft (src/raft/config.go)

    [config] is the testbed of Testbed.v with Raft peers on it, who is connected,
    and what each server has delivered on its apply channel.  The operations that
    the tests call without waiting ([crash1], [start1], [connect], [disconnect],
    the reader of an apply channel, ...) are functions on it.  The checks that
    wait ([checkOneLeader], [nCommitted], [wait], [one], ...) look at a system
    that runs on: they are programs of a small monad whose state is the
    configuration and the time in milliseconds, and [env k] is what the rest of the
    system does before the [k]-th look, [late k] by how much a sleep overruns.

    [log.Fatalf], [t.Fatal] and panics all end the test: [Panic]. *)

From S2P Require Import Prelude Gob Raft RaftFacts LabRpc ConfigBase Testbed.
Local Open Scope Z_scope.

(** Commands are [interface{}] values, of which the tests use integers. *)
Inductive Command := CInt (z : Z) | COther (s : string).

Section config.
Context `{!Gob (PVal Command)} `{!Rand} `{!CryptoRand}.

Global Instance raft_server : TestServer Command (Raft Command) := {
  start_server := fun n me ps => Make n (Z.of_nat me) ps;
  raft_of := fun rf => rf;
  services_of := [MakeService "Raft" raft_methods];
  start_persister := fun n me ps => Make_persister n (Z.of_nat me) ps;
}.

Record config := mkConfig {
  bed : Bed (Raft Command);       (* net, n, rafts, saved, endnames *)
  applyErr : list string;
  connected : list bool;
  clogs : list (gmap Z Z);        (* logs *)
  rpcs0 : Z;
  cmds0 : Z;
  maxIndex : Z;
  maxIndex0 : Z;
}.

Definition set_bed (b : Bed (Raft Command)) (cfg : config) : config :=
  mkConfig b cfg.(applyErr) cfg.(connected) cfg.(clogs) cfg.(rpcs0) cfg.(cmds0)
    cfg.(maxIndex) cfg.(maxIndex0).
Definition set_connected (v : list bool) (cfg : config) : config :=
  mkConfig cfg.(bed) cfg.(applyErr) v cfg.(clogs) cfg.(rpcs0) cfg.(cmds0)
    cfg.(maxIndex) cfg.(maxIndex0).
Definition set_clogs (v : list (gmap Z Z)) (m : Z) (cfg : config) : config :=
  mkConfig cfg.(bed) cfg.(applyErr) cfg.(connected) v cfg.(rpcs0) cfg.(cmds0)
    m cfg.(maxIndex0).

(** Run a function of the testbed. *)
Definition with_bed (f : Bed (Raft Command) -> res (Bed (Raft Command))) (cfg : config)
    : res config := b ← f cfg.(bed); Ret (set_bed b cfg).

(** ** Attaching and detaching servers *)

(** The rounds of the two loops of [connect] ... *)
Definition connect_out (i j : Z) (cfg : config) : res config :=
  c ← idx cfg.(connected) j;
  if (c : bool) then with_bed (enable_end i j true) cfg else Ret cfg.
Definition connect_in (i j : Z) (cfg : config) : res config :=
  c ← idx cfg.(connected) j;
  if (c : bool) then with_bed (enable_end j i true) cfg else Ret cfg.

Definition connect (i : Z) (cfg : config) : res config :=
  v ← upd cfg.(connected) i true;
  let cfg := set_connected v cfg in
  cfg ← each (indices cfg.(bed)) (connect_out i) cfg;
  each (indices cfg.(bed)) (connect_in i) cfg.

(** ... and of [disconnect]. *)
Definition disconnect_out (i j : Z) (cfg : config) : res config :=
  h ← has_endnames cfg.(bed) i;
  if (h : bool) then with_bed (enable_end i j false) cfg else Ret cfg.
Definition disconnect_in (i j : Z) (cfg : config) : res config :=
  h ← has_endnames cfg.(bed) j;
  if (h : bool) then with_bed (enable_end j i false) cfg else Ret cfg.

Definition disconnect (i : Z) (cfg : config) : res config :=
  v ← upd cfg.(connected) i false;
  let cfg := set_connected v cfg in
  cfg ← each (indices cfg.(bed)) (disconnect_out i) cfg;
  each (indices cfg.(bed)) (disconnect_in i) cfg.

(** ** Crash and start *)

(** The end of [crash1]: a persister with the Raft state only. *)
Definition keep_raftstate (i : Z) (b : Bed (Raft Command)) : res (Bed (Raft Command)) :=
  o ← idx b.(saved) i;
  match o with
  | None => Ret b
  | Some p =>
      ps ← persister_at b p;
      let raftlog := ReadRaftState ps in
      put_saved i (SaveRaftState MakePersister raftlog) b
  end.

Definition crash1 (i : Z) (cfg : config) : res config :=
  cfg ← disconnect i cfg;
  with_bed (fun b =>
    let b := on_net (DeleteServer (NInt i)) b in
    b ← copy_saved i b;
    b ← forget i b;
    keep_raftstate i b) cfg.

Definition start1 (i : Z) (cfg : config) : res config :=
  cfg ← crash1 i cfg;
  with_bed (restart i) cfg.

Definition setunreliable (unrel : bool) (cfg : config) : config :=
  set_bed (on_net (Reliable (negb unrel)) cfg.(bed)) cfg.
Definition setlongreordering (longrel : bool) (cfg : config) : config :=
  set_bed (on_net (LongReordering longrel) cfg.(bed)) cfg.

Definition make_config (n : nat) (unreliable : bool) : res config :=
  let cfg := mkConfig (empty_bed n) (replicate n "") (replicate n false)
               (replicate n ∅) 0 0 0 0 in
  let cfg := setunreliable unreliable cfg in
  let cfg := set_bed (on_net (LongDelays true) cfg.(bed)) cfg in
  cfg ← each (indices cfg.(bed)) start1 cfg;
  each (indices cfg.(bed)) connect cfg.

(** [cfg.t.Failed()] and [time.Since(cfg.start)] in seconds are arguments. *)
Definition checkTimeout (failed : bool) (elapsed : Z) : res unit :=
  if negb failed && (120 <? elapsed) then Panic else Ret tt.

Definition cleanup (failed : bool) (elapsed : Z) (cfg : config) : res config :=
  cfg ← with_bed (fun b => r ← Cleanup b.(bnet); Ret (on_net (fun _ => r) b)) cfg;
  _ ← checkTimeout failed elapsed;
  Ret cfg.

(** ** The reader of the apply channel of server [i] *)

(** Some server has delivered another value at this index. *)
Definition conflicting (index v : Z) (m : gmap Z Z) : bool :=
  match m !! index with Some old => negb (old =? v) | None => false end.

Definition applyReader (i : Z) (m : ApplyMsg Command) (cfg : config) : res config :=
  if m.(CommandValid) then
    match m.(am_Command) with
    | Some (CInt v) =>
        let index := m.(CommandIndex) in
        let conflict := existsb (conflicting index v) cfg.(clogs) in
        mine ← idx cfg.(clogs) i;
        let prevok := bool_decide (is_Some (mine !! (index - 1))) in
        logs ← upd cfg.(clogs) i (<[index := v]> mine);
        let cfg := set_clogs logs (Z.max cfg.(maxIndex) index) cfg in
        if conflict || ((1 <? index) && negb prevok) then Panic else Ret cfg
    | _ => Panic
    end
  else Ret cfg.

(** ** Checks that wait *)

Context (env : nat -> config -> config) (late : nat -> Z).

Record World := mkWorld { looks : nat; now : Z; cfg : config }.

Definition M (A : Type) : Type := World -> res (A * World).
Global Instance M_ret : MRet M := fun A a w => Ret (a, w).
Global Instance M_bind : MBind M := fun A B f m w => '(a, w) ← m w; f a w.

Definition fatal {A} : M A := fun _ => Panic.
Definition lift {A} (r : res A) : M A := fun w => a ← r; Ret (a, w).

(** Look at the configuration as it is by now.  The clock counts the sleeps: a look,
    like a call of [Start], takes no time of it, so a bound on [now] leaves out the
    time the checker itself computes. *)
Definition look : M config := fun w =>
  let c := env w.(looks) w.(cfg) in
  Ret (c, mkWorld (S w.(looks)) w.(now) c).

Definition put (c : config) : M unit := fun w => Ret (tt, mkWorld w.(looks) w.(now) c).
Definition time_now : M Z := fun w => Ret (w.(now), w).
Definition sleep (ms : Z) : M unit := fun w =>
  Ret (tt, mkWorld (S w.(looks)) (w.(now) + ms + late w.(looks)) w.(cfg)).

(** [cfg.rafts[i].GetState()]; a nil peer panics. *)
Definition peer_state (c : config) (i : Z) : res (Z * bool) :=
  o ← idx c.(bed).(bservers) i;
  r ← res_of_option o;
  '(rf, _) ← res_of_option (c.(bed).(insts) !! r);
  Ret (GetState rf).

Definition read_state (i : Z) : M (option (Z * bool)) :=
  c ← look;
  con ← lift (idx c.(connected) i);
  if (con : bool) then st ← lift (peer_state c i); mret (Some st) else mret None.

(** [leaders[term] = append(leaders[term], i)] for the leaders among [js]. *)
Fixpoint collect_leaders (js : list Z) (leaders : gmap Z (list Z)) : M (gmap Z (list Z)) :=
  match js with
  | [] => mret leaders
  | i :: js =>
      o ← read_state i;
      collect_leaders js
        (match o with
         | Some (term, true) => <[term := default [] (leaders !! term) ++ [i]]> leaders
         | _ => leaders
         end)
  end.

(** The loop over the map, in any order: fatal when a term has two leaders,
    else the greatest term. *)
Definition lastTermWithLeader (leaders : gmap Z (list Z)) : res Z :=
  each (map_to_list leaders) (fun p last =>
    if 1 <? len p.2 then Panic else Ret (if last <? p.1 then p.1 else last)) (-1).

Fixpoint checkOneLeader_iter (fuel : nat) (n : nat) : M Z :=
  match fuel with
  | O => fatal
  | S fuel =>
      _ ← sleep 450;
      leaders ← collect_leaders (map Z.of_nat (seq 0 n)) ∅;
      last ← lift (lastTermWithLeader leaders);
      if bool_decide (leaders = ∅) then checkOneLeader_iter fuel n
      else lift (idx (default [] (leaders !! last)) 0)
  end.

Definition checkOneLeader (n : nat) : M Z := checkOneLeader_iter 10 n.

Fixpoint checkTerms_from (js : list Z) (term : Z) : M Z :=
  match js with
  | [] => mret term
  | i :: js =>
      o ← read_state i;
      match o with
      | Some (xterm, _) =>
          if term =? -1 then checkTerms_from js xterm
          else if negb (term =? xterm) then fatal
          else checkTerms_from js term
      | None => checkTerms_from js term
      end
  end.

Definition checkTerms (n : nat) : M Z := checkTerms_from (map Z.of_nat (seq 0 n)) (-1).

Fixpoint checkNoLeader_from (js : list Z) : M unit :=
  match js with
  | [] => mret tt
  | i :: js =>
      o ← read_state i;
      match o with
      | Some (_, true) => fatal
      | _ => checkNoLeader_from js
      end
  end.

Definition checkNoLeader (n : nat) : M unit := checkNoLeader_from (map Z.of_nat (seq 0 n)).

(** How many servers have delivered [index], and what. *)
Fixpoint nCommitted_from (index : Z) (js : list Z) (count cmd : Z) : M (Z * Z) :=
  match js with
  | [] => mret (count, cmd)
  | i :: js =>
      c ← look;
      e ← lift (idx c.(applyErr) i);
      if negb (bool_decide ((e : string) = "")) then fatal else
      m ← lift (idx c.(clogs) i);
      match m !! index with
      | Some cmd1 =>
          if (0 <? count) && negb (cmd =? cmd1) then fatal
          else nCommitted_from index js (count + 1) cmd1
      | None => nCommitted_from index js count cmd
      end
  end.

Definition nCommitted (n : nat) (index : Z) : M (Z * Z) :=
  nCommitted_from index (map Z.of_nat (seq 0 n)) 0 (-1).

(** Some server has moved on to a later term. *)
Fixpoint moved_on (js : list Z) (startTerm : Z) : M bool :=
  match js with
  | [] => mret false
  | i :: js =>
      c ← look;
      st ← lift (peer_state c i);
      if startTerm <? st.1 then mret true else moved_on js startTerm
  end.

(** The loop of [wait]: whether someone moved on. *)
Fixpoint wait_loop (iters : nat) (n : nat) (index want startTerm to : Z) : M bool :=
  match iters with
  | O => mret false
  | S iters =>
      nd ← nCommitted n index;
      if want <=? nd.1 then mret false else
      _ ← sleep to;
      let to := if to <? 1000 then to * 2 else to in
      moved ← (if -1 <? startTerm then moved_on (map Z.of_nat (seq 0 n)) startTerm
               else mret false);
      if (moved : bool) then mret true else wait_loop iters n index want startTerm to
  end.

Definition wait (n : nat) (index want startTerm : Z) : M Z :=
  moved ← wait_loop 30 n index want startTerm 10;
  if (moved : bool) then mret (-1) else
  nd ← nCommitted n index;
  if nd.1 <? want then fatal else mret nd.2.

(** Try the servers in turn, from the one after [starts]. *)
Fixpoint submit (tries : nat) (n : nat) (starts cmd : Z) : M (Z * Z) :=
  match tries with
  | O => mret (starts, -1)
  | S tries =>
      let starts := (starts + 1) mod Z.of_nat n in
      c ← look;
      con ← lift (idx c.(connected) starts);
      o ← lift (if (con : bool) then idx c.(bed).(bservers) starts else Ret None);
      match o with
      | None => submit tries n starts cmd
      | Some r =>
          rfp ← lift (res_of_option (c.(bed).(insts) !! r));
          out ← lift (Start rfp.1 (Some (CInt cmd)));
          let '(rf, (index1, _, ok)) := out in
          _ ← put (set_bed (exec r (fun _ => rf) c.(bed)) c);
          if (ok : bool) then mret (starts, index1) else submit tries n starts cmd
      end
  end.

(** The loop that waits two seconds for agreement: [Some false] when it did not
    come; [None] out of fuel. *)
Fixpoint agree_loop (fuel : nat) (n : nat) (t1 index cmd expectedServers : Z) : M (option bool) :=
  match fuel with
  | O => mret None
  | S fuel =>
      t ← time_now;
      if 2000 <=? t - t1 then mret (Some false) else
      nd ← nCommitted n index;
      if (0 <? nd.1) && (expectedServers <=? nd.1) && (nd.2 =? cmd) then mret (Some true)
      else _ ← sleep 20; agree_loop fuel n t1 index cmd expectedServers
  end.

Fixpoint one_loop (fuel : nat) (n : nat) (t0 starts cmd expectedServers : Z) (retry : bool)
    : M (option Z) :=
  match fuel with
  | O => mret None
  | S fuel =>
      t ← time_now;
      if 10000 <=? t - t0 then fatal else
      si ← submit n n starts cmd;
      if negb (si.2 =? -1) then
        t1 ← time_now;
        a ← agree_loop 101 n t1 si.2 cmd expectedServers;
        match a with
        | None => mret None
        | Some true => mret (Some si.2)
        | Some false =>
            if retry then one_loop fuel n t0 si.1 cmd expectedServers retry else fatal
        end
      else _ ← sleep 50; one_loop fuel n t0 si.1 cmd expectedServers retry
  end.

Definition one (n : nat) (cmd expectedServers : Z) (retry : bool) : M (option Z) :=
  t0 ← time_now; one_loop 201 n t0 0 cmd expectedServers retry.

(** ** Statistics *)

Definition rpcTotal (c : config) : Z := GetTotalCount c.(bed).(bnet).
Definition rpcCount (c : config) (server : Z) : res Z := GetCount c.(bed).(bnet) (NInt server).

Definition begin (c : config) : config :=
  mkConfig c.(bed) c.(applyErr) c.(connected) c.(clogs) (rpcTotal c) 0
    c.(maxIndex) c.(maxIndex).

(** [end]: the numbers it prints (peers, RPCs, agreements). *)
Definition end_ (failed : bool) (elapsed : Z) (c : config) : res (option (Z * Z * Z)) :=
  _ ← checkTimeout failed elapsed;
  if failed then Ret None
  else Ret (Some (Z.of_nat c.(bed).(size), rpcTotal c - c.(rpcs0), c.(maxIndex) - c.(maxIndex0))).
End config.
