(* ===== verification/RaftConfigTheory.v ===== *)
(** * RaftConfigTheory: who can talk to whom in a Raft test

    An end is enabled exactly when it is a current end between two connected
    servers ([conn_ok]); every operation of the tester keeps that.  A crashed
    server is out of reach of the network and of the state that is saved for its
    successor, which starts from what was persisted last. *)

From S2P Require Import Prelude Gob Raft Cluster LabRpc LabRpcTheory ConfigBase Testbed TestbedTheory RaftConfig.
Local Open Scope Z_scope.

Section theory.
Context `{!Gob (PVal Command)} `{!Rand} `{!CryptoRand}.
Implicit Types (cfg : config) (b : Bed (Raft Command)).

(** ** The loops of [connect] and [disconnect] are loops over pairs *)

Lemma with_bed_Ret f cfg cfg' : with_bed f cfg = Ret cfg' ->
  exists b, f cfg.(bed) = Ret b /\ cfg' = set_bed b cfg.
Proof. unfold with_bed. intros E. bind_inv E. inv_res. eauto. Qed.

(** Rounds that run [f j] on the testbed for the [j] that pass a test which the
    rounds do not change. *)
Lemma each_filter (round : Z -> config -> res config) (test : Z -> config -> bool)
    (pr : Z -> Z * Z) yes js cfg cfg' :
  (forall j c c', j ∈ js -> round j c = Ret c' ->
     if test j c then with_bed (enable_end (pr j).1 (pr j).2 yes) c = Ret c' else c' = c) ->
  (forall j c b, b.(endnames) = c.(bed).(endnames) -> test j (set_bed b c) = test j c) ->
  each js round cfg = Ret cfg' ->
  with_bed (each (map pr (filter (fun j => test j cfg = true) js))
              (fun p => enable_end p.1 p.2 yes)) cfg = Ret cfg'.
Proof.
  intros Hr Ht. revert cfg. induction js as [|j js IH]; intros cfg E; cbn in E.
  { inv_res. unfold with_bed. cbn. by destruct cfg'. }
  bind_inv E. assert (if test j cfg then with_bed (enable_end (pr j).1 (pr j).2 yes) cfg = Ret x
                      else x = cfg) as Hj by (apply Hr; [constructor|done]).
  rewrite filter_cons. destruct (test j cfg) eqn:Etj.
  - rewrite decide_True by done. apply with_bed_Ret in Hj as (b1 & Hb1 & ->).
    assert (b1.(endnames) = cfg.(bed).(endnames)) as He.
    { unfold enable_end in Hb1. bind_inv Hb1. by inv_res. }
    apply IH in E; [|intros; apply Hr; [by constructor|done]].
    unfold with_bed in *. cbn [map each]. rewrite Hb1. cbn.
    replace (filter (fun j => test j cfg = true) js)
      with (filter (fun j => test j (set_bed b1 cfg) = true) js); [exact E|].
    apply list_filter_iff. intros k. by rewrite Ht.
  - rewrite decide_False by done. subst x. apply IH; [|done].
    intros; apply Hr; [by constructor|done].
Qed.

(** The tests of the loops. *)
Definition is_up (j : Z) cfg : bool :=
  match idx cfg.(connected) j with Ret true => true | _ => false end.
Definition has_names (j : Z) cfg : bool :=
  match has_endnames cfg.(bed) j with Ret true => true | _ => false end.

Lemma connect_out_loop i cfg cfg' js :
  each js (connect_out i) cfg = Ret cfg' ->
  with_bed (each (map (fun j => (i, j)) (filter (fun j => is_up j cfg = true) js))
              (fun p => enable_end p.1 p.2 true)) cfg = Ret cfg'.
Proof.
  apply (each_filter (connect_out i) is_up (fun j => (i, j)) true); [|done].
  intros j c c' _ E. unfold connect_out, is_up in *. destruct (idx (connected c) j) as [[]|]; cbn in E;
    [done|by inv_res|done].
Qed.

Lemma connect_in_loop i cfg cfg' js :
  each js (connect_in i) cfg = Ret cfg' ->
  with_bed (each (map (fun j => (j, i)) (filter (fun j => is_up j cfg = true) js))
              (fun p => enable_end p.1 p.2 true)) cfg = Ret cfg'.
Proof.
  apply (each_filter (connect_in i) is_up (fun j => (j, i)) true); [|done].
  intros j c c' _ E. unfold connect_in, is_up in *. destruct (idx (connected c) j) as [[]|]; cbn in E;
    [done|by inv_res|done].
Qed.

Lemma has_names_set j b cfg :
  b.(endnames) = cfg.(bed).(endnames) -> has_names j (set_bed b cfg) = has_names j cfg.
Proof. intros He. unfold has_names, has_endnames. cbn. by rewrite He. Qed.

Lemma disconnect_out_loop i cfg cfg' js :
  each js (disconnect_out i) cfg = Ret cfg' ->
  with_bed (each (map (fun j => (i, j)) (filter (fun j => has_names i cfg = true) js))
              (fun p => enable_end p.1 p.2 false)) cfg = Ret cfg'.
Proof.
  apply (each_filter (disconnect_out i) (fun _ => has_names i) (fun j => (i, j)) false);
    [|intros; by apply has_names_set].
  intros j c c' _ E. unfold disconnect_out, has_names in *.
  destruct (has_endnames (bed c) i) as [[]|]; cbn in E; [done|by inv_res|done].
Qed.

Lemma disconnect_in_loop i cfg cfg' js :
  each js (disconnect_in i) cfg = Ret cfg' ->
  with_bed (each (map (fun j => (j, i)) (filter (fun j => has_names j cfg = true) js))
              (fun p => enable_end p.1 p.2 false)) cfg = Ret cfg'.
Proof.
  apply (each_filter (disconnect_in i) has_names (fun j => (j, i)) false);
    [|intros; by apply has_names_set].
  intros j c c' _ E. unfold disconnect_in, has_names in *.
  destruct (has_endnames (bed c) j) as [[]|]; cbn in E; [done|by inv_res|done].
Qed.

(** ** What the loops enable *)

Lemma named_pairs b (pr : nat -> nat * nat) (P : Z -> Prop) `{!forall j, Decision (P j)} e :
  named b (map (fun j => (Z.of_nat (pr (Z.to_nat j)).1, Z.of_nat (pr (Z.to_nat j)).2))
             (filter P (indices b))) e <->
  exists j, (j < b.(size))%nat /\ P (Z.of_nat j) /\ name_at b (pr j).1 (pr j).2 = Some e.
Proof.
  unfold named, indices. split.
  - intros (p & Hp & He). apply list_elem_of_fmap in Hp as (z & -> & Hz).
    apply list_elem_of_filter in Hz as [HP Hz].
    apply list_elem_of_fmap in Hz as (j & -> & Hj%elem_of_seq). rewrite Nat2Z.id in He.
    exists j. split; [lia|]. split; [done|]. by apply end_of_name.
  - intros (j & Hj & HP & He). eexists. split.
    + apply list_elem_of_fmap. exists (Z.of_nat j). split; [reflexivity|].
      apply list_elem_of_filter. split; [done|]. apply list_elem_of_fmap. exists j.
      split; [done|]. apply elem_of_seq. lia.
    + cbn. rewrite Nat2Z.id. by apply end_of_name.
Qed.

Lemma map_indices_ext b (f g : Z -> Z * Z) (P : Z -> Prop) `{!forall j, Decision (P j)} :
  (forall j : nat, f (Z.of_nat j) = g (Z.of_nat j)) ->
  map f (filter P (indices b)) = map g (filter P (indices b)).
Proof.
  intros Hfg. apply map_ext_in. intros z Hz%list_elem_of_In.
  apply list_elem_of_filter in Hz as [_ Hz]. apply list_elem_of_fmap in Hz as (j & -> & _). done.
Qed.

(** One loop over the pairs [pr j]. *)
Lemma loop_spec (pr : nat -> nat * nat) (f : Z -> Z * Z) (P : Z -> Prop)
    `{!forall j, Decision (P j)} yes cfg cfg' :
  (forall j : nat, f (Z.of_nat j) = (Z.of_nat (pr j).1, Z.of_nat (pr j).2)) ->
  with_bed (each (map f (filter P (indices cfg.(bed)))) (fun p => enable_end p.1 p.2 yes)) cfg
  = Ret cfg' ->
  exists rn, cfg' = set_bed (on_net (fun _ => rn) cfg.(bed)) cfg /\
    re_enabled cfg.(bed).(bnet) rn /\
    (forall j, (j < cfg.(bed).(size))%nat -> P (Z.of_nat j) ->
       exists e, name_at cfg.(bed) (pr j).1 (pr j).2 = Some e) /\
    forall e, is_enabled rn e = true <->
      enabled_after yes (fun e => exists j, (j < cfg.(bed).(size))%nat /\ P (Z.of_nat j) /\
                                   name_at cfg.(bed) (pr j).1 (pr j).2 = Some e)
        cfg.(bed).(bnet) e.
Proof.
  intros Hf E. rewrite (map_indices_ext _ f
    (fun j => (Z.of_nat (pr (Z.to_nat j)).1, Z.of_nat (pr (Z.to_nat j)).2))) in E
    by (intros; by rewrite Hf, Nat2Z.id).
  apply with_bed_Ret in E as (b & E & ->).
  apply each_enable in E as (rn & -> & Hre & Hall & Hen). exists rn.
  split; [done|]. split; [done|]. split.
  - intros j Hj HP. destruct (Hall (Z.of_nat (pr j).1, Z.of_nat (pr j).2)) as [e He].
    + apply list_elem_of_fmap. exists (Z.of_nat j). rewrite Nat2Z.id. split; [done|].
      apply list_elem_of_filter. split; [done|]. apply list_elem_of_fmap. exists j.
      split; [done|]. apply elem_of_seq. lia.
    + exists e. by apply end_of_name.
  - intros e. rewrite Hen. unfold enabled_after. destruct yes; by rewrite named_pairs.
Qed.

(** ** The invariant *)

Definition up cfg (i : nat) : Prop := cfg.(connected) !! i = Some true.

Record conn_ok cfg : Prop := {
  co_bed : bed_ok cfg.(bed);
  co_len : length cfg.(connected) = cfg.(bed).(size);
  co_enabled : forall e, is_enabled cfg.(bed).(bnet) e = true <->
    exists i j, name_at cfg.(bed) i j = Some e /\ up cfg i /\ up cfg j;
}.

Lemma is_up_up cfg (j : nat) : is_up (Z.of_nat j) cfg = true <-> up cfg j.
Proof.
  unfold is_up, up, idx. rewrite Nat2Z.id. destruct (Z.leb_spec 0 (Z.of_nat j)); [|lia].
  destruct (connected cfg !! j) as [[]|]; cbn; split; congruence.
Qed.

Lemma has_names_Some cfg (j : nat) :
  has_names (Z.of_nat j) cfg = true <-> exists l, cfg.(bed).(endnames) !! j = Some (Some l).
Proof.
  unfold has_names, has_endnames, idx. rewrite Nat2Z.id.
  destruct (Z.leb_spec 0 (Z.of_nat j)); [|lia].
  destruct (endnames (bed cfg) !! j) as [[l|]|]; cbn; split; try done; try naive_solver.
Qed.

Lemma re_enabled_bed_ok b rn : re_enabled b.(bnet) rn -> bed_ok b -> bed_ok (on_net (fun _ => rn) b).
Proof.
  intros [en ->] [Hn Hh Hs]. split.
  - by eapply names_ok_same, Hn.
  - destruct Hh. by split.
  - cbn. by eapply srv_ok_same, Hs.
Qed.

Lemma up_insert cfg i c j : (i < length cfg.(connected))%nat ->
  up (set_connected (<[i := c]> cfg.(connected)) cfg) j <->
  (j = i /\ c = true) \/ (j <> i /\ up cfg j).
Proof.
  intros Hi. unfold up. cbn. destruct (decide (j = i)) as [->|Hd].
  - rewrite list_lookup_insert_eq by done. split; [intros [= ->]; auto|].
    intros [[_ ->]|[? _]]; done.
  - rewrite list_lookup_insert_ne by done. split; [auto|]. intros [[? _]|[_ ?]]; done.
Qed.

Lemma connect_ok (i : nat) cfg cfg' :
  conn_ok cfg -> connect (Z.of_nat i) cfg = Ret cfg' ->
  conn_ok cfg' /\ cfg'.(connected) = <[i := true]> cfg.(connected) /\ (i < cfg.(bed).(size))%nat /\
  exists rn, cfg'.(bed) = on_net (fun _ => rn) cfg.(bed).
Proof.
  intros [Hb Hl Hen] E. unfold connect in E. bind_inv E. apply upd_Ret in E0 as [Hi ->].
  rewrite Nat2Z.id in E. unfold len in Hi. bind_inv E.
  apply connect_out_loop in E0. apply connect_in_loop in E.
  set (cfg1 := set_connected (<[i := true]> (connected cfg)) cfg) in *.
  apply (loop_spec (fun j => (i, j)) _ _ _ cfg1) in E0 as (rn1 & -> & Hre1 & _ & Hen1); [|done].
  set (cfg2 := set_bed (on_net (fun _ => rn1) (bed cfg1)) cfg1) in *.
  apply (loop_spec (fun j => (j, i)) _ _ _ cfg2) in E as (rn2 & -> & Hre2 & _ & Hen2); [|done].
  assert (re_enabled cfg.(bed).(bnet) rn2) as Hre
    by (destruct Hre2 as [en ->], Hre1 as [en' ->]; by exists en).
  split; [|split; [done|split; [lia|by exists rn2]]]. split.
  - by apply (re_enabled_bed_ok (bed cfg)).
  - cbn. by rewrite length_insert.
  - intros e. rewrite Hen2. unfold enabled_after. change (bnet (bed cfg2)) with rn1.
    rewrite Hen1. unfold enabled_after. setoid_rewrite is_up_up.
    change ((exists j, (j < size (bed cfg))%nat /\ up cfg1 j /\ name_at (bed cfg) j i = Some e) \/
            (exists j, (j < size (bed cfg))%nat /\ up cfg1 j /\ name_at (bed cfg) i j = Some e) \/
            is_enabled (bnet (bed cfg)) e = true <->
            exists a c, name_at (bed cfg) a c = Some e /\ up cfg1 a /\ up cfg1 c).
    assert (forall j, up cfg1 j <-> (j = i /\ true = true) \/ (j <> i /\ up cfg j)) as Hup
      by (intros; apply up_insert; lia).
    setoid_rewrite Hup. rewrite Hen. split.
    + intros [(j & _ & Hj & He)|[(j & _ & Hj & He)|(a & c & He & Ha & Hc)]];
        [exists j, i; tauto|exists i, j; tauto|exists a, c].
      destruct (decide (a = i)), (decide (c = i)); tauto.
    + intros (a & c & He & Ha & Hc). destruct (name_at_lt _ _ _ _ (bo_names _ Hb) He).
      destruct Hc as [[-> _]|[? ?]]; [left; exists a; tauto|].
      destruct Ha as [[-> _]|[? ?]]; [right; left; exists c; tauto|right; right; by exists a, c].
Qed.

Lemma disconnect_ok (i : nat) cfg cfg' :
  conn_ok cfg -> disconnect (Z.of_nat i) cfg = Ret cfg' ->
  conn_ok cfg' /\ cfg'.(connected) = <[i := false]> cfg.(connected) /\ (i < cfg.(bed).(size))%nat /\
  cfg'.(clogs) = cfg.(clogs) /\
  exists rn, cfg'.(bed) = on_net (fun _ => rn) cfg.(bed) /\ re_enabled cfg.(bed).(bnet) rn.
Proof.
  intros [Hb Hl Hen] E. unfold disconnect in E. bind_inv E. apply upd_Ret in E0 as [Hi ->].
  rewrite Nat2Z.id in E. unfold len in Hi. bind_inv E.
  apply disconnect_out_loop in E0. apply disconnect_in_loop in E.
  set (cfg1 := set_connected (<[i := false]> (connected cfg)) cfg) in *.
  apply (loop_spec (fun j => (i, j)) _ _ _ cfg1) in E0 as (rn1 & -> & Hre1 & _ & Hen1); [|done].
  set (cfg2 := set_bed (on_net (fun _ => rn1) (bed cfg1)) cfg1) in *.
  apply (loop_spec (fun j => (j, i)) _ _ _ cfg2) in E as (rn2 & -> & Hre2 & _ & Hen2); [|done].
  assert (re_enabled cfg.(bed).(bnet) rn2) as Hre
    by (destruct Hre2 as [en ->], Hre1 as [en' ->]; by exists en).
  split; [|split; [done|split; [lia|split; [done|by exists rn2]]]]. split.
  - by apply (re_enabled_bed_ok (bed cfg)).
  - cbn. by rewrite length_insert.
  - intros e. rewrite Hen2. unfold enabled_after. change (bnet (bed cfg2)) with rn1.
    rewrite Hen1. unfold enabled_after. setoid_rewrite has_names_Some.
    change (~ (exists j, (j < size (bed cfg))%nat /\ (exists l, endnames (bed cfg) !! j = Some (Some l)) /\
                 name_at (bed cfg) j i = Some e) /\
            ~ (exists j, (j < size (bed cfg))%nat /\ (exists l, endnames (bed cfg) !! i = Some (Some l)) /\
                 name_at (bed cfg) i j = Some e) /\
            is_enabled (bnet (bed cfg)) e = true <->
            exists a c, name_at (bed cfg) a c = Some e /\ up cfg1 a /\ up cfg1 c).
    assert (forall j, up cfg1 j <-> (j = i /\ false = true) \/ (j <> i /\ up cfg j)) as Hup
      by (intros; apply up_insert; lia).
    setoid_rewrite Hup. rewrite Hen. split.
    + intros (Hin & Hout & a & c & He & Ha & Hc). destruct (name_at_lt _ _ _ _ (bo_names _ Hb) He).
      destruct (name_at_Some _ _ _ _ He) as (l & Hrow & _).
      exists a, c. split; [done|]. split; right; (split; [intros ->|done]);
        [apply Hout; exists c|apply Hin; exists a]; eauto.
    + intros (a & c & He & [[? ?]|[Hna Ha]] & [[? ?]|[Hnc Hc]]); try done.
      split; [|split; [|by exists a, c]].
      * intros (j & _ & _ & He'). by destruct (no_inj _ (bo_names _ Hb) _ _ _ _ _ He He').
      * intros (j & _ & _ & He'). by destruct (no_inj _ (bo_names _ Hb) _ _ _ _ _ He He').
Qed.

(** ** Crash *)

Lemma keep_raftstate_cases (i : nat) b b' :
  keep_raftstate (Z.of_nat i) b = Ret b' ->
  (b.(saved) !! i = Some None /\ b' = b) \/
  exists ps, saved_state b i = Some ps /\
    put_saved (Z.of_nat i) (SaveRaftState MakePersister (ReadRaftState ps)) b = Ret b'.
Proof.
  unfold keep_raftstate. intros E. bind_inv E. apply idx_Ret in E0 as [_ E0]. rewrite Nat2Z.id in E0.
  destruct x as [p|]; [|inv_res; auto]. right. bind_inv E. exists x. unfold saved_state.
  rewrite E0. cbn. unfold persister_at in E1. destruct (pheap b !! p); cbn in E1; [|done].
  inv_res. done.
Qed.

(** What a crash leaves saved: the Raft state without the snapshot. *)
Definition crashed_state (ps : Persister) : Persister :=
  SaveRaftState MakePersister (ReadRaftState ps).

(** After [crash1 i]. *)
Record crashed (i : nat) cfg cfg' : Prop := {
  cr_ok : conn_ok cfg';
  cr_lt : (i < cfg.(bed).(size))%nat;
  cr_size : cfg'.(bed).(size) = cfg.(bed).(size);
  cr_down : cfg'.(connected) = <[i := false]> cfg.(connected);
  cr_logs : cfg'.(clogs) = cfg.(clogs);
  cr_insts : cfg'.(bed).(insts) = cfg.(bed).(insts);
  cr_gone : cfg'.(bed).(bservers) !! i = Some None;
  cr_names : cfg'.(bed).(endnames) = cfg.(bed).(endnames);
  cr_saved : forall j, saved_state cfg'.(bed) j =
    if decide (j = i) then crashed_state <$> saved_state cfg.(bed) i else saved_state cfg.(bed) j;
  cr_servers : forall s, server_at cfg'.(bed).(bnet) s =
    if decide (s = NInt (Z.of_nat i)) then None else server_at cfg.(bed).(bnet) s;
}.

(** The persisters and the list of servers aside, nothing changes. *)
Definition same_ends b b' : Prop :=
  b'.(bnet) = b.(bnet) /\ b'.(size) = b.(size) /\ b'.(endnames) = b.(endnames) /\
  b'.(insts) = b.(insts).

Lemma put_saved_same (i : nat) ps b b' : put_saved (Z.of_nat i) ps b = Ret b' ->
  same_ends b b' /\ b'.(bservers) = b.(bservers).
Proof. by intros [_ ->]%put_saved_spec. Qed.

Lemma copy_saved_same (i : nat) b b' : copy_saved (Z.of_nat i) b = Ret b' -> same_ends b b'.
Proof. intros [[_ ->]|(ps & _ & E)]%copy_saved_cases; [done|]. by apply put_saved_same in E as [? _]. Qed.

Lemma keep_raftstate_same (i : nat) b b' :
  keep_raftstate (Z.of_nat i) b = Ret b' -> same_ends b b' /\ b'.(bservers) = b.(bservers).
Proof. intros [[_ ->]|(ps & _ & E)]%keep_raftstate_cases; [done|]. by apply put_saved_same in E. Qed.

Lemma forget_same (i : Z) b b' : forget i b = Ret b' -> same_ends b b'.
Proof. unfold forget. intros E. bind_inv E. destruct x; [bind_inv E|]; by inv_res. Qed.

Lemma same_ends_trans b1 b2 b3 : same_ends b1 b2 -> same_ends b2 b3 -> same_ends b1 b3.
Proof. unfold same_ends. intros (-> & -> & -> & ->) (-> & -> & -> & ->). done. Qed.

(** A fresh persister for a server that is not running. *)
Lemma put_saved_down (i : nat) ps b b' :
  heap_ok b -> b.(bservers) !! i = Some None -> put_saved (Z.of_nat i) ps b = Ret b' -> heap_ok b'.
Proof.
  intros Hb Hn E. pose proof (put_saved_heap i ps b b' None (or_introl eq_refl) Hb E) as Hb'.
  apply put_saved_same in E as [_ Es]. destruct Hb' as [? ? ? ? ? ? Hl Ho]. split; try done.
  - intros j r _ Hj. apply Hl; [|done]. intros [= <-]. congruence.
  - intros j p r s Hj Hr. by destruct (Ho j p r s Hj Hr).
Qed.

Lemma keep_raftstate_heap (i : nat) b b' :
  heap_ok b -> b.(bservers) !! i = Some None -> keep_raftstate (Z.of_nat i) b = Ret b' ->
  heap_ok b' /\ forall j, saved_state b' j =
    if decide (j = i) then crashed_state <$> saved_state b i else saved_state b j.
Proof.
  intros Hb Hn [[Hi ->]|(ps & Hps & E)]%keep_raftstate_cases.
  - split; [done|]. intros j. case_decide as Hd; [|done]. subst. unfold saved_state. by rewrite Hi.
  - split; [by eapply put_saved_down|]. intros j. rewrite Hps.
    by rewrite (saved_state_put i _ b b' j None Hb E).
Qed.

Lemma bed_ok_same b b' : same_ends b b' -> heap_ok b' -> bed_ok b -> bed_ok b'.
Proof.
  intros (Hn & Hz & He & _) Hh [Hnm _ Hs]. split; [|done|by rewrite Hn].
  eapply names_ok_same, Hnm; by rewrite ?He, ?Hz, ?Hn.
Qed.

Lemma crash1_spec (i : nat) cfg cfg' :
  conn_ok cfg -> crash1 (Z.of_nat i) cfg = Ret cfg' -> crashed i cfg cfg'.
Proof.
  intros Hok E. unfold crash1 in E. bind_inv E.
  apply disconnect_ok in E0 as ([Hb Hl Hen] & Hcon & Hi & Hlog & rn & Hbed & Hre); [|done].
  bind_inv E. inv_res. rename x0 into b, E0 into E. bind_inv E. bind_inv E.
  rename x0 into b1, x1 into b2.
  set (b0 := on_net (DeleteServer (NInt (Z.of_nat i))) (bed x)) in *.
  assert (bed_ok b0) as Hb0.
  { destruct Hb as [H1 H2 H3]. split; [by eapply names_ok_same, H1|by destruct H2|by apply srv_ok_Delete]. }
  pose proof (copy_saved_heap i b0 b1 (bo_heap _ Hb0) E0) as Hh1.
  pose proof (forget_heap i b1 b2 Hh1 E1) as (Hh2 & Hgone & Hss2).
  pose proof (keep_raftstate_heap i b2 b Hh2 Hgone E) as (Hh3 & Hss3).
  apply keep_raftstate_same in E as [Hs3 Hsrv].
  assert (same_ends b0 b) as Hsame.
  { eapply same_ends_trans, Hs3. eapply same_ends_trans; [by eapply copy_saved_same|by eapply forget_same]. }
  assert (forall j, saved_state b2 j = saved_state (bed cfg) j) as Hss.
  { intros j. rewrite Hss2, (copy_saved_state i b0 b1 j (bo_heap _ Hb0) E0). unfold b0, saved_state.
    cbn. by rewrite Hbed. }
  pose proof (bed_ok_same b0 b Hsame Hh3 Hb0) as Hb3.
  destruct Hsame as (Hn & Hz & He & Hin).
  split; cbn.
  - split; [done|cbn; by rewrite Hz|]. intros e. cbn. rewrite Hn.
    change (is_enabled (bnet b0) e) with (is_enabled (bnet (bed x)) e). rewrite Hen.
    unfold name_at, up. cbn. by rewrite He.
  - done.
  - rewrite Hz. unfold b0. cbn. by rewrite Hbed.
  - done.
  - done.
  - rewrite Hin. unfold b0. cbn. by rewrite Hbed.
  - by rewrite Hsrv.
  - rewrite He. unfold b0. cbn. by rewrite Hbed.
  - intros j. by rewrite Hss3, !Hss.
  - intros s. rewrite Hn. unfold b0. cbn [bnet on_net]. rewrite server_at_Delete, Hbed.
    destruct Hre as [en ->]. done.
Qed.

(** ** Start *)

(** After [start1 i]: a crash, and a new peer that runs on what was saved. *)
Record started (i : nat) cfg cfg' : Prop := {
  st_ok : conn_ok cfg';
  st_lt : (i < cfg.(bed).(size))%nat;
  st_size : cfg'.(bed).(size) = cfg.(bed).(size);
  st_down : cfg'.(connected) = <[i := false]> cfg.(connected);
  st_logs : cfg'.(clogs) = cfg.(clogs);
  st_row : exists l, cfg'.(bed).(endnames) !! i = Some (Some l);
  st_rows : forall j l, j <> i -> cfg.(bed).(endnames) !! j = Some (Some l) ->
    cfg'.(bed).(endnames) !! j = Some (Some l);
  st_insts : exists p, cfg'.(bed).(insts) = cfg.(bed).(insts) ++
    [(Make cfg.(bed).(size) (Z.of_nat i)
        (default MakePersister (crashed_state <$> saved_state cfg.(bed) i)), p)];
  st_peer : cfg'.(bed).(bservers) !! i = Some (Some (length cfg.(bed).(insts)));
  st_saved : forall j, saved_state cfg'.(bed) j =
    if decide (j = i) then Some (default MakePersister (crashed_state <$> saved_state cfg.(bed) i))
    else saved_state cfg.(bed) j;
}.

Lemma renamed_enabled (i : nat) b b' e :
  (i < b.(size))%nat -> names_ok b -> renamed i b b' ->
  (forall e, is_enabled b.(bnet) e = true -> exists a c, a <> i /\ name_at b a c = Some e) ->
  is_enabled b'.(bnet) e = true <->
  is_enabled b.(bnet) e = true /\ exists a c, a <> i /\ name_at b' a c = Some e.
Proof.
  intros Hi Hn [Hsz (l & He & Hl & Hnd & Hnew & Hends & Hconn & Hold & Hdis) _] Hen.
  assert (forall j k, name_at b' j k = if decide (j = i) then l !! k else name_at b j k) as Hna
    by (intros; apply name_at_insert; [done|by rewrite (no_len _ Hn)]).
  assert (forall e, is_enabled b.(bnet) e = true -> e ∉ l) as Hfr.
  { intros e0 (a & c & _ & Ha)%Hen Hin. apply Hnew in Hin.
    by destruct (no_known _ Hn _ _ _ Ha). }
  split.
  - intros He'. destruct (decide (e ∈ l)) as [Hin|Hin]; [by rewrite Hdis in He'|].
    destruct (Hold e Hin) as [_ Heq]. rewrite Heq in He'. split; [done|].
    destruct (Hen e He') as (a & c & Ha & Hac). exists a, c. split; [done|].
    by rewrite Hna, decide_False.
  - intros [He' _]. destruct (Hold e (Hfr e He')) as [_ ->]. done.
Qed.

Lemma start1_spec (i : nat) cfg cfg' :
  conn_ok cfg -> start1 (Z.of_nat i) cfg = Ret cfg' -> started i cfg cfg'.
Proof.
  intros Hok E. unfold start1 in E. destruct (crash1 (Z.of_nat i) cfg) as [c1|] eqn:E0; [|done].
  apply with_bed_Ret in E as (b & E & ->). apply crash1_spec in E0 as Hc; [|done].
  destruct Hc as [[Hb1 Hl1 Hen1] Hi Hz Hd Hlg Hin Hg Hnm Hsv Hsr].
  assert (i < size (bed c1))%nat as Hi1 by (by rewrite Hz).
  destruct (restart_spec i (bed c1) b Hi1 Hb1 E) as [Hb Hz' (b1 & Hren & Hnm' & Hen' & _) (p & Hin' & Hsr') Hsv'].
  assert (length (bservers (bed c1)) = size (bed c1)) as Hlen by (apply (hb_servers _ _ (bo_heap _ Hb1))).
  pose proof Hren as [_ (l & Hrow & _) _].
  assert (i < length (endnames (bed c1)))%nat as Hie by (by rewrite (no_len _ (bo_names _ Hb1))).
  assert (forall j, up c1 j -> j <> i) as Hup.
  { intros j Hj ->. unfold up in Hj. rewrite Hd, list_lookup_insert_eq in Hj; [done|].
    rewrite (co_len _ Hok). done. }
  split; cbn.
  - split; cbn; [done|by rewrite Hz', Hl1|]. intros e.
    replace (is_enabled (bnet b) e) with (is_enabled (bnet b1) e) by (unfold is_enabled; by rewrite Hen').
    rewrite (renamed_enabled i (bed c1) b1 e Hi1 (bo_names _ Hb1) Hren); last first.
    { intros e0 (a & c & ? & ? & ?)%Hen1. exists a, c. auto. }
    assert (forall a c, a <> i -> name_at b a c = name_at (bed c1) a c) as Hna.
    { intros a c Ha. unfold name_at. rewrite Hnm', Hrow. by rewrite list_lookup_insert_ne. }
    assert (forall a c, name_at b a c = name_at b1 a c) as Hna1 by (intros; unfold name_at; by rewrite Hnm').
    rewrite Hen1. split.
    + intros [(a & c & Ha & Hua & Huc) _]. exists a, c. rewrite Hna by auto. done.
    + intros (a & c & Ha & Hua & Huc). split.
      * exists a, c. rewrite <- Hna by auto. done.
      * exists a, c. rewrite <- Hna1. auto.
  - done.
  - by rewrite Hz', Hz.
  - done.
  - done.
  - exists l. by rewrite Hnm', Hrow, list_lookup_insert_eq.
  - intros j l' Hj Hjl. by rewrite Hnm', Hrow, list_lookup_insert_ne, Hnm.
  - exists p. rewrite Hin', Hin, Hz, Hsv, decide_True by done. done.
  - rewrite Hsr', list_lookup_insert_eq by lia. by rewrite Hin.
  - intros j. rewrite Hsv', !Hsv. by repeat case_decide.
Qed.
End theory.
