(* ===== verification/RaftConfigMain.v ===== *)
(** * RaftConfigMain: the guarantees of the Raft tester

    Every configuration a test can reach keeps the connectivity invariant; a
    crash isolates the old peer from the network and from the saved state, and
    the new peer starts exactly as a restart of Cluster.v does. *)

From S2P Require Import Prelude Gob Raft Cluster LabRpc LabRpcTheory ConfigBase Testbed TestbedTheory RaftConfig RaftConfigTheory.
Local Open Scope Z_scope.

Section main.
Context `{!Gob (PVal Command)} `{!Rand} `{!CryptoRand}.
Implicit Types cfg : config.

(** ** Reachable configurations *)

(** What a test, the peers (also those that were crashed) and the network do. *)
Inductive cfg_step : config -> config -> Prop :=
| step_start i cfg cfg' : start1 (Z.of_nat i) cfg = Ret cfg' -> cfg_step cfg cfg'
| step_crash i cfg cfg' : crash1 (Z.of_nat i) cfg = Ret cfg' -> cfg_step cfg cfg'
| step_connect i cfg cfg' : connect (Z.of_nat i) cfg = Ret cfg' -> cfg_step cfg cfg'
| step_disconnect i cfg cfg' : disconnect (Z.of_nat i) cfg = Ret cfg' -> cfg_step cfg cfg'
| step_unreliable b cfg : cfg_step cfg (setunreliable b cfg)
| step_reordering b cfg : cfg_step cfg (setlongreordering b cfg)
| step_apply i m cfg cfg' : applyReader i m cfg = Ret cfg' -> cfg_step cfg cfg'
| step_begin cfg : cfg_step cfg (begin cfg)
| step_peer r f cfg : cfg_step cfg (set_bed (exec r f cfg.(bed)) cfg)
| step_net rn cfg : net_runs cfg.(bed).(bnet) rn ->
    cfg_step cfg (set_bed (on_net (fun _ => rn) cfg.(bed)) cfg).

Inductive cfg_reach (n : nat) : config -> Prop :=
| reach_make unreliable cfg : make_config n unreliable = Ret cfg -> cfg_reach n cfg
| reach_cfg cfg cfg' : cfg_reach n cfg -> cfg_step cfg cfg' -> cfg_reach n cfg'.

(** Every server has a row of names. *)
Definition all_named cfg : Prop :=
  forall i, (i < cfg.(bed).(size))%nat -> exists l, cfg.(bed).(endnames) !! i = Some (Some l).

Record cfg_inv (n : nat) cfg : Prop := {
  ci_conn : conn_ok cfg;
  ci_size : cfg.(bed).(size) = n;
  ci_named : all_named cfg;
}.

Lemma conn_ok_net cfg rn : net_runs cfg.(bed).(bnet) rn -> conn_ok cfg ->
  conn_ok (set_bed (on_net (fun _ => rn) cfg.(bed)) cfg).
Proof.
  intros (He & Hen & Hs & Hc & Hh) [[Hn Hhp [Hl Hi]] Hlen Hco]. split; [split|..]; cbn.
  - by eapply names_ok_same, Hn.
  - destruct Hhp. by split.
  - split; unfold server_at; rewrite Hs, ?Hh; [apply Hl|apply Hi].
  - done.
  - intros e. unfold is_enabled. rewrite Hen. apply Hco.
Qed.

Lemma conn_ok_exec cfg r f : conn_ok cfg -> conn_ok (set_bed (exec r f cfg.(bed)) cfg).
Proof.
  intros [[Hn Hh Hs] Hl Hen]. pose proof (exec_heap r f _ Hh) as Hh'. unfold exec in *.
  destruct (insts (bed cfg) !! r) as [[s p]|]; [|by destruct cfg].
  split; [split|..]; cbn; try done. by eapply names_ok_same, Hn.
Qed.

Lemma cfg_step_inv n cfg cfg' : cfg_step cfg cfg' -> cfg_inv n cfg -> cfg_inv n cfg'.
Proof.
  intros Hs [Hc Hz Hn]. destruct Hs as [i cfg cfg' E|i cfg cfg' E|i cfg cfg' E|i cfg cfg' E
    |b cfg|b cfg|i m cfg cfg' E|cfg|r f cfg|rn cfg Hr].
  - apply start1_spec in E as [Hok _ Hz' _ _ [l Hrow] Hrows _ _ _]; [|done]. split; [done|congruence|].
    intros j Hj. destruct (decide (j = i)) as [->|Hne]; [by exists l|].
    rewrite Hz' in Hj. destruct (Hn j Hj) as [l' Hl']. exists l'. by apply Hrows.
  - apply crash1_spec in E as [Hok _ Hz' _ _ _ _ Hnm _ _]; [|done]. split; [done|congruence|].
    intros j. rewrite Hz', Hnm. apply Hn.
  - apply connect_ok in E as (Hok & _ & _ & rn & Hb); [|done].
    split; [done|by rewrite Hb|]. unfold all_named. by rewrite Hb.
  - apply disconnect_ok in E as (Hok & _ & _ & _ & rn & Hb & _); [|done].
    split; [done|by rewrite Hb|]. unfold all_named. by rewrite Hb.
  - split; [|done|done]. by apply conn_ok_net.
  - split; [|done|done]. by apply conn_ok_net.
  - unfold applyReader in E. destruct (CommandValid m); [|by inv_res; split].
    destruct (am_Command m) as [[v|]|]; [|done..]. repeat bind_inv E. case_if; [done|]. inv_res.
    split; [by destruct Hc|done|done].
  - split; [by destruct Hc|done|done].
  - split; [by apply conn_ok_exec|..]; unfold all_named, exec; cbn;
      destruct (insts (bed cfg) !! r) as [[s p]|]; done.
  - split; [by apply conn_ok_net|done|done].
Qed.

Lemma make_config_inv n unreliable cfg :
  make_config n unreliable = Ret cfg ->
  cfg_inv n cfg /\ forall i, (i < n)%nat -> up cfg i.
Proof.
  unfold make_config. intros E. bind_inv E. rename x into cfg1. cbn in E0.
  assert (conn_ok cfg1 /\ cfg1.(bed).(size) = n /\
          forall j, (j < 0 + n)%nat -> exists l, cfg1.(bed).(endnames) !! j = Some (Some l)) as (Hc & Hz & Hn).
  { eapply (each_seq (fun k c => conn_ok c /\ c.(bed).(size) = n /\
      forall j, (j < k)%nat -> exists l, c.(bed).(endnames) !! j = Some (Some l))); [| |exact E0].
    - intros k c c' _ (Hc & Hz & Hrow) Es.
      destruct (start1_spec k c c' Hc Es) as [Hok Hlt Hz' _ _ [l Hl] Hrows _ _ _].
      split; [done|]. split; [congruence|]. intros j Hj.
      destruct (decide (j = k)) as [->|Hne]; [by exists l|].
      destruct (Hrow j) as [l' Hl']; [lia|]. exists l'. by apply Hrows.
    - split; [|split; [done|lia]]. destruct (empty_bed_ok n) as [H1 H2 H3].
      split; cbn; [split; cbn| by rewrite length_replicate|].
      + by eapply names_ok_same, H1.
      + by destruct H2.
      + by eapply srv_ok_same, H3.
      + intros e. split.
        * unfold is_enabled. cbn. by rewrite lookup_empty.
        * intros (i & j & (l & Hl & _)%name_at_Some & _). cbn in Hl.
          by apply lookup_replicate in Hl as [? _]. }
  unfold indices in E. rewrite Hz in E.
  assert (cfg_inv n cfg /\ forall i, (i < 0 + n)%nat -> up cfg i) as [? ?]; [|done].
  eapply (each_seq (fun k c => cfg_inv n c /\ forall i, (i < k)%nat -> up c i)); [| |exact E].
  - intros k c c' _ [Hinv Hup] Es. split; [eapply cfg_step_inv, Hinv; by eapply step_connect|].
    destruct (connect_ok k c c' (ci_conn _ _ Hinv) Es) as (_ & Hcon & Hlt & _).
    intros i Hi. unfold up. rewrite Hcon. destruct (decide (i = k)) as [->|Hne].
    + apply list_lookup_insert_eq. by rewrite (co_len _ (ci_conn _ _ Hinv)).
    + rewrite list_lookup_insert_ne by done. apply Hup. lia.
  - split; [|lia]. split; [done|done|]. intros i Hi. apply Hn. lia.
Qed.

Lemma cfg_reach_inv n cfg : cfg_reach n cfg -> cfg_inv n cfg.
Proof.
  induction 1 as [u cfg E|cfg cfg' _ IH Hs]; [by apply make_config_inv in E as [? _]|].
  by eapply cfg_step_inv.
Qed.

(** C32. In every configuration a test can reach, the end from server [i] to
    server [j] leads to [j], and it is enabled exactly when both servers are
    connected; no other end of the network is enabled, in particular none of
    an earlier incarnation of a server. *)
Theorem config_connectivity n cfg :
  cfg_reach n cfg ->
  (forall i j, (i < n)%nat -> (j < n)%nat -> exists e, name_at cfg.(bed) i j = Some e /\
     connection cfg.(bed).(bnet) e = Some (NInt (Z.of_nat j)) /\
     (is_enabled cfg.(bed).(bnet) e = true <-> up cfg i /\ up cfg j)) /\
  (forall e, (forall i j, name_at cfg.(bed) i j <> Some e) -> is_enabled cfg.(bed).(bnet) e = false).
Proof.
  intros Hr. destruct (cfg_reach_inv n cfg Hr) as [[Hb Hl Hen] Hz Hn]. split.
  - intros i j Hi Hj. rewrite <- Hz in Hi, Hj. destruct (Hn i Hi) as [l Hl'].
    destruct (name_at_total _ i l j (bo_names _ Hb) Hl' Hj) as [e He]. exists e.
    split; [done|]. split; [by eapply (no_known _ (bo_names _ Hb))|]. rewrite Hen. split.
    + intros (a & c & He' & ? & ?). by destruct (no_inj _ (bo_names _ Hb) _ _ _ _ _ He He') as [-> ->].
    + intros [? ?]. by exists i, j.
  - intros e Hno. apply not_true_iff_false. rewrite Hen. intros (i & j & He & _).
    by apply Hno in He.
Qed.

(** C30. A crash isolates server [i]: its ends and the ends to it are disabled, the
    server object that was registered is no longer reachable under any name, and
    whatever an old peer still persists, what is saved for [i] stays the Raft
    state that was persisted last. *)
Theorem crash1_isolates n cfg cfg' i r rf p :
  cfg_reach n cfg -> crash1 (Z.of_nat i) cfg = Ret cfg' ->
  cfg.(bed).(bservers) !! i = Some (Some r) -> cfg.(bed).(insts) !! r = Some (rf, p) ->
  (forall j e, name_at cfg'.(bed) i j = Some e \/ name_at cfg'.(bed) j i = Some e ->
     is_enabled cfg'.(bed).(bnet) e = false) /\
  (forall sp, server_at cfg.(bed).(bnet) (NInt (Z.of_nat i)) = Some sp ->
     detached cfg'.(bed).(bnet) sp) /\
  saved_state cfg'.(bed) i = Some (crashed_state rf.(persister)) /\
  forall r' f, saved_state (exec r' f cfg'.(bed)) i = Some (crashed_state rf.(persister)).
Proof.
  intros Hr E Hi Hrf. destruct (cfg_reach_inv n cfg Hr) as [Hc Hz Hn].
  pose proof Hc as [Hb _ _].
  destruct (crash1_spec i cfg cfg' Hc E) as [[Hb' Hl' Hen'] Hlt Hz' Hd _ Hin Hg Hnm Hsv Hsr].
  assert (~ up cfg' i) as Hdown.
  { unfold up. rewrite Hd, list_lookup_insert_eq; [done|]. by rewrite (co_len _ Hc). }
  assert (saved_state cfg'.(bed) i = Some (crashed_state rf.(persister))) as Hs.
  { rewrite Hsv, decide_True by done.
    destruct (hb_live _ _ (bo_heap _ Hb) i r) as (s & q & Hq & Hsq); [done..|]. simplify_eq.
    unfold saved_state. rewrite Hsq. cbn. by rewrite (hb_inst _ _ (bo_heap _ Hb) _ _ _ Hrf). }
  split; [|split; [|split; [done|]]].
  - intros j e He. apply not_true_iff_false. rewrite Hen'. intros (a & c & He' & Ha & Hc').
    destruct He as [He|He];
      destruct (no_inj _ (bo_names _ Hb') _ _ _ _ _ He He') as [-> ->]; contradiction.
  - intros sp Hsp s. rewrite Hsr. case_decide as Hs'; [done|]. intros Hsp'.
    by apply Hs', (so_inj _ (bo_srv _ Hb) _ _ sp).
  - intros r' f. rewrite exec_dead_saved; [done|by apply bo_heap|by rewrite Hg].
Qed.

(** C31. [start1] on a running server is the crash and restart of Cluster.v: the
    new peer is made from the Raft state the old one persisted last, in a fresh
    persister that the old one cannot write. *)
Theorem start1_is_restart n cfg cfg' i r rf p :
  cfg_reach n cfg -> start1 (Z.of_nat i) cfg = Ret cfg' ->
  cfg.(bed).(bservers) !! i = Some (Some r) -> cfg.(bed).(insts) !! r = Some (rf, p) ->
  exists r' p', cfg'.(bed).(bservers) !! i = Some (Some r') /\
    cfg'.(bed).(insts) !! r' = Some (Cluster.start1 n i rf.(persister), p') /\ r' <> r /\ p' <> p /\
    (forall f, saved_state (exec r f cfg'.(bed)) i = saved_state cfg'.(bed) i) /\
    (forall f, saved_state (exec r' f cfg'.(bed)) i
       = Some (f (Cluster.start1 n i rf.(persister))).(persister)).
Proof.
  intros Hr E Hi Hrf. destruct (cfg_reach_inv n cfg Hr) as [Hc Hz Hn]. pose proof Hc as [Hb _ _].
  destruct (start1_spec i cfg cfg' Hc E) as [[Hb' _ _] Hlt Hz' _ _ _ _ [p' Hin] Hpeer _].
  assert (saved_state (bed cfg) i = Some (persister rf)) as Hsv.
  { destruct (hb_live _ _ (bo_heap _ Hb) i r) as (s & q & Hq & Hsq); [done..|]. simplify_eq.
    unfold saved_state. rewrite Hsq. cbn. by rewrite (hb_inst _ _ (bo_heap _ Hb) _ _ _ Hrf). }
  rewrite Hsv, Hz in Hin. cbn in Hin.
  set (r' := length (insts (bed cfg))) in *. exists r', p'.
  assert (insts (bed cfg') !! r' = Some (Cluster.start1 n i (persister rf), p')) as Hnew
    by (rewrite Hin; by apply list_lookup_middle).
  assert (insts (bed cfg') !! r = Some (rf, p)) as Hold
    by (rewrite Hin; by apply lookup_app_l_Some).
  assert (r' <> r) as Hne by (apply lookup_lt_Some in Hrf; unfold r'; lia).
  split; [done|]. split; [done|]. split; [done|]. split; [|split].
  - intros ->. apply Hne. by eapply (hb_inst_inj _ _ (bo_heap _ Hb')).
  - intros f. apply exec_dead_saved; [by apply bo_heap|]. rewrite Hpeer. congruence.
  - intros f. exact (exec_live_saved r' f (bed cfg') i _ p' (bo_heap _ Hb') Hnew Hpeer).
Qed.
End main.
