(* ===== verification/RaftCheck.v ===== *)
(** * RaftCheck: what the checks of the Raft tester find on a Raft cluster

    The readers of the apply channels accept exactly the deliveries that agree
    with all others and leave no gap; the peers of Cluster.v leave none.  Leaders
    of one term are one server over the whole run ([leaders_keep]), so
    [checkOneLeader], which looks at the servers one after the other while they
    run, never finds two. *)

From S2P Require Import Prelude Gob Raft RaftFacts RaftHandlers Cluster ClusterStep Election ElectionSafety Leaders Apply.
From S2P Require Import LabRpc ConfigBase Testbed RaftConfig.
Local Open Scope Z_scope.

(** ** The readers *)

Section readers.
Context `{!Gob (PVal Command)} `{!Rand} `{!CryptoRand}.
Implicit Types cfg : config.

(** No two servers have delivered different values at an index, and none has
    left a gap. *)
Record logs_ok cfg : Prop := {
  lo_agree : forall i j mi mj k v v', cfg.(clogs) !! i = Some mi -> cfg.(clogs) !! j = Some mj ->
    mi !! k = Some v -> mj !! k = Some v' -> v = v';
  lo_gaps : forall i mi k, cfg.(clogs) !! i = Some mi -> is_Some (mi !! k) -> 1 < k ->
    is_Some (mi !! (k - 1));
}.

(** The delivery of [v] at [index] by server [i] fits. *)
Definition fits cfg (i : nat) (index v : Z) : Prop :=
  (forall mj old, mj ∈ cfg.(clogs) -> mj !! index = Some old -> old = v) /\
  (1 < index -> forall mi, cfg.(clogs) !! i = Some mi -> is_Some (mi !! (index - 1))).

Lemma conflict_false cfg index v :
  existsb (conflicting index v) cfg.(clogs) = false <->
  forall mj old, mj ∈ cfg.(clogs) -> mj !! index = Some old -> old = v.
Proof.
  rewrite <- not_true_iff_false, existsb_exists. unfold conflicting. split.
  - intros Hn mj old Hin Hold. destruct (decide (old = v)) as [|Hne]; [done|]. exfalso.
    apply Hn. exists mj. split; [by apply list_elem_of_In|]. rewrite Hold.
    apply negb_true_iff, Z.eqb_neq. done.
  - intros Hall (mj & Hin%list_elem_of_In & Hc). destruct (mj !! index) as [old|] eqn:Ho; [|done].
    apply negb_true_iff, Z.eqb_neq in Hc. apply Hc. by eapply Hall.
Qed.

Lemma applyReader_cases (i : nat) m index v cfg mi :
  m.(CommandValid) = true -> m.(am_Command) = Some (CInt v) -> m.(CommandIndex) = index ->
  cfg.(clogs) !! i = Some mi ->
  (fits cfg i index v /\
   applyReader (Z.of_nat i) m cfg
   = Ret (set_clogs (<[i := <[index := v]> mi]> cfg.(clogs)) (Z.max cfg.(maxIndex) index) cfg)) \/
  (~ fits cfg i index v /\ applyReader (Z.of_nat i) m cfg = Panic).
Proof.
  intros Hv Hc Hx Hi. unfold applyReader. rewrite Hv, Hc, Hx.
  rewrite (idx_of_nat _ _ _ Hi). cbn. apply lookup_lt_Some in Hi as Hlt.
  destruct (upd_in_range (clogs cfg) (Z.of_nat i) (<[index:=v]> mi)) as [l Hl]; [unfold len; lia|].
  rewrite Hl. cbn. apply upd_Ret in Hl as [_ ->]. rewrite Nat2Z.id.
  destruct (existsb _ _) eqn:Ec; cbn.
  { right. split; [|done]. intros [Hf _]. apply conflict_false in Hf. congruence. }
  pose proof (proj1 (conflict_false cfg index v) Ec) as Hno. destruct (Z.ltb_spec 1 index) as [Hlt1|Hge]; cbn.
  - destruct (bool_decide (is_Some (mi !! (index - 1)))) eqn:Ep; cbn.
    + left. split; [|done]. split; [done|]. intros _ mi' Hmi'. simplify_eq.
      by apply bool_decide_eq_true in Ep.
    + right. split; [|done]. intros [_ Hg]. apply bool_decide_eq_false in Ep.
      by apply Ep, Hg.
  - left. split; [|done]. split; [done|lia].
Qed.

(** The reader of an apply channel accepts a delivery exactly when no server
    has delivered another value at that index and the server has delivered the
    index before it; and then all logs of the tester still agree and have no
    gaps. *)
Theorem applyReader_accepts (i : nat) m index v cfg mi :
  logs_ok cfg -> m.(CommandValid) = true -> m.(am_Command) = Some (CInt v) ->
  m.(CommandIndex) = index -> cfg.(clogs) !! i = Some mi ->
  (applyReader (Z.of_nat i) m cfg <> Panic <-> fits cfg i index v) /\
  forall cfg', applyReader (Z.of_nat i) m cfg = Ret cfg' ->
    logs_ok cfg' /\ cfg'.(clogs) = <[i := <[index := v]> mi]> cfg.(clogs) /\
    cfg'.(maxIndex) = Z.max cfg.(maxIndex) index.
Proof.
  intros [Ha Hg] Hv Hc Hx Hi.
  destruct (applyReader_cases i m index v cfg mi Hv Hc Hx Hi) as [[Hf E]|[Hf E]]; rewrite E;
    [|by split].
  split; [by split|]. intros cfg' [= <-]. split; [|done].
  apply lookup_lt_Some in Hi as Hlt. destruct Hf as [Hf1 Hf2].
  assert (forall j mj, <[i:=<[index:=v]> mi]> (clogs cfg) !! j = Some mj ->
    (j = i /\ mj = <[index := v]> mi) \/ (j <> i /\ clogs cfg !! j = Some mj)) as Hcase.
  { intros j mj. destruct (decide (j = i)) as [->|Hne].
    - rewrite list_lookup_insert_eq by done. intros [= <-]. auto.
    - rewrite list_lookup_insert_ne by done. auto. }
  assert (forall j mj k x, <[i:=<[index:=v]> mi]> (clogs cfg) !! j = Some mj -> mj !! k = Some x ->
    (k = index /\ x = v) \/ exists j' m', clogs cfg !! j' = Some m' /\ m' !! k = Some x) as Hval.
  { intros j mj k x [[-> ->]|[_ Hj]]%Hcase Hk; [|right; by exists j, mj].
    apply lookup_insert_Some in Hk as [[<- <-]|[_ Hk]]; [auto|right; by exists i, mi]. }
  split; cbn.
  - intros j1 j2 m1 m2 k x y H1 H2 Hx1 Hx2.
    destruct (Hval _ _ _ _ H1 Hx1) as [[-> ->]|(a & ma & Hma & Hka)],
      (Hval _ _ _ _ H2 Hx2) as [[? ->]|(b & mb & Hmb & Hkb)]; subst; try done.
    + symmetry. eapply Hf1, Hkb. by eapply list_elem_of_lookup_2.
    + eapply Hf1, Hka. by eapply list_elem_of_lookup_2.
    + by eapply (Ha a b).
  - intros j mj k [[-> ->]|[_ Hj]]%Hcase Hk Hk1; [|by eapply Hg].
    destruct (decide (k - 1 = index)) as [->|Hne]; [by rewrite lookup_insert_eq|].
    rewrite lookup_insert_ne by done. destruct (decide (k = index)) as [->|Hne2].
    + by apply Hf2.
    + rewrite lookup_insert_ne in Hk by done. by eapply Hg.
Qed.
End readers.

(** ** One leader per term over a whole run *)

Section one_leader.
Context `{!Gob (PVal Command)} `{!Rand} `{!CryptoRand} (n : nat).
Implicit Types w : Cluster Command.

Definition timely_step w w' : Prop := exists lbl, timely lbl w /\ Cluster.step lbl w = Some (Ret w').

Lemma timely_rtc w w' :
  timely_reachable n w -> rtc timely_step w w' -> timely_reachable n w'.
Proof.
  intros Hr Hs. revert Hr. induction Hs as [|w w1 w2 (lbl & Ht & Hs) _ IH]; [done|].
  intros Hr. apply IH. exact (treach_step n lbl w w1 Hr Ht Hs).
Qed.

Lemma quorum_rtc w w' T i :
  timely_reachable n w -> rtc timely_step w w' -> quorum n w T i -> quorum n w' T i.
Proof.
  intros Hr Hs. revert Hr. induction Hs as [|w w1 w2 (lbl & Ht & Hs) _ IH]; [done|].
  intros Hr Hq. pose proof (treach_step n lbl w w1 Hr Ht Hs) as Hr1. apply IH; [done|]. apply timely_is_reachable in Hr.
  pose proof (reachable_wf _ _ Hr) as Hcw.
  destruct (step_summary _ _ _ _ Hcw Hs) as [->|?]; [done|].
  exact (quorum_mono n _ _ _ T i Hcw (reachable_votes_inv _ _ Hr) ltac:(eassumption) Hq).
Qed.

(** The leader of a term at one moment of a run is its leader at every later
    one. *)
Lemma leaders_keep w w' i i' rf rf' :
  timely_reachable n w -> rtc timely_step w w' ->
  w.(nodes) !! i = Some rf -> w'.(nodes) !! i' = Some rf' ->
  rf.(state) = Leader -> rf'.(state) = Leader -> rf.(currentTerm) = rf'.(currentTerm) -> i = i'.
Proof.
  intros Hr Hs Hi Hi' Hl Hl' Ht. pose proof (timely_rtc _ _ Hr Hs) as Hr'.
  pose proof (timely_leader_inv _ _ Hr) as Hv. pose proof (timely_leader_inv _ _ Hr') as Hv'.
  pose proof (li_quorum _ _ Hv _ _ _ (li_leader _ _ Hv _ _ Hi Hl)) as Hq.
  pose proof (li_quorum _ _ Hv' _ _ _ (li_leader _ _ Hv' _ _ Hi' Hl')) as Hq'.
  rewrite Ht in Hq. apply (quorum_rtc _ _ _ _ Hr Hs) in Hq.
  exact (quorum_unique n _ _ _ _ (reachable_votes_inv _ _ (timely_is_reachable _ _ Hr')) Hq Hq').
Qed.

(** ** [checkOneLeader] on a running cluster

    [sys k] is the configuration at the [k]-th look, and [W k] the cluster. *)
Context (sys : nat -> config) (W : nat -> Cluster Command) (late : nat -> Z).

(** A look sees the peers of the cluster. *)
Definition shows (c : config) w : Prop :=
  length c.(connected) = n /\
  forall i, (i < n)%nat -> exists rf, w.(nodes) !! i = Some rf /\
    peer_state c (Z.of_nat i) = Ret (GetState rf).

Record running : Prop := {
  ru_start : timely_reachable n (W 0);
  ru_steps : forall k, rtc timely_step (W k) (W (S k));
  ru_shows : forall k, shows (sys k) (W k);
}.

(** Look [k] finds server [i] connected and leader of term [T]. *)
Definition sees (k i : nat) (T : Z) : Prop :=
  (sys k).(connected) !! i = Some true /\ peer_state (sys k) (Z.of_nat i) = Ret (T, true).

Hypothesis Hrun : running.

Lemma run_later k k' : (k <= k')%nat -> rtc timely_step (W k) (W k').
Proof.
  induction 1 as [|k' _ IH]; [done|]. etrans; [exact IH|by apply ru_steps].
Qed.

Lemma run_timely_at k : timely_reachable n (W k).
Proof. eapply timely_rtc; [by apply ru_start|apply run_later; lia]. Qed.

Lemma sees_leader k i T : (i < n)%nat -> sees k i T -> exists rf, (W k).(nodes) !! i = Some rf /\
  rf.(state) = Leader /\ rf.(currentTerm) = T.
Proof.
  intros Hi [_ Hp]. destruct (ru_shows Hrun k) as [_ Hs]. destruct (Hs i Hi) as (rf & Hrf & E).
  rewrite E in Hp. unfold GetState in Hp. injection Hp as <- Hl%bool_decide_eq_true. by exists rf.
Qed.

Lemma sees_nonneg k i T : (i < n)%nat -> sees k i T -> 0 <= T.
Proof.
  intros Hi Hs. destruct (sees_leader k i T Hi Hs) as (rf & Hrf & _ & <-).
  pose proof (reachable_wf _ _ (timely_is_reachable _ _ (run_timely_at k))) as Hcw.
  apply (no_wf _ _ _ (cw_node _ _ Hcw _ _ Hrf)).
Qed.

Lemma sees_unique k k' i i' T : (i < n)%nat -> (i' < n)%nat -> sees k i T -> sees k' i' T -> i = i'.
Proof.
  intros Hi Hi' Hs Hs'. destruct (sees_leader _ _ _ Hi Hs) as (rf & ? & ? & Et).
  destruct (sees_leader _ _ _ Hi' Hs') as (rf' & ? & ? & Et').
  destruct (decide (k <= k')%nat) as [Hle|Hgt].
  - eapply (leaders_keep (W k) (W k')); [apply run_timely_at|by apply run_later|done..|congruence].
  - symmetry. eapply (leaders_keep (W k') (W k)); [apply run_timely_at|apply run_later; lia|done..|congruence].
Qed.

(** What one round of reads from look [lo] has collected of the servers below
    [a]: for every term, the one server seen leading it. *)
Definition collected (lo a : nat) (L : gmap Z (list Z)) : Prop :=
  forall T l, L !! T = Some l <-> exists i, (i < a)%nat /\ l = [Z.of_nat i] /\ sees (lo + i) i T.

Lemma read_state_sys (i k : nat) t c : (i < n)%nat ->
  exists o, read_state (fun k _ => sys k) (Z.of_nat i) (mkWorld k t c)
    = Ret (o, mkWorld (S k) t (sys k)) /\
    forall T, o = Some (T, true) <-> sees k i T.
Proof.
  intros Hi. destruct (ru_shows Hrun k) as [Hlen Hs]. destruct (Hs i Hi) as (rf & _ & Ep).
  destruct (lookup_lt_is_Some_2 (connected (sys k)) i) as [b Hb]; [lia|].
  unfold read_state, look, lift, mbind, M_bind, mret, M_ret. cbn.
  rewrite (idx_of_nat _ _ _ Hb). cbn. unfold sees. rewrite Hb, Ep.
  destruct b; eexists; (split; [reflexivity|]); intros T.
  - split; [intros E; split; congruence|intros [_ E]; congruence].
  - split; [done|by intros []].
Qed.

Lemma collected_skip lo a L : (forall T, ~ sees (lo + a) a T) -> collected lo a L -> collected lo (S a) L.
Proof.
  intros Hno Hc T l. rewrite (Hc T l). split; intros (i & Hi & -> & Hs); exists i; (split; [|done]); [lia|].
  destruct (decide (i = a)) as [->|]; [by apply Hno in Hs|lia].
Qed.

Lemma collected_add lo a T L : (a < n)%nat -> sees (lo + a) a T -> collected lo a L ->
  collected lo (S a) (<[T := default [] (L !! T) ++ [Z.of_nat a]]> L).
Proof.
  intros Ha Hs Hc. assert (L !! T = None) as Hnone.
  { destruct (L !! T) as [l|] eqn:E; [|done]. apply Hc in E as (i & Hi & _ & Hs').
    assert (i = a) by (eapply sees_unique; [| |exact Hs'|exact Hs]; lia). lia. }
  rewrite Hnone. intros T' l. rewrite lookup_insert_Some. split.
  - intros [[<- <-]|[Hne (i & Hi & ? & ?)%Hc]]; [by exists a; auto with lia|].
    exists i. split; [lia|done].
  - intros (i & Hi & -> & Hs'). destruct (decide (T = T')) as [<-|Hne].
    + left. split; [done|]. assert (i = a) as -> by (eapply sees_unique; [| |exact Hs'|exact Hs]; lia). done.
    + right. split; [done|]. apply Hc. exists i. split; [|done].
      destruct (decide (i = a)) as [->|]; [|lia]. destruct Hs as [_ E1], Hs' as [_ E2]. congruence.
Qed.

Lemma collect_sys lo m a k t c L : (a + m = n)%nat -> k = (lo + a)%nat -> collected lo a L ->
  exists L' c', collect_leaders (fun k _ => sys k) (map Z.of_nat (seq a m)) L (mkWorld k t c)
    = Ret (L', mkWorld (lo + n) t c') /\ collected lo n L'.
Proof.
  revert a k c L. induction m as [|m IH]; intros a k c L Ha -> Hc.
  { exists L, c. cbn. unfold mret, M_ret. by replace (lo + a)%nat with (lo + n)%nat by lia; replace a with n in Hc by lia. }
  destruct (read_state_sys a (lo + a) t c) as (o & E & Ho); [lia|].
  assert (exists L1, L1 = match o with
    | Some (term, true) => <[term:=default [] (L !! term) ++ [Z.of_nat a]]> L
    | _ => L end /\ collected lo (S a) L1) as (L1 & E1 & Hc1).
  { eexists. split; [reflexivity|]. destruct o as [[T []]|].
    - apply collected_add; [lia|by apply Ho|done].
    - apply collected_skip; [|done]. intros T' HT'%Ho. done.
    - apply collected_skip; [|done]. intros T' HT'%Ho. done. }
  destruct (IH (S a) (S (lo + a)) (sys (lo + a)) L1) as (L' & c' & E' & Hc'); [lia|lia|done|].
  exists L', c'. split; [|done]. cbn. unfold mbind, M_bind. rewrite E. cbn. rewrite <- E1. exact E'.
Qed.

(** The loop over the map finds the greatest term, and no term with two
    leaders. *)
Lemma lastTerm_collected lo L : collected lo n L ->
  exists last, lastTermWithLeader L = Ret last /\
    (forall T l, L !! T = Some l -> T <= last) /\ (L <> ∅ -> is_Some (L !! last)).
Proof.
  intros Hc. unfold lastTermWithLeader.
  assert (forall ps acc, (forall p, p ∈ ps -> L !! p.1 = Some p.2) ->
    (acc = -1 \/ is_Some (L !! acc)) -> exists last,
    each ps (fun (p : Z * list Z) last => if 1 <? len p.2 then Panic
      else Ret (if last <? p.1 then p.1 else last)) acc = Ret last /\
    acc <= last /\ (forall p, p ∈ ps -> p.1 <= last) /\ (last = -1 \/ is_Some (L !! last))) as Hloop.
  { induction ps as [|p ps IH]; intros acc Hps Hacc.
    { exists acc. split_and!; [done..| |done]. intros p Hp. by apply not_elem_of_nil in Hp. }
    assert (L !! p.1 = Some p.2) as Hp by (apply Hps; constructor).
    pose proof Hp as (i & _ & E & _)%Hc. cbn. rewrite E. change (1 <? len [Z.of_nat i]) with false. cbn.
    destruct (IH (if acc <? p.1 then p.1 else acc)) as (last & El & Hle & Hall & Hin).
    - intros q Hq. apply Hps. by constructor.
    - destruct (acc <? p.1); [right; by eexists|done].
    - exists last. split_and!; [done| | |done].
      + destruct (Z.ltb_spec acc p.1); lia.
      + intros q [->|Hq]%elem_of_cons; [|by apply Hall]. destruct (Z.ltb_spec acc p.1); lia. }
  destruct (Hloop (map_to_list L) (-1)) as (last & E & _ & Hall & Hin).
  { intros [T l] Hp. by apply elem_of_map_to_list in Hp. }
  { by left. }
  exists last. split; [done|].
  assert (forall T l, L !! T = Some l -> T <= last) as Hmax.
  { intros T l Hl. by apply (Hall (T, l)), elem_of_map_to_list. }
  split; [done|]. intros Hne. destruct Hin as [->|?]; [|done]. exfalso.
  apply map_choose in Hne as (T & l & Hl). pose proof (Hmax T l Hl).
  apply Hc in Hl as (i & Hi & _ & Hs). apply sees_nonneg in Hs; lia.
Qed.

(** The look of round [r] at server [i]. *)
Definition look_at (k r i : nat) : nat := k + r * S n + 1 + i.

Lemma checkOneLeader_rounds fuel k t c :
  match checkOneLeader_iter (fun k _ => sys k) late fuel n (mkWorld k t c) with
  | Ret (l, _) => exists r i T, (r < fuel)%nat /\ (i < n)%nat /\ l = Z.of_nat i /\
      sees (look_at k r i) i T /\
      (forall i' T', (i' < n)%nat -> sees (look_at k r i') i' T' -> T' <= T)
  | Panic => forall r i T, (r < fuel)%nat -> (i < n)%nat -> ~ sees (look_at k r i) i T
  end.
Proof.
  revert k t c. induction fuel as [|fuel IH]; intros k t c; cbn; [lia|].
  unfold mbind at 1, M_bind at 1. cbn.
  destruct (collect_sys (S k) n 0 (S k) (t + 450 + late k) c ∅) as (L & c' & E & Hc); [done|lia|..].
  { intros T l. rewrite lookup_empty. split; [done|]. intros (i & ? & _). lia. }
  unfold mbind at 1, M_bind at 1. rewrite E. cbn.
  destruct (lastTerm_collected _ _ Hc) as (last & El & Hmax & Hsome).
  unfold mbind at 1, M_bind at 1, lift at 1. rewrite El. cbn. case_bool_decide as He.
  - specialize (IH (S k + n)%nat (t + 450 + late k) c').
    assert (forall r i, look_at (S k + n) r i = look_at k (S r) i) as Hlk by (unfold look_at; lia).
    destruct (checkOneLeader_iter _ _ _ _ _) as [[l w']|].
    + destruct IH as (r & i & T & ? & ? & ? & ? & Hm). exists (S r), i, T. rewrite <- Hlk.
      split_and!; [lia|done..|]. intros i' T'. rewrite <- Hlk. apply Hm.
    + intros [|r] i T Hr Hi Hs; [|eapply (IH r i T); [lia|done|by rewrite Hlk]].
      assert (L !! T = Some [Z.of_nat i]) as HT.
      { apply Hc. exists i. split; [done|]. split; [done|]. by replace (S k + i)%nat with (look_at k 0 i) by (unfold look_at; lia). }
      by rewrite He, lookup_empty in HT.
  - destruct (Hsome He) as [l Hl]. rewrite Hl. pose proof Hl as (i & Hi & -> & Hs)%Hc.
    cbn. unfold lift. cbn. exists 0%nat, i, last.
    assert (forall i, look_at k 0 i = S k + i)%nat as Hlk by (unfold look_at; lia).
    rewrite Hlk. split_and!; [lia|done..|]. intros i' T' Hi'. rewrite Hlk. intros Hs'.
    apply (Hmax T' [Z.of_nat i']), Hc. by exists i'.
Qed.

(** C33. On a cluster that runs timely, [checkOneLeader] never finds two leaders
    of one term, although it reads the servers one after the other while they
    run: it returns a connected server that led, when it was read, the greatest
    term with a leader in that round, and it gives up only when none of the ten
    rounds read a leader. *)
Theorem checkOneLeader_finds (w : World) :
  match checkOneLeader (fun k _ => sys k) late n w with
  | Ret (l, _) => exists r i T rf, (r < 10)%nat /\ (i < n)%nat /\ l = Z.of_nat i /\
      sees (look_at w.(looks) r i) i T /\
      (W (look_at w.(looks) r i)).(nodes) !! i = Some rf /\
      rf.(state) = Leader /\ rf.(currentTerm) = T /\
      (forall i' T', (i' < n)%nat -> sees (look_at w.(looks) r i') i' T' -> T' <= T)
  | Panic => forall r i T, (r < 10)%nat -> (i < n)%nat -> ~ sees (look_at w.(looks) r i) i T
  end.
Proof.
  destruct w as [k t c]. pose proof (checkOneLeader_rounds 10 k t c) as Hr. cbn [looks].
  unfold checkOneLeader. destruct (checkOneLeader_iter _ _ _ _ _) as [[l w']|]; [|exact Hr].
  destruct Hr as (r & i & T & ? & Hi & ? & Hs & ?).
  destruct (sees_leader _ _ _ Hi Hs) as (rf & ? & ? & ?). by exists r, i, T, rf.
Qed.
End one_leader.

(** ** Counting deliveries *)

Section counting.
Context `{!Gob (PVal Command)} `{!Rand} `{!CryptoRand}.
Context (env : nat -> config -> config) (late : nat -> Z).
Implicit Types (w : World) (c : config).

(** The configuration at the look at server [i], of a scan that starts in [w]. *)
Fixpoint scanned w (i : nat) : config :=
  match i with
  | O => env w.(looks) w.(cfg)
  | S i => env (w.(looks) + S i) (scanned w i)
  end.

(** What server [i] had delivered at [index] when it was looked at. *)
Definition delivered_at w (index : Z) (i : nat) : option Z :=
  m ← (scanned w i).(clogs) !! i; m !! index.

(** Number of servers below [n] that had delivered something. *)
Definition deliverers w (index : Z) (n : nat) : nat :=
  length (filter (fun i => is_Some (delivered_at w index i)) (seq 0 n)).

Lemma deliverers_S w index i :
  deliverers w index (S i)
  = (deliverers w index i + if decide (is_Some (delivered_at w index i)) then 1 else 0)%nat.
Proof.
  unfold deliverers. rewrite seq_S, filter_app, length_app. f_equal.
  rewrite filter_cons, filter_nil, Nat.add_0_l. by repeat case_decide.
Qed.

(** The configuration the scan has left behind before server [a]. *)
Definition scan_cfg w (a : nat) : config :=
  match a with O => w.(cfg) | S a => scanned w a end.

Lemma scan_look w a : env (w.(looks) + a) (scan_cfg w a) = scanned w a.
Proof. destruct a; cbn; [by rewrite Nat.add_0_r|done]. Qed.

Definition scan_ok w (index : Z) (a : nat) (count cmd : Z) : Prop :=
  count = Z.of_nat (deliverers w index a) /\
  (forall i v, (i < a)%nat -> delivered_at w index i = Some v -> v = cmd) /\
  (forall i, (i < a)%nat -> (scanned w i).(applyErr) !! i = Some "").

Lemma nCommitted_scan w index m a count cmd nd w' :
  scan_ok w index a count cmd ->
  nCommitted_from env index (map Z.of_nat (seq a m)) count cmd
    (mkWorld (w.(looks) + a) w.(now) (scan_cfg w a)) = Ret (nd, w') ->
  scan_ok w index (a + m) nd.1 nd.2 /\ w' = mkWorld (w.(looks) + (a + m)) w.(now) (scan_cfg w (a + m)).
Proof.
  revert a count cmd. induction m as [|m IH]; intros a count cmd Hok E; cbn in E.
  { unfold mret, M_ret in E. inv_res. by rewrite Nat.add_0_r. }
  unfold mbind at 1, M_bind at 1, look at 1 in E. cbn in E. rewrite scan_look in E.
  unfold mbind at 1, M_bind at 1, lift at 1 in E.
  destruct (idx (applyErr _) _) as [e|] eqn:Ee; [|done]. cbn in E.
  apply idx_Ret in Ee as [_ Ee]. rewrite Nat2Z.id in Ee.
  case_bool_decide as Hem; [|done]. subst e. cbn in E.
  unfold mbind at 1, M_bind at 1 in E.
  destruct (idx (clogs _) _) as [l|] eqn:El; [|done]. cbn in E.
  apply idx_Ret in El as [_ El]. rewrite Nat2Z.id in El.
  assert (delivered_at w index a = l !! index) as Hd by (unfold delivered_at; by rewrite El).
  replace (a + S m)%nat with (S a + m)%nat by lia.
  change (scanned w a) with (scan_cfg w (S a)) in E.
  rewrite <- (Nat.add_succ_r (looks w) a) in E. destruct Hok as (Hn & Hv & He).
  destruct (l !! index) as [v|] eqn:Hl.
  - destruct ((0 <? count) && negb (cmd =? v)) eqn:Hc; [done|]. eapply IH; [|exact E].
    split_and!.
    + rewrite deliverers_S, decide_True by (rewrite Hd; by eexists). lia.
    + intros i x Hi Hx. destruct (decide (i = a)) as [->|Hne]; [congruence|].
      assert (x = cmd) as -> by (eapply Hv; [|exact Hx]; lia).
      assert (0 < deliverers w index a)%nat as Hpos.
      { assert (i ∈ filter (fun i => is_Some (delivered_at w index i)) (seq 0 a)) as Hin.
        { apply list_elem_of_filter. split; [by eexists|]. apply elem_of_seq. lia. }
        unfold deliverers. apply list_elem_of_lookup in Hin as [j Hj%lookup_lt_Some]. lia. }
      zbool; cbn in *; try done; lia.
    + intros i Hi. destruct (decide (i = a)) as [->|Hne]; [done|]. apply He. lia.
  - eapply IH; [|exact E]. split_and!.
    + rewrite deliverers_S, decide_False by (rewrite Hd; by intros []). lia.
    + intros i x Hi Hx. destruct (decide (i = a)) as [->|Hne]; [congruence|]. eapply Hv; [|exact Hx]; lia.
    + intros i Hi. destruct (decide (i = a)) as [->|Hne]; [done|]. apply He. lia.
Qed.

(** A scan that returns has counted the servers that had delivered the index,
    and they had delivered one value. *)
Lemma nCommitted_counts n w index nd w' :
  nCommitted env n index w = Ret (nd, w') ->
  scan_ok w index n nd.1 nd.2 /\ w' = mkWorld (w.(looks) + n) w.(now) (scan_cfg w n).
Proof.
  unfold nCommitted. intros E. destruct w as [k t c].
  apply (nCommitted_scan (mkWorld k t c) index n 0 0 (-1)).
  - split_and!; [done|lia|lia].
  - cbn. by rewrite Nat.add_0_r.
Qed.
End counting.
