(* ===== verification/RaftAgree.v ===== *)
(** * RaftAgree: the checks of the Raft tester that wait for agreement

    [one] and [wait] poll the servers until enough of them have delivered a
    command.  [moves] is what happens between two looks: the rest of the system
    runs, time passes, [Start] is called.  The loops of [one] end by the clock, and
    with sleeps that last at least as long as asked, their fuel is enough. *)

From S2P Require Import Prelude Gob Raft RaftFacts LabRpc ConfigBase Testbed RaftConfig RaftCheck.
Local Open Scope Z_scope.
#[local] Arguments Start : simpl never.

Section agree.
Context `{!Gob (PVal Command)} `{!Rand} `{!CryptoRand}.
Context (env : nat -> config -> config) (late : nat -> Z).
Hypothesis Hlate : forall k, 0 <= late k.
Implicit Types (w : World) (c : config).

Inductive moves : World -> World -> Prop :=
| mv_look k t c : moves (mkWorld k t c) (mkWorld (S k) t (env k c))
| mv_sleep ms k t c : 0 <= ms -> moves (mkWorld k t c) (mkWorld (S k) (t + ms + late k) c)
| mv_start r rf p cmd rf' out k t c :
    c.(bed).(insts) !! r = Some (rf, p) -> Start rf (Some (CInt cmd)) = Ret (rf', out) ->
    moves (mkWorld k t c) (mkWorld k t (set_bed (exec r (fun _ => rf') c.(bed)) c)).

Notation later := (rtc moves).

Lemma later_time w w' : later w w' -> w.(now) <= w'.(now).
Proof.
  induction 1 as [|w w1 w2 Hm _ IH]; [done|].
  destruct Hm as [|ms k t c Hms|]; cbn in *; [lia| |lia]. pose proof (Hlate k). lia.
Qed.

(** A scan only looks. *)
Lemma nCommitted_from_later index js count cmd w x w' :
  nCommitted_from env index js count cmd w = Ret (x, w') -> later w w' /\ w'.(now) = w.(now).
Proof.
  revert count cmd w. induction js as [|i js IH]; intros count cmd w E; cbn in E.
  { unfold mret, M_ret in E. by inv_res. }
  unfold mbind, M_bind, look, lift in E. destruct w as [k t c]. cbn in E.
  destruct (idx (applyErr _) _); [|done]. cbn in E. case_bool_decide; [|done]. cbn in E.
  destruct (idx (clogs _) _) as [m|]; [|done]. cbn in E.
  assert (exists count cmd, nCommitted_from env index js count cmd
    (mkWorld (S k) t (env k c)) = Ret (x, w')) as (count' & cmd' & E').
  { destruct (m !! index); [case_match; [done|]|]; eauto. }
  apply IH in E' as [Hl Ht]. split; [|done]. eapply rtc_l; [apply mv_look|exact Hl].
Qed.

Lemma nCommitted_later n index w x w' :
  nCommitted env n index w = Ret (x, w') -> later w w' /\ w'.(now) = w.(now).
Proof. apply nCommitted_from_later. Qed.

Lemma submit_later tries n starts cmd w x w' :
  submit env tries n starts cmd w = Ret (x, w') -> later w w' /\ w'.(now) = w.(now).
Proof.
  revert starts w. induction tries as [|tries IH]; intros starts w E; cbn [submit] in E.
  { unfold mret, M_ret in E. by inv_res. }
  unfold mbind, M_bind, look, lift in E. destruct w as [k t c]. cbn in E.
  set (c1 := env k c) in *. assert (later (mkWorld k t c) (mkWorld (S k) t c1)) as Hl
    by (apply rtc_once, mv_look).
  assert (forall s, submit env tries n s cmd (mkWorld (S k) t c1) = Ret (x, w') ->
    later (mkWorld k t c) w' /\ now w' = t) as Hskip.
  { intros s [? ?]%IH. split; [by etrans|done]. }
  destruct (idx (connected _) _) as [[]|]; cbn in E; [|by eapply Hskip|done].
  destruct (idx (bservers _) _) as [[r|]|]; cbn in E; [|by eapply Hskip|done].
  destruct (insts _ !! r) as [[rf p]|] eqn:Hr; cbn in E; [|done].
  destruct (Start rf _) as [[rf' [[index1 term] ok]]|] eqn:Es; cbn in E; [|done].
  assert (later (mkWorld k t c) (mkWorld (S k) t (set_bed (exec r (fun _ => rf') c1.(bed)) c1))) as Hl2
    by (eapply rtc_r; [exact Hl|by eapply mv_start]).
  unfold put in E. cbn in E. destruct ok.
  - unfold mret, M_ret in E. by inv_res.
  - apply IH in E as [? ?]. split; [by etrans|done].
Qed.

(** ** Agreement *)

(** Whenever one looks, all [n] servers have delivered [v] at [index], and no apply
    reader has complained. *)
Definition everyone (n : nat) (index v : Z) : Prop := forall k c i, (i < n)%nat ->
  (env k c).(applyErr) !! i = Some "" /\ exists m, (env k c).(clogs) !! i = Some m /\ m !! index = Some v.

Lemma nCommitted_everyone n index v w : everyone n index v -> (0 < n)%nat ->
  exists w', nCommitted env n index w = Ret (Z.of_nat n, v, w') /\ w'.(now) = w.(now).
Proof.
  intros Hall Hn. unfold nCommitted.
  assert (forall m a count cmd w, (a + m = n)%nat -> (count = 0 /\ (0 < m)%nat \/ cmd = v) -> 0 <= count ->
    exists w', nCommitted_from env index (map Z.of_nat (seq a m)) count cmd w
      = Ret (count + Z.of_nat m, v, w') /\ w'.(now) = w.(now)) as Hscan.
  { intros m. induction m as [|m IH]; intros a count cmd [k t c] Ha Hc Hc0.
    - exists (mkWorld k t c). split; [|done]. destruct Hc as [[_ ?]| ->]; [lia|]. cbn.
      unfold mret, M_ret. by rewrite Z.add_0_r.
    - destruct (Hall k c a ltac:(lia)) as (He & lg & Hlg & Hv). cbn.
      unfold mbind at 1, M_bind at 1, look. cbn. unfold lift, mbind, M_bind.
      rewrite (idx_of_nat _ _ _ He), (idx_of_nat _ _ _ Hlg). cbn. rewrite Hv.
      rewrite bool_decide_eq_true_2 by done. cbn. destruct (Z.ltb_spec 0 count); destruct (Z.eqb_spec cmd v); cbn; try lia.
      all: destruct (IH (S a) (count + 1) v (mkWorld (S k) t (env k c))) as (w' & -> & Hw); [lia|auto|lia|].
      all: exists w'; split; [do 3 f_equal; lia|done]. }
  destruct (Hscan n 0%nat 0 (-1) w) as (w' & E & Ht); [lia|auto|lia|]. by exists w'.
Qed.

(** The scan from [w1] to [w2] finds that enough servers, and at least [lo], have
    delivered [cmd] at [index], and no server anything else. *)
Definition agreed (n : nat) (index cmd lo expected : Z) w1 w2 : Prop :=
  (exists count, nCommitted env n index w1 = Ret (count, cmd, w2)) /\
  lo <= Z.of_nat (deliverers env w1 index n) /\
  expected <= Z.of_nat (deliverers env w1 index n) /\
  forall i v, (i < n)%nat -> delivered_at env w1 index i = Some v -> v = cmd.

Lemma agree_loop_spec fuel n t1 index cmd expected w o w' :
  2000 <= w.(now) - t1 + 20 * (Z.of_nat fuel - 1) -> (0 < fuel)%nat ->
  agree_loop env late fuel n t1 index cmd expected w = Ret (o, w') ->
  later w w' /\
  match o with
  | None => False
  | Some true => w'.(now) < t1 + 2000 /\ exists w1, later w w1 /\ agreed n index cmd 1 expected w1 w'
  | Some false => t1 + 2000 <= w'.(now)
  end.
Proof.
  revert w. induction fuel as [|fuel IH]; intros w Hf Hpos E; [lia|]. cbn [agree_loop] in E.
  unfold mbind at 1, M_bind at 1, time_now at 1 in E. cbn in E.
  destruct (Z.leb_spec 2000 (now w - t1)) as [Hdone|Hmore].
  { unfold mret, M_ret in E. inv_res. split; [done|lia]. }
  unfold mbind at 1, M_bind at 1 in E.
  destruct (nCommitted env n index w) as [[[count c1] w1]|] eqn:En; [|done]. cbn in E.
  pose proof (nCommitted_later _ _ _ _ _ En) as [Hl Ht].
  pose proof En as [(Hn & Hv & _) _]%nCommitted_counts. cbn in Hn, Hv.
  destruct (_ && _ && _) eqn:Hc.
  - unfold mret, M_ret in E. inv_res. split; [done|]. split; [lia|]. exists w. split; [done|].
    apply andb_true_iff in Hc as [[Hc1 Hc2]%andb_true_iff Hc3].
    apply Z.ltb_lt in Hc1. apply Z.leb_le in Hc2. apply Z.eqb_eq in Hc3. subst.
    split; [by eexists|]. split; [lia|]. split; [lia|done].
  - unfold mbind, M_bind, sleep in E. cbn in E. destruct w1 as [k t cf]. cbn in *. subst t.
    pose proof (Hlate k) as Hk. destruct fuel as [|fuel]; [lia|].
    assert (later w (mkWorld (S k) (now w + 20 + late k) cf)) as Hl'
      by (eapply rtc_r; [exact Hl|apply mv_sleep; lia]).
    apply IH in E as [Hl2 Ho]; [|cbn; lia|lia].
    split; [by etrans|]. destruct o as [[]|]; [|done..].
    destruct Ho as [? (w2 & ? & ?)]. split; [done|]. exists w2. split; [by etrans|done].
Qed.

Lemma one_loop_spec fuel n t0 starts cmd expected retry w o w' :
  10000 <= w.(now) - t0 + 50 * (Z.of_nat fuel - 1) -> (0 < fuel)%nat ->
  one_loop env late fuel n t0 starts cmd expected retry w = Ret (o, w') ->
  exists index w1, o = Some index /\ w'.(now) < t0 + 12000 /\ later w w1 /\
    agreed n index cmd 1 expected w1 w'.
Proof.
  revert starts w. induction fuel as [|fuel IH]; intros starts w Hf Hpos E; [lia|].
  cbn [one_loop] in E. unfold mbind at 1, M_bind at 1, time_now at 1 in E. cbn -[agree_loop] in E.
  destruct (Z.leb_spec 10000 (now w - t0)) as [Hdone|Hmore]; [done|].
  unfold mbind at 1, M_bind at 1 in E.
  destruct (submit env n n starts cmd w) as [[si w1]|] eqn:Es; [|done]. cbn -[agree_loop] in E.
  apply submit_later in Es as [Hl Ht].
  assert (forall w2, later w w2 -> now w + 50 <= now w2 ->
    one_loop env late fuel n t0 si.1 cmd expected retry w2 = Ret (o, w') ->
    exists index w1, o = Some index /\ w'.(now) < t0 + 12000 /\ later w w1 /\
      agreed n index cmd 1 expected w1 w') as Hagain.
  { intros w2 Hl2 Ht2 E2. destruct fuel as [|fuel]; [lia|].
    apply IH in E2 as (ix & w3 & ? & ? & ? & ?); [|lia|lia].
    exists ix, w3. split_and!; [done|done|by etrans|done]. }
  destruct (negb (si.2 =? -1)).
  - unfold mbind at 1, M_bind at 1 in E. cbn -[agree_loop] in E. unfold mbind at 1, M_bind at 1 in E.
    destruct (agree_loop env late 101 n (now w1) si.2 cmd expected w1) as [[a w2]|] eqn:Ea; [|done].
    pose proof (agree_loop_spec 101 n (now w1) si.2 cmd expected w1 a w2 ltac:(lia) ltac:(lia) Ea) as [Hl2 Ha].
    destruct a as [[]|]; cbn -[agree_loop] in E; [| |done].
    + unfold mret, M_ret in E. inv_res. destruct Ha as [? (w3 & ? & ?)].
      exists si.2, w3. split_and!; [done|lia|by etrans|done].
    + destruct retry; [|done]. apply (Hagain w2); [by etrans|lia|exact E].
  - unfold mbind, M_bind, sleep in E. cbn -[agree_loop] in E. destruct w1 as [k t cf]. cbn in *. subst t.
    pose proof (Hlate k). apply (Hagain (mkWorld (S k) (now w + 50 + late k) cf)); [|cbn; lia|exact E].
    eapply rtc_r; [exact Hl|apply mv_sleep; lia].
Qed.

Lemma agree_loop_first more n index cmd expected w w' :
  nCommitted env n index w = Ret (Z.of_nat n, cmd, w') -> (0 < n)%nat -> expected <= Z.of_nat n ->
  agree_loop env late (S more) n w.(now) index cmd expected w = Ret (Some true, w').
Proof.
  intros En Hn He. cbn [agree_loop]. unfold mbind at 1, M_bind at 1, time_now at 1. cbn.
  rewrite Z.sub_diag. cbn. unfold mbind at 1, M_bind at 1. rewrite En. cbn.
  destruct (Z.ltb_spec 0 (Z.of_nat n)), (Z.leb_spec expected (Z.of_nat n)), (Z.eqb_spec cmd cmd); try lia.
  done.
Qed.

(** The first round, when it is accepted and everyone has delivered. *)
Lemma one_loop_first fuel n t0 starts index cmd expected retry w w1 :
  submit env n n 0 cmd w = Ret (starts, index, w1) -> index <> -1 ->
  everyone n index cmd -> (0 < n)%nat -> expected <= Z.of_nat n -> t0 = w.(now) ->
  exists w', one_loop env late (S fuel) n t0 0 cmd expected retry w = Ret (Some index, w') /\
    w'.(now) = w.(now).
Proof.
  intros Es Hi Hall Hn He ->. pose proof (submit_later _ _ _ _ _ _ _ Es) as [_ Ht].
  destruct (nCommitted_everyone n index cmd w1 Hall Hn) as (w2 & En & Ht2).
  exists w2. split; [|lia]. cbn [one_loop].
  unfold mbind at 1, M_bind at 1, time_now at 1. cbn -[agree_loop]. rewrite Z.sub_diag. cbn -[agree_loop].
  unfold mbind at 1, M_bind at 1. rewrite Es. cbn -[agree_loop].
  destruct (Z.eqb_spec index (-1)) as [|_]; [done|]. cbn -[agree_loop].
  unfold mbind at 1, M_bind at 1. cbn -[agree_loop].
  unfold mbind at 1, M_bind at 1.
  by rewrite (agree_loop_first 100 n index cmd expected w1 w2 En Hn He).
Qed.

Lemma one_unfold n cmd expectedServers retry w :
  one env late n cmd expectedServers retry w
  = one_loop env late 201 n w.(now) 0 cmd expectedServers retry w.
Proof. unfold one. generalize 201%nat as fuel. done. Qed.

(** C34. [one] comes back: within twelve seconds it returns an index, and then a
    scan of the servers has found at least one and at least [expectedServers] of
    them that have delivered [cmd] at that index, and none that has delivered
    another command there; otherwise it fails the test.  It does return, at once,
    when its first round of [Start]s is accepted at [index] and all servers, of which
    there are at least [expectedServers], have delivered [cmd] there.  The seconds are
    those of the sleeps, however much they overrun; calls of [Start] and
    [nCommitted] take no time of the model's clock. *)
Theorem one_agrees n cmd expectedServers retry w :
  match one env late n cmd expectedServers retry w with
  | Ret (o, w') => exists index w1, o = Some index /\ w'.(now) < w.(now) + 12000 /\
      later w w1 /\ agreed n index cmd 1 expectedServers w1 w'
  | Panic => True
  end /\
  forall starts index w1, submit env n n 0 cmd w = Ret (starts, index, w1) -> index <> -1 ->
    everyone n index cmd -> (0 < n)%nat -> expectedServers <= Z.of_nat n ->
    exists w', one env late n cmd expectedServers retry w = Ret (Some index, w') /\ w'.(now) = w.(now).
Proof.
  rewrite one_unfold. split.
  - destruct (one_loop _ _ _ _ _ _ _ _ _ _) as [[o w']|] eqn:E; [|done].
    eapply one_loop_spec, E; lia.
  - intros starts index w1 Es Hi Hall Hn He. by eapply (one_loop_first 200 n w.(now) starts index).
Qed.

(** ** [wait] *)

(** The time slept in [iters] rounds from [to]. *)
Fixpoint slept (iters : nat) (to : Z) : Z :=
  match iters with
  | O => 0
  | S iters => to + slept iters (if to <? 1000 then to * 2 else to)
  end.

Lemma moved_on_later js startTerm w b w' :
  moved_on env js startTerm w = Ret (b, w') -> later w w' /\ w'.(now) = w.(now).
Proof.
  revert w. induction js as [|i js IH]; intros w E; cbn in E.
  { unfold mret, M_ret in E. by inv_res. }
  unfold mbind, M_bind, look, lift in E. destruct w as [k t c]. cbn in E.
  destruct (peer_state _ _) as [st|]; [|done]. cbn in E.
  assert (later (mkWorld k t c) (mkWorld (S k) t (env k c))) as Hl by apply rtc_once, mv_look.
  destruct (startTerm <? st.1).
  - unfold mret, M_ret in E. by inv_res.
  - apply IH in E as [? ?]. split; [by etrans|done].
Qed.

Lemma wait_loop_spec iters n index want startTerm to d w b w' :
  0 <= to -> (forall k, late k <= d) -> 0 <= d ->
  wait_loop env late iters n index want startTerm to w = Ret (b, w') ->
  later w w' /\ w'.(now) <= w.(now) + slept iters to + Z.of_nat iters * d /\
  (b = true -> -1 < startTerm).
Proof.
  intros Hto Hd Hd0. revert w to Hto. induction iters as [|iters IH]; intros w to Hto E; cbn [wait_loop] in E.
  { unfold mret, M_ret in E. inv_res. split; [done|]. split; [cbn; lia|done]. }
  assert (forall to, 0 <= to -> 0 <= slept iters to) as Hpos.
  { clear. induction iters as [|m IH]; intros to Hto; cbn; [lia|].
    destruct (to <? 1000); [specialize (IH (to * 2))|specialize (IH to)]; lia. }
  unfold mbind at 1, M_bind at 1 in E.
  destruct (nCommitted env n index w) as [[nd w1]|] eqn:En; [|done]. cbn in E.
  apply nCommitted_later in En as [Hl Ht]. cbn [slept].
  set (to' := if to <? 1000 then to * 2 else to) in *.
  assert (0 <= to') as Hto' by (unfold to'; destruct (to <? 1000); lia). pose proof (Hpos to' Hto').
  destruct (want <=? nd.1).
  { unfold mret, M_ret in E. inv_res. split; [done|]. split; [lia|done]. }
  unfold mbind at 1, M_bind at 1, sleep at 1 in E. cbn in E. destruct w1 as [k t cf]. cbn in Ht, E. subst t.
  assert (later w (mkWorld (S k) (now w + to + late k) cf)) as Hl1
    by (eapply rtc_r; [exact Hl|by apply mv_sleep]).
  pose proof (Hd k) as Hk. unfold mbind at 1, M_bind at 1 in E.
  destruct (Z.ltb_spec (-1) startTerm) as [Hst|Hst].
  - destruct (moved_on _ _ _ _) as [[m w2]|] eqn:Em; [|done]. cbn in E.
    apply moved_on_later in Em as [Hl2 Ht2]. cbn in Ht2. destruct m.
    + unfold mret, M_ret in E. inv_res. split; [etrans; [exact Hl1|exact Hl2]|]. split; [lia|done].
    + apply IH in E as (Hl3 & ? & ?); [|done].
      split; [etrans; [exact Hl1|]; etrans; [exact Hl2|exact Hl3]|]. split; [lia|done].
  - cbn in E. apply IH in E as (Hl3 & Hn & ?); [|done]. split; [etrans; [exact Hl1|exact Hl3]|]. cbn in Hn. split; [lia|done].
Qed.

(** The end of [wait] after its loop. *)
Definition wait_end (n : nat) (index want : Z) (moved : bool) : M Z :=
  if moved then mret (-1) else
  nd ← nCommitted env n index; if nd.1 <? want then fatal else mret nd.2.

Lemma wait_unfold n index want startTerm w :
  wait env late n index want startTerm w
  = '(b, w1) ← wait_loop env late 30 n index want startTerm 10 w; wait_end n index want b w1.
Proof. unfold wait. generalize 30%nat as fuel. done. Qed.

(** When everyone has delivered, [wait] does not even sleep. *)
Lemma wait_everyone n index v want startTerm w :
  everyone n index v -> (0 < n)%nat -> want <= Z.of_nat n ->
  exists w', wait env late n index want startTerm w = Ret (v, w') /\ w'.(now) = w.(now).
Proof.
  intros Hall Hn Hw. destruct (nCommitted_everyone n index v w Hall Hn) as (w1 & E1 & H1).
  destruct (nCommitted_everyone n index v w1 Hall Hn) as (w2 & E2 & H2).
  exists w2. split; [|lia]. rewrite wait_unfold. change 30%nat with (S 29). generalize 29%nat as more.
  intros more. cbn [wait_loop]. unfold mbind at 2, M_bind at 1. rewrite E1. cbn.
  destruct (Z.leb_spec want (Z.of_nat n)); [|lia]. cbn. unfold mbind, M_bind. rewrite E2. cbn.
  destruct (Z.ltb_spec (Z.of_nat n) want); [lia|done].
Qed.

(** C35. [wait] comes back in bounded time: when sleeps overrun by at most [d], after at
    most 30.71 seconds and 30 overruns.  It returns -1 only if it was asked to
    watch a term, and otherwise a value that at least [want] servers have
    delivered at [index] while no server has delivered another.  When all servers, of
    which there are at least [want], have delivered [v], it returns [v] at once.  The
    time is that of the sleeps. *)
Theorem wait_bounded n index want startTerm d w :
  (forall k, late k <= d) ->
  match wait env late n index want startTerm w with
  | Ret (v, w') => w'.(now) <= w.(now) + 30710 + 30 * d /\
      ((v = -1 /\ -1 < startTerm) \/
       exists w1, later w w1 /\ agreed n index v 0 want w1 w')
  | Panic => True
  end /\
  forall v, everyone n index v -> (0 < n)%nat -> want <= Z.of_nat n ->
    exists w', wait env late n index want startTerm w = Ret (v, w') /\ w'.(now) = w.(now).
Proof.
  intros Hd. split; [|intros v; apply wait_everyone]. rewrite wait_unfold.
  assert (0 <= d) as Hd0 by (pose proof (Hd 0%nat); pose proof (Hlate 0%nat); lia).
  destruct (wait_loop _ _ _ _ _ _ _ _ _) as [[b w1]|] eqn:El; [|done].
  apply (wait_loop_spec _ _ _ _ _ _ d) in El as (Hl & Ht & Hb); [|lia|done|done].
  change (slept 30 10) with 30710 in Ht. change (Z.of_nat 30) with 30 in Ht. cbn.
  destruct (wait_end _ _ _ _ _) as [[v w']|] eqn:E; [|done]. unfold wait_end in E. destruct b.
  { unfold mret, M_ret in E. inv_res. split; [lia|]. left. auto. }
  unfold mbind, M_bind in E. destruct (nCommitted env n index w1) as [[[count c1] w2]|] eqn:En; [|done].
  pose proof (nCommitted_later _ _ _ _ _ En) as [_ Ht2].
  pose proof En as [(Hn & Hv & _) _]%nCommitted_counts. cbn in E, Hn, Hv.
  destruct (Z.ltb_spec count want) as [Hlt|Hge]; [done|]. unfold mret, M_ret in E. inv_res.
  split; [lia|]. right. exists w1. split; [done|].
  split; [eexists; exact En|]. split; [lia|]. split; [lia|done].
Qed.
End agree.
