(* ===== verification/RaftConfigRuns.v ===== *)
(** * RaftConfigRuns: the Raft tester on a concrete configuration

    Three servers, with a codec for integer commands and a source of random bytes
    that never repeats a name; the theorems on the tester apply to it. *)

From S2P Require Import Prelude Gob Raft RaftFacts Cluster RaftTraces.
From S2P Require Import LabRpc LabRpcTheory ConfigBase Testbed TestbedTheory RaftConfig RaftConfigTheory RaftConfigMain RaftCheck RaftAgree.
Local Open Scope Z_scope.

(** ** The instance *)

Global Instance Command_eq_dec : EqDecision Command.
Proof. solve_decision. Defined.
Global Instance Command_countable : Countable Command.
Proof.
  apply (inj_countable' (fun c => match c with CInt z => inl z | COther s => inr s end)
           (fun s => match s with inl z => CInt z | inr s => COther s end)).
  by intros [].
Defined.

Global Instance CEntry_eq_dec : EqDecision (LogEntry Command).
Proof. solve_decision. Defined.
Global Instance CEntry_countable : Countable (LogEntry Command).
Proof.
  apply (inj_countable' (fun e => (e.(le_Command), e.(le_Term)))
           (fun p => {| le_Command := p.1; le_Term := p.2 |})).
  by intros [].
Defined.
Global Instance CPVal_eq_dec : EqDecision (PVal Command).
Proof. solve_decision. Defined.
Global Instance CPVal_countable : Countable (PVal Command).
Proof.
  apply (inj_countable' (fun v => match v with PInt z => inl z | PLogs l => inr l end)
           (fun s => match s with inl z => PInt z | inr l => PLogs l end)).
  by intros [].
Defined.

#[export] Instance command_gob : Gob (PVal Command) := countable_gob.

Definition nth_byte (k : nat) : Byte.byte := default Byte.x00 (Byte.of_N (N.of_nat k)).

#[export] Program Instance byte_rand : CryptoRand := {| crand_Read := fun k n => replicate n (nth_byte k) |}.
Next Obligation. intros. apply length_replicate. Qed.

(** A configuration to fall back on. *)
Definition cfg0 : config :=
  mkConfig (empty_bed 3) [] [] [] 0 0 0 0.

(** Three connected servers; then server 1 is crashed; then started again. *)
Definition cfg3 : config := value cfg0 (make_config 3 false).
Definition cfg3_crashed : config := value cfg0 (crash1 1 cfg3).
Definition cfg3_again : config := value cfg0 (start1 1 cfg3).
Definition peer3 (i : nat) : Raft Command * nat :=
  default (Make 3 0 MakePersister, 0%nat) (cfg3.(bed).(insts) !! i).

Lemma cfg3_made : make_config 3 false = Ret cfg3.
Proof. apply value_Ret. vm_compute. reflexivity. Qed.

Lemma cfg3_reach : cfg_reach 3 cfg3.
Proof. eapply reach_make, cfg3_made. Qed.

(** ** Witnesses *)

Lemma config_connectivity_witness :
  exists e, name_at cfg3.(bed) 0 2 = Some e /\
    connection cfg3.(bed).(bnet) e = Some (NInt 2) /\
    (is_enabled cfg3.(bed).(bnet) e = true <-> up cfg3 0 /\ up cfg3 2).
Proof. apply (proj1 (config_connectivity 3 cfg3 cfg3_reach) 0%nat 2%nat); lia. Defined.

Lemma cfg3_crash : crash1 (Z.of_nat 1) cfg3 = Ret cfg3_crashed.
Proof. apply value_Ret. vm_compute. reflexivity. Qed.
Lemma cfg3_start : start1 (Z.of_nat 1) cfg3 = Ret cfg3_again.
Proof. apply value_Ret. vm_compute. reflexivity. Qed.
Lemma cfg3_peer1 : cfg3.(bed).(bservers) !! 1%nat = Some (Some 1%nat).
Proof. vm_compute. reflexivity. Qed.
Lemma cfg3_inst1 : cfg3.(bed).(insts) !! 1%nat = Some ((peer3 1).1, (peer3 1).2).
Proof.
  unfold peer3. destruct (insts (bed cfg3) !! 1%nat) as [[rf p]|] eqn:E; [done|].
  exfalso. apply lookup_ge_None in E. vm_compute in E. lia.
Qed.

Lemma crash1_isolates_witness :
  saved_state cfg3_crashed.(bed) 1 = Some (crashed_state (peer3 1).1.(persister)).
Proof.
  exact (proj1 (proj2 (proj2 (crash1_isolates 3 cfg3 cfg3_crashed 1 1 _ _
    cfg3_reach cfg3_crash cfg3_peer1 cfg3_inst1)))).
Defined.

Lemma start1_is_restart_witness : exists r' p',
  cfg3_again.(bed).(bservers) !! 1%nat = Some (Some r') /\
  cfg3_again.(bed).(insts) !! r' = Some (Cluster.start1 3 1 (peer3 1).1.(persister), p').
Proof.
  pose proof (start1_is_restart 3 cfg3 cfg3_again 1 1 _ _ cfg3_reach cfg3_start cfg3_peer1
    cfg3_inst1) as (r' & p' & H1 & H2 & _). exact (ex_intro _ r' (ex_intro _ p' (conj H1 H2))).
Defined.

(** Server 0 delivers 7 at index 1. *)
Definition msg7 : ApplyMsg Command :=
  {| CommandValid := true; am_Command := Some (CInt 7); CommandIndex := 1 |}.
Definition cfg3_logged : config := value cfg0 (applyReader 0 msg7 cfg3).

Lemma cfg3_logs_ok : logs_ok cfg3.
Proof.
  assert (cfg3.(clogs) = [∅; ∅; ∅]) as E by (vm_compute; reflexivity).
  assert (forall i m, cfg3.(clogs) !! i = Some m -> m = ∅) as Hemp.
  { intros i m Hm. rewrite E in Hm. clear E. destruct i as [|[|[|i]]]; [by injection Hm..|by rewrite lookup_ge_None_2 in Hm by (cbn; lia)]. }
  split.
  - intros i j mi mj k v v' ->%Hemp _ Hk. by rewrite lookup_empty in Hk.
  - intros i mi k ->%Hemp [v Hv]. by rewrite lookup_empty in Hv.
Qed.

Lemma applyReader_accepts_witness : logs_ok cfg3_logged /\ cfg3_logged.(maxIndex) = 1.
Proof.
  destruct (applyReader_accepts 0 msg7 1 7 cfg3 ∅ cfg3_logs_ok eq_refl eq_refl eq_refl) as [_ Hok];
    [vm_compute; reflexivity|].
  destruct (Hok cfg3_logged) as (? & _ & ->); [apply value_Ret; vm_compute; reflexivity|].
  split; [done|vm_compute; reflexivity].
Defined.

(** ** A leader *)

Definition elected : list (Cluster.Label Command) :=
  [LExpireElection 0; LRecvElection 0; LLoop 0; LGo 0 0; LGo 0 0; LDeliver 0; LDeliver 1].

Definition led3 : Cluster Command := default (Cluster.init 3) (run_timely elected (Cluster.init 3)).

Lemma led3_timely : timely_reachable 3 led3.
Proof.
  eapply (run_timely_reachable 3 elected (Cluster.init 3)); [apply treach_init|].
  vm_compute. reflexivity.
Qed.

(** The configuration with the peers of that cluster. *)
Definition cfg3_led : config :=
  foldl (fun c i => match led3.(nodes) !! i with
                    | Some rf => set_bed (exec i (fun _ => rf) c.(bed)) c
                    | None => c
                    end) cfg3 [0; 1; 2]%nat.

Definition sys3 (k : nat) : config := cfg3_led.
Definition W3 (k : nat) : Cluster Command := led3.
Definition w3 : World := mkWorld 0 0 cfg3.

Lemma led3_running : running 3 sys3 W3.
Proof.
  split; [exact led3_timely|exact (fun k => rtc_refl _ led3)|]. intros k. unfold sys3, W3. split; [vm_compute; reflexivity|].
  intros i Hi. destruct (led3.(nodes) !! i) as [rf|] eqn:Hrf.
  - exists rf. split; [done|].
    destruct i as [|[|[|]]]; [..|lia]; vm_compute in Hrf; injection Hrf as <-; vm_compute; reflexivity.
  - exfalso. destruct i as [|[|[|]]]; [..|lia]; vm_compute in Hrf; done.
Qed.

(** The result of a check. *)
Definition outcome {A} (r : res (A * World)) : res A := '(a, _) ← r; Ret a.

Lemma checkOneLeader_led :
  outcome (checkOneLeader (fun k _ => sys3 k) (fun _ => 0) 3 w3) = Ret 0.
Proof. vm_compute. reflexivity. Qed.

Lemma checkOneLeader_finds_witness : exists r i T rf, (r < 10)%nat /\ 0 = Z.of_nat i /\
  (W3 (look_at 3 w3.(looks) r i)).(nodes) !! i = Some rf /\
  rf.(state) = Leader /\ rf.(currentTerm) = T.
Proof.
  pose proof (checkOneLeader_finds 3 sys3 W3 (fun _ => 0) led3_running w3) as Hw.
  pose proof checkOneLeader_led as E.
  destruct (checkOneLeader (fun k _ => sys3 k) (fun _ => 0) 3 w3) as [[l w']|]; [|discriminate E].
  injection E as ->. destruct Hw as (r & i & T & rf & H1 & _ & H2 & _ & H3 & H4 & H5 & _).
  exists r, i, T, rf. exact (conj H1 (conj H2 (conj H3 (conj H4 H5)))).
Defined.

(** ** Agreement *)

(** All servers have delivered 7 at index 1 by the time of the third look. *)
Definition cfg3_all : config := set_clogs [{[1 := 7]}; {[1 := 7]}; {[1 := 7]}] 1 cfg3_led.
Definition env3 (k : nat) (c : config) : config :=
  if (k <? 2)%nat then cfg3_led else set_clogs cfg3_all.(clogs) 1 c.

Lemma one_agrees_run :
  outcome (one env3 (fun _ => 0) 3 7 3 true (mkWorld 0 0 cfg3)) = Ret (Some 1).
Proof. vm_compute. reflexivity. Qed.

Lemma one_agrees_witness : exists w1 w',
  w'.(now) < 0 + 12000 /\ rtc (moves env3 (fun _ => 0)) (mkWorld 0 0 cfg3) w1 /\
  agreed env3 3 1 7 1 3 w1 w'.
Proof.
  pose proof (one_agrees env3 (fun _ => 0) (fun _ => Z.le_refl 0) 3 7 3 true (mkWorld 0 0 cfg3)) as [Hw _].
  pose proof one_agrees_run as E.
  destruct (one env3 (fun _ => 0) 3 7 3 true (mkWorld 0 0 cfg3)) as [[o w']|]; [|discriminate E].
  injection E as ->. destruct Hw as (index & w1 & [= <-] & H1 & H2 & H3).
  exact (ex_intro _ w1 (ex_intro _ w' (conj H1 (conj H2 H3)))).
Defined.

Lemma wait_bounded_run :
  outcome (wait env3 (fun _ => 0) 3 1 2 1 (mkWorld 0 0 cfg3)) = Ret 7.
Proof. vm_compute. reflexivity. Qed.

Lemma wait_bounded_witness : exists w1 w',
  w'.(now) <= 0 + 30710 + 30 * 0 /\ rtc (moves env3 (fun _ => 0)) (mkWorld 0 0 cfg3) w1 /\
  agreed env3 3 1 7 0 2 w1 w'.
Proof.
  pose proof (wait_bounded env3 (fun _ => 0) (fun _ => Z.le_refl 0) 3 1 2 1 0 (mkWorld 0 0 cfg3)
    (fun _ => Z.le_refl 0)) as [Hw _].
  pose proof wait_bounded_run as E.
  destruct (wait env3 (fun _ => 0) 3 1 2 1 (mkWorld 0 0 cfg3)) as [[v w']|]; [|discriminate E].
  injection E as ->. destruct Hw as (H1 & [[? _]|(w1 & H2 & H3)]); [discriminate|].
  exact (ex_intro _ w1 (ex_intro _ w' (conj H1 (conj H2 H3)))).
Defined.
