(* ===== verification/KVTheory.v ===== *)
(** * KVTheory: what the key/value service guarantees

    [spec_db] is the abstract service: the operations of a log, each executed
    unless the same client already had a later or equal request.  The database
    of a server after any run is [spec_db] of a prefix of the log, with
    messages delivered twice or late.  Acknowledged requests are executed. *)

From S2P Require Import Prelude Gob Raft Apply KVServer.
From stdpp Require Import strings.
Local Open Scope Z_scope.

(** ** The abstract service *)

Definition op_id (op : Op) : Z * Z := (op.(op_ClientId), op.(op_RequestId)).

(** [op] is newer than every request of its client in [seen]. *)
Definition newest (seen : list Op) (op : Op) : Prop :=
  Forall (fun op' => op'.(op_ClientId) = op.(op_ClientId) ->
                     op'.(op_RequestId) < op.(op_RequestId)) seen.

Global Instance newest_dec seen op : Decision (newest seen op).
Proof. unfold newest. apply _. Defined.

Fixpoint executed (seen ops : list Op) : list Op :=
  match ops with
  | [] => []
  | op :: ops =>
      if decide (newest seen op)
      then op :: executed (seen ++ [op]) ops
      else executed (seen ++ [op]) ops
  end.

Definition exec_all (d : gmap string string) (ops : list Op) : gmap string string :=
  foldl (fun d op => exec op d) d ops.

Definition spec_db (ops : list Op) : gmap string string := exec_all ∅ (executed [] ops).

Lemma executed_app seen ops1 ops2 :
  executed seen (ops1 ++ ops2) = executed seen ops1 ++ executed (seen ++ ops1) ops2.
Proof.
  revert seen. induction ops1 as [|op ops IH]; intros seen; cbn; [by rewrite app_nil_r|].
  rewrite IH, <- app_assoc. cbn. by case_decide.
Qed.

Lemma executed_snoc ops op :
  executed [] (ops ++ [op]) = executed [] ops ++ (if decide (newest ops op) then [op] else []).
Proof. rewrite executed_app. cbn. by case_decide. Qed.

(** ** The implementation against it *)

Definition applyAll (kv : KVServer) (ops : list Op) : KVServer := foldl (fun kv op => applyOp op kv) kv ops.

(** [lastAppliedRequestId] is the newest request of each client in [seen]. *)
Definition last_ok (seen : list Op) (last : gmap Z Z) : Prop :=
  forall c,
    match last !! c with
    | None => forall op, op ∈ seen -> op.(op_ClientId) <> c
    | Some r => (exists op, op ∈ seen /\ op_id op = (c, r)) /\
                forall op, op ∈ seen -> op.(op_ClientId) = c -> op.(op_RequestId) <= r
    end.

Lemma last_ok_newest seen last op :
  last_ok seen last ->
  (match last !! op.(op_ClientId) with None => true | Some l => l <? op.(op_RequestId) end)
  = bool_decide (newest seen op).
Proof.
  intros Hl. specialize (Hl op.(op_ClientId)). symmetry. unfold newest.
  destruct (last !! op_ClientId op) as [r|].
  - destruct Hl as [(op' & Hin & [= Hc Hr]) Hmax]. destruct (Z.ltb_spec r op.(op_RequestId)).
    + apply bool_decide_eq_true, Forall_forall. intros x Hx Hxc. specialize (Hmax _ Hx Hxc). lia.
    + apply bool_decide_eq_false. rewrite Forall_forall. intros Hf. specialize (Hf _ Hin Hc). lia.
  - apply bool_decide_eq_true, Forall_forall. intros x Hx Hxc. by destruct (Hl x Hx).
Qed.

Lemma applyOp_spec seen op kv :
  last_ok seen kv.(lastAppliedRequestId) ->
  last_ok (seen ++ [op]) (applyOp op kv).(lastAppliedRequestId) /\
  (applyOp op kv).(db) = exec_all kv.(db) (if decide (newest seen op) then [op] else []).
Proof.
  intros Hl. unfold applyOp. rewrite (last_ok_newest _ _ _ Hl).
  destruct (decide (newest seen op)) as [Hn|Hn];
    [rewrite bool_decide_true by done|rewrite bool_decide_false by done]; (split; [|done]).
  - intros c. cbn. destruct (decide (c = op.(op_ClientId))) as [->|Hc].
    + rewrite lookup_insert_eq. split.
      * exists op. by rewrite elem_of_app, list_elem_of_singleton; auto.
      * intros x [Hx| ->%list_elem_of_singleton]%elem_of_app Hxc; [|lia].
        eapply Forall_forall in Hn; [|done]. specialize (Hn Hxc). lia.
    + rewrite lookup_insert_ne by done. specialize (Hl c).
      destruct (_ !! c) as [r|].
      * destruct Hl as [(x & Hx & E) Hmax]. split; [exists x; by rewrite elem_of_app; auto|].
        intros y [Hy| ->%list_elem_of_singleton]%elem_of_app; [by apply Hmax|done].
      * intros y [Hy| ->%list_elem_of_singleton]%elem_of_app; [by apply Hl|done].
  - intros c. specialize (Hl c) as Hlc. destruct (_ !! c) as [r|] eqn:E.
    + destruct Hlc as [(x & Hx & Ex) Hmax]. split; [exists x; by rewrite elem_of_app; auto|].
      intros y [Hy| ->%list_elem_of_singleton]%elem_of_app Hyc; [by apply Hmax|].
      destruct (Z_le_gt_dec op.(op_RequestId) r) as [|Hgt]; [done|]. destruct Hn.
      apply Forall_forall. intros z Hz Hzc. rewrite Hyc in Hzc. specialize (Hmax _ Hz Hzc). lia.
    + intros y [Hy| ->%list_elem_of_singleton]%elem_of_app; [by apply Hlc|].
      intros Hyc. destruct Hn. apply Forall_forall. intros z Hz Hzc. rewrite Hyc in Hzc.
      by destruct (Hlc z Hz).
Qed.

Lemma last_ok_nil : last_ok [] ∅.
Proof. intros c. rewrite lookup_empty. by intros op ?%not_elem_of_nil. Qed.

Lemma applyAll_spec kv ops :
  kv.(db) = ∅ -> kv.(lastAppliedRequestId) = ∅ ->
  last_ok ops (applyAll kv ops).(lastAppliedRequestId) /\ (applyAll kv ops).(db) = spec_db ops.
Proof.
  intros Hd Hl. induction ops as [|op ops [IHl IHd]] using rev_ind.
  - cbn. rewrite Hl. split; [apply last_ok_nil|done].
  - unfold applyAll in *. rewrite foldl_app. cbn [foldl].
    destruct (applyOp_spec _ op _ IHl) as [? ->]. split; [done|].
    unfold spec_db. rewrite executed_snoc. unfold exec_all. by rewrite foldl_app, IHd.
Qed.

(** A request that is in the log already changes nothing. *)
Lemma applyOp_absorbed seen op kv :
  last_ok seen kv.(lastAppliedRequestId) -> op ∈ seen -> applyOp op kv = kv.
Proof.
  intros Hl Hin. unfold applyOp. rewrite (last_ok_newest _ _ _ Hl), bool_decide_false; [done|].
  intros Hn. eapply Forall_forall in Hn; [|done]. specialize (Hn eq_refl). lia.
Qed.

(** ** At most once, and exactly once *)

Lemma executed_newest ops pre op post :
  executed [] ops = pre ++ op :: post -> newest pre op.
Proof.
  revert pre op post. induction ops as [|x ops IH] using rev_ind; intros pre op post E; [by destruct pre|].
  rewrite executed_snoc in E. destruct (decide (newest ops x)) as [Hn|]; [|rewrite app_nil_r in E; eauto].
  destruct post as [|y post _] using rev_ind.
  - apply app_inj_tail in E as [<- ->]. apply Forall_forall. intros z Hz.
    eapply Forall_forall in Hn; [done|]. clear -Hz.
    induction ops as [|y ops IH] using rev_ind; [done|]. rewrite executed_snoc in Hz.
    apply elem_of_app. apply elem_of_app in Hz as [Hz|Hz]; [by left; apply IH|].
    case_decide; [by right|by apply not_elem_of_nil in Hz].
  - rewrite app_comm_cons, app_assoc in E. apply app_inj_tail in E as [E _]. eauto.
Qed.

(** Requests of a client reach the log in order, up to retries. *)
Definition orderly (ops : list Op) : Prop :=
  forall pre op post, ops = pre ++ op :: post ->
    op_id op ∈ op_id <$> pre \/ newest pre op.

Lemma orderly_prefix ops op : orderly (ops ++ [op]) -> orderly ops.
Proof.
  intros Ho pre x post ->. apply (Ho pre x (post ++ [op])). by rewrite <- app_assoc.
Qed.

Lemma executed_NoDup ops : NoDup (op_id <$> executed [] ops).
Proof.
  assert (H : forall l, (forall pre op post, l = pre ++ op :: post -> newest pre op) -> NoDup (op_id <$> l)).
  { induction l as [|x l IH] using rev_ind; intros Hn; [constructor|].
    rewrite fmap_app. apply NoDup_app. split; [|split; [|apply NoDup_singleton]].
    - apply IH. intros pre op post ->. apply (Hn pre op (post ++ [x])). by rewrite <- app_assoc.
    - intros i (y & -> & Hy)%list_elem_of_fmap Hi%list_elem_of_singleton.
      specialize (Hn l x [] eq_refl). eapply Forall_forall in Hn; [|done].
      unfold op_id in Hi. cbn in Hi. simplify_eq. destruct y, x; cbn in *. simplify_eq. lia. }
  apply H. intros. by eapply executed_newest.
Qed.

Lemma executed_all ops op : orderly ops -> op ∈ ops -> op_id op ∈ op_id <$> executed [] ops.
Proof.
  revert op. induction ops as [|x ops IH] using rev_ind; intros op Ho Hin;
    [by apply not_elem_of_nil in Hin|].
  pose proof (orderly_prefix _ _ Ho) as Ho'. rewrite executed_snoc, fmap_app, elem_of_app.
  apply elem_of_app in Hin as [Hin| ->%list_elem_of_singleton]; [left; by apply IH|].
  destruct (Ho ops x [] eq_refl) as [(y & E & Hy)%list_elem_of_fmap|Hn].
  - left. rewrite E. by apply IH.
  - right. rewrite decide_True by done. by apply list_elem_of_singleton.
Qed.

(** ** Messages of a Raft log *)

(** What Raft promises the service: the messages carry the commands of one log
    (index [k] is [ops !! (k-1)]) and an index comes first after all smaller
    ones; messages may come again at any time. *)
Record raft_stream (ops : list Op) (ms : list (ApplyMsg Op)) : Prop := {
  rs_order : no_gaps ms;
  rs_log : forall m, m ∈ ms -> m.(CommandValid) = true /\ 1 <= m.(CommandIndex) /\
    exists op, m.(am_Command) = Some op /\ ops !! Z.to_nat (m.(CommandIndex) - 1) = Some op;
}.

(** The messages a run takes from applyCh, and their operations. *)
Fixpoint kmsgs (ls : list KLabel) : list (ApplyMsg Op) :=
  match ls with
  | [] => []
  | KApply msg :: ls => msg :: kmsgs ls
  | _ :: ls => kmsgs ls
  end.

Definition msg_op (m : ApplyMsg Op) : option Op :=
  if m.(CommandValid) then m.(am_Command) else None.

Definition same_maps (kv kv' : KVServer) : Prop :=
  kv'.(db) = kv.(db) /\ kv'.(lastAppliedRequestId) = kv.(lastAppliedRequestId).

Lemma same_maps_refl kv : same_maps kv kv.
Proof. done. Qed.

Lemma applyOp_same_maps op kv kv' : same_maps kv kv' -> same_maps (applyOp op kv) (applyOp op kv').
Proof. intros [Hd Hl]. unfold applyOp, same_maps. rewrite Hl. case_match; [case_match|]; cbn; by rewrite ?Hd, ?Hl. Qed.

Lemma applyAll_same_maps ops kv kv' :
  same_maps kv kv' -> same_maps (applyAll kv ops) (applyAll kv' ops).
Proof.
  revert kv kv'. induction ops as [|op ops IH]; cbn; intros kv kv' H; [done|].
  apply IH. by apply applyOp_same_maps.
Qed.

(** A step changes the maps only through the message it takes. *)
Lemma kstep_maps lbl kv kv' :
  kstep lbl kv = Some (Ret kv') ->
  same_maps (applyAll kv (omap msg_op (kmsgs [lbl]))) kv'.
Proof.
  intros E. destruct lbl as [c index isL|k|k|k|k|k|msg|]; cbn in E.
  1: by simplify_eq.
  1-5: destruct (waiters kv !! k) as [[c i|c i ch|c i nt|c wl]|]; try done.
  - unfold register in E. by destruct (dispatcher kv !! i); simplify_eq.
  - by destruct (chans kv !! ch) as [[|nt ns]|]; simplify_eq.
  - by simplify_eq.
  - by simplify_eq.
  - by simplify_eq.
  - destruct (aloop kv); [|done]. unfold applyMsg in E. cbn. unfold msg_op.
    destruct (CommandValid msg); cbn in *; [|by simplify_eq].
    destruct (am_Command msg) as [op|]; [|done]. cbn.
    by destruct (dispatcher (applyOp op kv) !! _); simplify_eq.
  - destruct (aloop kv) as [|ch nt]; [done|].
    by destruct (chans kv !! ch) as [[|? ?]|]; simplify_eq.
Qed.

Lemma kmsgs_cons lbl ls : kmsgs (lbl :: ls) = kmsgs [lbl] ++ kmsgs ls.
Proof. by destruct lbl. Qed.

Lemma krun_maps ls kv kv' :
  krun ls kv = Some kv' -> same_maps (applyAll kv (omap msg_op (kmsgs ls))) kv'.
Proof.
  revert kv. induction ls as [|lbl ls IH]; intros kv E; cbn [krun] in E; [by simplify_eq|].
  destruct (kstep lbl kv) as [[kv1|]|] eqn:Hs; [|done..].
  apply kstep_maps in Hs. apply IH in E. rewrite kmsgs_cons, omap_app.
  unfold applyAll in *. rewrite foldl_app.
  destruct (applyAll_same_maps (omap msg_op (kmsgs ls)) _ _ Hs) as [H1 H2].
  destruct E as [E1 E2]. unfold applyAll in *. split; congruence.
Qed.

(** The maps after the messages of a log are those after a prefix of the log. *)
Lemma stream_prefix kv ops ms :
  kv.(db) = ∅ -> kv.(lastAppliedRequestId) = ∅ -> raft_stream ops ms ->
  exists h, (h <= length ops)%nat /\ delivered_to ms (Z.of_nat h) /\
    (forall m, m ∈ ms -> m.(CommandIndex) <= Z.of_nat h) /\
    applyAll kv (omap msg_op ms) = applyAll kv (take h ops).
Proof.
  intros Hd Hl. induction ms as [|m ms IH] using rev_ind; intros [Ho Hm].
  { exists 0%nat. split; [lia|]. split; [intros j ?; lia|]. split; [|done].
    by intros m ?%not_elem_of_nil. }
  destruct IH as (h & Hh & Hdel & Hmax & Heq).
  { split; [|intros x Hx; apply Hm; apply elem_of_app; by left].
    intros ms1 x ms2 ->. apply (Ho ms1 x (ms2 ++ [m])). by rewrite <- app_assoc. }
  destruct (Hm m) as (Hv & Hpos & op & Hop & Hlog); [apply elem_of_app; right; by apply list_elem_of_singleton|].
  assert (Hk : m.(CommandIndex) - 1 <= Z.of_nat h).
  { destruct (decide (m.(CommandIndex) = 1)); [lia|].
    destruct (Ho ms m [] eq_refl (m.(CommandIndex) - 1)) as (x & Hx & Ex); [lia|].
    apply Hmax in Hx. lia. }
  assert (omap msg_op (ms ++ [m]) = omap msg_op ms ++ [op]) as ->.
  { rewrite omap_app. cbn. unfold msg_op at 2. by rewrite Hv, Hop. }
  unfold applyAll in *. rewrite foldl_app, Heq. cbn [foldl].
  destruct (applyAll_spec kv (take h ops) Hd Hl) as [Hlast _]. unfold applyAll in Hlast.
  destruct (decide (m.(CommandIndex) = Z.of_nat h + 1)) as [Hnew|Hold].
  - replace (Z.to_nat (m.(CommandIndex) - 1)) with h in Hlog by lia.
    apply lookup_lt_Some in Hlog as Hlt. exists (S h). split; [lia|]. split; [|split].
    + intros j Hj. destruct (decide (j = Z.of_nat h + 1)) as [->|].
      * exists m. by rewrite elem_of_app, list_elem_of_singleton; auto.
      * apply (delivered_to_app _ _ (Z.of_nat h)); [done|lia].
    + intros x [Hx%Hmax| ->%list_elem_of_singleton]%elem_of_app; lia.
    + by rewrite (take_S_r _ _ _ Hlog), foldl_app.
  - exists h. split; [done|]. split; [by apply delivered_to_app|]. split.
    + intros x [Hx%Hmax| ->%list_elem_of_singleton]%elem_of_app; lia.
    + apply (applyOp_absorbed (take h ops)); [done|].
      apply (list_elem_of_lookup_2 _ (Z.to_nat (m.(CommandIndex) - 1))).
      by rewrite lookup_take_lt by lia.
Qed.

Lemma executed_sublist seen ops : executed seen ops `sublist_of` ops.
Proof.
  revert seen. induction ops as [|op ops IH]; intros seen; cbn; [done|].
  case_decide; [by apply sublist_skip|by apply sublist_cons].
Qed.

Lemma orderly_take ops h : orderly ops -> orderly (take h ops).
Proof.
  intros Ho pre op post E. apply (Ho pre op (post ++ drop h ops)).
  by rewrite <- (take_drop h ops) at 1; rewrite E, <- app_assoc.
Qed.

(** C17. However the steps of its handlers and of its apply goroutine interleave,
    and with messages delivered more than once, the database of a server is the
    one the abstract service has after a prefix of the log: the prefix of all
    indexes delivered so far. *)
Theorem kv_refines_log me maxr ls ops kv :
  krun ls (StartKVServer me maxr) = Some kv -> raft_stream ops (kmsgs ls) ->
  exists h, (h <= length ops)%nat /\
    (forall k, 1 <= k <= Z.of_nat h <-> exists m, m ∈ kmsgs ls /\ m.(CommandIndex) = k) /\
    kv.(db) = spec_db (take h ops).
Proof.
  intros E Hs. apply krun_maps in E as [Ed _].
  destruct (stream_prefix (StartKVServer me maxr) ops (kmsgs ls)) as (h & Hh & Hdel & Hmax & Heq);
    [done..|]. exists h. split; [done|]. split.
  - intros k. split; [apply Hdel|]. intros (m & Hm & <-).
    split; [by apply (rs_log _ _ Hs)|by apply Hmax].
  - rewrite Ed, Heq. by apply applyAll_spec.
Qed.

(** C18. Exactly once: when the requests of each client reach the log in order,
    up to retries, the database is the result of executing, in log order, every
    request of the delivered prefix of the log exactly once, however often the
    request is in the log and however often it is delivered. *)
Theorem kv_exactly_once me maxr ls ops kv :
  krun ls (StartKVServer me maxr) = Some kv -> raft_stream ops (kmsgs ls) -> orderly ops ->
  exists h es, kv.(db) = exec_all ∅ es /\ es `sublist_of` take h ops /\
    (forall k, 1 <= k <= Z.of_nat h <-> exists m, m ∈ kmsgs ls /\ m.(CommandIndex) = k) /\
    NoDup (op_id <$> es) /\ (forall op, op ∈ take h ops -> op_id op ∈ op_id <$> es).
Proof.
  intros E Hs Ho. apply krun_maps in E as [Ed _].
  destruct (stream_prefix (StartKVServer me maxr) ops (kmsgs ls)) as (h & Hh & Hdel & Hmax & Heq);
    [done..|]. exists h, (executed [] (take h ops)). split; [|split; [|split; [|split]]].
  - rewrite Ed, Heq. by apply applyAll_spec.
  - apply executed_sublist.
  - intros k. split; [apply Hdel|]. intros (m & Hm & <-).
    split; [by apply (rs_log _ _ Hs)|by apply Hmax].
  - apply executed_NoDup.
  - intros op. by apply executed_all, orderly_take.
Qed.

(** ** Acknowledged requests *)

(** The server has executed the request, or a later one of the same client. *)
Definition served (kv : KVServer) (c r : Z) : Prop :=
  exists last, kv.(lastAppliedRequestId) !! c = Some last /\ r <= last.

Definition waiter_ok (kv : KVServer) (w : Waiter) : Prop :=
  match w with
  | WNotified _ _ n => served kv n.(nt_ClientId) n.(nt_RequestId)
  | WDone c false => served kv (call_op c).(op_ClientId) (call_op c).(op_RequestId)
  | _ => True
  end.

Definition reply_ok (kv : KVServer) (cr : Call * Reply) : Prop :=
  let op := call_op cr.1 in
  match cr.2 with
  | RGet r => r.(gr_WrongLeader) = false -> served kv op.(op_ClientId) op.(op_RequestId)
  | RPutAppend r => r.(par_WrongLeader) = false -> served kv op.(op_ClientId) op.(op_RequestId)
  end.

Record kv_inv (kv : KVServer) : Prop := {
  ki_chans : forall ch ns, kv.(chans) !! ch = Some ns -> (length ns <= 1)%nat /\
    forall n, n ∈ ns -> served kv n.(nt_ClientId) n.(nt_RequestId);
  ki_disp : forall i ch, kv.(dispatcher) !! i = Some ch -> (ch < length kv.(chans))%nat;
  ki_loop : forall ch n, kv.(aloop) = LSend ch n ->
    (ch < length kv.(chans))%nat /\ served kv n.(nt_ClientId) n.(nt_RequestId);
  ki_waiters : forall w, w ∈ kv.(waiters) -> waiter_ok kv w;
  ki_replies : forall cr, cr ∈ kv.(replies) -> reply_ok kv cr;
}.

Definition served_le (kv kv' : KVServer) : Prop := forall c r, served kv c r -> served kv' c r.

Lemma waiter_ok_mono kv kv' w : served_le kv kv' -> waiter_ok kv w -> waiter_ok kv' w.
Proof. intros Hs. destruct w as [| | |? []]; cbn; auto. Qed.

Lemma reply_ok_mono kv kv' cr : served_le kv kv' -> reply_ok kv cr -> reply_ok kv' cr.
Proof. intros Hs. destruct cr as [c []]; cbn; auto. Qed.

Lemma applyOp_served op kv :
  served_le kv (applyOp op kv) /\ served (applyOp op kv) op.(op_ClientId) op.(op_RequestId).
Proof.
  unfold applyOp. destruct (lastAppliedRequestId kv !! op_ClientId op) as [l|] eqn:E.
  - destruct (Z.ltb_spec l op.(op_RequestId)).
    + split; [|exists op.(op_RequestId); cbn; by rewrite lookup_insert_eq].
      intros c r (last & Hl & Hr). unfold served. cbn.
      destruct (decide (c = op.(op_ClientId))) as [->|].
      * rewrite lookup_insert_eq. simplify_eq. eexists. split; [done|lia].
      * rewrite lookup_insert_ne by done. eauto.
    + split; [by intros ??|]. by exists l.
  - split; [|exists op.(op_RequestId); cbn; by rewrite lookup_insert_eq].
    intros c r (last & Hl & Hr). unfold served. cbn.
    rewrite lookup_insert_ne by congruence. eauto.
Qed.

Lemma applyOp_frame op kv :
  let kv' := applyOp op kv in
  kv'.(chans) = kv.(chans) /\ kv'.(dispatcher) = kv.(dispatcher) /\ kv'.(aloop) = kv.(aloop) /\
  kv'.(waiters) = kv.(waiters) /\ kv'.(replies) = kv.(replies).
Proof. unfold applyOp. case_match; [case_match|]; done. Qed.

(** What a step may add to the channels, the waiters, the replies and the loop. *)
Lemma kv_inv_keep kv kv' :
  kv_inv kv -> served_le kv kv' -> (length kv.(chans) <= length kv'.(chans))%nat ->
  (forall ch ns, kv'.(chans) !! ch = Some ns -> kv.(chans) !! ch = Some ns \/ ns = [] \/
     exists n, ns = [n] /\ served kv' n.(nt_ClientId) n.(nt_RequestId)) ->
  (forall i ch, kv'.(dispatcher) !! i = Some ch -> kv.(dispatcher) !! i = Some ch \/
     (ch < length kv'.(chans))%nat) ->
  (forall ch n, kv'.(aloop) = LSend ch n -> kv.(aloop) = LSend ch n \/
     (ch < length kv'.(chans))%nat /\ served kv' n.(nt_ClientId) n.(nt_RequestId)) ->
  (forall w, w ∈ kv'.(waiters) -> w ∈ kv.(waiters) \/ waiter_ok kv' w) ->
  (forall cr, cr ∈ kv'.(replies) -> cr ∈ kv.(replies) \/ reply_ok kv' cr) ->
  kv_inv kv'.
Proof.
  intros Hi Hs Hlen Hc Hd Hl Hw Hr. split.
  - intros ch ns [Hn|[->|(n & -> & Hn)]]%Hc.
    + destruct (ki_chans _ Hi _ _ Hn). split; [done|]. eauto.
    + split; [cbn; lia|]. by intros n ?%not_elem_of_nil.
    + split; [done|]. by intros x ->%list_elem_of_singleton.
  - intros i ch [Hd'|?]%Hd; [|done]. apply (ki_disp _ Hi) in Hd'. lia.
  - intros ch n [Hl'|?]%Hl; [|done]. destruct (ki_loop _ Hi _ _ Hl'). split; [lia|]. auto.
  - intros w [?%(ki_waiters _ Hi)|?]%Hw; [|done]. by eapply waiter_ok_mono.
  - intros cr [?%(ki_replies _ Hi)|?]%Hr; [|done]. by eapply reply_ok_mono.
Qed.

Lemma elem_of_insert_waiters (l : list Waiter) k x w : w ∈ <[k := x]> l -> w ∈ l \/ w = x.
Proof.
  intros [i Hi]%list_elem_of_lookup.
  apply list_lookup_insert_Some in Hi as [(_ & -> & _)|[_ Hi]]; [by right|left].
  by eapply list_elem_of_lookup_2.
Qed.

Lemma kv_inv_step lbl kv kv' : kv_inv kv -> kstep lbl kv = Some (Ret kv') -> kv_inv kv'.
Proof.
  intros Hi E. destruct lbl as [c index isL|k|k|k|k|k|msg|]; cbn in E.
  1: { simplify_eq. apply (kv_inv_keep kv); auto; [by intros ??|].
       cbn. intros w [?| ->%list_elem_of_singleton]%elem_of_app; [by left|right]. by destruct isL. }
  1-5: destruct (waiters kv !! k) as [[c i|c i ch|c i nt|c wl]|] eqn:Hk; try done;
    pose proof (ki_waiters _ Hi _ (list_elem_of_lookup_2 _ _ _ Hk)) as Hok.
  - unfold register in E. destruct (dispatcher kv !! i) as [ch|] eqn:Hd; simplify_eq.
    + apply (kv_inv_keep kv); auto; [by intros ??|].
      cbn. intros w [?| ->]%elem_of_insert_waiters; [by left|by right].
    + apply (kv_inv_keep kv); auto; [by intros ??|cbn; rewrite length_app; lia| | |].
      * cbn. intros ch ns [?|[_ ?]]%lookup_app_Some; [by left|right; left].
        by apply list_lookup_singleton_Some in H as [_ <-].
      * cbn. rewrite length_app. cbn. intros j ch [[<- <-]|[_ ?]]%lookup_insert_Some; [right; lia|by left].
      * cbn. intros w [?| ->]%elem_of_insert_waiters; [by left|by right].
  - destruct (chans kv !! ch) as [[|nt ns]|] eqn:Hch; simplify_eq.
    destruct (ki_chans _ Hi _ _ Hch) as [Hlen Hserved].
    apply (kv_inv_keep kv); auto; [by intros ??|cbn; by rewrite length_insert| |].
    + cbn. intros ch' ns' [(<- & <- & _)|[_ ?]]%list_lookup_insert_Some; [right; left|by left].
      destruct ns; [done|cbn in Hlen; lia].
    + cbn. intros w [?| ->]%elem_of_insert_waiters; [by left|right].
      cbn. apply Hserved. by left.
  - simplify_eq. apply (kv_inv_keep kv); auto; [by intros ??|].
    cbn. intros w [?| ->]%elem_of_insert_waiters; [by left|by right].
  - simplify_eq. apply (kv_inv_keep kv); auto; [by intros ??| |].
    + cbn. intros j ch [_ ?]%lookup_delete_Some. by left.
    + cbn. intros w [?| ->]%elem_of_insert_waiters; [by left|right]. cbn in *.
      destruct (Z.eqb_spec nt.(nt_ClientId) (call_op c).(op_ClientId)) as [<-|]; cbn; [|done].
      by destruct (Z.eqb_spec nt.(nt_RequestId) (call_op c).(op_RequestId)) as [<-|].
  - simplify_eq. apply (kv_inv_keep kv); auto; [by intros ??| |].
    + cbn. intros w ?%elem_of_delete. by left.
    + cbn. intros cr [?| ->%list_elem_of_singleton]%elem_of_app; [by left|right].
      unfold reply_ok. destruct c, wl; cbn in *; try done. by destruct (db kv !! _).
  - destruct (aloop kv) eqn:Hl; [|done]. unfold applyMsg in E.
    destruct (CommandValid msg); cbn in *; [|by simplify_eq].
    destruct (am_Command msg) as [op|]; [|done].
    destruct (applyOp_frame op kv) as (Ec & Ed & Ea & Ew & Er).
    destruct (applyOp_served op kv) as [Hle Hop].
    rewrite Ed in E. destruct (dispatcher kv !! _) as [ch|] eqn:Hd; simplify_eq;
      (apply (kv_inv_keep kv); cbn; rewrite ?Ec, ?Ed, ?Ea, ?Ew, ?Er; auto).
    intros ch' n [= <- <-]. right. split; [by eapply ki_disp|done].
  - destruct (aloop kv) as [|ch nt] eqn:Hl; [done|].
    destruct (chans kv !! ch) as [[|? ?]|] eqn:Hch; simplify_eq.
    destruct (ki_loop _ Hi _ _ Hl) as [_ Hs].
    apply (kv_inv_keep kv); auto; [by intros ??|cbn; by rewrite length_insert| |done].
    cbn. intros ch' ns' [(<- & <- & _)|[_ ?]]%list_lookup_insert_Some; [right; right|by left].
    by exists nt.
Qed.

Lemma start_kv_inv me maxr : kv_inv (StartKVServer me maxr).
Proof.
  split; cbn.
  - intros ch ns Hn. by rewrite lookup_nil in Hn.
  - intros i ch Hn. by rewrite lookup_empty in Hn.
  - done.
  - by intros w ?%not_elem_of_nil.
  - by intros w ?%not_elem_of_nil.
Qed.

Lemma kreachable_inv me maxr kv : kreachable me maxr kv -> kv_inv kv.
Proof. induction 1 as [|lbl kv kv' _ IH Hs]; [apply start_kv_inv|by eapply kv_inv_step]. Qed.

(** A handler that answers without WrongLeader answers a request the server
    has executed (or that a later request of the same client replaced), in every
    interleaving of the handlers with the apply goroutine. *)
Theorem kv_ack_is_served me maxr kv c reply :
  kreachable me maxr kv -> (c, reply) ∈ kv.(replies) ->
  match reply with
  | RGet r => r.(gr_WrongLeader) = false
  | RPutAppend r => r.(par_WrongLeader) = false
  end ->
  served kv (call_op c).(op_ClientId) (call_op c).(op_RequestId).
Proof.
  intros Hr%kreachable_inv Hin Hw. pose proof (ki_replies _ Hr _ Hin) as Hok.
  destruct reply; by apply Hok.
Qed.

(** No channel ever holds more than one notification, and the apply goroutine
    only sends on channels that exist. *)
Theorem kv_channels_bounded me maxr kv :
  kreachable me maxr kv ->
  (forall ch ns, kv.(chans) !! ch = Some ns -> (length ns <= 1)%nat) /\
  (forall ch n, kv.(aloop) = LSend ch n -> is_Some (kv.(chans) !! ch)).
Proof.
  intros Hr%kreachable_inv. split.
  - intros ch ns Hn. by destruct (ki_chans _ Hr _ _ Hn).
  - intros ch n Hl. apply lookup_lt_is_Some. by destruct (ki_loop _ Hr _ _ Hl).
Qed.
