(* ===== verification/KVTraces.v ===== *)
(** * KVTraces: runs of the key/value service

    The witnesses of the theorems of KVTheory.v, and a run in which the apply
    goroutine blocks for ever. *)

From S2P Require Import Prelude Gob Raft Apply KVServer KVTheory.
From stdpp Require Import strings.
Local Open Scope Z_scope.

(** ** A blocked apply goroutine *)

(** The goroutine is sending on a full channel [ch] that only [index] leads to
    and nobody reads. *)
Record stuck (index : Z) (ch : nat) (kv : KVServer) : Prop := {
  st_loop : exists n, kv.(aloop) = LSend ch n;
  st_full : exists n, kv.(chans) !! ch = Some [n];
  st_disp : forall i, kv.(dispatcher) !! i = Some ch -> i = index;
  st_wait : forall w, w ∈ kv.(waiters) ->
    match w with
    | WStarted _ i => i <> index
    | WWaiting _ _ ch' => ch' <> ch
    | _ => True
    end;
}.

Lemma stuck_step index ch lbl kv kv' :
  stuck index ch kv -> (forall c isL, lbl <> KStart c index isL) ->
  kstep lbl kv = Some (Ret kv') -> stuck index ch kv' /\ kmsgs [lbl] = [].
Proof.
  intros [[n Hl] [x Hf] Hd Hw] Hlbl E. destruct lbl as [c i isL|k|k|k|k|k|msg|]; cbn in E.
  1: { simplify_eq. split; [|done]. split; eauto. cbn.
       intros w [?%Hw| ->%list_elem_of_singleton]%elem_of_app; [done|].
       destruct isL; [|done]. intros ->. by destruct (Hlbl c true). }
  1-5: destruct (waiters kv !! k) as [[c i|c i ch'|c i nt|c wl]|] eqn:Hk; try done;
    pose proof (Hw _ (list_elem_of_lookup_2 _ _ _ Hk)) as Hok; cbn in Hok.
  - unfold register in E. destruct (dispatcher kv !! i) as [ch'|] eqn:Hi; simplify_eq;
      (split; [|done]).
    + split; eauto. cbn. intros w [?%Hw| ->]%elem_of_insert_waiters; [done|]. intros ->. auto.
    + apply lookup_lt_Some in Hf as Hlt. split; cbn; eauto.
      * exists x. by rewrite lookup_app_l.
      * intros j [[_ ?]|[_ ?]]%lookup_insert_Some; [lia|auto].
      * intros w [?%Hw| ->]%elem_of_insert_waiters; [done|lia].
  - destruct (chans kv !! ch') as [[|nt ns]|]; simplify_eq. split; [|done]. split; cbn; eauto.
    + exists x. by rewrite list_lookup_insert_ne.
    + by intros w [?%Hw| ->]%elem_of_insert_waiters.
  - simplify_eq. split; [|done]. split; eauto. cbn. by intros w [?%Hw| ->]%elem_of_insert_waiters.
  - simplify_eq. split; [|done]. split; cbn; eauto.
    + intros j [_ ?]%lookup_delete_Some. auto.
    + by intros w [?%Hw| ->]%elem_of_insert_waiters.
  - simplify_eq. split; [|done]. split; eauto. cbn. intros w Hin%elem_of_delete. by apply Hw.
  - by rewrite Hl in E.
  - by rewrite Hl, Hf in E.
Qed.

Lemma stuck_run index ch ls kv kv' :
  stuck index ch kv -> (forall c isL, KStart c index isL ∉ ls) ->
  krun ls kv = Some kv' -> kmsgs ls = [].
Proof.
  revert kv. induction ls as [|lbl ls IH]; intros kv Hs Hn E; [done|]. cbn [krun] in E.
  destruct (kstep lbl kv) as [[kv1|]|] eqn:Hk; [|done..].
  apply (stuck_step index ch) in Hk as [Hs1 Hm]; [|done|].
  - rewrite kmsgs_cons, Hm. eapply IH; [done| |done].
    intros c isL Hin. apply (Hn c isL). by right.
  - intros c isL ->. apply (Hn c isL). by left.
Qed.

Definition put (k v : string) (client req : Z) : Call :=
  CPutAppend {| pa_Key := k; pa_Value := v; pa_Op := "Put"; pa_ClientId := client; pa_RequestId := req |}.
Definition append (k v : string) (client req : Z) : Call :=
  CPutAppend {| pa_Key := k; pa_Value := v; pa_Op := "Append"; pa_ClientId := client; pa_RequestId := req |}.
Definition get (k : string) (client req : Z) : Call :=
  CGet {| ga_Key := k; ga_ClientId := client; ga_RequestId := req |}.
Definition msg (i : Z) (op : Op) : ApplyMsg Op :=
  {| CommandValid := true; am_Command := Some op; CommandIndex := i |}.

(** ** Streams, decided *)

Fixpoint in_order (hi : Z) (ms : list (ApplyMsg Op)) : bool :=
  match ms with
  | [] => true
  | m :: ms => (m.(CommandIndex) <=? hi + 1) && in_order (Z.max hi m.(CommandIndex)) ms
  end.

Lemma in_order_no_gaps ms : in_order 0 ms = true -> no_gaps ms.
Proof.
  assert (H : forall pre hi, delivered_to pre hi -> in_order hi ms = true ->
            forall ms1 m ms2, ms = ms1 ++ m :: ms2 ->
            delivered_to (pre ++ ms1) (m.(CommandIndex) - 1)).
  { induction ms as [|x ms IH]; intros pre hi Hd E ms1 m ms2 Heq; [by destruct ms1|].
    cbn in E. apply andb_true_iff in E as [Hx E]. apply Z.leb_le in Hx.
    destruct ms1 as [|y ms1]; simplify_eq/=.
    - rewrite app_nil_r. intros j Hj. apply Hd. lia.
    - rewrite cons_middle, app_assoc. eapply IH; [|done|done].
      intros j Hj. destruct (decide (j = y.(CommandIndex))) as [->|].
      + exists y. by rewrite elem_of_app, list_elem_of_singleton; auto.
      + apply (delivered_to_app _ _ hi); [done|lia]. }
  intros E ms1 m ms2. apply (H [] 0); [intros j ?; lia|done].
Qed.

Definition from_log (ops : list Op) (m : ApplyMsg Op) : bool :=
  m.(CommandValid) && (1 <=? m.(CommandIndex)) &&
  match m.(am_Command), ops !! Z.to_nat (m.(CommandIndex) - 1) with
  | Some op, Some op' => bool_decide (op = op')
  | _, _ => false
  end.

Lemma stream_decided ops ms :
  in_order 0 ms = true -> forallb (from_log ops) ms = true -> raft_stream ops ms.
Proof.
  intros Ho Hl. split; [by apply in_order_no_gaps|]. intros m Hm.
  rewrite forallb_forall in Hl. apply list_elem_of_In, Hl in Hm. unfold from_log in Hm.
  apply andb_true_iff in Hm as [[Hv Hi%Z.leb_le]%andb_true_iff Hc].
  destruct (am_Command m) as [op|]; [|done]. destruct (ops !! _) as [op'|] eqn:E; [|done].
  apply bool_decide_eq_true in Hc as ->. split; [done|]. split; [done|]. by exists op'.
Qed.

Definition op1 : Op := call_op (put "k" "x" 5 1).

(** A handler times out before its index is delivered, and the index is
    delivered twice. *)
Definition block_run : list KLabel :=
  [KStart (put "k" "x" 5 1) 1 true; KRegister 0; KTimeout 0; KFinish 0;
   KApply (msg 1 op1); KSend; KApply (msg 1 op1)].

(** The apply goroutine can block for ever: a handler that times out leaves
    its channel in the dispatcher, the first delivery of its index fills the
    channel, and a second delivery of the same index blocks.  No later step of
    the server takes another message, unless Start hands out that index again. *)
Theorem kv_apply_can_block :
  exists kv, krun block_run (StartKVServer 0 (-1)) = Some kv /\
    raft_stream [op1] (kmsgs block_run) /\
    forall ls kv', (forall c isL, KStart c 1 isL ∉ ls) -> krun ls kv = Some kv' -> kmsgs ls = [].
Proof.
  eexists. split; [vm_compute; reflexivity|]. split.
  - by apply stream_decided.
  - intros ls kv'. apply (stuck_run 1 0). split; cbn.
    + eexists. reflexivity.
    + eexists. reflexivity.
    + intros i Hi. destruct (decide (i = 1)) as [->|Hne]; [done|]. exfalso. revert Hi.
      change (({[1 := 0%nat]} : gmap Z nat) !! i = Some 0%nat -> False).
      by rewrite lookup_singleton_ne.
    + by intros w ?%not_elem_of_nil.
Qed.

(** ** A run with a retry *)

(** A client puts and appends; the append is retried and is in the log twice,
    the put is delivered twice, and a second client reads. *)
Definition op2 : Op := call_op (append "k" "y" 5 2).
Definition op3 : Op := call_op (get "k" 6 1).
Definition retry_log : list Op := [op1; op2; op2; op3].

Definition retry_run : list KLabel :=
  [KStart (put "k" "x" 5 1) 1 true; KRegister 0; KApply (msg 1 op1); KSend; KNotify 0;
   KDelete 0; KFinish 0; KApply (msg 1 op1);
   KStart (append "k" "y" 5 2) 2 true; KApply (msg 2 op2); KRegister 0; KTimeout 0; KFinish 0;
   KStart (append "k" "y" 5 2) 3 true; KRegister 0; KApply (msg 3 op2); KSend; KNotify 0;
   KDelete 0; KFinish 0;
   KStart (get "k" 6 1) 4 true; KRegister 0; KApply (msg 4 op3); KSend; KNotify 0; KDelete 0;
   KFinish 0].

Definition retry_end : KVServer :=
  default (StartKVServer 0 (-1)) (krun retry_run (StartKVServer 0 (-1))).

Lemma retry_ends : krun retry_run (StartKVServer 0 (-1)) = Some retry_end.
Proof. vm_compute. reflexivity. Qed.

Lemma retry_stream : raft_stream retry_log (kmsgs retry_run).
Proof. by apply stream_decided. Qed.

Lemma retry_reachable : kreachable 0 (-1) retry_end.
Proof. eapply krun_reachable; [apply kreach_start|apply retry_ends]. Qed.

(** The value the read of [retry_run] returns: the append is executed once. *)
Example retry_reads :
  last retry_end.(replies)
  = Some (get "k" 6 1, RGet {| gr_WrongLeader := false; gr_Err := ""; gr_Value := "xy" |}).
Proof. vm_compute. reflexivity. Qed.

Lemma kv_refines_log_witness :
  exists h, (h <= 4)%nat /\
    (forall k, 1 <= k <= Z.of_nat h <-> exists m, m ∈ kmsgs retry_run /\ m.(CommandIndex) = k) /\
    retry_end.(db) = spec_db (take h retry_log).
Proof.
  destruct (kv_refines_log 0 (-1) retry_run retry_log retry_end retry_ends retry_stream)
    as (h & Hh & Hk & Hd).
  exists h. split; [exact Hh|]. split; [exact Hk|exact Hd].
Defined.

Lemma retry_orderly : orderly retry_log.
Proof.
  unfold retry_log. intros pre op post E.
  destruct pre as [|a [|b [|c [|d [|]]]]]; simplify_eq/=; try (by right; repeat constructor);
    try (left; by repeat (first [left; reflexivity|right])).
Qed.

Lemma kv_exactly_once_witness :
  exists h es, retry_end.(db) = exec_all ∅ es /\ es `sublist_of` take h retry_log /\
    NoDup (op_id <$> es) /\ (forall op, op ∈ take h retry_log -> op_id op ∈ op_id <$> es).
Proof.
  destruct (kv_exactly_once 0 (-1) retry_run retry_log retry_end retry_ends retry_stream
              retry_orderly) as (h & es & Hd & Hs & _ & Hn & Ha).
  exists h, es. split; [exact Hd|]. split; [exact Hs|]. split; [exact Hn|exact Ha].
Defined.

Lemma kv_ack_is_served_witness : served retry_end 6 1.
Proof.
  apply (kv_ack_is_served 0 (-1) retry_end (get "k" 6 1)
           (RGet {| gr_WrongLeader := false; gr_Err := ""; gr_Value := "xy" |}) retry_reachable).
  - apply (list_elem_of_lookup_2 _ 3%nat). vm_compute. reflexivity.
  - reflexivity.
Defined.

Lemma kv_channels_bounded_witness :
  (forall ch ns, retry_end.(chans) !! ch = Some ns -> (length ns <= 1)%nat) /\
  (forall ch n, retry_end.(aloop) = LSend ch n -> is_Some (retry_end.(chans) !! ch)).
Proof. apply (kv_channels_bounded 0 (-1) retry_end retry_reachable). Defined.
