(* ===== verification/Clerk.v ===== *)
(** * Clerk: the client of the key/value service (src/kvraft/client.go)

    What the network and the servers answer is an oracle: the answer to the
    [t]-th RPC of the clerk, [None] when [Call] returns false.  The theorems
    show that a clerk returns once some server keeps answering, that every retry
    carries the request id of the first attempt, and that the requests a clerk
    sends are orderly in the sense of KVTheory.v. *)

From S2P Require Import Prelude Gob Raft KVServer KVTheory.
From stdpp Require Import strings.
Local Open Scope Z_scope.

Record Clerk := mkClerk {
  servers : nat;       (* len(ck.servers) *)
  clientId : Z;
  leaderId : nat;
  lastRequestId : Z;
}.

(** [nrand]: [rand.Int(rand.Reader, 1<<62)], the [x] is what it drew. *)
Definition nrand (x : Z) : Z := x mod 2 ^ 62.

Definition MakeClerk (servers : nat) (x : Z) : Clerk :=
  {| servers := servers; clientId := nrand x; leaderId := 0; lastRequestId := 0 |}.

Definition set_leaderId (v : nat) (ck : Clerk) : Clerk :=
  mkClerk ck.(servers) ck.(clientId) v ck.(lastRequestId).
Definition set_lastRequestId (v : Z) (ck : Clerk) : Clerk :=
  mkClerk ck.(servers) ck.(clientId) ck.(leaderId) v.

Section retry.
Context {A R : Type} (Call : nat -> nat -> A -> option R) (WrongLeader : R -> bool).

(** The for loop of [Get] and of [PutAppend]: [t] RPCs have been made before
    and [sent] is what the loop sent; [None] when [fuel] RPCs did not do. *)
Fixpoint retry (fuel t : nat) (args : A) (ck : Clerk) (sent : list (nat * A))
    : res (option (Clerk * R * list (nat * A))) :=
  match fuel with
  | O => Ret None
  | S fuel =>
      if (ck.(leaderId) <? ck.(servers))%nat
      then
        let sent := sent ++ [(ck.(leaderId), args)] in
        match Call t ck.(leaderId) args with
        | Some reply =>
            if WrongLeader reply
            then retry fuel (S t) args
                   (set_leaderId ((ck.(leaderId) + 1) mod ck.(servers))%nat ck) sent
            else Ret (Some (ck, reply, sent))
        | None =>
            retry fuel (S t) args
              (set_leaderId ((ck.(leaderId) + 1) mod ck.(servers))%nat ck) sent
        end
      else Panic
  end.

(** What a loop that returns did: the clerk differs in [leaderId] only, every
    RPC had the same arguments, and the last one was answered. *)
Lemma retry_inv fuel t args ck sent ck' r sent' :
  retry fuel t args ck sent = Ret (Some (ck', r, sent')) ->
  WrongLeader r = false /\
  (exists l, ck' = set_leaderId l ck) /\
  exists ss, sent' = sent ++ ss /\ ss <> [] /\ Forall (fun x => x.2 = args) ss.
Proof.
  revert t ck sent. induction fuel as [|fuel IH]; intros t ck sent E; cbn [retry] in E; [done|].
  destruct (Nat.ltb_spec ck.(leaderId) ck.(servers)); [|done].
  assert (Hrec : forall l, retry fuel (S t) args (set_leaderId l ck)
            (sent ++ [(leaderId ck, args)]) = Ret (Some (ck', r, sent')) ->
     WrongLeader r = false /\ (exists l, ck' = set_leaderId l ck) /\
     exists ss, sent' = sent ++ ss /\ ss <> [] /\ Forall (fun x => x.2 = args) ss).
  { intros l E'. apply IH in E' as (Hw & [l' ->] & ss & -> & _ & Hss). split; [done|].
    split; [by exists l'|]. exists ((leaderId ck, args) :: ss). rewrite <- app_assoc.
    split; [done|]. split; [done|]. by constructor. }
  destruct (Call t (leaderId ck) args) as [reply|]; [|by eapply Hrec].
  destruct (WrongLeader reply) eqn:Hw; [by eapply Hrec|]. inv_res. split; [done|].
  split; [exists ck'.(leaderId); by destruct ck'|].
  exists [(leaderId ck', args)]. split; [done|]. split; [done|]. by constructor.
Qed.

Lemma next_in_range ck :
  (ck.(leaderId) < ck.(servers))%nat ->
  ((ck.(leaderId) + 1) mod ck.(servers) < ck.(servers))%nat.
Proof. intros. apply Nat.mod_upper_bound. lia. Qed.

Lemma retry_range fuel t args ck sent ck' r sent' :
  (ck.(leaderId) < ck.(servers))%nat ->
  retry fuel t args ck sent = Ret (Some (ck', r, sent')) -> (ck'.(leaderId) < ck'.(servers))%nat.
Proof.
  revert t ck sent. induction fuel as [|fuel IH]; intros t ck sent Hl E; cbn [retry] in E; [done|].
  rewrite (proj2 (Nat.ltb_lt _ _) Hl) in E. apply next_in_range in Hl as Hn.
  destruct (Call t (leaderId ck) args) as [rp|]; [destruct (WrongLeader rp)|];
    [by eapply IH in E|by inv_res|by eapply IH in E].
Qed.

(** How far [leaderId] is before [l] in the order the loop tries servers. *)
Definition before (ck : Clerk) (l : nat) : nat :=
  if (ck.(leaderId) <=? l)%nat then l - ck.(leaderId) else (ck.(servers) - ck.(leaderId)) + l.

Lemma before_next ck l :
  (ck.(leaderId) < ck.(servers))%nat -> (l < ck.(servers))%nat -> ck.(leaderId) <> l ->
  let ck' := set_leaderId ((ck.(leaderId) + 1) mod ck.(servers))%nat ck in
  (ck'.(leaderId) < ck'.(servers))%nat /\ S (before ck' l) = before ck l.
Proof.
  intros H1 H2 Hne. cbn. unfold before. cbn.
  destruct (decide (ck.(leaderId) + 1 = ck.(servers))%nat) as [E|E].
  - rewrite E, Nat.Div0.mod_same. split; [lia|]. cbn.
    destruct (Nat.leb_spec ck.(leaderId) l); lia.
  - rewrite Nat.mod_small by lia. split; [lia|].
    destruct (Nat.leb_spec (ck.(leaderId) + 1) l), (Nat.leb_spec ck.(leaderId) l); lia.
Qed.

(** From RPC [T] on server [l] answers without WrongLeader. *)
Definition answers (T l : nat) (args : A) : Prop :=
  forall t, (T <= t)%nat -> exists r, Call t l args = Some r /\ WrongLeader r = false.

Lemma retry_settled fuel T l args ck t sent :
  answers T l args -> (T <= t)%nat -> (ck.(leaderId) < ck.(servers))%nat -> (l < ck.(servers))%nat ->
  (before ck l < fuel)%nat ->
  exists o, retry fuel t args ck sent = Ret (Some o).
Proof.
  intros Ha. revert t ck sent. induction fuel as [|fuel IH]; intros t ck sent Ht Hl Hs Hf; [lia|].
  cbn [retry]. rewrite (proj2 (Nat.ltb_lt _ _) Hl).
  destruct (decide (ck.(leaderId) = l)) as [E|E].
  - rewrite E. destruct (Ha t Ht) as (r & -> & ->). by eexists.
  - destruct (before_next ck l Hl Hs E) as [Hl' Hb].
    assert (exists o, retry fuel (S t) args
      (set_leaderId ((leaderId ck + 1) mod servers ck)%nat ck) (sent ++ [(leaderId ck, args)])
      = Ret (Some o)) as [o Ho] by (apply IH; [lia|done|done|lia]).
    destruct (Call t (leaderId ck) args) as [r|]; [destruct (WrongLeader r)|]; eauto.
Qed.

Lemma before_lt ck l : (ck.(leaderId) < ck.(servers))%nat -> (l < ck.(servers))%nat ->
  (before ck l < ck.(servers))%nat.
Proof. intros. unfold before. destruct (Nat.leb_spec ck.(leaderId) l); lia. Qed.

Lemma retry_returns T l args ck t sent :
  answers T l args -> (ck.(leaderId) < ck.(servers))%nat -> (l < ck.(servers))%nat ->
  exists o, retry (T - t + ck.(servers)) t args ck sent = Ret (Some o).
Proof.
  intros Ha. remember (T - t)%nat as d eqn:Hd. revert t Hd ck sent.
  induction d as [|d IH]; intros t Hd ck sent Hl Hs.
  - eapply (retry_settled _ T l); [done|lia|done|done|]. cbn. by apply before_lt.
  - cbn [retry Nat.add]. rewrite (proj2 (Nat.ltb_lt _ _) Hl).
    assert (exists o, retry (d + servers ck) (S t) args
      (set_leaderId ((leaderId ck + 1) mod servers ck)%nat ck) (sent ++ [(leaderId ck, args)])
      = Ret (Some o)) as [o Ho].
    { apply (IH (S t) ltac:(lia) (set_leaderId _ ck)); [cbn; by apply next_in_range|done]. }
    destruct (Call t (leaderId ck) args) as [r|]; [destruct (WrongLeader r)|]; eauto.
Qed.
End retry.

(** ** [Get] and [PutAppend] *)

Section clerk.
Context (CallGet : nat -> nat -> GetArgs -> option GetReply)
        (CallPutAppend : nat -> nat -> PutAppendArgs -> option PutAppendReply).

Definition get_args (ck : Clerk) (key : string) : GetArgs :=
  {| ga_Key := key; ga_ClientId := ck.(clientId); ga_RequestId := ck.(lastRequestId) + 1 |}.

Definition putappend_args (ck : Clerk) (key value op : string) : PutAppendArgs :=
  {| pa_Key := key; pa_Value := value; pa_Op := op;
     pa_ClientId := ck.(clientId); pa_RequestId := ck.(lastRequestId) + 1 |}.

(** The clerk, the value and the RPCs sent; [t] RPCs were made before. *)
Definition Get (fuel t : nat) (ck : Clerk) (key : string)
    : res (option (Clerk * string * list (nat * GetArgs))) :=
  let requestId := ck.(lastRequestId) + 1 in
  o ← retry CallGet gr_WrongLeader fuel t (get_args ck key) ck [];
  Ret (match o with
       | Some (ck, reply, sent) => Some (set_lastRequestId requestId ck, reply.(gr_Value), sent)
       | None => None
       end).

Definition PutAppend (fuel t : nat) (ck : Clerk) (key value op : string)
    : res (option (Clerk * list (nat * PutAppendArgs))) :=
  let requestId := ck.(lastRequestId) + 1 in
  o ← retry CallPutAppend par_WrongLeader fuel t (putappend_args ck key value op) ck [];
  Ret (match o with
       | Some (ck, reply, sent) => Some (set_lastRequestId requestId ck, sent)
       | None => None
       end).

Definition Put (fuel t : nat) (ck : Clerk) (key value : string) := PutAppend fuel t ck key value "Put".
Definition Append (fuel t : nat) (ck : Clerk) (key value : string) := PutAppend fuel t ck key value "Append".

(** Get returns: if from the [T]-th RPC on some server answers every time
    without WrongLeader, the loop needs at most [T - t] failed RPCs and then at
    most one round over the servers, whatever the others answer. *)
Theorem clerk_get_returns T l ck t key :
  (ck.(leaderId) < ck.(servers))%nat -> (l < ck.(servers))%nat ->
  answers CallGet gr_WrongLeader T l (get_args ck key) ->
  exists ck' v sent, Get (T - t + ck.(servers)) t ck key = Ret (Some (ck', v, sent)) /\
    (ck'.(leaderId) < ck'.(servers))%nat.
Proof.
  intros Hl Hs Ha. unfold Get.
  destruct (retry_returns CallGet gr_WrongLeader T l (get_args ck key) ck t [] Ha Hl Hs)
    as [[[ck' r] sent] E].
  rewrite E. cbn. do 3 eexists. split; [done|]. by apply retry_range in E.
Qed.

(** ** A session *)

Inductive Request := ReqGet (key : string) | ReqPutAppend (key value op : string).

(** The operations the servers get from the RPCs of one request. *)
Definition request (fuel t : nat) (ck : Clerk) (r : Request) : res (option (Clerk * list Op)) :=
  match r with
  | ReqGet key =>
      o ← Get fuel t ck key;
      Ret (match o with
           | Some (ck, _, sent) => Some (ck, map (fun x => call_op (CGet x.2)) sent)
           | None => None
           end)
  | ReqPutAppend key value op =>
      o ← PutAppend fuel t ck key value op;
      Ret (match o with
           | Some (ck, sent) => Some (ck, map (fun x => call_op (CPutAppend x.2)) sent)
           | None => None
           end)
  end.

(** The requests of a clerk, one after the other, and all operations sent. *)
Fixpoint session (fuel t : nat) (ck : Clerk) (rs : list Request) : res (option (Clerk * list Op)) :=
  match rs with
  | [] => Ret (Some (ck, []))
  | r :: rs =>
      o ← request fuel t ck r;
      match o with
      | None => Ret None
      | Some (ck, ops) =>
          o ← session fuel (t + length ops) ck rs;
          Ret (match o with
               | None => None
               | Some (ck, ops') => Some (ck, ops ++ ops')
               end)
      end
  end.

Lemma request_inv fuel t ck r ck' ops :
  request fuel t ck r = Ret (Some (ck', ops)) ->
  ck'.(lastRequestId) = ck.(lastRequestId) + 1 /\ ck'.(clientId) = ck.(clientId) /\
  exists op, op_id op = (ck.(clientId), ck.(lastRequestId) + 1) /\ ops <> [] /\
    Forall (fun o => o = op) ops.
Proof.
  assert (Hmap : forall (X : Type) (f : X -> Op) (args : X) (ss : list (nat * X)),
    ss <> [] -> Forall (fun x => x.2 = args) ss ->
    map (fun x => f x.2) ss <> [] /\ Forall (fun o => o = f args) (map (fun x => f x.2) ss)).
  { intros X f args ss Hne Hss. split; [by destruct ss|]. apply Forall_map.
    eapply Forall_impl; [done|]. intros x Hx. cbn in *. by rewrite Hx. }
  destruct r as [key|key value op]; unfold request, Get, PutAppend; intros E.
  - destruct (retry _ _ _ _ (get_args ck key) _ _) as [[[[ck1 rp] sent]|]|] eqn:Er; try done.
    cbn in E. simplify_eq. apply retry_inv in Er as (_ & [l ->] & ss & -> & Hne & Hss).
    split; [done|]. split; [done|].
    exists (call_op (CGet (get_args ck key))). split; [done|].
    by apply (Hmap _ (fun a => call_op (CGet a))).
  - destruct (retry _ _ _ _ (putappend_args ck key value op) _ _) as [[[[ck1 rp] sent]|]|] eqn:Er;
      try done.
    cbn in E. simplify_eq. apply retry_inv in Er as (_ & [l ->] & ss & -> & Hne & Hss).
    split; [done|]. split; [done|].
    exists (call_op (CPutAppend (putappend_args ck key value op))). split; [done|].
    by apply (Hmap _ (fun a => call_op (CPutAppend a))).
Qed.

(** Operations of one client whose request ids are in [lo, hi]. *)
Definition ids_within (c lo hi : Z) (ops : list Op) : Prop :=
  Forall (fun op => op.(op_ClientId) = c /\ lo < op.(op_RequestId) <= hi) ops.

Lemma orderly_app_later c lo ops1 ops2 :
  orderly ops1 -> orderly ops2 -> ids_within c lo (lo + 1) ops1 ->
  Forall (fun op => lo + 1 < op.(op_RequestId)) ops2 -> orderly (ops1 ++ ops2).
Proof.
  intros H1 H2 W1 W2 pre op post E. apply app_eq_inv in E as [(l & -> & E)|(l & -> & E)].
  - destruct l as [|x l].
    + rewrite app_nil_r in *. cbn in E. subst. right. apply Forall_forall. intros x Hx _.
      eapply Forall_forall in W1 as [_ ?]; [|done]. inversion W2; subst. lia.
    + cbn in E. simplify_eq. by eapply H1.
  - destruct (H2 _ _ _ E) as [Hin|Hn]; [left|right].
    + rewrite fmap_app. apply elem_of_app. by right.
    + apply Forall_app. split; [|done]. apply Forall_forall. intros x Hx _.
      eapply Forall_forall in W1 as [_ ?]; [|done].
      rewrite E in W2. apply Forall_app in W2 as [_ W2]. inversion W2; subst. lia.
Qed.

Lemma orderly_same op ops : Forall (fun o => o = op) ops -> orderly ops.
Proof.
  intros Hf [|x pre] o post ->; [right; constructor|left].
  inversion Hf as [|? ? -> Hf']; subst. apply Forall_app in Hf' as [_ Hf'].
  inversion Hf'; subst. by left.
Qed.

Lemma session_inv fuel t ck rs ck' ops :
  session fuel t ck rs = Ret (Some (ck', ops)) ->
  ck'.(lastRequestId) = ck.(lastRequestId) + Z.of_nat (length rs) /\
  ids_within ck.(clientId) ck.(lastRequestId) ck'.(lastRequestId) ops /\ orderly ops.
Proof.
  revert t ck ops. induction rs as [|r rs IH]; intros t ck ops E; cbn [session] in E.
  { simplify_eq. cbn. split; [lia|]. split; [constructor|]. intros [] ? ? ?; done. }
  destruct (request fuel t ck r) as [[[ck1 ops1]|]|] eqn:Er; try done. cbn in E.
  destruct (session fuel (t + length ops1) ck1 rs) as [[[ck2 ops2]|]|] eqn:Es; try done.
  cbn in E. simplify_eq. apply IH in Es as (El & Hw & Ho).
  apply request_inv in Er as (El1 & Ec1 & op & Hid & Hne & Hall). rewrite Ec1, El1 in Hw.
  unfold op_id in Hid. injection Hid as Hc Hr.
  assert (W1 : ids_within ck.(clientId) ck.(lastRequestId) (ck.(lastRequestId) + 1) ops1).
  { eapply Forall_impl; [done|]. intros x ->. split; [done|lia]. }
  cbn [length]. split; [lia|]. split.
  - apply Forall_app. split.
    + eapply Forall_impl; [exact W1|]. intros x [? ?]. split; [done|lia].
    + eapply Forall_impl; [exact Hw|]. intros x [? ?]. split; [done|lia].
  - eapply orderly_app_later; [by eapply orderly_same|done|exact W1|].
    eapply Forall_impl; [exact Hw|]. intros x [? ?]. lia.
Qed.

(** The operations a clerk sends over a session, retries included, are
    orderly: a request is sent for the first time only after every request with
    a smaller id, all retries of a request carry its id, and the ids are
    consecutive.  This is what the exactly-once theorem of KVTheory.v asks of
    each client. *)
Theorem clerk_session_orderly fuel t ck rs ck' ops :
  session fuel t ck rs = Ret (Some (ck', ops)) ->
  orderly ops /\ ck'.(lastRequestId) = ck.(lastRequestId) + Z.of_nat (length rs) /\
  forall op, op ∈ ops -> op.(op_ClientId) = ck.(clientId) /\
    ck.(lastRequestId) < op.(op_RequestId) <= ck'.(lastRequestId).
Proof.
  intros E. apply session_inv in E as (El & Hw & Ho). split; [done|]. split; [done|].
  intros op Hin. by eapply Forall_forall in Hw.
Qed.
End clerk.

(** ** A clerk that finds the leader *)

(** Server 1 leads from the third RPC on; server 0 does not answer. *)
Definition demo_get (t l : nat) (args : GetArgs) : option GetReply :=
  match l with
  | 0%nat => None
  | 1%nat => Some {| gr_WrongLeader := (t <? 2)%nat; gr_Err := ""; gr_Value := "v" |}
  | _ => Some {| gr_WrongLeader := true; gr_Err := ""; gr_Value := "" |}
  end.

Definition demo_put (t l : nat) (args : PutAppendArgs) : option PutAppendReply :=
  match l with
  | 0%nat => None
  | 1%nat => Some {| par_WrongLeader := (t <? 2)%nat; par_Err := "" |}
  | _ => Some {| par_WrongLeader := true; par_Err := "" |}
  end.

Lemma clerk_get_returns_witness :
  exists ck' v sent, Get demo_get 5 0 (MakeClerk 3 9) "k" = Ret (Some (ck', v, sent)) /\
    (ck'.(leaderId) < ck'.(servers))%nat.
Proof.
  apply (clerk_get_returns demo_get 2 1 (MakeClerk 3 9) 0 "k"); [cbn; lia|cbn; lia|].
  intros t Ht. eexists. split; [reflexivity|]. apply Nat.ltb_ge. exact Ht.
Defined.

Definition demo_session : list Request := [ReqPutAppend "k" "x" "Put"; ReqGet "k"].

Definition demo_ops : list Op :=
  match session demo_get demo_put 9 0 (MakeClerk 3 9) demo_session with
  | Ret (Some (_, ops)) => ops
  | _ => []
  end.

Lemma clerk_session_orderly_witness : length demo_ops = 6%nat /\ orderly demo_ops.
Proof.
  split; [vm_compute; reflexivity|].
  apply (clerk_session_orderly demo_get demo_put 9 0 (MakeClerk 3 9) demo_session
           {| servers := 3; clientId := 9; leaderId := 1; lastRequestId := 2 |} demo_ops).
  vm_compute. reflexivity.
Defined.
