(* ===== verification/KvConfig.v ===== *)
(** * KvConfig: the tester of the key/value service on its servers

    The servers of src/kvraft/config.go are pairs of a [KVServer] (KVServer.v) and
    its Raft peer; the tester is that of SvcConfig.v.  The theorems on the tester
    are applied to three key/value servers and two clerks, and two runs show
    where the code is not what it means to be. *)

From stdpp Require Import strings.
From S2P Require Import Prelude Gob Raft KVServer LabRpc LabRpcTheory ConfigBase.
From S2P Require Import Testbed TestbedTheory SvcConfig SvcTheory SvcSteps SvcMain.
Local Open Scope Z_scope.

(** The methods of [*KVServer] that reflection sees. *)
Definition kv_methods : list Method :=
  [{| m_Name := "Get"; m_PkgPath := ""; m_In := [KPtr; KPtr; KPtr]; m_NumOut := 0 |};
   {| m_Name := "Kill"; m_PkgPath := ""; m_In := [KPtr]; m_NumOut := 0 |};
   {| m_Name := "PutAppend"; m_PkgPath := ""; m_In := [KPtr; KPtr; KPtr]; m_NumOut := 0 |}].

Section kv.
Context `{!Gob (PVal Op)} `{!Rand} `{!CryptoRand}.

(** The [n] servers of a test that was given [maxraftstate]. *)
Definition kv_server (maxraftstate : Z) : TestServer Op (KVServer * Raft Op) := {|
  start_server := fun n me ps => (StartKVServer (Z.of_nat me) maxraftstate, Make n (Z.of_nat me) ps);
  raft_of := snd;
  services_of := [MakeService "KVServer" kv_methods; MakeService "Raft" raft_methods];
  start_persister := fun n me ps => Make_persister n (Z.of_nat me) ps;
|}.

Definition kv_make_config (n : nat) (unreliable : bool) (maxraftstate : Z)
    : res (config (KVServer * Raft Op)) :=
  make_config (TestServer0 := kv_server maxraftstate) n unreliable.
End kv.

(** ** A concrete test *)

Global Instance Op_countable : Countable Op.
Proof.
  apply (inj_countable' (fun o => (o.(op_Key), o.(op_Value), o.(op_Name), o.(op_ClientId), o.(op_RequestId)))
           (fun '(k, v, m, c, r) => Build_Op k v m c r)).
  by intros [].
Defined.
Global Instance OpEntry_eq_dec : EqDecision (LogEntry Op).
Proof. solve_decision. Defined.
Global Instance OpEntry_countable : Countable (LogEntry Op).
Proof.
  apply (inj_countable' (fun e => (e.(le_Command), e.(le_Term)))
           (fun p => {| le_Command := p.1; le_Term := p.2 |})).
  by intros [].
Defined.
Global Instance OpPVal_eq_dec : EqDecision (PVal Op).
Proof. solve_decision. Defined.
Global Instance OpPVal_countable : Countable (PVal Op).
Proof.
  apply (inj_countable' (fun v => match v with PInt z => inl z | PLogs l => inr l end)
           (fun s => match s with inl z => PInt z | inr l => PLogs l end)).
  by intros [].
Defined.

#[local] Instance op_gob : Gob (PVal Op) := countable_gob.
#[local] Program Instance zero_rand : Rand := {| Int63n := fun _ _ => 0 |}.
Next Obligation. intros. lia. Qed.
#[local] Program Instance byte_rand : CryptoRand :=
  {| crand_Read := fun k n => replicate n (default Byte.x00 (Byte.of_N (N.of_nat k))) |}.
Next Obligation. intros. apply length_replicate. Qed.
#[local] Instance kv_server0 : TestServer Op (KVServer * Raft Op) := kv_server (-1).

Definition no_config : config (KVServer * Raft Op) := mkConfig (empty_bed 0) ∅ 0 0 0 0.

Definition kv3 : config (KVServer * Raft Op) := value no_config (kv_make_config 3 false (-1)).
Lemma kv3_made : make_config 3 false = Ret kv3.
Proof. apply value_Ret. vm_compute. reflexivity. Qed.
Lemma kv3_reach : svc_reach 3 kv3.
Proof. exact (sr_make false kv3 kv3_made). Qed.

(** A clerk connected to servers 0 and 2. *)
Definition draw0 (i : nat) : Z := 0.
Definition client3 := makeClient [0; 2] draw0 kv3.
Definition kv3_clerk : config (KVServer * Raft Op) := (value (0%nat, [], no_config) client3).2.
Definition kv3_handles : list Name := (value (0%nat, [], no_config) client3).1.2.

Lemma client3_made : client3 = Ret (0%nat, kv3_handles, kv3_clerk).
Proof.
  assert (client3 = Ret (value (0%nat, [], no_config) client3)) as E
    by (apply value_Ret; vm_compute; reflexivity).
  rewrite E. unfold kv3_clerk, kv3_handles.
  assert ((value (0%nat, [], no_config) client3).1.1 = 0%nat) as H1 by (vm_compute; reflexivity).
  destruct (value (0%nat, [], no_config) client3) as [[ck hs] c]. cbn in *. by subst.
Qed.
Lemma kv3_clerk_reach : svc_reach 3 kv3_clerk.
Proof. exact (sr_step kv3 kv3_clerk kv3_reach (st_client _ _ _ _ _ _ client3_made)). Qed.

Lemma svc_ends_apart_witness :
  exists e, name_at kv3_clerk.(bed) 0 2 = Some e /\
    connection kv3_clerk.(bed).(bnet) e = Some (NInt (Z.of_nat 2)).
Proof.
  apply (proj1 (svc_ends_apart 3 kv3_clerk kv3_clerk_reach) 0%nat 2%nat); lia.
Defined.

Lemma makeClient_reaches_witness :
  exists l, kv3_clerk.(clerks) !! 0%nat = Some l /\ kv3_handles ≡ₚ l /\ length l = 3%nat.
Proof.
  refine (proj1 (proj2 (makeClient_reaches 3 [0; 2] draw0 0 kv3_handles kv3 kv3_clerk kv3_reach _ _ client3_made))).
  - repeat constructor; lia.
  - intros i. unfold draw0. lia.
Defined.

Lemma partition_separates_witness :
  exists cfg', partition [1] [0; 2] kv3_clerk = Ret cfg' /\
    forall i j e, name_at kv3_clerk.(bed) i j = Some e -> across [1] [0; 2] i j ->
      is_enabled cfg'.(bed).(bnet) e = false.
Proof.
  destruct (partition_separates 3 [1] [0; 2] kv3_clerk kv3_clerk_reach) as (cfg' & E & _ & _ & Ha & _).
  - repeat constructor; lia.
  - repeat constructor; lia.
  - apply NoDup_singleton.
  - repeat constructor; [|by intros ?%not_elem_of_nil]. intros ?%list_elem_of_singleton. lia.
  - intros x ->%list_elem_of_singleton [?|[?|?%not_elem_of_nil]%elem_of_cons]%elem_of_cons; lia || done.
  - exact (ex_intro _ cfg' (conj E Ha)).
Defined.

(** Server 1 is shut down and started. *)
Definition kv3_down := value no_config (ShutdownServer (Z.of_nat 1) kv3).
Definition kv3_up := value no_config (StartServer (Z.of_nat 1) kv3_down).
Definition kv_peer1 : KVServer * Raft Op * nat :=
  default (StartKVServer 0 0, Make 3 0 MakePersister, 0%nat) (kv3.(bed).(insts) !! 1%nat).
Lemma kv3_shut : ShutdownServer (Z.of_nat 1) kv3 = Ret kv3_down.
Proof. apply value_Ret. vm_compute. reflexivity. Qed.
Lemma kv3_started : StartServer (Z.of_nat 1) kv3_down = Ret kv3_up.
Proof. apply value_Ret. vm_compute. reflexivity. Qed.
Lemma kv3_server1 : kv3.(bed).(bservers) !! 1%nat = Some (Some 1%nat).
Proof. vm_compute. reflexivity. Qed.
Lemma kv3_inst1 : kv3.(bed).(insts) !! 1%nat = Some (kv_peer1.1, kv_peer1.2).
Proof.
  unfold kv_peer1. destruct (insts (bed kv3) !! 1%nat) as [[rf p]|] eqn:E; [done|].
  exfalso. apply lookup_ge_None in E. vm_compute in E. lia.
Qed.

Lemma shutdown_then_start_witness :
  exists r' p', r' <> 1%nat /\ kv3_up.(bed).(bservers) !! 1%nat = Some (Some r') /\
    kv3_up.(bed).(insts) !! r' = Some (start_server 3 1 (raft_of kv_peer1.1).(persister), p') /\
    saved_state kv3_up.(bed) 1 = Some (raft_of kv_peer1.1).(persister) /\
    forall f, saved_state (exec 1 f kv3_up.(bed)) 1 = saved_state kv3_up.(bed) 1.
Proof.
  exact (proj2 (proj2 (shutdown_then_start 3 1 1 kv_peer1.1 kv_peer1.2 kv3 kv3_down kv3_down kv3_up
    kv3_reach (le_S 2 2 (le_n 2)) kv3_server1 kv3_inst1 kv3_shut (rtc_refl _ kv3_down) kv3_started))).
Defined.

Lemma kv3_leader : Leader kv3 = Ret (false, Z.of_nat 0).
Proof. vm_compute. reflexivity. Qed.

Lemma leader_in_minority_witness :
  exists p1 p2 cfg', make_partition kv3 = Ret (p1, p2) /\ partition p1 p2 kv3 = Ret cfg' /\
    Z.of_nat 0 ∈ p2.
Proof.
  destruct (leader_in_minority 1 false 0 kv3 kv3_reach (le_n 1) kv3_leader)
    as (p1 & p2 & cfg' & E1 & E2 & _ & _ & H & _).
  exact (ex_intro _ p1 (ex_intro _ p2 (ex_intro _ cfg' (conj E1 (conj E2 H))))).
Defined.

(** ** Even numbers of servers *)

(** With four servers the smaller array of [make_partition] keeps a zero: server 0 is
    on both sides when another server leads (here no server leads, and 0 is taken
    for the leader, twice in the minority). *)
Definition kv4 : config (KVServer * Raft Op) := value no_config (kv_make_config 4 false (-1)).

Lemma make_partition_even : make_partition kv4 = Ret ([1; 2; 3], [0; 0]).
Proof. vm_compute. reflexivity. Qed.

(** With one server it panics. *)
Definition kv1 : config (KVServer * Raft Op) := value no_config (kv_make_config 1 false (-1)).

Lemma make_partition_one : make_partition kv1 = Panic.
Proof. vm_compute. reflexivity. Qed.

(** ** A server that was never started *)

(** When server 0 has no names yet, detaching server 1 from server 2 leaves the
    end from 2 to 1 enabled: the loop asks for the names of server 0. *)
Definition half_started : config (KVServer * Raft Op) :=
  set_bed (set_endnames (<[0%nat := None]> kv3.(bed).(endnames)) kv3.(bed).(bdraws) kv3.(bed)) kv3.

Lemma disconnect_wrong_row :
  let cfg' := value no_config (disconnect 1 [2] half_started) in
  match name_at cfg'.(bed) 2 1 with
  | Some e => is_enabled cfg'.(bed).(bnet) e = true
  | None => False
  end.
Proof. vm_compute. reflexivity. Qed.
