(* ===== verification/Bitset.v ===== *)
(** * Bitset: sets of small integers (src/linearizability/bitset.go)

    A bitset is a list of 64-bit words.  The popcount by word-parallel sums
    equals the number of bits that are set; [set], [clear] and [get] are the
    operations of a set of positions, and [equals] with [hash] identify sets. *)

From S2P Require Import Prelude.
Local Open Scope Z_scope.

(** A [uint64] is a [Z] in [0, 2^64). *)
Definition w64 (x : Z) : Z := x mod 2 ^ 64.

Notation bitset := (list Z).

Definition newBitset (bits : Z) : bitset :=
  let extra := if negb (bits mod 64 =? 0) then 1 else 0 in
  replicate (Z.to_nat (bits / 64 + extra)) 0.

Definition bitset_clone (b : bitset) : bitset := b.

Definition bitsetIndex (pos : Z) : Z * Z := (pos / 64, pos mod 64).

(** [b[major] |= 1 << minor], [b[major] &^= 1 << minor]. *)
Definition bitset_set (b : bitset) (pos : Z) : res bitset :=
  let '(major, minor) := bitsetIndex pos in
  v ← idx b major;
  upd b major (Z.lor v (w64 (Z.shiftl 1 minor))).

Definition bitset_clear (b : bitset) (pos : Z) : res bitset :=
  let '(major, minor) := bitsetIndex pos in
  v ← idx b major;
  upd b major (Z.ldiff v (w64 (Z.shiftl 1 minor))).

Definition bitset_get (b : bitset) (pos : Z) : res bool :=
  let '(major, minor) := bitsetIndex pos in
  v ← idx b major;
  Ret (negb (Z.land v (w64 (Z.shiftl 1 minor)) =? 0)).

(** One word of the loop of [popcnt]. *)
Definition popcnt_word (v : Z) : Z :=
  let v := w64 (Z.land v 0x5555555555555555 + Z.shiftr (Z.land v 0xAAAAAAAAAAAAAAAA) 1) in
  let v := w64 (Z.land v 0x3333333333333333 + Z.shiftr (Z.land v 0xCCCCCCCCCCCCCCCC) 2) in
  let v := w64 (Z.land v 0x0F0F0F0F0F0F0F0F + Z.shiftr (Z.land v 0xF0F0F0F0F0F0F0F0) 4) in
  let v := w64 (v * 0x0101010101010101) in
  Z.land (Z.shiftr v 56) 0xFF.

Definition popcnt (b : bitset) : Z := foldl (fun total v => w64 (total + popcnt_word v)) 0 b.

Definition bitset_hash (b : bitset) : Z := foldl Z.lxor (popcnt b) b.

(** The range loop of [equals], after the test of the lengths. *)
Fixpoint equals_from (b b2 : bitset) : bool :=
  match b, b2 with
  | [], _ => true
  | x :: b, y :: b2 => if negb (x =? y) then false else equals_from b b2
  | _ :: _, [] => false
  end.

Definition bitset_equals (b b2 : bitset) : bool :=
  if negb (length b =? length b2)%nat then false else equals_from b b2.

(** ** Popcount *)

(** The number of bits set below [n]. *)
Fixpoint bits_set (n : nat) (v : Z) : Z :=
  match n with
  | O => 0
  | S n => Z.b2z (Z.odd v) + bits_set n (Z.div2 v)
  end.

(** Words as [n] fields of [k] bits: the sum of [f] of the fields, each put
    back at its place. *)
Fixpoint fields (k : Z) (n : nat) (f : Z -> Z) (v : Z) : Z :=
  match n with
  | O => 0
  | S n => f (v mod 2 ^ k) + 2 ^ k * fields k n f (v / 2 ^ k)
  end.

(** A mask with [m] in every field. *)
Fixpoint mask (k : Z) (n : nat) (m : Z) : Z :=
  match n with
  | O => 0
  | S n => m + 2 ^ k * mask k n m
  end.

Lemma testbit_field k d v i :
  0 < k -> 0 <= d < 2 ^ k -> 0 <= i ->
  Z.testbit (d + 2 ^ k * v) i = if i <? k then Z.testbit d i else Z.testbit v (i - k).
Proof.
  intros Hk Hd Hi. destruct (Z.ltb_spec i k).
  - rewrite <- (Z.mod_pow2_bits_low (d + 2 ^ k * v) k i) by lia.
    rewrite (Z.mul_comm (2 ^ k)), Z.mod_add, Z.mod_small by lia. done.
  - replace v with ((d + 2 ^ k * v) / 2 ^ k) at 2.
    + rewrite Z.div_pow2_bits by lia. f_equal. lia.
    + rewrite (Z.mul_comm (2 ^ k)), Z.div_add, Z.div_small by lia. lia.
Qed.

Lemma land_range d m k : 0 <= k -> 0 <= d < 2 ^ k -> 0 <= m -> 0 <= Z.land d m < 2 ^ k.
Proof.
  intros Hk Hd Hm. split; [apply Z.land_nonneg; lia|].
  destruct (decide (Z.land d m = 0)) as [->|Hne]; [lia|].
  assert (0 <= Z.land d m) by (apply Z.land_nonneg; lia).
  apply Z.log2_lt_pow2; [lia|]. pose proof (Z.log2_land d m ltac:(lia) ltac:(lia)).
  assert (Z.log2 d < k); [|lia].
  destruct (decide (d = 0)) as [->|]; [by rewrite Z.land_0_l in Hne|].
  apply Z.log2_lt_pow2; lia.
Qed.

Lemma land_fields k d m v w :
  0 < k -> 0 <= d < 2 ^ k -> 0 <= m < 2 ^ k ->
  Z.land (d + 2 ^ k * v) (m + 2 ^ k * w) = Z.land d m + 2 ^ k * Z.land v w.
Proof.
  intros Hk Hd Hm. apply Z.bits_inj'. intros i Hi.
  rewrite Z.land_spec, !testbit_field by (auto; apply land_range; lia).
  destruct (i <? k); by rewrite Z.land_spec.
Qed.

(** One stage of the popcount adds the two halves of every field of [2j] bits. *)
Definition halves (j d : Z) : Z := d mod 2 ^ j + d / 2 ^ j.

Lemma pow2_pos k : 0 <= k -> 0 < 2 ^ k.
Proof. intros. apply Z.pow_pos_nonneg; lia. Qed.

Lemma pow2_twice j : 0 < j -> 2 ^ (2 * j) = 2 ^ j * 2 ^ j.
Proof. intros. rewrite <- Z.pow_add_r by lia. f_equal. lia. Qed.

Lemma ones_range j : 0 < j -> 0 <= Z.ones j < 2 ^ (2 * j).
Proof.
  intros Hj. rewrite Z.ones_equiv, pow2_twice by done. pose proof (pow2_pos j ltac:(lia)). nia.
Qed.

Lemma low_half j v : 0 < j -> (v mod 2 ^ (2 * j)) mod 2 ^ j = v mod 2 ^ j.
Proof. intros. rewrite pow2_twice by done. apply Z.mod_mod_divide. by exists (2 ^ j). Qed.

Lemma high_half j v : 0 < j -> v mod 2 ^ (2 * j) / 2 ^ j = (v / 2 ^ j) mod 2 ^ j.
Proof.
  intros Hj. pose proof (pow2_pos j ltac:(lia)). rewrite pow2_twice by done.
  rewrite Z.rem_mul_r by lia. rewrite (Z.mul_comm (2 ^ j)), Z.div_add by lia.
  rewrite (Z.div_small (v mod 2 ^ j)) by (apply Z.mod_pos_bound; lia). lia.
Qed.

Lemma stage_fields j n v :
  0 < j -> 0 <= v ->
  Z.land v (mask (2 * j) n (Z.ones j)) + Z.land (v / 2 ^ j) (mask (2 * j) n (Z.ones j))
  = fields (2 * j) n (halves j) v.
Proof.
  intros Hj. revert v. induction n as [|n IH]; intros v Hv; [cbn; by rewrite !Z.land_0_r|].
  pose proof (pow2_pos j ltac:(lia)) as P1. pose proof (pow2_pos (2 * j) ltac:(lia)) as P2.
  assert (Hsplit : forall x, 0 <= x -> Z.land x (mask (2 * j) (S n) (Z.ones j))
     = x mod 2 ^ j + 2 ^ (2 * j) * Z.land (x / 2 ^ (2 * j)) (mask (2 * j) n (Z.ones j))).
  { intros x Hx. cbn [mask]. rewrite (Z.div_mod x (2 ^ (2 * j))) at 1 by lia.
    rewrite Z.add_comm, land_fields; [|lia|apply Z.mod_pos_bound; lia|by apply ones_range].
    f_equal. rewrite Z.land_ones by lia. by apply low_half. }
  rewrite !Hsplit by (try apply Z.div_pos; lia). cbn [fields].
  rewrite <- IH by (apply Z.div_pos; lia). unfold halves.
  rewrite low_half, high_half by lia.
  rewrite !Z.div_div by lia. rewrite (Z.mul_comm (2 ^ j) (2 ^ (2 * j))). ring.
Qed.

(** The sum of the fields of a word. *)
Definition fsum (k : Z) (n : nat) (v : Z) : Z := (fix go n v :=
  match n with O => 0 | S n => v mod 2 ^ k + go n (v / 2 ^ k) end) n v.

Lemma fsum_S k n v : fsum k (S n) v = v mod 2 ^ k + fsum k n (v / 2 ^ k).
Proof. done. Qed.

Lemma fields_range k n f v :
  0 <= k -> (forall d, 0 <= d < 2 ^ k -> 0 <= f d < 2 ^ k) ->
  0 <= fields k n f v < 2 ^ (k * Z.of_nat n).
Proof.
  intros Hk Hf. revert v. induction n as [|n IH]; intros v; cbn [fields].
  - rewrite Z.mul_0_r. cbn. lia.
  - pose proof (pow2_pos k Hk). specialize (IH (v / 2 ^ k)).
    specialize (Hf (v mod 2 ^ k) ltac:(apply Z.mod_pos_bound; lia)).
    replace (k * Z.of_nat (S n)) with (k + k * Z.of_nat n) by lia. rewrite Z.pow_add_r by lia. nia.
Qed.

Lemma fsum_fields k n f v :
  0 <= k -> (forall d, 0 <= d < 2 ^ k -> 0 <= f d < 2 ^ k) ->
  fsum k n (fields k n f v) = (fix go n v :=
    match n with O => 0 | S n => f (v mod 2 ^ k) + go n (v / 2 ^ k) end) n v.
Proof.
  intros Hk Hf. pose proof (pow2_pos k Hk). revert v. induction n as [|n IH]; intros v; [done|].
  rewrite fsum_S. cbn [fields].
  specialize (Hf (v mod 2 ^ k) ltac:(apply Z.mod_pos_bound; lia)).
  rewrite (Z.mul_comm (2 ^ k)), Z.mod_add, Z.div_add, Z.mod_small, (Z.div_small (f _)) by lia.
  by rewrite Z.add_0_l, IH.
Qed.

Lemma halves_range j d : 0 < j -> 0 <= d < 2 ^ (2 * j) -> 0 <= halves j d < 2 ^ (2 * j).
Proof.
  intros Hj Hd. unfold halves. rewrite pow2_twice in * by done.
  pose proof (pow2_pos j ltac:(lia)).
  assert (2 <= 2 ^ j). { change 2 with (2 ^ 1) at 1. apply Z.pow_le_mono_r; lia. }
  pose proof (Z.mod_pos_bound d (2 ^ j) ltac:(lia)).
  assert (d / 2 ^ j < 2 ^ j) by (apply Z.div_lt_upper_bound; lia).
  pose proof (Z.div_pos d (2 ^ j)). nia.
Qed.

(** A stage keeps the sum of the fields, in half as many fields. *)
Lemma stage_fsum j n v :
  0 < j -> 0 <= v ->
  fsum (2 * j) n (fields (2 * j) n (halves j) v) = fsum j (2 * n) v.
Proof.
  intros Hj Hv. rewrite fsum_fields by (lia || (intros; by apply halves_range)).
  pose proof (pow2_pos j ltac:(lia)).
  revert v Hv. induction n as [|n IH]; intros v Hv; [done|].
  replace (2 * S n)%nat with (S (S (2 * n))) by lia. rewrite !fsum_S.
  rewrite IH by (apply Z.div_pos; [lia|apply pow2_pos; lia]).
  unfold halves. rewrite Z.div_div by lia. rewrite <- pow2_twice by done.
  rewrite low_half, high_half by lia. lia.
Qed.

(** The stage as the code writes it, for a mask of [n] fields. *)
Lemma stage_word j n v lo hi :
  0 < j -> 0 <= v -> 2 * j * Z.of_nat n = 64 ->
  lo = mask (2 * j) n (Z.ones j) -> hi = Z.shiftl lo j ->
  w64 (Z.land v lo + Z.shiftr (Z.land v hi) j) = fields (2 * j) n (halves j) v.
Proof.
  intros Hj Hv Hn -> ->. rewrite Z.shiftr_land, Z.shiftr_shiftl_l by lia.
  rewrite Z.sub_diag, Z.shiftl_0_r, Z.shiftr_div_pow2, stage_fields by lia.
  apply Z.mod_small. rewrite <- Hn. apply fields_range; [lia|]. intros. by apply halves_range.
Qed.

Lemma fsum_bits n v : fsum 1 n v = bits_set n v.
Proof.
  revert v. induction n as [|n IH]; intros v; [done|]. rewrite fsum_S, IH. cbn [bits_set].
  rewrite Z.div2_div, Zmod_odd. by destruct (Z.odd v).
Qed.

Lemma bits_set_range n v : 0 <= bits_set n v <= Z.of_nat n.
Proof.
  revert v. induction n as [|n IH]; intros v; cbn [bits_set]; [lia|].
  specialize (IH (Z.div2 v)). destruct (Z.odd v); cbn; lia.
Qed.

(** A word and its eight bytes. *)
Lemma word_bytes v :
  0 <= v < 2 ^ 64 ->
  exists b0 b1 b2 b3 b4 b5 b6 b7,
    (0 <= b0 /\ 0 <= b1 /\ 0 <= b2 /\ 0 <= b3 /\ 0 <= b4 /\ 0 <= b5 /\ 0 <= b6 /\ 0 <= b7) /\
    v = b0 + 256 * (b1 + 256 * (b2 + 256 * (b3 + 256 * (b4 + 256 * (b5 + 256 * (b6 + 256 * b7)))))) /\
    fsum 8 8 v = b0 + b1 + b2 + b3 + b4 + b5 + b6 + b7.
Proof.
  intros Hv.
  assert (Hd : forall x, x = x mod 256 + 256 * (x / 256) /\ 0 <= x mod 256 < 256).
  { intros x. pose proof (Z.div_mod x 256 ltac:(lia)). pose proof (Z.mod_pos_bound x 256). lia. }
  change (2 ^ 64) with 18446744073709551616 in Hv.
  destruct (Hd v) as [E0 B0]. set (v1 := v / 256) in *.
  destruct (Hd v1) as [E1 B1]. set (v2 := v1 / 256) in *.
  destruct (Hd v2) as [E2 B2]. set (v3 := v2 / 256) in *.
  destruct (Hd v3) as [E3 B3]. set (v4 := v3 / 256) in *.
  destruct (Hd v4) as [E4 B4]. set (v5 := v4 / 256) in *.
  destruct (Hd v5) as [E5 B5]. set (v6 := v5 / 256) in *.
  destruct (Hd v6) as [E6 B6]. set (v7 := v6 / 256) in *.
  assert (fsum 8 8 v = v mod 256 + (v1 mod 256 + (v2 mod 256 + (v3 mod 256 + (v4 mod 256
    + (v5 mod 256 + (v6 mod 256 + (v7 mod 256 + 0)))))))) as -> by reflexivity.
  clearbody v1 v2 v3 v4 v5 v6 v7.
  exists (v mod 256), (v1 mod 256), (v2 mod 256), (v3 mod 256), (v4 mod 256), (v5 mod 256),
    (v6 mod 256), v7. rewrite (Z.mod_small v7) by lia. lia.
Qed.

(** Multiplying by 0x0101010101010101 puts the sum of the bytes on top. *)
Lemma sum_bytes v :
  0 <= v < 2 ^ 64 -> fsum 8 8 v < 256 ->
  Z.land (Z.shiftr (w64 (v * 0x0101010101010101)) 56) 0xFF = fsum 8 8 v.
Proof.
  intros Hv Hs. destruct (word_bytes v Hv)
    as (b0 & b1 & b2 & b3 & b4 & b5 & b6 & b7 & Hb & Ev & Es). rewrite Es in *.
  unfold w64. rewrite Z.shiftr_div_pow2 by lia.
  change 255 with (Z.ones 8). rewrite Z.land_ones by lia.
  change (2 ^ 64) with 18446744073709551616. change (2 ^ 56) with 72057594037927936.
  change (2 ^ 8) with 256.
  set (lo := b0 + 256 * (b0 + b1) + 65536 * (b0 + b1 + b2) + 16777216 * (b0 + b1 + b2 + b3)
     + 4294967296 * (b0 + b1 + b2 + b3 + b4) + 1099511627776 * (b0 + b1 + b2 + b3 + b4 + b5)
     + 281474976710656 * (b0 + b1 + b2 + b3 + b4 + b5 + b6)).
  set (sum := b0 + b1 + b2 + b3 + b4 + b5 + b6 + b7) in *.
  set (hi := b1 + b2 + b3 + b4 + b5 + b6 + b7 + 256 * (b2 + b3 + b4 + b5 + b6 + b7)
     + 65536 * (b3 + b4 + b5 + b6 + b7) + 16777216 * (b4 + b5 + b6 + b7)
     + 4294967296 * (b5 + b6 + b7) + 1099511627776 * (b6 + b7) + 281474976710656 * b7).
  assert (v * 72340172838076673
          = (lo + sum * 72057594037927936) + hi * 18446744073709551616) as ->
    by (subst lo sum hi; lia).
  assert (0 <= lo < 72057594037927936) by (subst lo sum; lia).
  assert (0 <= sum) by (subst sum; lia). clearbody lo sum hi.
  rewrite Z.mod_add by lia. rewrite (Z.mod_small (lo + _)) by lia.
  rewrite Z.div_add, (Z.div_small lo) by lia. by apply Z.mod_small.
Qed.

Lemma popcnt_word_spec v : 0 <= v < 2 ^ 64 -> popcnt_word v = bits_set 64 v.
Proof.
  intros Hv. unfold popcnt_word.
  rewrite (stage_word 1 32 v) by (reflexivity || lia).
  set (v1 := fields _ _ _ v). assert (0 <= v1 < 2 ^ 64) as H1.
  { apply (fields_range 2 32); [lia|]. intros. by apply (halves_range 1). }
  rewrite (stage_word 2 16 v1) by (reflexivity || lia).
  set (v2 := fields _ _ _ v1). assert (0 <= v2 < 2 ^ 64) as H2.
  { apply (fields_range 4 16); [lia|]. intros. by apply (halves_range 2). }
  rewrite (stage_word 4 8 v2) by (reflexivity || lia).
  set (v3 := fields _ _ _ v2). assert (0 <= v3 < 2 ^ 64) as H3.
  { apply (fields_range 8 8); [lia|]. intros. by apply (halves_range 4). }
  assert (fsum 8 8 v3 = bits_set 64 v) as E.
  { subst v3. rewrite (stage_fsum 4 8) by lia. subst v2. rewrite (stage_fsum 2 16) by lia.
    subst v1. rewrite (stage_fsum 1 32) by lia. apply fsum_bits. }
  pose proof (bits_set_range 64 v). rewrite sum_bytes by lia. done.
Qed.

(** ** Sets of positions *)

Definition bits_wf (b : bitset) : Prop := Forall (fun v => 0 <= v < 2 ^ 64) b.

(** Is position [pos] in the set? *)
Definition test (b : bitset) (pos : Z) : bool :=
  match b !! Z.to_nat (pos / 64) with
  | Some v => Z.testbit v (pos mod 64)
  | None => false
  end.

Lemma shiftl_1 m : 0 <= m < 64 -> w64 (Z.shiftl 1 m) = 2 ^ m.
Proof.
  intros Hm. unfold w64. rewrite Z.shiftl_1_l. apply Z.mod_small.
  split; [apply Z.pow_nonneg; lia|apply Z.pow_lt_mono_r; lia].
Qed.

Lemma word_ext x y :
  0 <= x < 2 ^ 64 -> 0 <= y < 2 ^ 64 ->
  (forall i, 0 <= i < 64 -> Z.testbit x i = Z.testbit y i) -> x = y.
Proof.
  intros Hx Hy He. rewrite <- (Z.mod_small x (2 ^ 64)), <- (Z.mod_small y (2 ^ 64)) by done.
  apply Z.bits_inj'. intros i Hi. destruct (Z_lt_le_dec i 64).
  - rewrite !Z.mod_pow2_bits_low by lia. apply He. lia.
  - by rewrite !Z.mod_pow2_bits_high by lia.
Qed.

(** A word from its bits: bounded when no bit above 63 is set. *)
Lemma word_range x : 0 <= x -> (forall i, 64 <= i -> Z.testbit x i = false) -> 0 <= x < 2 ^ 64.
Proof.
  intros Hx Hb. split; [done|]. rewrite <- (Z.mod_small x (2 ^ 64)); [apply Z.mod_pos_bound; lia|].
  assert (x = x mod 2 ^ 64) as ->; [|apply Z.mod_pos_bound; lia].
  apply Z.bits_inj'. intros i Hi. destruct (Z_lt_le_dec i 64).
  - by rewrite Z.mod_pow2_bits_low by lia.
  - rewrite Z.mod_pow2_bits_high by lia. by apply Hb.
Qed.

Lemma word_high x i : 0 <= x < 2 ^ 64 -> 64 <= i -> Z.testbit x i = false.
Proof. intros Hx Hi. rewrite <- (Z.mod_small x (2 ^ 64)) by done. by apply Z.mod_pow2_bits_high. Qed.

Lemma pos_index (b : bitset) pos :
  0 <= pos < 64 * len b ->
  0 <= pos / 64 < len b /\ 0 <= pos mod 64 < 64.
Proof.
  intros Hp. split; [|apply Z.mod_pos_bound; lia].
  split; [apply Z.div_pos; lia|apply Z.div_lt_upper_bound; lia].
Qed.

Lemma pos_same p q : 0 <= p -> 0 <= q ->
  Z.to_nat (p / 64) = Z.to_nat (q / 64) -> p mod 64 = q mod 64 -> p = q.
Proof.
  intros Hp Hq E1 E2. rewrite (Z.div_mod p 64), (Z.div_mod q 64), E2 by lia.
  pose proof (Z.div_pos p 64). pose proof (Z.div_pos q 64). lia.
Qed.

(** Both updates change one word to one with the given bits. *)
Lemma update_bit b pos v v' x :
  bits_wf b -> 0 <= pos < 64 * len b -> b !! Z.to_nat (pos / 64) = Some v ->
  0 <= v' -> (forall i, 0 <= i -> Z.testbit v' i = if i =? pos mod 64 then x else Z.testbit v i) ->
  exists b', upd b (pos / 64) v' = Ret b' /\ bits_wf b' /\ length b' = length b /\
    forall q, 0 <= q -> test b' q = if q =? pos then x else test b q.
Proof.
  intros Hw Hp Hv Hv' Hb. destruct (pos_index b pos Hp) as [Hi Hm].
  exists (<[Z.to_nat (pos / 64) := v']> b). split; [by apply upd_Ret|]. split; [|split].
  - apply Forall_insert; [done|]. apply word_range; [done|]. intros i Hi64.
    rewrite Hb by lia. destruct (Z.eqb_spec i (pos mod 64)); [lia|].
    apply word_high; [|done]. by eapply Forall_lookup_1 in Hw.
  - apply length_insert.
  - intros q Hq. unfold test.
    destruct (decide (Z.to_nat (q / 64) = Z.to_nat (pos / 64))) as [E|E].
    + rewrite E, list_lookup_insert_eq, Hv by (by eapply lookup_lt_Some).
      rewrite Hb by (apply Z.mod_pos_bound; lia).
      destruct (Z.eqb_spec q pos) as [->|Hne]; [by rewrite Z.eqb_refl|].
      destruct (Z.eqb_spec (q mod 64) (pos mod 64)); [|done].
      destruct Hne. apply pos_same; lia.
    + rewrite list_lookup_insert_ne by done. destruct (Z.eqb_spec q pos) as [->|]; done.
Qed.

Lemma bitset_lookup (b : bitset) pos :
  0 <= pos < 64 * len b -> exists v, b !! Z.to_nat (pos / 64) = Some v /\ idx b (pos / 64) = Ret v.
Proof.
  intros Hp. destruct (pos_index b pos Hp) as [Hi _].
  destruct (lookup_lt_is_Some_2 b (Z.to_nat (pos / 64))) as [v Hv]; [unfold len in *; lia|].
  exists v. split; [done|]. apply idx_Ret. split; [lia|done].
Qed.

Lemma bitset_set_spec b pos :
  bits_wf b -> 0 <= pos < 64 * len b ->
  exists b', bitset_set b pos = Ret b' /\ bits_wf b' /\ length b' = length b /\
    forall q, 0 <= q -> test b' q = if q =? pos then true else test b q.
Proof.
  intros Hw Hp. destruct (bitset_lookup b pos Hp) as (v & Hv & Ev).
  destruct (pos_index b pos Hp) as [_ Hm]. unfold bitset_set, bitsetIndex. rewrite Ev. cbn [mbind res_bind].
  rewrite shiftl_1 by done. eapply update_bit; [done..| |].
  - apply Z.lor_nonneg. split; [by eapply Forall_lookup_1 in Hw as [? _]|apply Z.pow_nonneg; lia].
  - intros i Hi. rewrite Z.lor_spec, Z.pow2_bits_eqb, Z.eqb_sym by lia.
    destruct (i =? pos mod 64); [apply orb_true_r|apply orb_false_r].
Qed.

Lemma bitset_clear_spec b pos :
  bits_wf b -> 0 <= pos < 64 * len b ->
  exists b', bitset_clear b pos = Ret b' /\ bits_wf b' /\ length b' = length b /\
    forall q, 0 <= q -> test b' q = if q =? pos then false else test b q.
Proof.
  intros Hw Hp. destruct (bitset_lookup b pos Hp) as (v & Hv & Ev).
  destruct (pos_index b pos Hp) as [_ Hm]. unfold bitset_clear, bitsetIndex. rewrite Ev. cbn [mbind res_bind].
  rewrite shiftl_1 by done. eapply update_bit; [done..| |].
  - apply Z.ldiff_nonneg. left. by eapply Forall_lookup_1 in Hw as [? _].
  - intros i Hi. rewrite Z.ldiff_spec, Z.pow2_bits_eqb, Z.eqb_sym by lia.
    destruct (i =? pos mod 64); [apply andb_false_r|apply andb_true_r].
Qed.

Lemma bitset_get_spec b pos :
  0 <= pos < 64 * len b -> bitset_get b pos = Ret (test b pos).
Proof.
  intros Hp. destruct (bitset_lookup b pos Hp) as (v & Hv & Ev).
  destruct (pos_index b pos Hp) as [_ Hm]. unfold bitset_get, bitsetIndex, test. rewrite Ev, Hv.
  cbn [mbind res_bind]. rewrite shiftl_1 by done. f_equal.
  destruct (Z.testbit v (pos mod 64)) eqn:E.
  - apply negb_true_iff, Z.eqb_neq. intros H0.
    apply (f_equal (fun x => Z.testbit x (pos mod 64))) in H0.
    by rewrite Z.land_spec, Z.pow2_bits_true, E, Z.bits_0 in H0 by lia.
  - apply negb_false_iff, Z.eqb_eq, Z.bits_inj'. intros i Hi.
    rewrite Z.land_spec, Z.bits_0, Z.pow2_bits_eqb by lia.
    destruct (Z.eqb_spec (pos mod 64) i) as [<-|]; [by rewrite E|apply andb_false_r].
Qed.

Lemma bitset_ext b b' :
  bits_wf b -> bits_wf b' -> length b = length b' ->
  (forall q, 0 <= q -> test b q = test b' q) -> b = b'.
Proof.
  intros Hw Hw' Hl Ht. apply list_eq. intros i.
  destruct (b !! i) as [v|] eqn:E; [|symmetry; apply lookup_ge_None; apply lookup_ge_None in E; lia].
  destruct (lookup_lt_is_Some_2 b' i) as [v' E']; [apply lookup_lt_Some in E; lia|].
  rewrite E'. f_equal. eapply Forall_lookup_1 in Hw; [|done]. eapply Forall_lookup_1 in Hw'; [|done].
  apply word_ext; [done..|]. intros k Hk. specialize (Ht (64 * Z.of_nat i + k) ltac:(lia)).
  unfold test in Ht.
  replace ((64 * Z.of_nat i + k) / 64) with (Z.of_nat i) in Ht
    by (rewrite Z.mul_comm, Z.div_add_l, Z.div_small by lia; lia).
  replace ((64 * Z.of_nat i + k) mod 64) with k in Ht
    by (rewrite Z.add_comm, Z.mul_comm, Z.mod_add, Z.mod_small by lia; lia).
  by rewrite Nat2Z.id, E, E' in Ht.
Qed.

(** [clear] undoes [set] of a position that was not in the set. *)
Lemma bitset_clear_set b pos b' :
  bits_wf b -> 0 <= pos < 64 * len b -> test b pos = false ->
  bitset_set b pos = Ret b' -> bitset_clear b' pos = Ret b.
Proof.
  intros Hw Hp Ht E. destruct (bitset_set_spec b pos Hw Hp) as (b1 & E1 & Hw1 & Hl1 & Ht1).
  rewrite E in E1. inv_res.
  destruct (bitset_clear_spec b1 pos Hw1) as (b2 & E2 & Hw2 & Hl2 & Ht2); [unfold len in *; lia|].
  rewrite E2. f_equal. apply bitset_ext; [done|done|congruence|].
  intros q Hq. rewrite Ht2, Ht1 by done. by destruct (Z.eqb_spec q pos) as [->|].
Qed.

Lemma bitset_equals_spec b b2 : bitset_equals b b2 = true <-> b = b2.
Proof.
  unfold bitset_equals. destruct (Nat.eqb_spec (length b) (length b2)) as [Hl|Hl]; cbn;
    [|by split; [|intros ->]].
  revert b2 Hl. induction b as [|x b IH]; intros [|y b2] Hl; try done. cbn.
  destruct (Z.eqb_spec x y) as [->|]; cbn; [rewrite IH by (cbn in Hl; lia)|]; split; congruence.
Qed.

Lemma newBitset_spec bits :
  0 <= bits -> bits_wf (newBitset bits) /\ bits <= 64 * len (newBitset bits) /\
  forall q, test (newBitset bits) q = false.
Proof.
  intros Hb. unfold newBitset. split; [|split].
  - apply Forall_replicate. lia.
  - unfold len. rewrite length_replicate. pose proof (Z.div_mod bits 64 ltac:(lia)).
    pose proof (Z.mod_pos_bound bits 64). pose proof (Z.div_pos bits 64).
    destruct (Z.eqb_spec (bits mod 64) 0); cbn [negb]; lia.
  - intros q. unfold test. destruct (_ !! _) as [v|] eqn:E; [|done].
    apply lookup_replicate in E as [-> _]. apply Z.bits_0.
Qed.

(** The number of positions in the set. *)
Definition card (b : bitset) : Z := foldr (fun v n => bits_set 64 v + n) 0 b.

Lemma popcnt_card b : bits_wf b -> 64 * len b < 2 ^ 64 -> popcnt b = card b.
Proof.
  intros Hw Hl. unfold popcnt.
  enough (H : forall t, 0 <= t -> t + 64 * len b < 2 ^ 64 ->
    foldl (fun total v => w64 (total + popcnt_word v)) t b = t + card b) by (rewrite H; lia).
  clear Hl. induction Hw as [|v b Hv Hw IH]; intros t Ht Hl; cbn [foldl card foldr]; [lia|].
  rewrite popcnt_word_spec by done. pose proof (bits_set_range 64 v).
  unfold len in *. cbn [length] in Hl. unfold w64.
  rewrite Z.mod_small by lia. rewrite IH by lia. unfold card. lia.
Qed.

(** The word-parallel popcount is the number of positions in the set: for
    every bitset that fits in memory, the sums of 2, 4 and 8 bit fields and the
    multiplication by 0x0101010101010101 give the number of bits set, without
    overflow. *)
Theorem popcnt_counts b :
  bits_wf b -> 64 * len b < 2 ^ 64 -> popcnt b = card b /\ 0 <= card b <= 64 * len b.
Proof.
  intros Hw Hl. split; [by apply popcnt_card|]. clear Hl. unfold len.
  induction Hw as [|v b Hv Hw IH]; cbn [card foldr length]; [lia|].
  pose proof (bits_set_range 64 v). unfold card in IH. lia.
Qed.

Lemma popcnt_counts_witness : popcnt [2 ^ 63 + 5; 0xFF] = 11.
Proof.
  destruct (popcnt_counts [2 ^ 63 + 5; 0xFF]) as [-> _].
  - repeat constructor; vm_compute; congruence.
  - vm_compute. reflexivity.
  - vm_compute. reflexivity.
Defined.

(** [set], [clear] and [get] are the operations of a set: for a position in
    range they do not panic, they change membership of that position alone,
    [get] reads it, and [clear] after [set] of a new position gives the same
    bitset back. *)
Theorem bitset_is_set b pos :
  bits_wf b -> 0 <= pos < 64 * len b ->
  exists b1 b2, bitset_set b pos = Ret b1 /\ bitset_clear b pos = Ret b2 /\
    bits_wf b1 /\ bits_wf b2 /\ bitset_get b pos = Ret (test b pos) /\
    (forall q, 0 <= q -> test b1 q = (q =? pos) || test b q) /\
    (forall q, 0 <= q -> test b2 q = negb (q =? pos) && test b q) /\
    (test b pos = false -> bitset_clear b1 pos = Ret b).
Proof.
  intros Hw Hp. destruct (bitset_set_spec b pos Hw Hp) as (b1 & E1 & Hw1 & Hl1 & Ht1).
  destruct (bitset_clear_spec b pos Hw Hp) as (b2 & E2 & Hw2 & Hl2 & Ht2).
  exists b1, b2. split; [done|]. split; [done|]. split; [done|]. split; [done|].
  split; [by apply bitset_get_spec|]. split; [|split].
  - intros q Hq. rewrite Ht1 by done. by destruct (q =? pos).
  - intros q Hq. rewrite Ht2 by done. by destruct (q =? pos).
  - intros Ht. by eapply bitset_clear_set.
Qed.

Lemma bitset_is_set_witness :
  exists b1, bitset_set (newBitset 70) 66 = Ret b1 /\ bitset_clear b1 66 = Ret (newBitset 70).
Proof.
  destruct (bitset_is_set (newBitset 70) 66) as (b1 & b2 & E1 & _ & _ & _ & _ & _ & _ & Hc).
  - repeat constructor; vm_compute; congruence.
  - vm_compute. split; congruence.
  - exists b1. split; [exact E1|]. apply Hc. vm_compute. reflexivity.
Defined.

Arguments bitset_set : simpl never.
Arguments bitset_clear : simpl never.
Arguments bitset_get : simpl never.
Arguments bitset_hash : simpl never.
Arguments newBitset : simpl never.
