(* ===== verification/LinHeap.v ===== *)
(** * LinHeap: the linked history (src/linearizability/linearizability.go)

    The nodes of a history are in a heap: what [lift] and [unlift] never change
    (value, match, id) is a list of records by address, [next] and [prev] are
    maps in which a missing key is nil.  [lift] unlinks a call and its return,
    and [unlift] gives back exactly the heap there was before. *)

From S2P Require Import Prelude.
Local Open Scope Z_scope.

Section heap.
Context {Val : Type}.

Record node := { nvalue : Val; nmatch : option nat; nid : Z }.

Record heap := mkHeap { hnodes : list node; hnext : gmap nat nat; hprev : gmap nat nat }.

Definition emptyHeap : heap := {| hnodes := []; hnext := ∅; hprev := ∅ |}.

Definition get_node (h : heap) (x : nat) : res node := res_of_option (h.(hnodes) !! x).

(** [x.next = o] and [x.prev = o]. *)
Definition set_next (x : nat) (o : option nat) (h : heap) : heap :=
  mkHeap h.(hnodes) (partial_alter (fun _ => o) x h.(hnext)) h.(hprev).
Definition set_prev (x : nat) (o : option nat) (h : heap) : heap :=
  mkHeap h.(hnodes) h.(hnext) (partial_alter (fun _ => o) x h.(hprev)).

(** [&node{...}]: a new node with nil links. *)
Definition alloc (n : node) (h : heap) : heap * nat :=
  (mkHeap (h.(hnodes) ++ [n]) h.(hnext) h.(hprev), length h.(hnodes)).

Definition insertBefore (n : nat) (mark : option nat) (h : heap) : heap :=
  match mark with
  | None => h
  | Some mark =>
      let beforeMark := h.(hprev) !! mark in
      let h := set_prev mark (Some n) h in
      let h := set_next n (Some mark) h in
      match beforeMark with
      | Some b => set_next b (Some n) (set_prev n (Some b) h)
      | None => h
      end
  end.

(** [length]; [fuel] is the number of nodes of the heap. *)
Fixpoint list_length (fuel : nat) (h : heap) (n : option nat) : option Z :=
  match n with
  | None => Some 0
  | Some x =>
      match fuel with
      | O => None
      | S fuel => l ← list_length fuel h (h.(hnext) !! x); Some (l + 1)
      end
  end.

(** The first two lines of [lift] and the lines on [match]. *)
Definition unlink_entry (x : nat) (h : heap) : res heap :=
  p ← res_of_option (h.(hprev) !! x);
  let h := set_next p (h.(hnext) !! x) h in
  n ← res_of_option (h.(hnext) !! x);
  Ret (set_prev n (h.(hprev) !! x) h).

Definition unlink_match (x : nat) (h : heap) : res heap :=
  p ← res_of_option (h.(hprev) !! x);
  let h := set_next p (h.(hnext) !! x) h in
  match h.(hnext) !! x with
  | Some n => Ret (set_prev n (h.(hprev) !! x) h)
  | None => Ret h
  end.

Definition lift (entry : nat) (h : heap) : res heap :=
  h ← unlink_entry entry h;
  e ← get_node h entry;
  m ← res_of_option e.(nmatch);
  unlink_match m h.

Definition relink_match (x : nat) (h : heap) : res heap :=
  p ← res_of_option (h.(hprev) !! x);
  let h := set_next p (Some x) h in
  match h.(hnext) !! x with
  | Some n => Ret (set_prev n (Some x) h)
  | None => Ret h
  end.

Definition relink_entry (x : nat) (h : heap) : res heap :=
  p ← res_of_option (h.(hprev) !! x);
  let h := set_next p (Some x) h in
  n ← res_of_option (h.(hnext) !! x);
  Ret (set_prev n (Some x) h).

Definition unlift (entry : nat) (h : heap) : res heap :=
  e ← get_node h entry;
  m ← res_of_option e.(nmatch);
  h ← relink_match m h;
  relink_entry entry h.

(** ** Lists in the heap *)

(** From [x] the list goes on with the nodes [l], and ends. *)
Fixpoint linked (h : heap) (x : nat) (l : list nat) : Prop :=
  match l with
  | [] => h.(hnext) !! x = None
  | y :: l => h.(hnext) !! x = Some y /\ h.(hprev) !! y = Some x /\ linked h y l
  end.

Lemma linked_frame h h' x l :
  (forall y, y ∈ x :: l -> h'.(hnext) !! y = h.(hnext) !! y) ->
  (forall y, y ∈ l -> h'.(hprev) !! y = h.(hprev) !! y) ->
  linked h x l -> linked h' x l.
Proof.
  revert x. induction l as [|y l IH]; intros x Hn Hp; cbn.
  - intros <-. apply Hn. by left.
  - intros (H1 & H2 & H3). rewrite Hn, Hp by (by left). split; [done|]. split; [done|].
    apply IH; [| |done]; intros z Hz; [apply Hn|apply Hp]; by right.
Qed.

Lemma linked_cons h x l : linked h x l -> h.(hnext) !! x = head l.
Proof. destruct l; cbn; [done|]. by intros (-> & _). Qed.

Fixpoint last_from (x : nat) (l : list nat) : nat :=
  match l with [] => x | y :: l => last_from y l end.

Lemma last_from_elem x l : last_from x l ∈ x :: l.
Proof.
  revert x. induction l as [|y l IH]; intros x; cbn; [by left|]. right. apply IH.
Qed.

(** The neighbours of a node in a list. *)
Lemma linked_middle h x l1 y l2 :
  linked h x (l1 ++ y :: l2) ->
  h.(hprev) !! y = Some (last_from x l1) /\ h.(hnext) !! (last_from x l1) = Some y /\
  h.(hnext) !! y = head l2.
Proof.
  revert x. induction l1 as [|z l1 IH]; intros x; cbn [app linked last_from].
  - intros (H1 & H2 & H3). split; [done|]. split; [done|]. by apply linked_cons.
  - intros (H1 & H2 & H3). by apply IH.
Qed.

(** ** Unlinking *)

(** [a.next = o] and, when [o] is [b], [b.prev = a]. *)
Definition join (a : nat) (o : option nat) (h : heap) : heap :=
  match o with
  | Some b => set_prev b (Some a) (set_next a (Some b) h)
  | None => set_next a None h
  end.

Lemma join_next a o h y : (join a o h).(hnext) !! y = if decide (y = a) then o else h.(hnext) !! y.
Proof.
  destruct o; cbn; (destruct (decide (y = a)) as [->|];
    [by rewrite lookup_partial_alter_eq|by rewrite lookup_partial_alter_ne]).
Qed.

Lemma join_prev a o h y :
  (join a o h).(hprev) !! y = if decide (o = Some y) then Some a else h.(hprev) !! y.
Proof.
  destruct o as [b|]; cbn; [|by rewrite decide_False].
  destruct (decide (y = b)) as [->|].
  - by rewrite lookup_partial_alter_eq, decide_True.
  - by rewrite lookup_partial_alter_ne, decide_False by congruence.
Qed.

Lemma linked_join h x l1 y l2 :
  NoDup (x :: l1 ++ y :: l2) -> linked h x (l1 ++ y :: l2) ->
  linked (join (last_from x l1) (head l2) h) x (l1 ++ l2).
Proof.
  revert x. induction l1 as [|z l1 IH]; intros x Hnd; cbn [app last_from].
  - cbn in Hnd. apply NoDup_cons in Hnd as [Hx Hnd]. apply NoDup_cons in Hnd as [Hy Hnd].
    cbn. intros (H1 & H2 & H3). destruct l2 as [|b l2]; cbn.
    + by rewrite lookup_partial_alter_eq.
    + split; [by rewrite lookup_partial_alter_eq|]. split; [by rewrite lookup_partial_alter_eq|].
      apply NoDup_cons in Hnd as [Hb _]. cbn in H3. eapply (linked_frame h); [| |apply H3].
      * intros w Hw. cbn. rewrite lookup_partial_alter_ne; [done|]. intros <-.
        apply Hx. by right.
      * intros w Hw. cbn. rewrite lookup_partial_alter_ne; [done|]. by intros <-.
  - apply NoDup_cons in Hnd as [Hx Hnd]. intros (H1 & H2 & H3). cbn [linked]. split; [|split].
    + rewrite join_next, decide_False; [done|]. intros ->. apply Hx. clear.
      pose proof (last_from_elem z l1) as [->|Hin]%elem_of_cons; [by left|right].
      apply elem_of_app. by left.
    + rewrite join_prev, decide_False; [done|]. intros Hh.
      apply NoDup_cons in Hnd as [Hz _]. apply Hz, elem_of_app. right. right.
      destruct l2; [done|]. cbn in Hh. simplify_eq. by left.
    + by apply IH.
Qed.

(** Setting a link back to what it was. *)
Lemma set_undo (m : gmap nat nat) x o o' :
  m !! x = o -> partial_alter (fun _ => o) x (partial_alter (fun _ => o') x m) = m.
Proof.
  intros Hx. apply map_eq. intros y. destruct (decide (y = x)) as [->|].
  - by rewrite lookup_partial_alter_eq.
  - by rewrite !lookup_partial_alter_ne.
Qed.

Lemma last_from_snoc x l y : last_from x (l ++ [y]) = y.
Proof. revert x. induction l; intros; cbn; auto. Qed.

(** What unlinking node [y] gives, and that it can be undone. *)
Lemma unlink_spec h x l1 y l2 :
  NoDup (x :: l1 ++ y :: l2) -> linked h x (l1 ++ y :: l2) ->
  let h' := join (last_from x l1) (head l2) h in
  unlink_match y h = Ret h' /\ (l2 <> [] -> unlink_entry y h = Ret h') /\
  relink_match y h' = Ret h /\ (l2 <> [] -> relink_entry y h' = Ret h) /\
  linked h' x (l1 ++ l2) /\ h'.(hnodes) = h.(hnodes).
Proof.
  intros Hnd Hl h'. pose proof (linked_join _ _ _ _ _ Hnd Hl) as Hj.
  destruct (linked_middle _ _ _ _ _ Hl) as (Hp & Hn1 & Hn2). set (a := last_from x l1) in *.
  assert (a <> y) as Hay.
  { intros E. assert (a ∈ x :: l1) as Ha by apply last_from_elem. rewrite E in Ha.
    rewrite app_comm_cons in Hnd. apply NoDup_app in Hnd as (_ & Hd & _).
    apply (Hd y Ha). by left. }
  assert (head l2 <> Some y) as Hhy.
  { intros E. destruct l2 as [|b l2]; [done|]. cbn in E. simplify_eq.
    rewrite app_comm_cons in Hnd. apply NoDup_app in Hnd as (_ & _ & Hd).
    apply NoDup_cons in Hd as [Hd _]. apply Hd. by left. }
  assert (h'.(hprev) !! y = Some a) as Hp' by (unfold h'; by rewrite join_prev, decide_False).
  assert (h'.(hnext) !! y = head l2) as Hn' by (unfold h'; by rewrite join_next, decide_False by congruence).
  assert (Hundo : forall o, head l2 = o ->
    match o with Some b => set_prev b (Some y) (set_next a (Some y) h') | None => set_next a (Some y) h' end = h).
  { intros o Ho. unfold h'. rewrite Ho. destruct h as [ns nx pv]. cbn in *.
    destruct o as [b|]; unfold set_prev, set_next; cbn; f_equal.
    - by apply set_undo.
    - apply set_undo. destruct l2 as [|b' l2]; [done|]. cbn in Ho. simplify_eq.
      destruct (linked_middle _ _ (l1 ++ [y]) b l2 ltac:(by rewrite <- app_assoc)) as (Hb & _).
      by rewrite last_from_snoc in Hb.
    - by apply set_undo. }
  unfold unlink_match, unlink_entry, relink_match, relink_entry. rewrite Hp, Hp'. cbn.
  rewrite !lookup_partial_alter_ne by congruence. rewrite Hn2, Hn', Hp.
  destruct (head l2) as [b|] eqn:Hh; cbn.
  - split; [done|]. split; [done|]. specialize (Hundo _ eq_refl). cbn in Hundo. rewrite Hundo.
    split; [done|]. split; [done|]. split; [done|done].
  - split; [done|]. specialize (Hundo _ eq_refl). cbn in Hundo. rewrite Hundo.
    destruct l2; [|done]. repeat (split; [done|]). done.
Qed.

(** [lift] removes a call and its return; [unlift] restores the heap. *)
Lemma lift_spec h x l1 e l2 m l3 n :
  NoDup (x :: l1 ++ e :: l2 ++ m :: l3) -> linked h x (l1 ++ e :: l2 ++ m :: l3) ->
  h.(hnodes) !! e = Some n -> n.(nmatch) = Some m ->
  exists h', lift e h = Ret h' /\ linked h' x (l1 ++ l2 ++ l3) /\ h'.(hnodes) = h.(hnodes) /\
    unlift e h' = Ret h.
Proof.
  intros Hnd Hl He Hm.
  destruct (unlink_spec h x l1 e (l2 ++ m :: l3) Hnd Hl) as (_ & Hu & _ & Hr & Hl1 & Hn1).
  assert (l2 ++ m :: l3 <> []) as Hne by (by destruct l2).
  specialize (Hu Hne). specialize (Hr Hne). set (h1 := join _ _ h) in *.
  assert (NoDup (x :: (l1 ++ l2) ++ m :: l3)) as Hnd1.
  { rewrite <- app_assoc. eapply sublist_NoDup; [exact Hnd|].
    apply sublist_skip, sublist_app; [done|]. by apply sublist_cons. }
  rewrite app_assoc in Hl1.
  destruct (unlink_spec h1 x (l1 ++ l2) m l3 Hnd1 Hl1) as (Hu2 & _ & Hr2 & _ & Hl2 & Hn2).
  exists (join (last_from x (l1 ++ l2)) (head l3) h1). unfold lift, unlift, get_node.
  rewrite Hu. cbn. rewrite Hn1, He. cbn. rewrite Hm. cbn.
  split; [done|]. split; [by rewrite app_assoc|]. split; [congruence|].
  rewrite Hn2, Hn1, He. cbn. rewrite Hm. cbn. rewrite Hr2. done.
Qed.

(** [unlift] after [lift] restores the heap exactly: for a call entry and its
    later return anywhere in a well-formed list, adjacent or last, [lift] removes
    the two nodes from the list and [unlift] gives back every link. *)
Theorem unlift_lift h x l1 e l2 m l3 n :
  NoDup (x :: l1 ++ e :: l2 ++ m :: l3) -> linked h x (l1 ++ e :: l2 ++ m :: l3) ->
  h.(hnodes) !! e = Some n -> n.(nmatch) = Some m ->
  exists h', lift e h = Ret h' /\ linked h' x (l1 ++ l2 ++ l3) /\ unlift e h' = Ret h.
Proof.
  intros Hnd Hl He Hm. destruct (lift_spec h x l1 e l2 m l3 n Hnd Hl He Hm)
    as (h' & H1 & H2 & _ & H3). by exists h'.
Qed.
End heap.

Arguments node : clear implicits.
Arguments heap : clear implicits.
Arguments lift : simpl never.
Arguments unlift : simpl never.

(** The list 0, 1, 2 in which node 1 is a call and node 2 its return. *)
Definition demo_heap : heap Z :=
  {| hnodes := [{| nvalue := 0; nmatch := None; nid := 9 |};
                {| nvalue := 5; nmatch := Some 2%nat; nid := 0 |};
                {| nvalue := 6; nmatch := None; nid := 0 |}];
     hnext := {[0%nat := 1%nat; 1%nat := 2%nat]};
     hprev := {[1%nat := 0%nat; 2%nat := 1%nat]} |}.

Lemma unlift_lift_witness :
  exists h', lift 1 demo_heap = Ret h' /\ linked h' 0 [] /\ unlift 1 h' = Ret demo_heap.
Proof.
  apply (unlift_lift demo_heap 0 [] 1 [] 2 [] {| nvalue := 5; nmatch := Some 2%nat; nid := 0 |}).
  - apply (bool_decide_eq_true_1 _). vm_compute. reflexivity.
  - vm_compute. split; [reflexivity|]. split; [reflexivity|]. split; [reflexivity|].
    split; reflexivity.
  - reflexivity.
  - reflexivity.
Defined.
