(* ===== verification/LinCheck.v ===== *)
(** * LinCheck: the search for a linearization (src/linearizability)

    [checkSingle] as an iteration over its local variables, with the linked
    history of LinHeap.v, the bitset of Bitset.v and the cache.  The main lemma
    follows the search frame by frame: from a configuration the loop either
    finds a linearization, or comes back to the same frame at the first return
    entry, with every candidate shown to lead nowhere. *)

From S2P Require Import Prelude Bitset LinHeap.
Local Open Scope Z_scope.

Record Operation (Val : Type) := mkOperation { Input : Val; CallTime : Z; Output : Val; ReturnTime : Z }.
Arguments mkOperation {_}. Arguments Input {_}. Arguments CallTime {_}.
Arguments Output {_}. Arguments ReturnTime {_}.

Inductive EventKind := CallEvent | ReturnEvent.

Record Event (Val : Type) := mkEvent { Kind : EventKind; Value : Val; Id : Z }.
Arguments mkEvent {_}. Arguments Kind {_}. Arguments Value {_}. Arguments Id {_}.

(** [Step] may panic: the models assert the types of the values. *)
Record Model (State Val : Type) := {
  Partition : list (Operation Val) -> res (list (list (Operation Val)));
  PartitionEvent : list (Event Val) -> res (list (list (Event Val)));
  Init : State;
  Step : State -> Val -> Val -> res (bool * State);
  Equal : State -> State -> bool;
}.
Arguments Partition {_ _}. Arguments PartitionEvent {_ _}. Arguments Init {_ _}.
Arguments Step {_ _}. Arguments Equal {_ _}.

Section check.
Context {State Val : Type} (model : Model State Val) (nil : Val).

Record cacheEntry := { linearized : bitset; cstate : State }.

Local Notation cache_t := (gmap Z (list cacheEntry)).

(** [cache[h]]: nil when there is none. *)
Definition bucket (cache : cache_t) (h : Z) : list cacheEntry := default [] (cache !! h).

Definition cacheContains (cache : cache_t) (e : cacheEntry) : bool :=
  existsb (fun elem => bitset_equals e.(linearized) elem.(linearized)
                       && model.(Equal) e.(cstate) elem.(cstate))
    (bucket cache (bitset_hash e.(linearized))).

Arguments cacheContains : simpl never.

(** The local variables of [checkSingle]. *)
Record search := mkSearch {
  sh : heap Val;
  sentry : option nat;
  slin : bitset;
  scache : cache_t;
  scalls : list (nat * State);   (* calls; the top is the last *)
  sstate : State;
}.

(** One iteration of the loop: the variables after it, or what the function
    returns. *)
Definition iteration (headEntry : nat) (killed : bool) (s : search) : res (search + bool) :=
  match s.(sh).(hnext) !! headEntry with
  | None => Ret (inr true)
  | Some _ =>
      if killed then Ret (inr false)
      else
        entry ← res_of_option s.(sentry);
        n ← get_node s.(sh) entry;
        match n.(nmatch) with
        | Some matching =>
            mn ← get_node s.(sh) matching;
            '(ok, newState) ← model.(Step) s.(sstate) n.(nvalue) mn.(nvalue);
            if ok : bool
            then
              newLinearized ← bitset_set (bitset_clone s.(slin)) n.(nid);
              let newCacheEntry := {| linearized := newLinearized; cstate := newState |} in
              if negb (cacheContains s.(scache) newCacheEntry)
              then
                let hash := bitset_hash newLinearized in
                let cache := <[hash := bucket s.(scache) hash ++ [newCacheEntry]]> s.(scache) in
                lin ← bitset_set s.(slin) n.(nid);
                h ← lift entry s.(sh);
                Ret (inl {| sh := h; sentry := h.(hnext) !! headEntry; slin := lin;
                            scache := cache; scalls := s.(scalls) ++ [(entry, s.(sstate))];
                            sstate := newState |})
              else
                Ret (inl (mkSearch s.(sh) (s.(sh).(hnext) !! entry) s.(slin) s.(scache)
                            s.(scalls) s.(sstate)))
            else
              Ret (inl (mkSearch s.(sh) (s.(sh).(hnext) !! entry) s.(slin) s.(scache)
                          s.(scalls) s.(sstate)))
        | None =>
            match last s.(scalls) with
            | None => Ret (inr false)
            | Some (entry, state) =>
                n ← get_node s.(sh) entry;
                lin ← bitset_clear s.(slin) n.(nid);
                h ← unlift entry s.(sh);
                Ret (inl {| sh := h; sentry := h.(hnext) !! entry; slin := lin;
                            scache := s.(scache); scalls := removelast s.(scalls);
                            sstate := state |})
            end
        end
  end.

(** The loop; [kill t] is what the [t]-th read of the kill flag gives.  [None]
    when [fuel] iterations did not do. *)
Fixpoint search_loop (fuel t : nat) (kill : nat -> bool) (headEntry : nat) (s : search)
    : res (option bool) :=
  match fuel with
  | O => Ret None
  | S fuel =>
      r ← iteration headEntry (kill t) s;
      match r with
      | inl s => search_loop fuel (S t) kill headEntry s
      | inr b => Ret (Some b)
      end
  end.

Definition headNode : node Val := {| nvalue := nil; nmatch := None; nid := 2 ^ 64 - 1 |}.

(** The state of the loop when it starts, and the address of [headEntry]. *)
Definition search_start (h : heap Val) (subhistory : option nat) : res (search * nat) :=
  l ← res_of_option (list_length (length h.(hnodes)) h subhistory);
  let n := l / 2 in
  let '(h, headEntry) := alloc headNode h in
  let h := insertBefore headEntry subhistory h in
  Ret ({| sh := h; sentry := subhistory; slin := newBitset n; scache := ∅; scalls := [];
          sstate := model.(Init) |}, headEntry).

Definition checkSingle (fuel : nat) (kill : nat -> bool) (h : heap Val) (subhistory : option nat)
    : res (option bool) :=
  '(s, headEntry) ← search_start h subhistory;
  search_loop fuel 0 kill headEntry s.

(** ** Configurations *)

Section correct.
Context (ns : list (node Val)) (hd : nat) (L0 : list nat) (len0 : nat).

Definition is_call (x : nat) : Prop := exists n m, ns !! x = Some n /\ n.(nmatch) = Some m.
Definition is_return (x : nat) : Prop := exists n, ns !! x = Some n /\ n.(nmatch) = None.

(** Call [c] with return [m]: both in the history in this order, with one id
    that no other entry has, and values on which [Step] does not panic. *)
Record op_ok (c m : nat) : Prop := {
  oo_call : exists n mn, ns !! c = Some n /\ n.(nmatch) = Some m /\ ns !! m = Some mn /\
    mn.(nmatch) = None /\ mn.(nid) = n.(nid) /\ 0 <= n.(nid) < 64 * Z.of_nat len0 /\
    (forall st, exists r, model.(Step) st n.(nvalue) mn.(nvalue) = Ret r) /\
    (forall y ny, y ∈ L0 -> ns !! y = Some ny -> ny.(nid) = n.(nid) -> y = c \/ y = m);
  oo_order : exists l1 l2 l3, L0 = l1 ++ c :: l2 ++ m :: l3;
}.

Record history_ok : Prop := {
  ho_nodup : NoDup (hd :: L0);
  ho_node : forall x, x ∈ L0 -> exists n, ns !! x = Some n /\ 0 <= n.(nid);
  ho_op : forall c n m, c ∈ L0 -> ns !! c = Some n -> n.(nmatch) = Some m -> op_ok c m;
  ho_return : forall r n, r ∈ L0 -> ns !! r = Some n -> n.(nmatch) = None ->
    exists c nc, c ∈ L0 /\ ns !! c = Some nc /\ nc.(nmatch) = Some r;
}.

Definition nid_of (x : nat) : Z := match ns !! x with Some n => n.(nid) | None => -1 end.

(** The entries of the operations that are not linearized. *)
Definition open (B : bitset) (x : nat) : Prop := test B (nid_of x) = false.

Global Instance open_dec B x : Decision (open B x).
Proof. unfold open. apply _. Defined.

Definition rem (B : bitset) : list nat := filter (open B) L0.

(** [c] is a call with no return before it. *)
Definition candidate (l : list nat) (c : nat) : Prop :=
  is_call c /\ exists l1 l2, l = l1 ++ c :: l2 /\ Forall is_call l1.

(** [σ] linearizes what is left of the history after [B], from state [st]. *)
Inductive completes : bitset -> State -> list nat -> Prop :=
| comp_nil B st : rem B = [] -> completes B st []
| comp_cons B st c n m mn st' B' σ :
    candidate (rem B) c -> ns !! c = Some n -> n.(nmatch) = Some m -> ns !! m = Some mn ->
    model.(Step) st n.(nvalue) mn.(nvalue) = Ret (true, st') ->
    bitset_set B n.(nid) = Ret B' -> completes B' st' σ -> completes B st (c :: σ).

Definition dead (B : bitset) (st : State) : Prop := forall σ, ~ completes B st σ.

(** Call [c] leads nowhere from [(B, st)]. *)
Definition dead_call (B : bitset) (st : State) (c : nat) : Prop :=
  forall n m mn st' B', ns !! c = Some n -> n.(nmatch) = Some m -> ns !! m = Some mn ->
    model.(Step) st n.(nvalue) mn.(nvalue) = Ret (true, st') -> bitset_set B n.(nid) = Ret B' ->
    dead B' st'.

Definition bs_ok (B : bitset) : Prop := bits_wf B /\ length B = len0.

Lemma rem_sublist B : rem B `sublist_of` L0.
Proof.
  unfold rem. induction L0 as [|x l IH]; [done|]. rewrite filter_cons.
  case_decide; [by apply sublist_skip|by apply sublist_cons].
Qed.

Context (Hist : history_ok) (Heq : forall s s', model.(Equal) s s' = true -> s = s').

Lemma split_unique {A} (p1 q1 p2 q2 : list A) c :
  NoDup (p1 ++ c :: p2) -> p1 ++ c :: p2 = q1 ++ c :: q2 -> p1 = q1 /\ p2 = q2.
Proof.
  revert q1. induction p1 as [|x p1 IH]; intros [|y q1] Hnd E; cbn in *.
  - by injection E.
  - injection E as -> ->. exfalso. apply NoDup_cons in Hnd as [Hn _]. apply Hn.
    apply elem_of_app. right. by left.
  - injection E as -> E. exfalso. apply NoDup_cons in Hnd as [Hn _]. apply Hn.
    apply elem_of_app. right. by left.
  - injection E as -> E. apply NoDup_cons in Hnd as [_ Hnd]. by destruct (IH _ Hnd E) as [-> ->].
Qed.

Lemma rem_nodup B : NoDup (hd :: rem B).
Proof.
  eapply sublist_NoDup; [apply (ho_nodup Hist)|]. apply sublist_skip, rem_sublist.
Qed.

Lemma elem_of_rem B x : x ∈ rem B <-> x ∈ L0 /\ test B (nid_of x) = false.
Proof. unfold rem. rewrite list_elem_of_filter. tauto. Qed.

(** A call that is left, its return behind it, and what is left after it. *)
Lemma rem_call B p1 c p2 n m :
  bs_ok B -> rem B = p1 ++ c :: p2 -> ns !! c = Some n -> n.(nmatch) = Some m ->
  op_ok c m /\ test B n.(nid) = false /\
  exists B' l2 l3, bitset_set B n.(nid) = Ret B' /\ bs_ok B' /\
    p2 = l2 ++ m :: l3 /\ rem B' = p1 ++ l2 ++ l3 /\
    (forall q, 0 <= q -> test B' q = if q =? n.(nid) then true else test B q).
Proof.
  intros [Hw Hl] Hrem Hn Hm.
  assert (c ∈ rem B) as [Hc Ht]%elem_of_rem by (rewrite Hrem; apply elem_of_app; right; by left).
  pose proof (ho_op Hist c n m Hc Hn Hm) as Hop. split; [done|].
  destruct Hop as [(n' & mn & Hn' & Hm' & Hmn & _ & Hid & Hr & _ & Huniq) (a & b & d & HL)].
  rewrite Hn in Hn'. injection Hn' as <-. unfold nid_of in Ht. rewrite Hn in Ht. split; [done|].
  destruct (bitset_set_spec B n.(nid) Hw) as (B' & HB' & Hw' & Hl' & Ht'); [unfold len; lia|].
  assert (Hsame : forall l : list nat, (forall x, x ∈ l -> x ∈ L0 /\ x <> c /\ x <> m) ->
            filter (open B') l = filter (open B) l).
  { induction l as [|x l IH]; intros Hx; [done|]. rewrite !filter_cons.
    rewrite IH by (intros y Hy; apply Hx; by right).
    destruct (Hx x) as (HxL & Hxc & Hxm); [by left|].
    destruct (ho_node Hist x HxL) as (nx & Hnx & Hpos).
    assert (nx.(nid) <> n.(nid)) as Hne by (intros E; destruct (Huniq x nx HxL Hnx E); done).
    assert (open B' x <-> open B x) as HP.
    { unfold open, nid_of. rewrite Hnx, Ht' by done. by destruct (Z.eqb_spec nx.(nid) n.(nid)). }
    destruct (decide (open B' x)), (decide (open B x)); tauto || done. }
  pose proof (ho_nodup Hist) as Hnd. apply NoDup_cons in Hnd as [_ Hnd]. rewrite HL in Hnd.
  assert (Hrem' : rem B = filter (open B) a ++ c :: filter (open B) b ++ m :: filter (open B) d).
  { unfold rem. rewrite HL, filter_app, filter_cons, filter_app, filter_cons.
    rewrite !decide_True; [done| |]; unfold open, nid_of; rewrite ?Hn, ?Hmn, ?Hid; done. }
  pose proof (rem_nodup B) as Hndr. apply NoDup_cons in Hndr as [_ Hndr].
  rewrite Hrem in Hrem', Hndr. destruct (split_unique _ _ _ _ _ Hndr Hrem') as [-> ->].
  exists B', (filter (open B) b), (filter (open B) d). split; [done|]. split; [by split; [|congruence]|].
  split; [done|]. split; [|done].
  assert (Hmem : forall (l : list nat) x, x ∈ l -> l ⊆ a ++ b ++ d -> x ∈ L0 /\ x <> c /\ x <> m).
  { intros l x Hx Hsub. specialize (Hsub x Hx). rewrite HL. rewrite !elem_of_app in Hsub.
    rewrite !elem_of_app, elem_of_cons, !elem_of_app, elem_of_cons.
    split; [tauto|]. split; intros ->.
    - apply NoDup_app in Hnd as (_ & Hd1 & Hnd). apply NoDup_cons in Hnd as [Hd2 _].
      rewrite elem_of_app, elem_of_cons in Hd2. destruct Hsub as [Ha|Hbd]; [|tauto].
      apply (Hd1 c Ha). by left.
    - apply NoDup_app in Hnd as (_ & Hd1 & Hnd). apply NoDup_cons in Hnd as [_ Hnd].
      apply NoDup_app in Hnd as (_ & Hd2 & Hnd). apply NoDup_cons in Hnd as [Hd3 _].
      destruct Hsub as [Ha|[Hb|Hd]]; [| |done].
      + apply (Hd1 m Ha). right. apply elem_of_app. right. by left.
      + apply (Hd2 m Hb). by left. }
  unfold rem. rewrite HL, filter_app, filter_cons, filter_app, filter_cons.
  rewrite !decide_False.
  2,3: unfold open, nid_of; rewrite ?Hn, ?Hmn, ?Hid, Ht' by lia; by rewrite Z.eqb_refl.
  rewrite !Hsame; [done|..]; intros x Hx; (eapply Hmem; [done|]);
    intros y Hy; rewrite !elem_of_app; tauto.
Qed.

(** ** One frame of the search *)

Definition istep (s s' : search) : Prop := iteration hd false s = Ret (inl s').

(** The cache holds configurations of the path to the current one, and dead
    ones. *)
Definition cache_ok (C : cache_t) (P : list cacheEntry) : Prop :=
  forall h e, e ∈ bucket C h -> e ∈ P \/ dead e.(linearized) e.(cstate).

Definition path_le (P : list cacheEntry) (B : bitset) : Prop :=
  forall e q, e ∈ P -> 0 <= q -> test e.(linearized) q = true -> test B q = true.

Lemma bucket_insert (C : cache_t) h es h' e :
  e ∈ bucket (<[h := es]> C) h' -> e ∈ es \/ e ∈ bucket C h'.
Proof.
  unfold bucket. destruct (decide (h = h')) as [->|].
  - rewrite lookup_insert_eq. by left.
  - rewrite lookup_insert_ne by done. by right.
Qed.

Lemma cacheContains_inv C B st :
  cacheContains C {| linearized := B; cstate := st |} = true ->
  exists h, {| linearized := B; cstate := st |} ∈ bucket C h.
Proof.
  unfold cacheContains. intros H. apply existsb_exists in H as ([B' st'] & Hin & E).
  cbn in *. apply andb_true_iff in E as [->%bitset_equals_spec ->%Heq].
  eexists. by apply list_elem_of_In.
Qed.

(** A configuration in the cache that is not on the path is dead. *)
Lemma cached_dead C P B c n B' st' :
  cache_ok C P -> path_le P B -> 0 <= n.(nid) -> test B n.(nid) = false ->
  ns !! c = Some n ->
  (forall q, 0 <= q -> test B' q = if q =? n.(nid) then true else test B q) ->
  cacheContains C {| linearized := B'; cstate := st' |} = true -> dead B' st'.
Proof.
  intros Hc Hp Hpos Ht Hn Ht' Hin. apply cacheContains_inv in Hin as [h Hin].
  destruct (Hc _ _ Hin) as [HP|]; [|done]. exfalso.
  assert (test B n.(nid) = true); [|congruence].
  apply (Hp _ n.(nid) HP Hpos). cbn. rewrite Ht' by done. by rewrite Z.eqb_refl.
Qed.

(** Candidates come before the first return. *)
Lemma candidate_before l1 r l2 c :
  candidate (l1 ++ r :: l2) c -> is_return r -> c ∈ l1.
Proof.
  intros [Hc (q1 & q2 & E & Hq)] (n & Hn & Hm). revert q1 E Hq.
  induction l1 as [|x l1 IH]; intros [|y q1] E Hq; cbn in *; injection E as -> E.
  - destruct Hc as (n' & m & Hn' & Hm'). congruence.
  - inversion Hq as [|? ? (n' & m & Hn' & Hm') _]; subst. congruence.
  - by left.
  - right. inversion Hq; subst. by eapply IH.
Qed.

Lemma frame_dead B st l1 r l2 :
  rem B = l1 ++ r :: l2 -> is_return r -> (forall c, c ∈ l1 -> dead_call B st c) -> dead B st.
Proof.
  intros Hr Hret Hd σ Hc. inversion Hc as [? ? E|? ? c n m mn st' B' σ' Hcand]; subst.
  - rewrite Hr in E. by destruct l1.
  - rewrite Hr in Hcand. apply candidate_before in Hcand; [|done].
    by eapply (Hd c Hcand).
Qed.

(** A call that does not advance the search: the entry after it is next. *)
Lemma skip_call h B C K st l1 e l2 n m :
  bs_ok B -> h.(hnodes) = ns -> linked h hd (rem B) -> rem B = l1 ++ e :: l2 ->
  ns !! e = Some n -> n.(nmatch) = Some m ->
  l2 <> [] /\ h.(hnext) !! e = head l2 /\ (exists y, h.(hnext) !! hd = Some y) /\
  exists mn, ns !! m = Some mn /\ (forall st, exists r, model.(Step) st n.(nvalue) mn.(nvalue) = Ret r) /\
    (forall st', model.(Step) st n.(nvalue) mn.(nvalue) = Ret (false, st') ->
       istep (mkSearch h (Some e) B C K st) (mkSearch h (head l2) B C K st)) /\
    (forall st' B', model.(Step) st n.(nvalue) mn.(nvalue) = Ret (true, st') ->
       bitset_set B n.(nid) = Ret B' ->
       cacheContains C {| linearized := B'; cstate := st' |} = true ->
       istep (mkSearch h (Some e) B C K st) (mkSearch h (head l2) B C K st)).
Proof.
  intros HB Hns Hl Hrem Hn Hm. destruct (rem_call B l1 e l2 n m HB Hrem Hn Hm)
    as (Hop & _ & B1 & la & lb & _ & _ & -> & _).
  rewrite Hrem in Hl. destruct (linked_middle _ _ _ _ _ Hl) as (_ & _ & Hnx).
  assert (exists y, h.(hnext) !! hd = Some y) as [y Hy].
  { apply linked_cons in Hl. rewrite Hl. destruct l1; cbn; eauto. }
  split; [by destruct la|]. split; [done|]. split; [by exists y|].
  destruct (oo_call _ _ Hop) as (n' & mn & Hn' & _ & Hmn & _ & _ & _ & Hst & _).
  rewrite Hn in Hn'. injection Hn' as <-.
  exists mn. split; [done|]. split; [done|]. split.
  - intros st' Hstep. unfold istep, iteration, get_node. cbn. rewrite Hy, Hns. cbn.
    rewrite Hn. cbn. rewrite Hm, Hmn. cbn. rewrite Hstep. cbn. by rewrite Hnx.
  - intros st' B' Hstep HB' Hin. unfold istep, iteration, get_node, bitset_clone. cbn.
    rewrite Hy, Hns. cbn. rewrite Hn. cbn. rewrite Hm, Hmn. cbn. rewrite Hstep. cbn.
    rewrite HB'. cbn. rewrite Hin. cbn. by rewrite Hnx.
Qed.

(** Trying a new configuration: the call and its return are lifted; from the
    state that comes back to the call's frame, the search goes on after it. *)
Lemma try_call h B C K st l1 e l2 n m mn st' :
  bs_ok B -> h.(hnodes) = ns -> linked h hd (rem B) -> rem B = l1 ++ e :: l2 ->
  ns !! e = Some n -> n.(nmatch) = Some m -> ns !! m = Some mn ->
  model.(Step) st n.(nvalue) mn.(nvalue) = Ret (true, st') ->
  exists B' h' C', bitset_set B n.(nid) = Ret B' /\ bs_ok B' /\ h'.(hnodes) = ns /\
    linked h' hd (rem B') /\ (length (rem B') < length (rem B))%nat /\
    (forall q, 0 <= q -> test B' q = if q =? n.(nid) then true else test B q) /\
    C' = <[bitset_hash B' := bucket C (bitset_hash B')
             ++ [{| linearized := B'; cstate := st' |}]]> C /\
    (cacheContains C {| linearized := B'; cstate := st' |} = false ->
     istep (mkSearch h (Some e) B C K st)
       (mkSearch h' (head (rem B')) B' C' (K ++ [(e, st)]) st')) /\
    (forall C1 r p1 p2, rem B' = p1 ++ r :: p2 -> is_return r ->
       istep (mkSearch h' (Some r) B' C1 (K ++ [(e, st)]) st')
         (mkSearch h (head l2) B C1 K st)).
Proof.
  intros HB Hns Hl Hrem Hn Hm Hmn Hstep.
  destruct (skip_call h B C K st l1 e l2 n m HB Hns Hl Hrem Hn Hm) as (_ & Hnx & [y Hy] & _).
  destruct (rem_call B l1 e l2 n m HB Hrem Hn Hm)
    as (Hop & Htest & B' & la & lb & HB' & HBok & -> & HremB' & Ht').
  destruct (oo_call _ _ Hop) as (n' & _ & Hn' & _ & _ & _ & _ & Hid & _ & _).
  rewrite Hn in Hn'. injection Hn' as <-.
  pose proof (rem_nodup B) as Hnd. rewrite Hrem in Hnd, Hl.
  destruct (lift_spec h hd l1 e la m lb n Hnd Hl) as (h' & Hlift & Hl' & Hns' & Hun);
    [by rewrite Hns|done|].
  exists B', h', (<[bitset_hash B' := bucket C (bitset_hash B')
             ++ [{| linearized := B'; cstate := st' |}]]> C).
  rewrite HremB'. split; [done|]. split; [done|]. split; [congruence|]. split; [done|].
  split; [rewrite Hrem, !length_app; cbn; rewrite length_app; cbn; lia|].
  split; [done|]. split; [done|]. split.
  - intros Hin. unfold istep, iteration, get_node, bitset_clone. cbn. rewrite Hy, Hns. cbn.
    rewrite Hn. cbn. rewrite Hm, Hmn. cbn. rewrite Hstep. cbn. rewrite HB'. cbn. rewrite Hin. cbn.
    rewrite Hlift. cbn. by rewrite (linked_cons _ _ _ Hl').
  - intros C1 r p1 p2 Hr (nr & Hnr & Hmr). unfold istep, iteration, get_node. cbn.
    rewrite Hr in Hl'. rewrite (linked_cons _ _ _ Hl').
    assert (exists z, head (p1 ++ r :: p2) = Some z) as [z ->] by (destruct p1; cbn; eauto).
    rewrite Hns', Hns, Hnr. cbn. rewrite Hmr, last_snoc. cbn. rewrite Hn. cbn.
    destruct HB as [Hw Hlen].
    rewrite (bitset_clear_set B n.(nid) B') by (done || (unfold len; lia)). cbn.
    rewrite Hun. cbn. rewrite removelast_last. by rewrite Hnx.
Qed.

(** What the search from [s0] does in the frame of [B] and [st]: it finds a
    linearization, or is back in the frame at the first return, with every call on
    the way but those of [l1] tried in vain. *)
Definition explored h B st K P (l1 : list nat) (s0 : search) : Prop :=
  (exists s σ, rtc istep s0 s /\ iteration hd false s = Ret (inr true) /\ completes B st σ) \/
  (exists C' r l1' l2', rem B = l1' ++ r :: l2' /\ Forall is_call l1' /\ is_return r /\
     rtc istep s0 (mkSearch h (Some r) B C' K st) /\
     cache_ok C' P /\ forall c, c ∈ l1' -> c ∉ l1 -> dead_call B st c).

(** The search goes on after a call [e] that is settled. *)
Lemma explored_after h B st K P l1 e s0 s1 :
  explored h B st K P (l1 ++ [e]) s1 -> rtc istep s0 s1 -> dead_call B st e ->
  explored h B st K P l1 s0.
Proof.
  intros [(s & σ & Hs & Hit & Hcomp)|(C2 & r & p1 & p2 & Hr & Hp1 & Hret & Hs & HC2 & Hd)] Hsteps Hdead.
  - left. exists s, σ. split; [by etrans|done].
  - right. exists C2, r, p1, p2. split; [done|]. split; [done|]. split; [done|]. split; [by etrans|].
    split; [done|]. intros c Hc Hnc. destruct (decide (c = e)) as [->|]; [done|].
    apply Hd; [done|]. rewrite elem_of_app, list_elem_of_singleton. tauto.
Qed.

(** A call leads nowhere when the configuration after it is dead. *)
Lemma dead_call_after B st e n m mn st' B' :
  ns !! e = Some n -> n.(nmatch) = Some m -> ns !! m = Some mn ->
  model.(Step) st n.(nvalue) mn.(nvalue) = Ret (true, st') -> bitset_set B n.(nid) = Ret B' ->
  dead B' st' -> dead_call B st e.
Proof.
  intros Hn Hm Hmn Hstep HB' Hd n1 m1 mn1 st1 B1 Hn1 Hm1 Hmn1 Hs1 HB1.
  assert (n1 = n) as -> by congruence. assert (m1 = m) as -> by congruence.
  assert (mn1 = mn) as -> by congruence. rewrite Hstep in Hs1. rewrite HB' in HB1.
  injection Hs1 as <-. by injection HB1 as <-.
Qed.

Lemma cache_ok_push C P x (hh : Z) :
  cache_ok C P -> cache_ok (<[hh := bucket C hh ++ [x]]> C) (x :: P).
Proof.
  intros HC h' y [Hy|Hy]%bucket_insert.
  - apply elem_of_app in Hy as [Hy| ->%list_elem_of_singleton]; [|left; by left].
    destruct (HC _ _ Hy); [left; by right|by right].
  - destruct (HC _ _ Hy); [left; by right|by right].
Qed.

Lemma cache_ok_pop C P B st :
  dead B st -> cache_ok C ({| linearized := B; cstate := st |} :: P) -> cache_ok C P.
Proof.
  intros Hd HC hh x Hx. destruct (HC _ _ Hx) as [[->|?]%elem_of_cons|?]; [by right|by left|by right].
Qed.

Lemma explore k : forall B st, (length (rem B) <= k)%nat -> bs_ok B ->
  forall K h P C l1 l2, h.(hnodes) = ns -> linked h hd (rem B) -> rem B = l1 ++ l2 ->
  Forall is_call l1 -> l2 <> [] -> cache_ok C P -> path_le P B ->
  explored h B st K P l1 (mkSearch h (head l2) B C K st).
Proof.
  induction k as [|k IHk]; intros B st Hk HB K h P C l1 l2 Hns Hl Hrem Hc1 Hne HC HP.
  { rewrite Hrem, length_app in Hk. destruct l2; [done|]. cbn in Hk. lia. }
  revert C HC l1 Hrem Hc1. induction l2 as [|e l2 IHl]; intros C HC l1 Hrem Hc1; [done|].
  assert (e ∈ rem B) as [HeL He0]%elem_of_rem by (rewrite Hrem; apply elem_of_app; right; by left).
  destruct (ho_node Hist e HeL) as (n & Hn & Hpos).
  destruct (n.(nmatch)) as [m|] eqn:Hm.
  2:{ right. exists C, e, l1, l2. split; [done|]. split; [done|]. split; [by exists n|].
      split; [done|]. split; [done|]. intros c Hin Hnin. done. }
  destruct (skip_call h B C K st l1 e l2 n m HB Hns Hl Hrem Hn Hm)
    as (Hl2 & _ & _ & mn & Hmn & Htot & Hno & Hcached).
  assert (Hcall : is_call e) by (by exists n, m).
  assert (Hgo : forall C', cache_ok C' P -> dead_call B st e ->
    rtc istep (mkSearch h (Some e) B C K st) (mkSearch h (head l2) B C' K st) ->
    explored h B st K P l1 (mkSearch h (Some e) B C K st)).
  { intros C' HC' Hdead Hsteps. eapply explored_after; [|exact Hsteps|done].
    apply (IHl Hl2 C' HC' (l1 ++ [e])); [by rewrite <- app_assoc|].
    apply Forall_app. split; [done|]. by constructor. }
  destruct (Htot st) as [[ok st'] Hstep]. destruct ok.
  2:{ apply (Hgo C HC); [|apply rtc_once; by eapply Hno].
      intros n1 m1 mn1 st1 B1 Hn1 Hm1 Hmn1 Hs1 _. congruence. }
  destruct (try_call h B C K st l1 e l2 n m mn st' HB Hns Hl Hrem Hn Hm Hmn Hstep)
    as (B' & h' & C' & HB' & HBok & Hns' & Hl' & Hlt & Ht' & HC' & Hpush & Hpop).
  assert (test B n.(nid) = false) as Htest by (unfold nid_of in He0; by rewrite Hn in He0).
  pose proof (dead_call_after B st e n m mn st' B' Hn Hm Hmn Hstep HB') as Hdc.
  destruct (cacheContains C {| linearized := B'; cstate := st' |}) eqn:Hin.
  { apply (Hgo C HC); [|apply rtc_once; by eapply Hcached].
    apply Hdc. by eapply (cached_dead C P B e n). }
  specialize (Hpush eq_refl).
  assert (Hcomp : forall σ, completes B' st' σ -> completes B st (e :: σ)).
  { intros σ. eapply comp_cons; try done. split; [done|]. by exists l1, l2. }
  destruct (decide (rem B' = [])) as [Hnil|Hcons].
  { left. eexists _, [e]. split; [by apply rtc_once|]. split; [|by apply Hcomp, comp_nil].
    unfold iteration. cbn. rewrite Hnil in Hl'. cbn in Hl'. by rewrite Hl'. }
  destruct (IHk B' st' ltac:(lia) HBok (K ++ [(e, st)]) h' ({| linearized := B'; cstate := st' |} :: P) C' [] (rem B'))
    as [(s & σ & Hs & Hit & Hc)|(C1 & r & p1 & p2 & Hr & _ & Hret & Hs & HC1 & Hd)];
    [done..|constructor|done|rewrite HC'; by apply cache_ok_push| | |].
  - intros x q [->|Hx]%elem_of_cons Hq; cbn; [done|]. intros Htx. rewrite Ht' by done.
    destruct (q =? n.(nid)); [done|]. by eapply HP.
  - left. exists s, (e :: σ). split; [by eapply rtc_l|]. auto.
  - assert (Hdead : dead B' st').
    { eapply frame_dead; [done|done|]. intros c Hc. apply Hd; [done|]. apply not_elem_of_nil. }
    apply (Hgo C1); [by eapply cache_ok_pop|by apply Hdc|].
    eapply rtc_l; [exact Hpush|]. eapply rtc_r; [exact Hs|]. by eapply Hpop.
Qed.

Definition all_open (B : bitset) : Prop := forall q, test B q = false.

Lemma rem_all B : all_open B -> rem B = L0.
Proof.
  intros Ho. unfold rem. induction L0 as [|x l IH]; [done|]. rewrite filter_cons.
  rewrite decide_True by apply Ho. by rewrite IH.
Qed.

(** The whole search: it ends, and its answer is whether a linearization exists. *)
Lemma search_decides h B :
  h.(hnodes) = ns -> linked h hd L0 -> bs_ok B -> all_open B ->
  exists s b, rtc istep (mkSearch h (head L0) B ∅ [] model.(Init)) s /\
    iteration hd false s = Ret (inr b) /\
    (b = true <-> exists σ, completes B model.(Init) σ).
Proof.
  intros Hns Hl HB Ho. pose proof (rem_all B Ho) as Hrem.
  destruct (decide (L0 = [])) as [Hnil|Hne].
  { eexists _, true. split; [apply rtc_refl|]. split.
    - unfold iteration. cbn. rewrite (linked_cons _ _ _ Hl), Hnil. done.
    - split; [|done]. intros _. exists []. apply comp_nil. congruence. }
  destruct (explore (length (rem B)) B model.(Init) ltac:(lia) HB [] h [] ∅ [] L0)
    as [(s & σ & Hs & Hit & Hc)|(C & r & p1 & p2 & Hr & _ & Hret & Hs & _ & Hd)].
  - done.
  - by rewrite Hrem.
  - by rewrite Hrem.
  - constructor.
  - done.
  - intros hh e He. unfold bucket in He. rewrite lookup_empty in He. by apply not_elem_of_nil in He.
  - intros e q He. by apply not_elem_of_nil in He.
  - exists s, true. split; [done|]. split; [done|]. split; [|done]. eauto.
  - eexists _, false. split; [exact Hs|]. split.
    + destruct Hret as (nr & Hnr & Hmr). unfold iteration, get_node. cbn.
      rewrite (linked_cons _ _ _ Hl). destruct L0 as [|y l]; [done|]. cbn.
      rewrite Hns, Hnr. cbn. by rewrite Hmr.
    + split; [done|]. intros [σ Hσ]. exfalso. eapply (frame_dead B model.(Init) p1 r p2); [done|done| |done].
      intros c Hc. apply Hd; [done|]. apply not_elem_of_nil.
Qed.

(** Iterations and the loop. *)
Lemma search_loop_steps s s' b :
  rtc istep s s' -> iteration hd false s' = Ret (inr b) ->
  exists fuel0, forall fuel t, (fuel0 <= fuel)%nat ->
    search_loop fuel t (fun _ => false) hd s = Ret (Some b).
Proof.
  intros Hs Hit. induction Hs as [s|s s1 s' Hst Hs IH].
  - exists 1%nat. intros [|fuel] t Hf; [lia|]. cbn. rewrite Hit. done.
  - destruct (IH Hit) as [f0 Hf0]. exists (S f0). intros [|fuel] t Hf; [lia|].
    cbn [search_loop]. unfold istep in Hst. rewrite Hst. cbn. apply Hf0. lia.
Qed.
End correct.
End check.
