(* ===== verification/LinSpec.v ===== *)
(** * LinSpec: what the search decides

    A linearization is a sequence of the operations that is legal for the model
    and keeps the order of operations that do not overlap.  The search of
    LinCheck.v finds one exactly when there is one. *)

From S2P Require Import Prelude Bitset LinHeap LinCheck.
Local Open Scope Z_scope.

Section order.
Context {A : Type}.
Implicit Types (l : list A).

(** [x] comes before [y] in [l]. *)
Definition before l (x y : A) : Prop := exists a b, l = a ++ y :: b /\ x ∈ a.

Lemma before_split l q1 c q2 x :
  NoDup l -> l = q1 ++ c :: q2 -> before l x c <-> x ∈ q1.
Proof.
  intros Hnd ->. split; [|intros; by exists q1, q2].
  intros (a & b & E & Hx). by destruct (split_unique _ _ _ _ _ Hnd E) as [-> ->].
Qed.

Lemma filter_before (P : A -> Prop) `{!forall x, Decision (P x)} l q1 c q2 x :
  NoDup l -> filter P l = q1 ++ c :: q2 -> x ∈ q1 <-> (P x /\ before l x c).
Proof.
  intros Hnd E.
  assert (c ∈ filter P l) as [Pc Hc]%list_elem_of_filter
    by (rewrite E; apply elem_of_app; right; by left).
  apply list_elem_of_split in Hc as (a & b & ->).
  rewrite filter_app, filter_cons, decide_True in E by done.
  assert (NoDup (filter P a ++ c :: filter P b)) as Hnd'.
  { replace (filter P a ++ c :: filter P b) with (filter P (a ++ c :: b))
      by (by rewrite filter_app, filter_cons, decide_True). by apply NoDup_filter. }
  destruct (split_unique _ _ _ _ _ Hnd' E) as [<- _].
  rewrite list_elem_of_filter, (before_split _ a c b) by done. done.
Qed.
End order.

Section spec.
Context {State Val : Type} (model : Model State Val).
Context (ns : list (node Val)) (hd : nat) (L0 : list nat) (len0 : nat).
Context (Hist : history_ok model ns hd L0 len0).

Notation rem := (rem ns L0).
Notation is_call := (is_call ns).
Notation completes := (completes model ns L0).

(** The return of [x] comes before the call [y]. *)
Definition precedes (x y : nat) : Prop :=
  exists n m, ns !! x = Some n /\ n.(nmatch) = Some m /\ before L0 m y.

(** The operations of [σ] in this order are legal from [st]. *)
Inductive legal : State -> list nat -> Prop :=
| legal_nil st : legal st []
| legal_cons st c n m mn st' σ :
    ns !! c = Some n -> n.(nmatch) = Some m -> ns !! m = Some mn ->
    model.(Step) st n.(nvalue) mn.(nvalue) = Ret (true, st') -> legal st' σ -> legal st (c :: σ).

Global Instance is_call_dec x : Decision (is_call x).
Proof.
  unfold LinCheck.is_call. destruct (ns !! x) as [n|] eqn:E.
  - destruct (nmatch n) as [m|] eqn:Em; [left; eauto|right].
    intros (n' & m & E' & Em'). congruence.
  - right. intros (n' & m & E' & _). congruence.
Defined.

Record linearizes (B : bitset) (st : State) (σ : list nat) : Prop := {
  lz_perm : σ ≡ₚ filter is_call (rem B);
  lz_order : forall σ1 y σ2 x, σ = σ1 ++ y :: σ2 -> x ∈ rem B -> precedes x y -> x ∈ σ1;
  lz_legal : legal st σ;
}.

Lemma L0_nodup : NoDup L0.
Proof. pose proof (ho_nodup _ _ _ _ _ Hist) as H. by apply NoDup_cons in H as [_ ?]. Qed.

(** The return of an open operation is open. *)
Lemma return_open B x n m :
  x ∈ rem B -> ns !! x = Some n -> n.(nmatch) = Some m -> m ∈ rem B.
Proof.
  rewrite !elem_of_rem. intros [Hx Ho] Hn Hm.
  destruct (ho_op _ _ _ _ _ Hist x n m Hx Hn Hm) as [(n' & mn & Hn' & _ & Hmn & _ & Hid & _) (a & b & d & HL)].
  assert (n' = n) as -> by congruence. split.
  - rewrite HL, elem_of_app, elem_of_cons, elem_of_app, elem_of_cons. tauto.
  - unfold nid_of in *. rewrite Hn in Ho. by rewrite Hmn, Hid.
Qed.

(** What is left after a call, as sets. *)
Lemma rem_after B c n m B' x :
  bs_ok len0 B -> c ∈ rem B -> ns !! c = Some n -> n.(nmatch) = Some m ->
  bitset_set B n.(nid) = Ret B' ->
  bs_ok len0 B' /\ (x ∈ rem B' <-> x ∈ rem B /\ x <> c /\ x <> m) /\
  filter is_call (rem B) ≡ₚ c :: filter is_call (rem B').
Proof.
  intros HB Hc Hn Hm HB'. apply list_elem_of_split in Hc as (p1 & p2 & Hrem).
  destruct (rem_call model ns hd L0 len0 Hist B p1 c p2 n m HB Hrem Hn Hm)
    as (Hop & _ & B1 & l2 & l3 & HB1 & HBok & -> & Hrem' & _).
  assert (B1 = B') as -> by congruence. split; [done|].
  pose proof (rem_nodup model ns hd L0 len0 Hist B) as Hnd. apply NoDup_cons in Hnd as [_ Hnd].
  rewrite Hrem in Hnd. split.
  - rewrite Hrem, Hrem', !elem_of_app, elem_of_cons, elem_of_app, elem_of_cons.
    rewrite !NoDup_app, !NoDup_cons, NoDup_app, NoDup_cons in Hnd.
    destruct Hnd as (_ & H1 & H2 & _ & H3 & H4 & _).
    rewrite elem_of_app, elem_of_cons in H2.
    split; [|tauto]. intros Hx. split; [tauto|]. split; intros ->.
    + destruct Hx as [Hx|[Hx|Hx]]; [|tauto..]. apply (H1 c Hx). by left.
    + destruct Hx as [Hx|[Hx|Hx]]; [| |done].
      * apply (H1 m Hx). right. apply elem_of_app. right. by left.
      * apply (H3 m Hx). by left.
  - rewrite Hrem, Hrem', !filter_app, !filter_cons, !filter_app, !filter_cons.
    rewrite decide_True by (by exists n, m). rewrite decide_False.
    + apply Permutation_sym, Permutation_middle.
    + intros (mn & m' & Hmn & Hm'). destruct (oo_call _ _ _ _ _ _ Hop) as (? & mn' & _ & _ & Hmn' & ? & _).
      congruence.
Qed.

Lemma completes_linearizes B st σ :
  bs_ok len0 B -> completes B st σ -> linearizes B st σ.
Proof.
  intros HB Hc. induction Hc as [B st Hnil|B st c n m mn st' B' σ Hcand Hn Hm Hmn Hst HB' Hc IH].
  - split; [by rewrite Hnil|by intros [] ? ? ? ?|constructor].
  - destruct Hcand as [_ (q1 & q2 & Hrem & Hq1)].
    assert (c ∈ rem B) as HcB by (rewrite Hrem; apply elem_of_app; right; by left).
    destruct (rem_after B c n m B' c HB HcB Hn Hm HB') as (HBok & _ & Hperm).
    destruct (IH HBok) as [Hp Hord Hleg]. split.
    + by rewrite Hperm, Hp.
    + intros σ1 y σ2 x E Hx (nx & mx & Hnx & Hmx & Hbef).
      destruct σ1 as [|z σ1]; cbn in E; injection E as -> E.
      * exfalso. assert (mx ∈ q1) as Hin.
        { apply (filter_before (open ns B) L0 q1 y q2); [apply L0_nodup|done|]. split; [|done].
          by apply (proj2 (proj1 (elem_of_rem _ _ _ _) (return_open B x nx mx Hx Hnx Hmx))). }
        eapply Forall_forall in Hq1; [|done]. destruct Hq1 as (mn' & m' & Hmn' & Hm').
        apply elem_of_rem in Hx as [Hx _].
        destruct (oo_call _ _ _ _ _ _ (ho_op _ _ _ _ _ Hist x nx mx Hx Hnx Hmx))
          as (? & ? & _ & _ & ? & ? & _). congruence.
      * destruct (decide (x = z)) as [->|Hne]; [by left|right].
        eapply Hord; [done| |by exists nx, mx].
        apply (proj1 (proj2 (rem_after B z n m B' x HB HcB Hn Hm HB'))). split; [done|].
        split; [done|]. intros ->.
        destruct (oo_call _ _ _ _ _ _ (ho_op _ _ _ _ _ Hist z n m
          (proj1 (proj1 (elem_of_rem _ _ _ _) HcB)) Hn Hm)) as (? & ? & _ & _ & ? & ? & _). congruence.
    + by eapply legal_cons.
Qed.

Lemma linearizes_completes B st σ :
  bs_ok len0 B -> linearizes B st σ -> completes B st σ.
Proof.
  revert B st. induction σ as [|c σ IH]; intros B st HB [Hp Hord Hleg].
  - apply comp_nil. destruct (rem B) as [|x l] eqn:Hrem; [done|]. exfalso.
    assert (x ∈ rem B) as Hx by (rewrite Hrem; by left). pose proof Hx as [HxL _]%elem_of_rem.
    apply Permutation_nil_l in Hp.
    destruct (ho_node _ _ _ _ _ Hist x HxL) as (n & Hn & _). destruct (nmatch n) as [m|] eqn:Hm.
    + assert (x ∈ filter is_call (rem B)) as Hin
        by (apply list_elem_of_filter; split; [by exists n, m|done]).
      rewrite Hrem, <- Hp in Hin. by apply not_elem_of_nil in Hin.
    + destruct (ho_return _ _ _ _ _ Hist x n HxL Hn Hm) as (c & nc & HcL & Hnc & Hmc).
      assert (c ∈ filter is_call (rem B)) as Hin.
      { apply list_elem_of_filter. split; [by exists nc, x|]. apply elem_of_rem. split; [done|].
        destruct (oo_call _ _ _ _ _ _ (ho_op _ _ _ _ _ Hist c nc x HcL Hnc Hmc))
          as (n1 & n2 & H1 & _ & H2 & _ & H3 & _).
        assert (n1 = nc) as -> by congruence. assert (n2 = n) as -> by congruence.
        apply elem_of_rem in Hx as [_ Ho]. unfold nid_of in *. rewrite Hn in Ho. by rewrite Hnc, <- H3. }
      rewrite Hrem, <- Hp in Hin. by apply not_elem_of_nil in Hin.
  - inversion Hleg as [|? ? n m mn st' ? Hn Hm Hmn Hst Hleg']; subst.
    assert (c ∈ filter is_call (rem B)) as [_ HcB]%list_elem_of_filter by (rewrite <- Hp; by left).
    apply list_elem_of_split in HcB as (q1 & q2 & Hrem).
    assert (c ∈ rem B) as HcB by (rewrite Hrem; apply elem_of_app; right; by left).
    destruct (rem_call model ns hd L0 len0 Hist B q1 c q2 n m HB Hrem Hn Hm)
      as (_ & _ & B' & _ & _ & HB' & HBok & _).
    destruct (rem_after B c n m B' c HB HcB Hn Hm HB') as (_ & _ & Hperm).
    eapply comp_cons; [|done..|]; [|apply IH; [done|split; [| |done]]].
    + split; [by exists n, m|]. exists q1, q2. split; [done|]. apply Forall_forall. intros r Hr.
      assert (r ∈ rem B) as HrB by (rewrite Hrem; apply elem_of_app; by left).
      pose proof HrB as [HrL Hro]%elem_of_rem.
      destruct (ho_node _ _ _ _ _ Hist r HrL) as (nr & Hnr & _).
      destruct (nmatch nr) as [mr|] eqn:Hmr; [by exists nr, mr|]. exfalso.
      destruct (ho_return _ _ _ _ _ Hist r nr HrL Hnr Hmr) as (x & nx & HxL & Hnx & Hmx).
      apply (not_elem_of_nil x), (Hord [] c σ x eq_refl).
      * apply elem_of_rem. split; [done|].
        destruct (oo_call _ _ _ _ _ _ (ho_op _ _ _ _ _ Hist x nx r HxL Hnx Hmx))
          as (n1 & n2 & H1 & _ & H2 & _ & H3 & _).
        assert (n1 = nx) as -> by congruence. assert (n2 = nr) as -> by congruence.
        unfold nid_of in *. rewrite Hnr in Hro. by rewrite Hnx, <- H3.
      * exists nx, r. split; [done|]. split; [done|].
        by apply (filter_before (open ns B) L0 q1 c q2 r L0_nodup Hrem).
    + rewrite Hperm in Hp. by apply Permutation_cons_inv in Hp.
    + intros σ1 y σ2 x -> Hx Hpre.
      apply (proj1 (proj2 (rem_after B c n m B' x HB HcB Hn Hm HB'))) in Hx as (Hx & Hxc & _).
      assert (x ∈ c :: σ1) as [->|]%elem_of_cons by (eapply (Hord (c :: σ1)); done); done.
Qed.
End spec.
