(* ===== verification/LinHistory.v ===== *)
(** * LinHistory: from a history to the linked entries

    [makeEntries], [renumber], [convertEntries] and [makeLinkedEntries] of
    src/linearizability/linearizability.go, and the theorem that [checkSingle]
    on the linked entries of a well-formed history decides linearizability. *)

From S2P Require Import Prelude Bitset LinHeap LinCheck LinSpec.
Local Open Scope Z_scope.

Inductive entryKind := callEntry | returnEntry.

Global Instance entryKind_eq_dec : EqDecision entryKind.
Proof. solve_decision. Defined.

Record entry (Val : Type) := mkEntry { kind : entryKind; evalue : Val; eid : Z; etime : Z }.
Arguments mkEntry {_}. Arguments kind {_}. Arguments evalue {_}. Arguments eid {_}. Arguments etime {_}.

Section history.
Context {State Val : Type} (model : Model State Val) (nil : Val).
Implicit Types (es : list (entry Val)) (e : entry Val).

(** The loop of [makeEntries], before the sort. *)
Fixpoint makeEntries_from (id : Z) (history : list (Operation Val)) : list (entry Val) :=
  match history with
  | [] => []
  | elem :: history =>
      mkEntry callEntry elem.(Input) id elem.(CallTime)
      :: mkEntry returnEntry elem.(Output) id elem.(ReturnTime)
      :: makeEntries_from (id + 1) history
  end.

(** [sort.Sort(byTime(entries))] is a parameter: Go does not say where it puts
    entries with equal times. *)
Definition makeEntries (sort : list (entry Val) -> list (entry Val))
    (history : list (Operation Val)) : list (entry Val) :=
  sort (makeEntries_from 0 history).

(** The loop of [renumber]: the numbers given so far and the next one. *)
Fixpoint renumber_from (m : gmap Z Z) (id : Z) (events : list (Event Val)) : list (Event Val) :=
  match events with
  | [] => []
  | v :: events =>
      match m !! v.(Id) with
      | Some r => mkEvent v.(Kind) v.(Value) r :: renumber_from m id events
      | None => mkEvent v.(Kind) v.(Value) id :: renumber_from (<[v.(Id) := id]> m) (id + 1) events
      end
  end.

Definition renumber (events : list (Event Val)) : list (Event Val) := renumber_from ∅ 0 events.

Definition convertEntries (events : list (Event Val)) : list (entry Val) :=
  map (fun elem => mkEntry (match elem.(Kind) with ReturnEvent => returnEntry | CallEvent => callEntry end)
                     elem.(Value) elem.(Id) (-1)) events.

(** The body of the loop of [makeLinkedEntries], which goes from the last entry
    to the first: the heap, [root] and [match]. *)
Definition link_entry (elem : entry Val) (acc : heap Val * option nat * gmap Z nat)
    : heap Val * option nat * gmap Z nat :=
  let '(h, root, mt) := acc in
  match elem.(kind) with
  | returnEntry =>
      let '(h, a) := alloc {| nvalue := elem.(evalue); nmatch := None; nid := elem.(eid) |} h in
      (insertBefore a root h, Some a, <[elem.(eid) := a]> mt)
  | callEntry =>
      let '(h, a) := alloc {| nvalue := elem.(evalue); nmatch := mt !! elem.(eid);
                              nid := elem.(eid) |} h in
      (insertBefore a root h, Some a, mt)
  end.

Definition makeLinkedEntries (entries : list (entry Val)) : heap Val * option nat :=
  let '(h, root, _) := foldr link_entry (emptyHeap, None, ∅) entries in (h, root).

(** ** The linked list of a history *)

(** Entry [i] of [n] has address [n - 1 - i]. *)
Fixpoint addrs (n : nat) : list nat := match n with O => [] | S n => n :: addrs n end.

Fixpoint ret_addr (id : Z) es : option nat :=
  match es with
  | [] => None
  | e :: es =>
      if decide (e.(kind) = returnEntry /\ e.(eid) = id) then Some (length es) else ret_addr id es
  end.

Definition entry_node e es : node Val :=
  {| nvalue := e.(evalue);
     nmatch := match e.(kind) with callEntry => ret_addr e.(eid) es | returnEntry => None end;
     nid := e.(eid) |}.

Fixpoint entry_nodes es : list (node Val) :=
  match es with [] => [] | e :: es => entry_nodes es ++ [entry_node e es] end.

Lemma length_entry_nodes es : length (entry_nodes es) = length es.
Proof. induction es as [|e es IH]; cbn; [done|]. rewrite length_app, IH. cbn. lia. Qed.

(** [root] is the first node of the list [l], with nothing before it. *)
Definition chain (h : heap Val) (root : option nat) (l : list nat) : Prop :=
  match l with
  | [] => root = None
  | x :: l => root = Some x /\ h.(hprev) !! x = None /\ linked h x l
  end.

Lemma elem_of_addrs n x : x ∈ addrs n <-> (x < n)%nat.
Proof.
  induction n as [|n IH]; cbn; [rewrite elem_of_nil; lia|]. rewrite elem_of_cons, IH. lia.
Qed.

Lemma addrs_NoDup n : NoDup (addrs n).
Proof. induction n; cbn; constructor; [|done]. rewrite elem_of_addrs. lia. Qed.

Lemma lookup_addrs n i : (i < n)%nat -> addrs n !! i = Some (n - 1 - i)%nat.
Proof.
  revert i. induction n as [|n IH]; intros i Hi; [lia|]. destruct i as [|i]; cbn.
  - f_equal. lia.
  - rewrite IH by lia. f_equal. lia.
Qed.

Lemma insertBefore_chain h root n :
  chain h root (addrs n) -> (forall a, (n <= a)%nat -> h.(hnext) !! a = None /\ h.(hprev) !! a = None) ->
  let h' := insertBefore n root h in
  chain h' (Some n) (addrs (S n)) /\ h'.(hnodes) = h.(hnodes) /\
  (forall a, (S n <= a)%nat -> h'.(hnext) !! a = None /\ h'.(hprev) !! a = None).
Proof.
  intros Hc Hf. destruct n as [|n]; cbn in Hc |- *.
  - subst root. cbn. split; [|split; [done|intros; apply Hf; lia]].
    split; [done|]. split; apply Hf; lia.
  - destruct Hc as (-> & Hp & Hl). cbn. rewrite Hp. cbn.
    split; [|split; [done|]].
    + split; [done|]. split; [|split; [|split]].
      * rewrite lookup_partial_alter_ne by lia. apply Hf. lia.
      * by rewrite lookup_partial_alter_eq.
      * by rewrite lookup_partial_alter_eq.
      * eapply (linked_frame h); [| |done]; intros y Hy; cbn.
        -- rewrite lookup_partial_alter_ne; [done|]. intros <-.
           apply elem_of_cons in Hy as [?|?%elem_of_addrs]; lia.
        -- rewrite lookup_partial_alter_ne; [done|]. intros <-. apply elem_of_addrs in Hy. lia.
    + intros a Ha. rewrite !lookup_partial_alter_ne by lia. apply Hf. lia.
Qed.

Lemma link_entries_spec es :
  let '(h, root, mt) := foldr link_entry (emptyHeap, None, ∅) es in
  h.(hnodes) = entry_nodes es /\ chain h root (addrs (length es)) /\
  (forall a, (length es <= a)%nat -> h.(hnext) !! a = None /\ h.(hprev) !! a = None) /\
  (forall id, mt !! id = ret_addr id es).
Proof.
  induction es as [|e es IH]; cbn [foldr].
  - cbn. repeat split; intros; apply lookup_empty.
  - destruct (foldr link_entry _ es) as [[h root] mt]. destruct IH as (Hns & Hc & Hf & Hm).
    assert (Hal : forall n, chain (alloc n h).1 root (addrs (length es)) /\
      (forall a, (length es <= a)%nat -> (alloc n h).1.(hnext) !! a = None /\ (alloc n h).1.(hprev) !! a = None)).
    { intros n. split; [|done]. cbn. clear -Hc. destruct (addrs (length es)) as [|x l]; [done|].
      destruct Hc as (? & ? & ?). split; [done|]. split; [done|]. by apply (linked_frame h). }
    assert (Ha : length h.(hnodes) = length es) by (by rewrite Hns, length_entry_nodes).
    unfold link_entry. destruct (kind e) eqn:Hk; cbn [alloc]; rewrite Ha.
    + destruct (Hal (entry_node e es)) as [Hc' Hf'].
      destruct (insertBefore_chain _ _ _ Hc' Hf') as (H1 & H2 & H3).
      unfold entry_node in *. rewrite Hk in *. cbn [alloc fst] in *. rewrite Hm.
      split; [rewrite H2; cbn; unfold entry_node; by rewrite Hk, Hns|]. split; [done|]. split; [done|].
      intros id. cbn. rewrite decide_False by (rewrite Hk; by intros [? _]). apply Hm.
    + destruct (Hal (entry_node e es)) as [Hc' Hf'].
      destruct (insertBefore_chain _ _ _ Hc' Hf') as (H1 & H2 & H3).
      unfold entry_node in *. rewrite Hk in *. cbn [alloc fst] in *.
      split; [rewrite H2; cbn; unfold entry_node; by rewrite Hk, Hns|]. split; [done|]. split; [done|].
      intros id. cbn. destruct (decide (e.(eid) = id)) as [<-|Hne].
      * by rewrite lookup_insert_eq, decide_True.
      * rewrite lookup_insert_ne, decide_False by (done || by intros [_ ?]). apply Hm.
Qed.

Lemma lookup_entry_nodes es i e :
  es !! i = Some e -> entry_nodes es !! (length es - 1 - i)%nat = Some (entry_node e (drop (S i) es)).
Proof.
  revert i. induction es as [|x es IH]; intros i Hi; [done|]. destruct i as [|i]; cbn in *.
  - simplify_eq. rewrite Nat.sub_0_r, lookup_app_r by (rewrite length_entry_nodes; lia).
    rewrite length_entry_nodes. by replace (length es - 0 - length es)%nat with 0%nat by lia.
  - apply lookup_lt_Some in Hi as Hlt. specialize (IH i Hi).
    rewrite lookup_app_l by (rewrite length_entry_nodes; lia).
    by replace (length es - 0 - S i)%nat with (length es - 1 - i)%nat by lia.
Qed.

Lemma ret_addr_spec id es j e :
  es !! j = Some e -> e.(kind) = returnEntry -> e.(eid) = id ->
  (forall k e', es !! k = Some e' -> e'.(kind) = returnEntry -> e'.(eid) = id -> k = j) ->
  ret_addr id es = Some (length es - 1 - j)%nat.
Proof.
  revert j. induction es as [|x es IH]; intros j Hj Hk Hid Hu; [done|]. cbn [ret_addr length].
  destruct (decide (x.(kind) = returnEntry /\ x.(eid) = id)) as [[Hxk Hxi]|Hn].
  - rewrite <- (Hu 0%nat x eq_refl Hxk Hxi). f_equal. lia.
  - destruct j as [|j]; cbn in Hj; [by simplify_eq; destruct Hn|].
    rewrite (IH j Hj Hk Hid); [f_equal; lia|].
    intros k e' He' Hk' Hi'. specialize (Hu (S k) e' He' Hk' Hi'). lia.
Qed.

(** ** Well-formed histories *)

(** Every operation is a call and a later return with an id of its own, below
    the number of operations; [Step] does not panic on their values. *)
Record entries_ok es : Prop := {
  eo_ids : forall e, e ∈ es -> 0 <= e.(eid) < Z.of_nat (length es) / 2;
  eo_call : forall i e, es !! i = Some e -> e.(kind) = callEntry ->
    exists j e', (i < j)%nat /\ es !! j = Some e' /\ e'.(kind) = returnEntry /\ e'.(eid) = e.(eid) /\
      (forall k x, es !! k = Some x -> x.(eid) = e.(eid) -> k = i \/ k = j) /\
      (forall st, exists r, model.(Step) st e.(evalue) e'.(evalue) = Ret r);
  eo_return : forall j e', es !! j = Some e' -> e'.(kind) = returnEntry ->
    exists i e, es !! i = Some e /\ e.(kind) = callEntry /\ e.(eid) = e'.(eid);
}.

Lemma lookup_split2 {A} (l : list A) i j a b :
  (i < j)%nat -> l !! i = Some a -> l !! j = Some b -> exists l1 l2 l3, l = l1 ++ a :: l2 ++ b :: l3.
Proof.
  intros Hij Hi Hj. exists (take i l), (take (j - S i) (drop (S i) l)), (drop (S j) l).
  rewrite <- (take_drop_middle l i a Hi) at 1. f_equal. f_equal.
  assert (drop (S i) l !! (j - S i)%nat = Some b) as Hb.
  { rewrite lookup_drop. by replace (S i + (j - S i))%nat with j by lia. }
  rewrite <- (take_drop_middle _ _ _ Hb) at 1. rewrite drop_drop.
  by replace (S i + S (j - S i))%nat with (S j) by lia.
Qed.

Definition all_nodes es : list (node Val) := entry_nodes es ++ [headNode nil].

(** The address of entry [i], and the entry at an address. *)
Definition addr es (i : nat) : nat := (length es - 1 - i)%nat.

Lemma node_at es i e :
  es !! i = Some e -> all_nodes es !! addr es i = Some (entry_node e (drop (S i) es)).
Proof.
  intros Hi. unfold all_nodes. rewrite lookup_app_l; [by apply lookup_entry_nodes|].
  rewrite length_entry_nodes. apply lookup_lt_Some in Hi. unfold addr. lia.
Qed.

Lemma addr_index es x : x ∈ addrs (length es) ->
  exists i e, es !! i = Some e /\ x = addr es i.
Proof.
  intros Hx%elem_of_addrs. destruct (lookup_lt_is_Some_2 es (addr es x)) as [e He]; [unfold addr; lia|].
  exists (addr es x), e. split; [done|]. unfold addr. lia.
Qed.

Lemma addr_inj es i j e e' :
  es !! i = Some e -> es !! j = Some e' -> addr es i = addr es j -> i = j.
Proof. intros ?%lookup_lt_Some ?%lookup_lt_Some. unfold addr. lia. Qed.

(** A call and its return, as nodes. *)
Lemma call_node es i e :
  entries_ok es -> es !! i = Some e -> e.(kind) = callEntry ->
  exists j e', (i < j)%nat /\ es !! j = Some e' /\ e'.(kind) = returnEntry /\ e'.(eid) = e.(eid) /\
    (forall k x, es !! k = Some x -> x.(eid) = e.(eid) -> k = i \/ k = j) /\
    (forall st, exists r, model.(Step) st e.(evalue) e'.(evalue) = Ret r) /\
    all_nodes es !! addr es i = Some {| nvalue := e.(evalue); nmatch := Some (addr es j); nid := e.(eid) |} /\
    all_nodes es !! addr es j = Some {| nvalue := e'.(evalue); nmatch := None; nid := e.(eid) |}.
Proof.
  intros Hok Hi Hk. destruct (eo_call _ Hok i e Hi Hk) as (j & e' & Hij & Hj & Hk' & Hid & Hu & Hst).
  exists j, e'. repeat (split; [done|]). split.
  - rewrite (node_at _ _ _ Hi). unfold entry_node. rewrite Hk. do 2 f_equal.
    rewrite (ret_addr_spec e.(eid) (drop (S i) es) (j - S i)%nat e').
    + f_equal. rewrite length_drop. unfold addr. apply lookup_lt_Some in Hj. lia.
    + rewrite lookup_drop. by replace (S i + (j - S i))%nat with j by lia.
    + done.
    + done.
    + intros k x Hx Hkx Hix. rewrite lookup_drop in Hx. destruct (Hu _ _ Hx Hix); lia.
  - rewrite (node_at _ _ _ Hj). unfold entry_node. by rewrite Hk', Hid.
Qed.

Lemma return_node es j e' :
  es !! j = Some e' -> e'.(kind) = returnEntry ->
  all_nodes es !! addr es j = Some {| nvalue := e'.(evalue); nmatch := None; nid := e'.(eid) |}.
Proof. intros Hj Hk. rewrite (node_at _ _ _ Hj). unfold entry_node. by rewrite Hk. Qed.

Lemma nid_at es i e : es !! i = Some e -> nid_of (all_nodes es) (addr es i) = e.(eid).
Proof. intros Hi. unfold nid_of. by rewrite (node_at _ _ _ Hi). Qed.

Lemma entries_history es len0 :
  entries_ok es -> Z.of_nat (length es) / 2 <= 64 * Z.of_nat len0 ->
  history_ok model (all_nodes es) (length es) (addrs (length es)) len0.
Proof.
  intros Hok Hlen. split.
  - constructor; [rewrite elem_of_addrs; lia|apply addrs_NoDup].
  - intros x (i & e & Hi & ->)%addr_index. rewrite (node_at _ _ _ Hi). eexists. split; [done|].
    cbn. apply (eo_ids _ Hok). by eapply list_elem_of_lookup_2.
  - intros x n m (i & e & Hi & ->)%addr_index Hn Hm. destruct (kind e) eqn:Hk.
    + destruct (call_node es i e Hok Hi Hk)
        as (j & e' & Hij & Hj & Hk' & Hid & Hu & Hst & Hni & Hnj).
      rewrite Hni in Hn. injection Hn as <-. injection Hm as <-. split.
      * eexists _, _. split; [done|]. split; [done|]. split; [done|]. cbn. split; [done|].
        split; [done|]. split; [|split; [done|]].
        -- pose proof (eo_ids _ Hok e (list_elem_of_lookup_2 _ _ _ Hi)). lia.
        -- intros y ny (k & x & Hx & ->)%addr_index Hny Hidy.
           rewrite (node_at _ _ _ Hx) in Hny. injection Hny as <-. cbn in Hidy.
           destruct (Hu k x Hx Hidy) as [->| ->]; auto.
      * apply lookup_lt_Some in Hi as Hlti. apply lookup_lt_Some in Hj as Hltj.
        apply (lookup_split2 _ i j); [done|by apply lookup_addrs..].
    + rewrite (return_node _ _ _ Hi Hk) in Hn. injection Hn as <-. done.
  - intros r n (j & e' & Hj & ->)%addr_index Hn Hm. destruct (kind e') eqn:Hk.
    + destruct (call_node es j e' Hok Hj Hk) as (? & ? & _ & _ & _ & _ & _ & _ & Hnj & _).
      rewrite Hnj in Hn. injection Hn as <-. done.
    + destruct (eo_return _ Hok j e' Hj Hk) as (i & e & Hi & Hki & Hid).
      destruct (call_node es i e Hok Hi Hki)
        as (j' & e2 & _ & Hj' & Hk' & Hid' & Hu & _ & Hni & _).
      apply lookup_lt_Some in Hi as Hlt. exists (addr es i). eexists.
      split; [apply elem_of_addrs; unfold addr; lia|]. split; [done|]. cbn.
      destruct (Hu j e' Hj) as [->| ->]; [done| |done]. congruence.
Qed.

(** ** The search on a linked history *)

Lemma list_length_linked (h : heap Val) x l fuel :
  linked h x l -> (length l < fuel)%nat ->
  list_length fuel h (Some x) = Some (Z.of_nat (S (length l))).
Proof.
  revert x fuel. induction l as [|y l IH]; intros x [|fuel] Hl Hf; cbn in *; try lia.
  - rewrite Hl. by destruct fuel.
  - destruct Hl as (-> & _ & Hl). rewrite (IH y fuel Hl) by lia. cbn. f_equal. lia.
Qed.

Lemma search_start_spec es h root :
  makeLinkedEntries es = (h, root) ->
  exists h', search_start model nil h root
    = Ret (mkSearch h' (head (addrs (length es))) (newBitset (Z.of_nat (length es) / 2)) ∅ []
             model.(Init), length es) /\
    h'.(hnodes) = all_nodes es /\ linked h' (length es) (addrs (length es)).
Proof.
  unfold makeLinkedEntries. pose proof (link_entries_spec es) as Hs.
  destruct (foldr link_entry _ es) as [[h1 root1] mt]. intros [= -> ->].
  destruct Hs as (Hns & Hc & Hf & _).
  assert (Ha : length h.(hnodes) = length es) by (by rewrite Hns, length_entry_nodes).
  assert (Hroot : root = head (addrs (length es))).
  { destruct (addrs (length es)); [done|]. by destruct Hc. }
  assert (Hlen : list_length (length h.(hnodes)) h root = Some (Z.of_nat (length es))).
  { rewrite Ha, Hroot. destruct (length es) as [|n]; [done|]. cbn [addrs head].
    cbn in Hc. destruct Hc as (_ & _ & Hl).
    assert (length (addrs n) = n) as Hn by (clear; induction n; cbn; congruence).
    rewrite (list_length_linked h n (addrs n) (S n) Hl) by lia. by rewrite Hn. }
  unfold search_start. rewrite Hlen. cbn [mbind res_bind res_of_option alloc]. rewrite Ha.
  set (h1 := mkHeap (hnodes h ++ [headNode nil]) (hnext h) (hprev h)).
  destruct (insertBefore_chain h1 root (length es)) as (H1 & H2 & _).
  - clear -Hc. unfold chain in *. destruct (addrs (length es)); [done|].
    destruct Hc as (? & ? & ?). split; [done|]. split; [done|]. by apply (linked_frame h).
  - done.
  - exists (insertBefore (length es) root h1). cbn in H1. destruct H1 as (_ & _ & H1).
    split; [by rewrite Hroot|]. split; [|done]. rewrite H2. cbn. by rewrite Hns.
Qed.

Definition start_set es : bitset := newBitset (Z.of_nat (length es) / 2).

Lemma start_set_ok es :
  bs_ok (length (start_set es)) (start_set es) /\ all_open (start_set es) /\
  Z.of_nat (length es) / 2 <= 64 * Z.of_nat (length (start_set es)).
Proof.
  destruct (newBitset_spec (Z.of_nat (length es) / 2)) as (Hw & Hl & Ht); [apply Z.div_pos; lia|].
  split; [by split|]. split; [exact Ht|exact Hl].
Qed.

Lemma checkSingle_decides es h root :
  (forall s s', model.(Equal) s s' = true -> s = s') -> entries_ok es ->
  makeLinkedEntries es = (h, root) ->
  exists fuel0 b, (forall fuel, (fuel0 <= fuel)%nat ->
      checkSingle model nil fuel (fun _ => false) h root = Ret (Some b)) /\
    (b = true <-> exists σ, linearizes model (all_nodes es) (addrs (length es)) (start_set es)
                             model.(Init) σ).
Proof.
  intros Heq Hok Hmk. destruct (start_set_ok es) as (HB & Ho & Hlen).
  pose proof (entries_history es _ Hok Hlen) as Hist.
  destruct (search_start_spec es h root Hmk) as (h' & Hst & Hns & Hl).
  destruct (search_decides model (all_nodes es) (length es) (addrs (length es)) _ Hist Heq
              h' (start_set es) Hns Hl HB Ho) as (s & b & Hs & Hit & Hb).
  destruct (search_loop_steps model (length es) _ _ _ Hs Hit) as [fuel0 Hf].
  exists fuel0, b. split.
  - intros fuel Hfuel. unfold checkSingle. rewrite Hst. cbn. by apply Hf.
  - rewrite Hb. split; intros [σ Hσ]; exists σ.
    + by eapply completes_linearizes.
    + by eapply linearizes_completes.
Qed.

(** ** Linearizability of a history *)

Definition call_of es (a : Z) e : Prop := e ∈ es /\ e.(kind) = callEntry /\ e.(eid) = a.
Definition return_of es (a : Z) e : Prop := e ∈ es /\ e.(kind) = returnEntry /\ e.(eid) = a.

(** Executing the operations of [σ] one after the other gives the answers of
    the history. *)
Inductive explains es : State -> list Z -> Prop :=
| explains_nil st : explains es st []
| explains_cons st a e e' st' σ :
    call_of es a e -> return_of es a e' ->
    model.(Step) st e.(evalue) e'.(evalue) = Ret (true, st') ->
    explains es st' σ -> explains es st (a :: σ).

(** [σ] has every operation once, keeps the order of operations that do not
    overlap, and explains the answers. *)
Record linearization es (σ : list Z) : Prop := {
  ln_perm : σ ≡ₚ eid <$> filter (fun e => e.(kind) = callEntry) es;
  ln_order : forall i j e e', es !! i = Some e -> e.(kind) = returnEntry ->
    es !! j = Some e' -> e'.(kind) = callEntry -> (i < j)%nat -> before σ e.(eid) e'.(eid);
  ln_explains : explains es model.(Init) σ;
}.

Definition linearizable es : Prop := exists σ, linearization es σ.
End history.
