(* ===== verification/LinOps.v ===== *)
(** * LinOps: checking histories of operations (src/linearizability)

    The linearizations of a list of entries and of its linked nodes are the
    same, so the answer of [checkSingle] is whether the history is linearizable.

    The entries of a list of operations are well formed whatever the sort does
    with equal times, so [checkSingle] on them decides whether the operations
    can be put in one order that respects real time and the model.
    [CheckOperations] collects the answers of the partitions; [KvModel] is the
    key/value model of models.go. *)

From S2P Require Import Prelude Bitset LinHeap LinCheck LinSpec LinHistory.
From stdpp Require Import strings sorting.
Local Open Scope Z_scope.

Section main.
Context {State Val : Type} (model : Model State Val) (nil : Val).
Context (es : list (entry Val)) (Hok : entries_ok model es).

Notation ns := (all_nodes nil es).
Notation L0 := (addrs (length es)).
Notation is_call := (is_call ns).
Notation nid_of := (nid_of ns).

Lemma is_call_at i e : es !! i = Some e -> is_call (addr es i) <-> e.(kind) = callEntry.
Proof.
  intros Hi. split.
  - intros (n & m & Hn & Hm). destruct (kind e) eqn:Hk; [done|].
    rewrite (return_node nil _ _ _ Hi Hk) in Hn. by simplify_eq.
  - intros Hk. destruct (call_node model nil es i e Hok Hi Hk) as (j & e' & _ & _ & _ & _ & _ & _ & Hn & _).
    by eexists _, _.
Qed.

Lemma addr_in i e : es !! i = Some e -> addr es i ∈ L0.
Proof. intros Hi%lookup_lt_Some. apply elem_of_addrs. unfold addr. lia. Qed.

(** Node [x] stands for entry [e]. *)
Definition stands_for (x : nat) (e : entry Val) : Prop :=
  (is_call x <-> e.(kind) = callEntry) /\ nid_of x = e.(eid).

Lemma call_ids_of l l' :
  Forall2 stands_for l l' ->
  nid_of <$> filter is_call l = eid <$> filter (fun e => e.(kind) = callEntry) l'.
Proof.
  induction 1 as [|x e l l' [Hc Hid] _ IH]; [done|]. rewrite !filter_cons.
  destruct (decide (is_call x)), (decide (kind e = callEntry)); try tauto; cbn; by rewrite ?Hid, IH.
Qed.

(** The ids of the calls, in the order of the history. *)
Lemma call_ids :
  nid_of <$> filter is_call L0 = eid <$> filter (fun e => e.(kind) = callEntry) es.
Proof.
  apply call_ids_of, Forall2_same_length_lookup_2.
  - clear. induction (length es); cbn; congruence.
  - intros i x e Hx He. apply lookup_lt_Some in He as Hlt.
    rewrite lookup_addrs in Hx by done. injection Hx as <-.
    split; [by apply is_call_at|by apply nid_at].
Qed.

Lemma rem_start : rem ns L0 (start_set es) = L0.
Proof. apply rem_all. apply (start_set_ok es). Qed.

(** A call in the list, with its entries. *)
Lemma call_in x : x ∈ filter is_call L0 ->
  exists i j e e', x = addr es i /\ es !! i = Some e /\ e.(kind) = callEntry /\ (i < j)%nat /\
    es !! j = Some e' /\ e'.(kind) = returnEntry /\ e'.(eid) = e.(eid) /\
    (forall k y, es !! k = Some y -> y.(eid) = e.(eid) -> k = i \/ k = j) /\
    ns !! x = Some {| nvalue := e.(evalue); nmatch := Some (addr es j); nid := e.(eid) |} /\
    ns !! addr es j = Some {| nvalue := e'.(evalue); nmatch := None; nid := e.(eid) |}.
Proof.
  intros [Hc (i & e & Hi & ->)%addr_index]%list_elem_of_filter.
  apply (is_call_at i e Hi) in Hc as Hk.
  destruct (call_node model nil es i e Hok Hi Hk) as (j & e' & ? & ? & ? & ? & ? & _ & ? & ?).
  exists i, j, e, e'. split_and!; done.
Qed.

Lemma call_id_inj x y :
  x ∈ filter is_call L0 -> y ∈ filter is_call L0 -> nid_of x = nid_of y -> x = y.
Proof.
  intros (i & j & e & e' & -> & Hi & Hk & _ & Hj & Hk' & _ & Hu & _)%call_in.
  intros (i2 & _ & e2 & _ & -> & Hi2 & Hk2 & _)%call_in. rewrite (nid_at nil _ _ _ Hi), (nid_at nil _ _ _ Hi2).
  intros E. destruct (Hu i2 e2 Hi2) as [->| ->]; [done|done|]. exfalso. congruence.
Qed.

Lemma call_ids_nodup : NoDup (nid_of <$> filter is_call L0).
Proof.
  apply NoDup_fmap_2_strong; [|apply NoDup_filter, addrs_NoDup].
  intros x y Hx Hy. by apply call_id_inj.
Qed.

Lemma before_addr i j e e' :
  es !! i = Some e -> es !! j = Some e' -> before L0 (addr es i) (addr es j) <-> (i < j)%nat.
Proof.
  intros Hi Hj. apply lookup_lt_Some in Hi as Hlti. apply lookup_lt_Some in Hj as Hltj. split.
  - intros (a & b & E & Ha). apply list_elem_of_lookup in Ha as [k Hk].
    apply lookup_lt_Some in Hk as Hka.
    assert (L0 !! k = Some (addr es i)) as H1 by (rewrite E; by apply lookup_app_l_Some).
    assert (L0 !! length a = Some (addr es j)) as H2 by (rewrite E; by apply list_lookup_middle).
    apply lookup_lt_Some in H1 as Hk1. apply lookup_lt_Some in H2 as Hk2.
    assert (length L0 = length es) as HL by (clear; induction (length es); cbn; congruence).
    rewrite lookup_addrs in H1, H2 by lia. injection H1 as H1. injection H2 as H2.
    unfold addr in *. lia.
  - intros Hij. destruct (lookup_split2 L0 i j (addr es i) (addr es j)) as (l1 & l2 & l3 & E);
      [done|by apply lookup_addrs|by apply lookup_addrs|].
    exists (l1 ++ addr es i :: l2), l3. rewrite <- app_assoc. split; [done|].
    apply elem_of_app. right. by left.
Qed.

Lemma legal_explains st σ :
  (forall x, x ∈ σ -> x ∈ filter is_call L0) ->
  legal model ns st σ <-> explains model es st (nid_of <$> σ).
Proof.
  revert st. induction σ as [|x σ IH]; intros st Hin; cbn; [split; constructor|].
  destruct (call_in x) as (i & j & e & e' & Hxi & Hi & Hk & Hij & Hj & Hk' & Hid & Hu & Hn & Hm);
    [apply Hin; by left|].
  assert (nid_of x = e.(eid)) as Hnid by (rewrite Hxi; by apply nid_at).
  assert (forall y, y ∈ σ -> y ∈ filter is_call L0) as Hin' by (intros; apply Hin; by right).
  split; intros H.
  - inversion H as [|? c n m mn st' σ' Hn1 Hm1 Hmn1 Hst Hl]; subst; clear H.
    rewrite Hn in Hn1. injection Hn1 as <-. cbn in Hm1. injection Hm1 as <-.
    rewrite Hm in Hmn1. injection Hmn1 as <-. cbn in Hst. rewrite Hnid.
    eapply (explains_cons _ _ _ _ e e'); [| |done|by apply IH].
    + split; [by eapply list_elem_of_lookup_2|done].
    + split; [by eapply list_elem_of_lookup_2|done].
  - inversion H as [|? a c r st' σ' (Hc & Hck & Hci) (Hr & Hrk & Hri) Hst Hl]; subst; clear H.
    rewrite Hnid in Hci, Hri.
    apply list_elem_of_lookup in Hc as [k Hc]. apply list_elem_of_lookup in Hr as [k' Hr].
    destruct (Hu _ _ Hc Hci) as [->| ->]; [|congruence].
    destruct (Hu _ _ Hr Hri) as [->| ->]; [congruence|].
    assert (c = e) as -> by congruence. assert (r = e') as -> by congruence.
    eapply legal_cons; [done|done|done|done|by apply IH].
Qed.

(** The linearizations of the entries are those of the nodes. *)
Lemma linearizable_nodes :
  linearizable model es <->
  exists σ, linearizes model ns L0 (start_set es) model.(Init) σ.
Proof.
  split.
  - intros [τ [Hp Ho He]]. rewrite <- call_ids in Hp.
    apply Permutation_map_inv in Hp as (σ & -> & Hσ). change (map nid_of σ) with (nid_of <$> σ) in *.
    exists σ.
    assert (Hin : forall x, x ∈ σ -> x ∈ filter is_call L0) by (intros x Hx; by rewrite Hσ).
    split.
    + by rewrite rem_start, Hσ.
    + rewrite rem_start. intros σ1 y σ2 x -> HxL (n & m & Hn & Hm & Hb).
      assert (x ∈ filter is_call L0) as Hx by (apply list_elem_of_filter; split; [by exists n, m|done]).
      assert (y ∈ filter is_call L0) as Hy by (apply Hin, elem_of_app; right; by left).
      destruct (call_in x Hx) as (i & j & e & e' & Exi & Hi & Hk & _ & Hj & Hk' & Hid & _ & Hnx & _).
      rewrite Hnx in Hn. injection Hn as <-. cbn in Hm. injection Hm as <-.
      destruct (call_in y Hy) as (i2 & _ & e2 & _ & Eyi & Hi2 & Hk2 & _).
      rewrite Eyi in Hb. apply (before_addr j i2 e' e2 Hj Hi2) in Hb.
      destruct (Ho j i2 e' e2 Hj Hk' Hi2 Hk2 Hb) as (p & q & E & Hin2).
      rewrite Hid in Hin2. rewrite fmap_app in E. cbn in E.
      replace (nid_of y) with e2.(eid) in E by (rewrite Eyi; symmetry; by apply nid_at).
      assert (NoDup ((nid_of <$> σ1) ++ e2.(eid) :: (nid_of <$> σ2))) as Hnd.
      { rewrite E. pose proof call_ids_nodup as Hnd. rewrite Hσ in Hnd.
        rewrite fmap_app in Hnd. cbn in Hnd.
        replace (nid_of y) with e2.(eid) in Hnd by (rewrite Eyi; symmetry; by apply nid_at).
        by rewrite E in Hnd. }
      destruct (split_unique _ _ _ _ _ Hnd E) as [<- _].
      apply list_elem_of_fmap in Hin2 as (z & Ez & Hz).
      assert (x = z) as ->; [|done]. apply call_id_inj; [done|apply Hin, elem_of_app; by left|].
      rewrite <- Ez, Exi. by apply nid_at.
    + by apply legal_explains.
  - intros [σ [Hp Ho Hl]]. rewrite rem_start in Hp. exists (nid_of <$> σ).
    assert (Hin : forall x, x ∈ σ <-> x ∈ filter is_call L0) by (intros x; by rewrite Hp).
    split.
    + by rewrite <- call_ids, Hp.
    + intros j i2 e' e2 Hj Hk' Hi2 Hk2 Hlt.
      destruct (eo_return _ _ Hok j e' Hj Hk') as (i & e & Hi & Hk & Hid).
      assert (addr es i2 ∈ σ) as Hy.
      { apply Hin, list_elem_of_filter. split; [by apply (is_call_at i2 e2)|by eapply addr_in]. }
      apply list_elem_of_split in Hy as (σ1 & σ2 & ->).
      exists (nid_of <$> σ1), (nid_of <$> σ2). rewrite fmap_app. cbn.
      rewrite (nid_at nil _ _ _ Hi2). split; [done|].
      apply list_elem_of_fmap. exists (addr es i). split; [rewrite (nid_at nil _ _ _ Hi); congruence|].
      eapply Ho; [done| |].
      * rewrite rem_start. by eapply addr_in.
      * destruct (call_node model nil es i e Hok Hi Hk)
          as (j' & e1 & _ & Hj' & _ & _ & Hu & _ & Hn & _).
        eexists _, _. split; [done|]. split; [done|].
        destruct (Hu j e' Hj) as [->| ->]; [congruence|congruence|].
        by apply (before_addr j' i2 e' e2).
    + apply legal_explains; [by intros x ?%Hin|done].
Qed.
End main.

Section ops.
Context {State Val : Type} (model : Model State Val) (nil : Val).
Context (sort : list (entry Val) -> list (entry Val)).
Implicit Types (ops : list (Operation Val)).

(** What [sort.Sort(byTime(entries))] guarantees. *)
Definition sorts_by_time : Prop :=
  forall es, sort es ≡ₚ es /\ StronglySorted (fun a b => a.(etime) <= b.(etime)) (sort es).

Definition call_entry (id : Z) (o : Operation Val) : entry Val :=
  mkEntry callEntry o.(Input) id o.(CallTime).
Definition return_entry (id : Z) (o : Operation Val) : entry Val :=
  mkEntry returnEntry o.(Output) id o.(ReturnTime).

Lemma elem_of_makeEntries id0 ops e :
  e ∈ makeEntries_from id0 ops <->
  exists k o, ops !! k = Some o /\
    (e = call_entry (id0 + Z.of_nat k) o \/ e = return_entry (id0 + Z.of_nat k) o).
Proof.
  revert id0. induction ops as [|o ops IH]; intros id0; cbn.
  - rewrite elem_of_nil. split; [done|]. by intros (k & o & Hk & _).
  - rewrite !elem_of_cons, IH. split.
    + intros [->|[->|(k & o' & Hk & He)]].
      * exists 0%nat, o. split; [done|left]. by rewrite Z.add_0_r.
      * exists 0%nat, o. split; [done|right]. by rewrite Z.add_0_r.
      * exists (S k), o'. split; [done|]. by replace (id0 + Z.of_nat (S k)) with (id0 + 1 + Z.of_nat k) by lia.
    + intros ([|k] & o' & Hk & He); cbn in Hk.
      * simplify_eq. rewrite Z.add_0_r in He. tauto.
      * right; right. exists k, o'. split; [done|].
        by replace (id0 + 1 + Z.of_nat k) with (id0 + Z.of_nat (S k)) by lia.
Qed.

Lemma length_makeEntries id0 ops : length (makeEntries_from id0 ops) = (2 * length ops)%nat.
Proof. revert id0. induction ops as [|o ops IH]; intros; cbn; [done|]. rewrite IH. lia. Qed.

Definition entry_key (e : entry Val) : entryKind * Z := (e.(kind), e.(eid)).

Lemma makeEntries_NoDup id0 ops : NoDup (entry_key <$> makeEntries_from id0 ops).
Proof.
  revert id0. induction ops as [|o ops IH]; intros id0; cbn; [constructor|].
  assert (Hlow : forall k, (k, id0) ∉ entry_key <$> makeEntries_from (id0 + 1) ops).
  { intros k (e & E & (j & o' & _ & [->| ->])%elem_of_makeEntries)%list_elem_of_fmap;
      unfold entry_key in E; cbn in E; injection E as _ E; lia. }
  constructor; [|constructor; [apply Hlow|apply IH]].
  rewrite elem_of_cons. intros [E|?]; [done|by eapply Hlow].
Qed.

(** Operations that return after they are called, with values the model takes. *)
Definition ops_ok ops : Prop :=
  forall o, o ∈ ops -> o.(CallTime) < o.(ReturnTime) /\
    forall st, exists r, model.(Step) st o.(Input) o.(Output) = Ret r.

Lemma sorted_lookup (es : list (entry Val)) i j e e' :
  StronglySorted (fun a b => a.(etime) <= b.(etime)) es ->
  es !! i = Some e -> es !! j = Some e' -> e.(etime) < e'.(etime) -> (i < j)%nat.
Proof.
  intros Hs. revert i j. induction Hs as [|x es Hs IH Hx]; intros i j Hi Hj Hlt; [done|].
  destruct i as [|i], j as [|j]; cbn in Hi, Hj; simplify_eq; try lia.
  - exfalso. eapply Forall_lookup_1 in Hx; [|exact Hi]. lia.
  - specialize (IH i j Hi Hj Hlt). lia.
Qed.

Section sorted.
Context (Hsort : sorts_by_time) (ops : list (Operation Val)) (Hops : ops_ok ops).

Notation es := (makeEntries sort ops).

Lemma es_elem e : e ∈ es <-> exists k o, ops !! k = Some o /\
  (e = call_entry (Z.of_nat k) o \/ e = return_entry (Z.of_nat k) o).
Proof.
  unfold makeEntries. destruct (Hsort (makeEntries_from 0 ops)) as [Hp _].
  rewrite Hp, elem_of_makeEntries. by setoid_rewrite Z.add_0_l.
Qed.

(** An entry is determined by its kind and id. *)
Lemma es_unique i j e e' :
  es !! i = Some e -> es !! j = Some e' -> e.(kind) = e'.(kind) -> e.(eid) = e'.(eid) -> i = j.
Proof.
  intros Hi Hj Hk He. destruct (Hsort (makeEntries_from 0 ops)) as [Hp _].
  assert (NoDup (entry_key <$> es)) as Hnd by (unfold makeEntries; rewrite Hp; apply makeEntries_NoDup).
  eapply (NoDup_lookup _ i j (entry_key e) Hnd); rewrite list_lookup_fmap.
  - by rewrite Hi.
  - rewrite Hj. cbn. unfold entry_key. by rewrite Hk, He.
Qed.

Lemma es_lookup k o : ops !! k = Some o ->
  exists i j, es !! i = Some (call_entry (Z.of_nat k) o) /\
              es !! j = Some (return_entry (Z.of_nat k) o) /\ (i < j)%nat.
Proof.
  intros Hk. assert (call_entry (Z.of_nat k) o ∈ es) as Hc by (apply es_elem; eauto).
  assert (return_entry (Z.of_nat k) o ∈ es) as Hr by (apply es_elem; eauto).
  apply list_elem_of_lookup in Hc as [i Hi]. apply list_elem_of_lookup in Hr as [j Hj].
  exists i, j. split; [done|]. split; [done|].
  destruct (Hsort (makeEntries_from 0 ops)) as [_ Hs].
  eapply (sorted_lookup es); [exact Hs|done|done|]. cbn.
  apply (Hops o). by eapply list_elem_of_lookup_2.
Qed.

Lemma makeEntries_ok : entries_ok model es.
Proof.
  split.
  - intros e (k & o & Hk & He)%es_elem. unfold makeEntries.
    destruct (Hsort (makeEntries_from 0 ops)) as [Hp _]. rewrite Hp, length_makeEntries.
    replace (Z.of_nat (2 * length ops)) with (Z.of_nat (length ops) * 2) by lia.
    rewrite Z.div_mul by lia. apply lookup_lt_Some in Hk. destruct He as [->| ->]; cbn; lia.
  - intros i e Hi Hk. assert (e ∈ es) as He by (by eapply list_elem_of_lookup_2).
    apply es_elem in He as (k & o & Hko & [->| ->]); [|done].
    destruct (es_lookup k o Hko) as (i' & j & Hi' & Hj & Hij).
    assert (i' = i) as -> by (by eapply es_unique).
    exists j, (return_entry (Z.of_nat k) o). split; [done|]. split; [done|]. split; [done|].
    split; [done|]. split.
    + intros x y Hx Hxy. destruct (kind y) eqn:Hky; [left|right]; by eapply es_unique.
    + cbn. apply (Hops o). by eapply list_elem_of_lookup_2.
  - intros j e' Hj Hk. assert (e' ∈ es) as He by (by eapply list_elem_of_lookup_2).
    apply es_elem in He as (k & o & Hko & [->| ->]); [done|].
    destruct (es_lookup k o Hko) as (i & _ & Hi & _). by exists i, (call_entry (Z.of_nat k) o).
Qed.

(** ** Linearizations of operations *)

(** The operations with the numbers of [σ], one after the other, give the
    recorded outputs. *)
Inductive op_explains : State -> list Z -> Prop :=
| op_explains_nil st : op_explains st []
| op_explains_cons st k o st' σ :
    ops !! k = Some o -> model.(Step) st o.(Input) o.(Output) = Ret (true, st') ->
    op_explains st' σ -> op_explains st (Z.of_nat k :: σ).

Record op_linearization (σ : list Z) : Prop := {
  ol_perm : σ ≡ₚ Z.of_nat <$> seq 0 (length ops);
  ol_order : forall a b oa ob, ops !! a = Some oa -> ops !! b = Some ob ->
    oa.(ReturnTime) < ob.(CallTime) -> before σ (Z.of_nat a) (Z.of_nat b);
  ol_explains : op_explains model.(Init) σ;
}.

Lemma es_call_ids : eid <$> filter (fun e => e.(kind) = callEntry) es ≡ₚ Z.of_nat <$> seq 0 (length ops).
Proof.
  unfold makeEntries. destruct (Hsort (makeEntries_from 0 ops)) as [Hp _]. rewrite Hp.
  assert (H : forall id0, eid <$> filter (fun e => e.(kind) = callEntry) (makeEntries_from id0 ops)
     = (fun k => id0 + Z.of_nat k) <$> seq 0 (length ops)).
  { clear. induction ops as [|o l IH]; intros id0; [done|]. cbn [makeEntries_from].
    rewrite filter_cons, decide_True, filter_cons, decide_False by done. cbn. rewrite IH.
    f_equal; [lia|]. rewrite <- fmap_S_seq, <- list_fmap_compose. apply list_fmap_ext.
    intros i k _. cbn. lia. }
  by rewrite H.
Qed.

Lemma explains_ops st σ : explains model es st σ <-> op_explains st σ.
Proof.
  split.
  - induction 1 as [|st a e e' st' σ (He & Hk & Ha) (He' & Hk' & Ha') Hst _ IH]; [constructor|].
    apply es_elem in He as (k & o & Hko & [->| ->]); [|done]. cbn in *. subst a.
    apply es_elem in He' as (k' & o' & Hko' & [->| ->]); [done|]. cbn in *.
    apply Nat2Z.inj in Ha' as ->. simplify_eq. by eapply op_explains_cons.
  - induction 1 as [|st k o st' σ Hko Hst _ IH]; [constructor|].
    eapply (explains_cons _ _ _ _ (call_entry (Z.of_nat k) o) (return_entry (Z.of_nat k) o)).
    + split; [apply es_elem; eauto|done].
    + split; [apply es_elem; eauto|done].
    + done.
    + done.
Qed.

Lemma linearization_ops σ : linearization model es σ -> op_linearization σ.
Proof.
  intros [Hp Ho He]. split.
  - by rewrite Hp, es_call_ids.
  - intros a b oa ob Ha Hb Hlt. destruct (es_lookup a oa Ha) as (_ & j & _ & Hj & _).
    destruct (es_lookup b ob Hb) as (i & _ & Hi & _).
    apply (Ho j i _ _ Hj eq_refl Hi eq_refl).
    destruct (Hsort (makeEntries_from 0 ops)) as [_ Hs]. by eapply (sorted_lookup es).
  - by apply explains_ops.
Qed.

Lemma ops_linearization σ :
  (forall a b, a ∈ ops -> b ∈ ops -> a.(ReturnTime) <> b.(CallTime)) ->
  op_linearization σ -> linearization model es σ.
Proof.
  intros Hne [Hp Ho He]. split.
  - by rewrite Hp, es_call_ids.
  - intros i j e e' Hi Hk Hj Hk' Hij.
    pose proof (list_elem_of_lookup_2 _ _ _ Hi) as (a & oa & Ha & [->| ->])%es_elem; [done|].
    pose proof (list_elem_of_lookup_2 _ _ _ Hj) as (b & ob & Hb & [->| ->])%es_elem; [|done].
    cbn. apply (Ho a b oa ob Ha Hb).
    destruct (Z_lt_le_dec oa.(ReturnTime) ob.(CallTime)) as [|Hle]; [done|]. exfalso.
    assert (ob.(CallTime) <> oa.(ReturnTime)) as Hd.
    { intros E. by apply (Hne oa ob); [by eapply list_elem_of_lookup_2..|]. }
    destruct (Hsort (makeEntries_from 0 ops)) as [_ Hs].
    assert (j < i)%nat; [|lia]. eapply (sorted_lookup es); [exact Hs|done|done|]. cbn. lia.
  - by apply explains_ops.
Qed.
End sorted.
End ops.
