(* ===== verification/LinKv.v ===== *)
(** * LinKv: CheckOperations and the key/value model

    [CheckOperations] starts one search per partition and collects the answers
    in the order they arrive (src/linearizability/linearizability.go); the
    key/value model partitions a history by key (models.go). *)

From S2P Require Import Prelude Bitset LinHeap LinCheck LinSpec LinHistory LinOps.
From stdpp Require Import strings sorting.
Local Open Scope Z_scope.

(** ** Defaults of a model (model.go) *)

Definition NoPartition {Val} (history : list (Operation Val)) : res (list (list (Operation Val))) :=
  Ret [history].
Definition NoPartitionEvent {Val} (history : list (Event Val)) : res (list (list (Event Val))) :=
  Ret [history].
Definition ShallowEqual {State} `{EqDecision State} (s1 s2 : State) : bool := bool_decide (s1 = s2).

Section check.
Context {State Val : Type} (model : Model State Val) (nil : Val).
Context (sort : list (entry Val) -> list (entry Val)).

(** The goroutine of one partition; nobody has set the kill flag. *)
Definition check_part (fuel : nat) (sub : list (Operation Val)) : res (option bool) :=
  let '(h, root) := makeLinkedEntries (makeEntries sort sub) in
  checkSingle model nil fuel (fun _ => false) h root.

(** The answers in the order [arrival] of the partitions; a search that has not
    ended after [fuel] iterations sends nothing. *)
Fixpoint answers (fuel : nat) (parts : list (list (Operation Val))) (arrival : list nat)
    : res (list bool) :=
  match arrival with
  | [] => Ret []
  | i :: arrival =>
      sub ← res_of_option (parts !! i);
      r ← check_part fuel sub;
      rs ← answers fuel parts arrival;
      Ret (match r with Some b => b :: rs | None => rs end)
  end.

(** The receive loop without a timeout; [None] when it waits for ever. *)
Fixpoint collect (partitions count : nat) (results : list bool) : option bool :=
  match results with
  | [] => None
  | result :: results =>
      if negb result then Some false
      else if (partitions <=? count + 1)%nat then Some true
      else collect partitions (count + 1) results
  end.

Definition CheckOperations (fuel : nat) (arrival : list nat) (history : list (Operation Val))
    : res (option bool) :=
  parts ← model.(Partition) history;
  rs ← answers fuel parts arrival;
  Ret (collect (length parts) 0 rs).

Lemma collect_all n count bs :
  (count + length bs = n)%nat -> bs <> [] -> collect n count bs = Some (forallb id bs).
Proof.
  revert count. induction bs as [|b bs IH]; intros count Hn Hne; [done|]. cbn in *.
  destruct b; cbn; [|done]. destruct (Nat.leb_spec n (count + 1)).
  - destruct bs; [done|]. cbn in Hn. lia.
  - apply IH; [lia|]. destruct bs; [cbn in *; lia|done].
Qed.

Context (Hsort : sorts_by_time sort).
Context (Heq : forall s s', model.(Equal) s s' = true -> s = s').

Lemma check_part_spec sub :
  ops_ok model sub ->
  exists fuel0 b, (forall fuel, (fuel0 <= fuel)%nat -> check_part fuel sub = Ret (Some b)) /\
    (b = true <-> linearizable model (makeEntries sort sub)).
Proof.
  intros Hok. pose proof (makeEntries_ok model sort Hsort sub Hok) as He.
  unfold check_part. destruct (makeLinkedEntries (makeEntries sort sub)) as [h root] eqn:Hmk.
  destruct (checkSingle_decides model nil (makeEntries sort sub) h root Heq He Hmk)
    as (fuel0 & b & Hf & Hb).
  exists fuel0, b. split; [done|]. rewrite Hb. symmetry. by apply linearizable_nodes.
Qed.

Lemma answers_spec parts arrival :
  (forall sub, sub ∈ parts -> ops_ok model sub) ->
  (forall i, i ∈ arrival -> (i < length parts)%nat) ->
  exists fuel0 bs, (forall fuel, (fuel0 <= fuel)%nat -> answers fuel parts arrival = Ret bs) /\
    length bs = length arrival /\
    (forallb id bs = true <-> forall i sub, i ∈ arrival -> parts !! i = Some sub ->
       linearizable model (makeEntries sort sub)).
Proof.
  intros Hok. induction arrival as [|i arrival IH]; intros Hin.
  { exists 0%nat, []. split; [done|]. split; [done|]. split; [|done]. intros _ i sub Hi.
    by apply not_elem_of_nil in Hi. }
  destruct IH as (f1 & bs & Hbs & Hlen & Hall); [intros; apply Hin; by right|].
  destruct (lookup_lt_is_Some_2 parts i) as [sub Hsub]; [apply Hin; by left|].
  destruct (check_part_spec sub) as (f2 & b & Hb & Hlin); [by eapply Hok, list_elem_of_lookup_2|].
  exists (max f1 f2), (b :: bs). split; [|split].
  - intros fuel Hf. cbn. rewrite Hsub. cbn. rewrite Hb by lia. cbn. by rewrite Hbs by lia.
  - cbn. by rewrite Hlen.
  - cbn. rewrite andb_true_iff, Hall. unfold id. rewrite Hlin. split.
    + intros [H1 H2] j s [->|Hj]%elem_of_cons Hs; [by simplify_eq|by eapply H2].
    + intros H. split; [eapply H; [by left|done]|]. intros j s Hj. apply H. by right.
Qed.
End check.

(** ** The key/value model *)

Record KvInput := { kvOp : Z; kvKey : string; kvValue : string }.
Record KvOutput := { kvResult : string }.

(** The values an [interface{}] of a key/value history can hold. *)
Inductive KvVal := VNil | VIn (i : KvInput) | VOut (o : KvOutput).

Abbreviation KvOperation := (Operation KvVal).

(** The loop of [Partition]: [m[key] = append(m[key], v)]. *)
Fixpoint kv_partition_from (m : gmap string (list KvOperation)) (history : list KvOperation)
    : res (gmap string (list KvOperation)) :=
  match history with
  | [] => Ret m
  | v :: history =>
      match v.(Input) with
      | VIn i => kv_partition_from (<[i.(kvKey) := default [] (m !! i.(kvKey)) ++ [v]]> m) history
      | _ => Panic
      end
  end.

(** Go ranges over the map in any order. *)
Definition kv_partition (history : list KvOperation) : res (list (list KvOperation)) :=
  m ← kv_partition_from ∅ history;
  Ret (snd <$> map_to_list m).

Definition kv_step (st : string) (input output : KvVal) : res (bool * string) :=
  match input, output with
  | VIn inp, VOut out =>
      if inp.(kvOp) =? 0 then Ret (bool_decide (out.(kvResult) = st), st)
      else if inp.(kvOp) =? 1 then Ret (true, inp.(kvValue))
      else Ret (true, st +:+ inp.(kvValue))
  | _, _ => Panic
  end.

Definition KvModel : Model string KvVal :=
  {| Partition := kv_partition; PartitionEvent := NoPartitionEvent; Init := "";
     Step := kv_step; Equal := ShallowEqual |}.

(** *** Partition by key *)

Definition op_key (o : KvOperation) : option string :=
  match o.(Input) with VIn i => Some i.(kvKey) | _ => None end.

Definition of_key (k : string) (history : list KvOperation) : list KvOperation :=
  filter (fun o => op_key o = Some k) history.

Lemma kv_partition_from_spec m history m' seen :
  kv_partition_from m history = Ret m' ->
  (forall k, m !! k = match of_key k seen with [] => None | l => Some l end) ->
  forall k, m' !! k = match of_key k (seen ++ history) with [] => None | l => Some l end.
Proof.
  revert m seen. induction history as [|v history IH]; intros m seen E Hm k; cbn in E.
  - inv_res. by rewrite app_nil_r.
  - destruct (Input v) as [|i|] eqn:Hi; [done| |done].
    rewrite cons_middle, app_assoc. eapply IH; [exact E|]. clear k. intros k.
    unfold of_key. rewrite filter_app, filter_cons.
    assert (op_key v = Some i.(kvKey)) as Hk by (unfold op_key; by rewrite Hi).
    destruct (decide (k = i.(kvKey))) as [->|Hne].
    + rewrite lookup_insert_eq, Hm, decide_True by done. unfold of_key.
      destruct (filter _ seen) as [|x l]; done.
    + rewrite lookup_insert_ne, Hm, decide_False by congruence. cbn. by rewrite app_nil_r.
Qed.

Lemma kv_partition_spec history parts :
  kv_partition history = Ret parts ->
  exists keys, NoDup keys /\ parts = (fun k => of_key k history) <$> keys /\
    forall k, k ∈ keys <-> of_key k history <> [].
Proof.
  unfold kv_partition. intros E. bind_inv E. inv_res.
  pose proof (kv_partition_from_spec ∅ history x [] E0) as Hx. specialize (Hx ltac:(intros; by rewrite lookup_empty)).
  cbn [app] in Hx. exists (map_to_list x).*1. split; [apply NoDup_fst_map_to_list|]. split.
  - rewrite <- list_fmap_compose. apply list_fmap_ext. intros i [k l] Hkl. cbn.
    apply list_elem_of_lookup_2, elem_of_map_to_list in Hkl. rewrite Hx in Hkl.
    by destruct (of_key k history); simplify_eq.
  - intros k. rewrite list_elem_of_fmap. split.
    + intros ([k' l] & -> & Hkl%elem_of_map_to_list). cbn. rewrite Hx in Hkl.
      by destruct (of_key k' history).
    + intros Hne. destruct (of_key k history) as [|o l] eqn:Ho; [done|].
      exists (k, o :: l). split; [done|]. apply elem_of_map_to_list. by rewrite Hx, Ho.
Qed.

(** ** The guarantees of the checker *)

Section theorems.
Context {State Val : Type} (model : Model State Val) (nil : Val).
Context (Heq : forall s s', model.(Equal) s s' = true -> s = s').

(** C22. [checkSingle] decides linearizability: on the linked entries of every
    well-formed history the search ends (some number of iterations is enough, and
    more do not change the answer), never follows a nil pointer, and answers
    true exactly when some sequence of the operations respects the order of
    non-overlapping operations and gives the recorded outputs.  This covers the
    cache, the bitset and the in-place unlinking of the history. *)
Theorem checkSingle_decides_linearizability (es : list (entry Val)) h root :
  entries_ok model es -> makeLinkedEntries es = (h, root) ->
  exists fuel0 b, (forall fuel, (fuel0 <= fuel)%nat ->
      checkSingle model nil fuel (fun _ => false) h root = Ret (Some b)) /\
    (b = true <-> linearizable model es).
Proof.
  intros Hok Hmk. destruct (checkSingle_decides model nil es h root Heq Hok Hmk)
    as (fuel0 & b & Hf & Hb). exists fuel0, b. split; [done|]. rewrite Hb. symmetry.
  by apply linearizable_nodes.
Qed.

Lemma CheckOperations_decides sort arrival (history : list (Operation Val)) parts :
  sorts_by_time sort -> model.(Partition) history = Ret parts -> parts <> [] ->
  (forall sub, sub ∈ parts -> ops_ok model sub) -> arrival ≡ₚ seq 0 (length parts) ->
  exists fuel0 b, (forall fuel, (fuel0 <= fuel)%nat ->
      CheckOperations model nil sort fuel arrival history = Ret (Some b)) /\
    (b = true <-> forall sub, sub ∈ parts -> linearizable model (makeEntries sort sub)).
Proof.
  intros Hsort Hp Hne Hok Harr.
  destruct (answers_spec model nil sort Hsort Heq parts arrival Hok) as (fuel0 & bs & Hf & Hlen & Hall).
  { intros i Hi. rewrite Harr in Hi. apply elem_of_seq in Hi. lia. }
  exists fuel0, (forallb id bs).
  assert (length bs = length parts) as Hbs by (rewrite Hlen, Harr; apply length_seq). split.
  - intros fuel Hfuel. unfold CheckOperations. rewrite Hp. cbn. rewrite Hf by done. cbn.
    rewrite collect_all; [done|lia|]. destruct bs, parts; done.
  - rewrite Hall. split.
    + intros H sub Hsub. apply list_elem_of_lookup in Hsub as [i Hi]. eapply H; [|exact Hi].
      rewrite Harr. apply elem_of_seq. apply lookup_lt_Some in Hi. lia.
    + intros H i sub _ Hi. apply H. by eapply list_elem_of_lookup_2.
Qed.

(** [CheckOperations] on a history with at least one partition ends, and
    answers true exactly when every partition is linearizable, in whatever order
    the searches answer. *)
Theorem CheckOperations_correct sort arrival (history : list (Operation Val)) parts :
  sorts_by_time sort -> model.(Partition) history = Ret parts -> parts <> [] ->
  (forall sub, sub ∈ parts -> ops_ok model sub) -> arrival ≡ₚ seq 0 (length parts) ->
  exists fuel0 b, (forall fuel, (fuel0 <= fuel)%nat ->
      CheckOperations model nil sort fuel arrival history = Ret (Some b)) /\
    (b = true <-> forall sub, sub ∈ parts -> linearizable model (makeEntries sort sub)).
Proof. apply CheckOperations_decides. Qed.

(** The entries of operations keep their meaning: a linearization of the
    sorted entries is an order of the operations that respects real time (an
    operation that returned before another was called comes first), whatever
    the sort does with equal times; when no return has the time of a call, the
    two notions are the same. *)
Theorem makeEntries_keeps_order sort (ops : list (Operation Val)) σ :
  sorts_by_time sort -> ops_ok model ops ->
  entries_ok model (makeEntries sort ops) /\
  (linearization model (makeEntries sort ops) σ -> op_linearization model ops σ) /\
  ((forall a b, a ∈ ops -> b ∈ ops -> a.(ReturnTime) <> b.(CallTime)) ->
   op_linearization model ops σ -> linearization model (makeEntries sort ops) σ).
Proof.
  intros Hs Ho. split; [by apply makeEntries_ok|]. split.
  - by apply linearization_ops.
  - by apply ops_linearization.
Qed.
End theorems.

(** The key/value model partitions a history by key: there is one partition
    per key that occurs, it has the operations on that key in the order of the
    history, and no operation is lost. *)
Theorem kv_partition_by_key history parts :
  kv_partition history = Ret parts ->
  (exists keys, NoDup keys /\ parts = (fun k => of_key k history) <$> keys /\
     forall k, k ∈ keys <-> of_key k history <> []) /\
  (forall o, o ∈ history -> exists sub, sub ∈ parts /\ o ∈ sub).
Proof.
  intros E. destruct (kv_partition_spec history parts E) as (keys & Hnd & -> & Hk).
  split; [by exists keys|]. intros o Ho.
  assert (Hkey : exists k, op_key o = Some k).
  { clear -E Ho. unfold kv_partition in E. bind_inv E. clear E. revert E0. generalize (∅ : gmap string (list KvOperation)).
    induction history as [|v l IH]; intros m E; [by apply not_elem_of_nil in Ho|]. cbn in E.
    destruct (Input v) as [|i|] eqn:Hi; [done| |done]. apply elem_of_cons in Ho as [->|Ho].
    - exists i.(kvKey). unfold op_key. by rewrite Hi.
    - by eapply IH. }
  destruct Hkey as [k Hok]. assert (o ∈ of_key k history) as Hin by (by apply list_elem_of_filter).
  exists (of_key k history). split; [|done]. apply list_elem_of_fmap. exists k. split; [done|].
  apply Hk. intros E'. rewrite E' in Hin. by apply not_elem_of_nil in Hin.
Qed.

(** [CheckOperations] on an empty history never answers with the key/value
    model: there is no partition, so nothing is ever sent on the channel the
    loop receives from. *)
Theorem empty_history_blocks sort fuel :
  CheckOperations KvModel VNil sort fuel [] [] = Ret None.
Proof. vm_compute. reflexivity. Qed.

(** ** A history of three operations *)

Definition time_le (a b : entry KvVal) : Prop := a.(etime) <= b.(etime).

Global Instance time_le_dec a b : Decision (time_le a b).
Proof. unfold time_le. apply _. Defined.

Global Instance time_le_trans : Transitive time_le.
Proof. intros a b c. apply Z.le_trans. Qed.

Global Instance time_le_total : Total time_le.
Proof. intros a b. apply Z.le_ge_cases. Qed.

Definition time_sort : list (entry KvVal) -> list (entry KvVal) := merge_sort time_le.

Lemma time_sort_sorts : sorts_by_time time_sort.
Proof.
  intros es. split; [apply merge_sort_Permutation|].
  apply (StronglySorted_merge_sort time_le).
Qed.

Definition kv_op (op : Z) (k v : string) (call : Z) (out : string) (ret : Z) : KvOperation :=
  mkOperation (VIn {| kvOp := op; kvKey := k; kvValue := v |}) call
    (VOut {| kvResult := out |}) ret.

(** A put and an append that overlap, and a read of the result of both. *)
Definition demo_history : list KvOperation :=
  [kv_op 2 "k" "y" 0 "" 10; kv_op 1 "k" "x" 5 "" 15; kv_op 0 "k" "" 20 "xy" 30].

Lemma kv_equal_sound : forall s s' : string, KvModel.(Equal) s s' = true -> s = s'.
Proof. intros s s' H. by apply bool_decide_eq_true in H. Qed.

Lemma demo_ok : ops_ok KvModel demo_history.
Proof.
  intros o Ho. unfold demo_history in Ho.
  repeat (apply elem_of_cons in Ho as [->|Ho]); try (by apply not_elem_of_nil in Ho);
    (split; [cbn; lia|intros st; eexists; reflexivity]).
Qed.

Lemma checkSingle_decides_linearizability_witness :
  exists fuel0 b, (forall fuel, (fuel0 <= fuel)%nat ->
      checkSingle KvModel VNil fuel (fun _ => false)
        (makeLinkedEntries (makeEntries time_sort demo_history)).1
        (makeLinkedEntries (makeEntries time_sort demo_history)).2 = Ret (Some b)) /\
    (b = true <-> linearizable KvModel (makeEntries time_sort demo_history)).
Proof.
  apply (checkSingle_decides_linearizability KvModel VNil kv_equal_sound
           (makeEntries time_sort demo_history)).
  - apply makeEntries_ok; [apply time_sort_sorts|apply demo_ok].
  - apply surjective_pairing.
Defined.

Lemma CheckOperations_correct_witness :
  exists fuel0 b, (forall fuel, (fuel0 <= fuel)%nat ->
      CheckOperations KvModel VNil time_sort fuel [0%nat] demo_history = Ret (Some b)) /\
    (b = true <-> forall sub, sub ∈ [demo_history] ->
       linearizable KvModel (makeEntries time_sort sub)).
Proof.
  apply (CheckOperations_correct KvModel VNil kv_equal_sound time_sort [0%nat] demo_history
           [demo_history]).
  - apply time_sort_sorts.
  - vm_compute. reflexivity.
  - discriminate.
  - intros sub ->%list_elem_of_singleton. apply demo_ok.
  - reflexivity.
Defined.

(** The answer on this history, computed. *)
Example demo_linearizable :
  CheckOperations KvModel VNil time_sort 40 [0%nat] demo_history = Ret (Some true).
Proof. vm_compute. reflexivity. Qed.

(** A read that misses the put before it is refused. *)
Example demo_stale_read :
  CheckOperations KvModel VNil time_sort 40 [0%nat]
    [kv_op 1 "k" "x" 0 "" 5; kv_op 0 "k" "" 10 "" 15] = Ret (Some false).
Proof. vm_compute. reflexivity. Qed.

Lemma makeEntries_keeps_order_witness :
  entries_ok KvModel (makeEntries time_sort demo_history).
Proof.
  apply (makeEntries_keeps_order KvModel time_sort demo_history [1; 0; 2]).
  - apply time_sort_sorts.
  - apply demo_ok.
Defined.

Lemma kv_partition_by_key_witness :
  (exists keys, NoDup keys /\ [demo_history] = (fun k => of_key k demo_history) <$> keys /\
     forall k, k ∈ keys <-> of_key k demo_history <> []) /\
  (forall o, o ∈ demo_history -> exists sub, sub ∈ [demo_history] /\ o ∈ sub).
Proof.
  apply (kv_partition_by_key demo_history [demo_history]). vm_compute. reflexivity.
Defined.
