(* ===== verification/LinStore.v ===== *)
(** * LinStore: checking keys one by one is checking the store

    The key/value model of models.go checks the operations of each key on their
    own.  [StoreModel] is the whole store.  A history is linearizable for the
    store exactly when the history of every key is linearizable for the key, so
    [CheckOperations] with the key/value model decides linearizability of the
    store. *)

From S2P Require Import Prelude Bitset LinHeap LinCheck LinSpec LinHistory LinOps LinKv.
From stdpp Require Import strings sorting.
Local Open Scope Z_scope.

(** ** The order of a list *)

Section order.
Context {A B : Type}.

Lemma before_fmap (f : A -> B) l x y : before l x y -> before (f <$> l) (f x) (f y).
Proof.
  intros (a & b & -> & Hx). exists (f <$> a), (f <$> b). rewrite fmap_app. split; [done|].
  apply list_elem_of_fmap. eauto.
Qed.

Lemma before_fmap_inv (f : A -> B) l x y :
  (forall z, z ∈ l -> f z = f x -> z = x) -> (forall z, z ∈ l -> f z = f y -> z = y) ->
  before (f <$> l) (f x) (f y) -> before l x y.
Proof.
  intros Hx Hy (a & b & E & Hin). apply fmap_app_inv in E as (a' & b' & -> & E & ->).
  destruct b' as [|y' b']; [done|]. cbn in E. injection E as Ey ->.
  assert (y' = y) as -> by (apply Hy; [apply elem_of_app; right; by left|done]).
  exists a', b'. split; [done|]. apply list_elem_of_fmap in Hin as (x' & Ex & Hin).
  assert (x' = x) as -> by (apply Hx; [apply elem_of_app; by left|done]). done.
Qed.

Lemma before_asym (l : list A) x y : NoDup l -> before l x y -> before l y x -> False.
Proof.
  intros Hnd (a & b & -> & Hx) Hyx. apply list_elem_of_split in Hx as (a1 & a2 & ->).
  rewrite <- app_assoc in Hnd, Hyx. cbn in Hnd, Hyx.
  rewrite (before_split _ a1 x (a2 ++ y :: b)) in Hyx by done.
  apply NoDup_app in Hnd as (_ & Hd & _). apply (Hd y); [done|].
  apply elem_of_cons. right. apply elem_of_app. right. by left.
Qed.

Lemma before_filter (P : A -> Prop) `{!forall x, Decision (P x)} l x y :
  NoDup l -> P x -> P y -> before l x y -> before (filter P l) x y.
Proof.
  intros Hnd Hx Hy (a & b & -> & Hin). exists (filter P a), (filter P b).
  rewrite filter_app, filter_cons, decide_True by done. split; [done|]. by apply list_elem_of_filter.
Qed.

(** Sorted by a key that separates two elements. *)
Lemma sorted_before (p : A -> Z) l x y :
  StronglySorted (fun a b => p a <= p b) l -> x ∈ l -> y ∈ l -> p x < p y -> before l x y.
Proof.
  intros Hs Hx Hy Hlt. apply list_elem_of_split in Hy as (a & b & ->).
  exists a, b. split; [done|]. apply elem_of_app in Hx as [?|Hx]; [done|]. exfalso.
  assert (p y <= p x); [|lia]. clear Hlt. induction a as [|z a IH]; cbn in Hs.
  - apply StronglySorted_inv in Hs as [_ Hf]. apply elem_of_cons in Hx as [->|Hx]; [lia|].
    rewrite Forall_forall in Hf. by apply Hf.
  - apply StronglySorted_inv in Hs as [Hs _]. auto.
Qed.

(** Merging keeps the order of each list. *)
Lemma filter_list_merge_l (R : relation A) `{!RelDecision R} (P : A -> Prop) `{!forall x, Decision (P x)} l1 l2 :
  (forall x, x ∈ l2 -> ~ P x) -> filter P (list_merge R l1 l2) = filter P l1.
Proof.
  revert l2. induction l1 as [|x l1 IH1]; intros l2 H2.
  - rewrite list_merge_nil_l. induction l2 as [|y l2 IH]; [done|].
    rewrite filter_cons, decide_False by (apply H2; by left). apply IH. intros z Hz. apply H2. by right.
  - induction l2 as [|y l2 IH2]; [by rewrite list_merge_nil_r|].
    rewrite list_merge_cons. case_decide.
    + rewrite !filter_cons, IH1 by done. done.
    + rewrite filter_cons, decide_False by (apply H2; by left). apply IH2. intros z Hz. apply H2. by right.
Qed.

Lemma filter_list_merge_r (R : relation A) `{!RelDecision R} (P : A -> Prop) `{!forall x, Decision (P x)} l1 l2 :
  (forall x, x ∈ l1 -> ~ P x) -> filter P (list_merge R l1 l2) = filter P l2.
Proof.
  revert l2. induction l1 as [|x l1 IH1]; intros l2 H1; [by rewrite list_merge_nil_l|].
  assert (filter P l1 = [] /\ ~ P x) as [Hl1 Hx].
  { split; [|apply H1; by left]. apply length_zero_iff_nil. apply (cnt_zero P).
    intros z Hz. apply H1. by right. }
  induction l2 as [|y l2 IH2]; [rewrite list_merge_nil_r, filter_cons, decide_False by done; done|].
  rewrite list_merge_cons. case_decide.
  - rewrite (filter_cons _ x), decide_False by done. apply IH1. intros z Hz. apply H1. by right.
  - rewrite !(filter_cons _ y), IH2. done.
Qed.
End order.

(** ** Linearizations of a part of a history

    [I] are the positions of the operations in the history; the order [ρ] is a
    list of positions. *)

Section part.
Context {State Val : Type} (model : Model State Val) (H : list (Operation Val)).

Inductive runs : State -> list nat -> Prop :=
| runs_nil st : runs st []
| runs_cons st i o st' ρ :
    H !! i = Some o -> model.(Step) st o.(Input) o.(Output) = Ret (true, st') ->
    runs st' ρ -> runs st (i :: ρ).

Record lin_on (I ρ : list nat) : Prop := {
  lo_perm : ρ ≡ₚ I;
  lo_order : forall a b oa ob, a ∈ I -> b ∈ I -> H !! a = Some oa -> H !! b = Some ob ->
    oa.(ReturnTime) < ob.(CallTime) -> before ρ a b;
  lo_runs : runs model.(Init) ρ;
}.

(** [sub] is the part of the history at the positions [I]. *)
Context (sub : list (Operation Val)) (I : list nat) (Hnd : NoDup I) (Hlen : length sub = length I)
        (Hsub : forall j i, I !! j = Some i -> sub !! j = H !! i).

Definition pos (j : nat) : nat := default 0%nat (I !! j).

Lemma pos_lookup j i : I !! j = Some i -> pos j = i.
Proof. unfold pos. by intros ->. Qed.

Lemma pos_all : pos <$> seq 0 (length I) = I.
Proof.
  apply list_eq. intros j. rewrite list_lookup_fmap. destruct (I !! j) as [i|] eqn:E.
  - rewrite (proj2 (lookup_seq 0 (length I) j j)); [cbn; by rewrite (pos_lookup j i)|].
    split; [done|]. by eapply lookup_lt_Some.
  - apply lookup_ge_None in E. by rewrite lookup_seq_ge by done.
Qed.

Lemma pos_inj σ a j : σ ≡ₚ seq 0 (length I) -> I !! j = Some a ->
  forall z, z ∈ σ -> pos z = pos j -> z = j.
Proof.
  intros Hp Hj z Hz E. rewrite Hp, elem_of_seq in Hz.
  destruct (lookup_lt_is_Some_2 I z) as [i Hi]; [lia|].
  rewrite (pos_lookup _ _ Hi), (pos_lookup _ _ Hj) in E. subst. by eapply NoDup_lookup.
Qed.

Lemma runs_explains st σ : σ ⊆ seq 0 (length I) ->
  op_explains model sub st (Z.of_nat <$> σ) <-> runs st (pos <$> σ).
Proof.
  revert st. induction σ as [|j σ IH]; intros st Hσ; [split; intros _; constructor|].
  assert (σ ⊆ seq 0 (length I)) as Hσ' by (intros x Hx; apply Hσ; by right).
  assert (j ∈ seq 0 (length I)) as Hj%elem_of_seq by (apply Hσ; by left).
  destruct (lookup_lt_is_Some_2 I j) as [i Hi]; [lia|]. pose proof (Hsub j i Hi) as Hs.
  cbn. rewrite (pos_lookup _ _ Hi). split; intros Hr; inversion Hr as [|? k o st' ? Ho Hst Hr']; subst.
  - apply Nat2Z.inj in H1 as ->. econstructor; [by rewrite <- Hs|done|by apply IH].
  - econstructor; [by rewrite Hs|done|by apply IH].
Qed.

Lemma lin_on_ops : (exists σ, op_linearization model sub σ) <-> (exists ρ, lin_on I ρ).
Proof.
  assert (Hmap : forall σ, σ ≡ₚ seq 0 (length I) ->
    op_linearization model sub (Z.of_nat <$> σ) <-> lin_on I (pos <$> σ)).
  { intros σ Hp. assert (σ ⊆ seq 0 (length I)) as Hin by (intros x; by rewrite Hp).
    split; intros [_ Ho Hr]; split.
    - by rewrite Hp, pos_all.
    - intros a b oa ob [ja Ha]%list_elem_of_lookup_1 [jb Hb]%list_elem_of_lookup_1 Hoa Hob Hlt.
      rewrite <- (pos_lookup _ _ Ha), <- (pos_lookup _ _ Hb). apply before_fmap.
      apply (before_fmap_inv Z.of_nat); [intros z _ ?; lia..|].
      by apply (Ho ja jb oa ob); rewrite ?(Hsub _ _ Ha), ?(Hsub _ _ Hb).
    - by apply runs_explains.
    - by rewrite Hp, Hlen.
    - intros ja jb oa ob Ha Hb Hlt. apply before_fmap.
      destruct (lookup_lt_is_Some_2 I ja) as [a Ia]; [rewrite <- Hlen; by eapply lookup_lt_Some|].
      destruct (lookup_lt_is_Some_2 I jb) as [b Ib]; [rewrite <- Hlen; by eapply lookup_lt_Some|].
      apply (before_fmap_inv pos); [by eapply pos_inj..|].
      rewrite (pos_lookup _ _ Ia), (pos_lookup _ _ Ib).
      rewrite (Hsub _ _ Ia) in Ha. rewrite (Hsub _ _ Ib) in Hb.
      apply (Ho a b oa ob); try done; by eapply list_elem_of_lookup_2.
    - by apply runs_explains. }
  split.
  - intros [σ Hl]. pose proof (ol_perm _ _ _ Hl) as Hp. rewrite Hlen in Hp.
    apply Permutation_map_inv in Hp as (σ' & -> & Hp). exists (pos <$> σ'). by apply Hmap.
  - intros [ρ Hl]. pose proof (lo_perm _ _ Hl) as Hp. rewrite <- pos_all in Hp.
    apply Permutation_map_inv in Hp as (σ & -> & Hp). exists (Z.of_nat <$> σ). by apply Hmap.
Qed.
End part.

(** ** The store *)

(** A key/value store; a key that has no value holds the empty string. *)
Definition store_step (st : gmap string string) (input output : KvVal) : res (bool * gmap string string) :=
  match input with
  | VIn inp =>
      '(ok, v) ← kv_step (default "" (st !! inp.(kvKey))) input output;
      Ret (ok, <[inp.(kvKey) := v]> st)
  | _ => Panic
  end.

Definition StoreModel : Model (gmap string string) KvVal :=
  {| Partition := NoPartition; PartitionEvent := NoPartitionEvent; Init := ∅;
     Step := store_step; Equal := ShallowEqual |}.

Section locality.
Context (H : list KvOperation).

Definition key_at (i : nat) : option string := H !! i ≫= op_key.

(** The positions of the operations on key [k]. *)
Definition positions (k : string) : list nat := filter (fun i => key_at i = Some k) (seq 0 (length H)).

Lemma positions_NoDup k : NoDup (positions k).
Proof. apply NoDup_filter, NoDup_seq. Qed.

Local Abbreviation runs_key := (runs KvModel H).
Local Abbreviation runs_store := (runs StoreModel H).

(** *** A run of the store is a run of every key *)

Lemma store_step_key st inp out ok st' :
  store_step st (VIn inp) out = Ret (ok, st') <->
  exists v, kv_step (default "" (st !! inp.(kvKey))) (VIn inp) out = Ret (ok, v) /\ st' = <[inp.(kvKey) := v]> st.
Proof.
  cbn [store_step]. destruct (kv_step _ _ _) as [[ok' v]|]; cbn; split.
  - intros [= -> <-]. eauto.
  - intros (v' & [= -> ->] & ->). done.
  - done.
  - by intros (? & ? & _).
Qed.

Lemma runs_store_keys ρ st :
  Forall (fun i => is_Some (key_at i)) ρ ->
  runs_store st ρ <-> forall k, runs_key (default "" (st !! k)) (filter (fun i => key_at i = Some k) ρ).
Proof.
  intros Hk. revert st. induction Hk as [|i ρ [ki Hki] _ IH]; intros st.
  { split; intros; constructor. }
  unfold key_at in Hki. destruct (H !! i) as [o|] eqn:Ho; [|done]. cbn in Hki. unfold op_key in Hki.
  destruct (Input o) as [|inp|] eqn:Hin; try done. injection Hki as <-.
  assert (key_at i = Some inp.(kvKey)) as Hki by (unfold key_at; rewrite Ho; cbn; unfold op_key; by rewrite Hin).
  split.
  - intros Hr. inversion Hr as [|? ? o' st' ? Ho' Hst Hr']; subst. pose proof (eq_trans (eq_sym Ho) Ho') as E. injection E as <-.
    rewrite Hin in Hst. apply store_step_key in Hst as (v & Hst & ->). intros k.
    specialize (proj1 (IH _) Hr' k) as Hrk. rewrite filter_cons. destruct (decide (key_at i = Some k)) as [E|E].
    + rewrite Hki in E. injection E as <-. rewrite lookup_insert_eq in Hrk.
      econstructor; [done| |exact Hrk]. by rewrite Hin.
    + by rewrite lookup_insert_ne in Hrk by congruence.
  - intros Hall. pose proof (Hall inp.(kvKey)) as Hr. rewrite filter_cons, decide_True in Hr by done.
    inversion Hr as [|? ? o' v ? Ho' Hst Hr']; subst. pose proof (eq_trans (eq_sym Ho) Ho') as E. injection E as <-.
    rewrite Hin in Hst. econstructor; [done| |].
    + rewrite Hin. apply store_step_key. eauto.
    + apply IH. intros k. destruct (decide (k = inp.(kvKey))) as [->|Hne]; [by rewrite lookup_insert_eq|].
      rewrite lookup_insert_ne by done. specialize (Hall k).
      by rewrite filter_cons, decide_False in Hall by congruence.
Qed.

(** *** Points in time

    An order of the operations of a key that respects real time has a point
    between call and return for every operation, in this order. *)

Definition call_at (i : nat) : Z := match H !! i with Some o => o.(CallTime) | None => 0 end.
Definition return_at (i : nat) : Z := match H !! i with Some o => o.(ReturnTime) | None => 0 end.

(** The largest call time up to position [i]. *)
Fixpoint point (m : Z) (ρ : list nat) (i : nat) : Z :=
  match ρ with
  | [] => m
  | x :: ρ => if decide (x = i) then Z.max m (call_at x) else point (Z.max m (call_at x)) ρ i
  end.

Lemma point_ge m ρ i : m <= point m ρ i.
Proof.
  revert m. induction ρ as [|x ρ IH]; intros m; cbn; [lia|]. case_decide; [lia|].
  etrans; [|apply IH]. lia.
Qed.

Lemma point_call m ρ i : i ∈ ρ -> call_at i <= point m ρ i.
Proof.
  revert m. induction ρ as [|x ρ IH]; intros m Hi; cbn; [by apply elem_of_nil in Hi|].
  case_decide; [subst; lia|]. apply IH. by apply elem_of_cons in Hi as [->|?].
Qed.

Lemma point_return m ρ i :
  NoDup ρ -> i ∈ ρ -> m <= return_at i ->
  (forall x, x ∈ ρ -> return_at i < call_at x -> before ρ i x) -> call_at i <= return_at i ->
  point m ρ i <= return_at i.
Proof.
  revert m. induction ρ as [|x ρ IH]; intros m Hnd Hi Hm Hord Hok; cbn; [by apply elem_of_nil in Hi|].
  pose proof Hnd as [Hni Hnd']%NoDup_cons.
  case_decide as E; [subst; lia|]. apply elem_of_cons in Hi as [->|Hi]; [done|].
  apply IH; try done.
  - destruct (Z_lt_le_dec (return_at i) (call_at x)) as [Hlt|]; [|lia]. exfalso.
    destruct (Hord x) as (a & b & Eq & Hia); [by left|done|]. destruct a as [|y a]; [by apply elem_of_nil in Hia|].
    injection Eq as -> ->. apply Hni. apply elem_of_app. right. by left.
  - intros y Hy Hlt. destruct (Hord y) as (a & b & Eq & Hia); [by right|done|].
    destruct a as [|z a]; [by apply elem_of_nil in Hia|]. injection Eq as <- ->.
    exists a, b. split; [done|]. by apply elem_of_cons in Hia as [->|?].
Qed.

Lemma point_sorted m ρ : NoDup ρ -> StronglySorted (fun a b => point m ρ a <= point m ρ b) ρ.
Proof.
  revert m. induction ρ as [|x ρ IH]; intros m Hnd; [constructor|].
  apply NoDup_cons in Hnd as [Hni Hnd].
  assert (Hskip : forall y, y ∈ ρ -> point m (x :: ρ) y = point (Z.max m (call_at x)) ρ y).
  { intros y Hy. cbn. rewrite decide_False; [done|]. by intros ->. }
  constructor.
  - specialize (IH (Z.max m (call_at x)) Hnd). clear -IH Hskip.
    assert (Hs : forall l, l ⊆ ρ -> StronglySorted (fun a b =>
      point (Z.max m (call_at x)) ρ a <= point (Z.max m (call_at x)) ρ b) l ->
      StronglySorted (fun a b => point m (x :: ρ) a <= point m (x :: ρ) b) l).
    { intros l Hl. induction 1 as [|y l Hs IHs Hf]; [constructor|]. constructor.
      - apply IHs. intros z Hz. apply Hl. by right.
      - rewrite Forall_forall in *. intros z Hz.
        rewrite (Hskip y), (Hskip z); [by apply Hf|apply Hl; by right|apply Hl; by left]. }
    by apply Hs.
  - apply Forall_forall. intros y Hy. rewrite (Hskip y) by done. cbn. rewrite decide_True by done. apply point_ge.
Qed.

(** *** Merging the orders of the keys *)

Context (Htimes : forall o, o ∈ H -> o.(CallTime) <= o.(ReturnTime)).

Lemma lower_bound (f : nat -> Z) (l : list nat) : exists m, forall x, x ∈ l -> m <= f x.
Proof.
  induction l as [|y l [m Hm]]; [exists 0; by intros x ?%elem_of_nil|].
  exists (Z.min m (f y)). intros x [->|Hx]%elem_of_cons; [lia|]. specialize (Hm x Hx). lia.
Qed.

Lemma elem_of_positions k i : i ∈ positions k <-> key_at i = Some k.
Proof.
  unfold positions. rewrite list_elem_of_filter, elem_of_seq. split; [tauto|]. intros E. split; [done|].
  unfold key_at in E. destruct (H !! i) eqn:Hi; [|done]. apply lookup_lt_Some in Hi. lia.
Qed.

Lemma times_ok k i : i ∈ positions k -> call_at i <= return_at i.
Proof.
  rewrite elem_of_positions. unfold key_at, call_at, return_at.
  destruct (H !! i) as [o|] eqn:Hi; [|done]. intros _. apply Htimes. by eapply list_elem_of_lookup_2.
Qed.

(** An order of the operations of a key has points in time. *)
Lemma key_points k ρ :
  lin_on KvModel H (positions k) ρ ->
  exists p : nat -> Z, StronglySorted (fun a b => p a <= p b) ρ /\
    forall x, x ∈ ρ -> call_at x <= p x <= return_at x.
Proof.
  intros [Hp Ho _]. destruct (lower_bound return_at ρ) as [m Hm].
  assert (NoDup ρ) as Hnd by (rewrite Hp; apply positions_NoDup).
  exists (point m ρ). split; [by apply point_sorted|]. intros x Hx. split; [by apply point_call|].
  apply point_return; [done|done|by apply Hm| |by eapply times_ok; rewrite <- Hp].
  intros y Hy Hlt. rewrite Hp in Hx, Hy. unfold return_at, call_at in Hlt.
  pose proof Hx as Hx'%elem_of_positions. pose proof Hy as Hy'%elem_of_positions. unfold key_at in Hx', Hy'.
  destruct (H !! x) as [ox|] eqn:Ex; [|done]. destruct (H !! y) as [oy|] eqn:Ey; [|done].
  by apply (Ho x y ox oy).
Qed.

Lemma filter_all (P : nat -> Prop) `{!forall x, Decision (P x)} (l : list nat) :
  (forall x, x ∈ l -> P x) -> filter P l = l.
Proof.
  induction l as [|x l IH]; intros Hl; [done|]. rewrite filter_cons, decide_True by (apply Hl; by left).
  f_equal. apply IH. intros y Hy. apply Hl. by right.
Qed.

Lemma sorted_ext (p q : nat -> Z) l :
  (forall x, x ∈ l -> p x = q x) ->
  StronglySorted (fun a b => p a <= p b) l -> StronglySorted (fun a b => q a <= q b) l.
Proof.
  intros Hpq. induction 1 as [|x l Hs IH Hf]; [constructor|]. constructor.
  - apply IH. intros y Hy. apply Hpq. by right.
  - rewrite Forall_forall in *. intros y Hy. rewrite <- (Hpq x), <- (Hpq y); [by apply Hf|by right|by left].
Qed.

Definition by_point (p : nat -> Z) : relation nat := fun a b => p a <= p b.

Global Instance by_point_dec p : RelDecision (by_point p) := fun a b => Z_le_dec (p a) (p b).
Global Instance by_point_total p : Total (by_point p).
Proof. intros a b. unfold by_point. lia. Qed.
Global Instance by_point_trans p : Transitive (by_point p).
Proof. intros a b c. unfold by_point. lia. Qed.

Lemma merge_key_orders keys :
  NoDup keys -> (forall k, k ∈ keys -> exists ρ, lin_on KvModel H (positions k) ρ) ->
  exists ρ (p : nat -> Z), NoDup ρ /\ (forall x, x ∈ ρ <-> exists k, k ∈ keys /\ key_at x = Some k) /\
    StronglySorted (fun a b => p a <= p b) ρ /\
    (forall x, x ∈ ρ -> call_at x <= p x <= return_at x) /\
    (forall k, k ∈ keys -> runs_key "" (filter (fun i => key_at i = Some k) ρ)).
Proof.
  induction keys as [|k keys IH]; intros Hnd Hlin.
  { exists [], (fun _ => 0). split; [constructor|]. split.
    - intros x. split; [by intros ?%elem_of_nil|]. by intros (k & ?%elem_of_nil & _).
    - split; [constructor|]. by split; intros ? ?%elem_of_nil. }
  apply NoDup_cons in Hnd as [Hni Hnd].
  destruct IH as (ρ & p & Hu & Hp & Hs & Hb & Hr); [done|intros; apply Hlin; by right|].
  destruct (Hlin k) as [ρk Hk]; [by left|]. destruct (key_points k ρk Hk) as (pk & Hsk & Hbk).
  assert (forall x, x ∈ ρk -> key_at x = Some k) as Hin.
  { intros x. rewrite (lo_perm _ _ _ _ Hk). apply elem_of_positions. }
  assert (forall x, x ∈ ρ -> key_at x <> Some k) as Hnot.
  { intros x (k' & Hk' & E')%Hp E. congruence. }
  set (q := fun x => if decide (key_at x = Some k) then pk x else p x).
  assert (forall x, x ∈ ρk -> pk x = q x) as Hq1 by (intros x Hx; unfold q; by rewrite decide_True by auto).
  assert (forall x, x ∈ ρ -> p x = q x) as Hq2 by (intros x Hx; unfold q; by rewrite decide_False by auto).
  exists (list_merge (by_point q) ρ ρk), q.
  assert (list_merge (by_point q) ρ ρk ≡ₚ ρ ++ ρk) as Hperm by apply (merge_Permutation (by_point q)).
  split; [|split; [|split; [|split]]].
  - rewrite Hperm. apply NoDup_app. split; [done|].
    split; [intros x Hx Hx'; by apply (Hnot x), Hin|]. rewrite (lo_perm _ _ _ _ Hk). apply positions_NoDup.
  - intros x. rewrite Hperm, elem_of_app, Hp. setoid_rewrite elem_of_cons. split.
    + intros [(k' & ? & ?)|Hx]; [eauto|]. exists k. auto.
    + intros (k' & [->|Hk'] & E); [right|eauto]. rewrite (lo_perm _ _ _ _ Hk). by apply elem_of_positions.
  - apply (Sorted_StronglySorted (by_point q)), (Sorted_list_merge (by_point q));
      apply StronglySorted_Sorted; by eapply sorted_ext.
  - intros x. rewrite Hperm. intros [Hx|Hx]%elem_of_app.
    + rewrite <- Hq2 by done. by apply Hb.
    + rewrite <- Hq1 by done. by apply Hbk.
  - intros k' [->|Hk']%elem_of_cons.
    + rewrite filter_list_merge_r by done. rewrite filter_all by done. apply Hk.
    + rewrite filter_list_merge_l; [by apply Hr|]. intros x Hx. rewrite (Hin x) by done. congruence.
Qed.

Context (Hkeys : forall i, (i < length H)%nat -> is_Some (key_at i)).

Lemma positions_seq k i : i ∈ positions k -> i ∈ seq 0 (length H).
Proof. unfold positions. by intros [_ ?]%list_elem_of_filter. Qed.

(** A linearization of the store has a linearization of every key in it. *)
Lemma store_keys ρ k :
  lin_on StoreModel H (seq 0 (length H)) ρ ->
  lin_on KvModel H (positions k) (filter (fun i => key_at i = Some k) ρ).
Proof.
  intros [Hp Ho Hr]. assert (NoDup ρ) as Hnd by (rewrite Hp; apply NoDup_seq). split.
  - unfold positions. by rewrite Hp.
  - intros a b oa ob Ha Hb Hoa Hob Hlt. apply before_filter; [done|by apply elem_of_positions..|].
    apply (Ho a b oa ob); try done; by eapply positions_seq.
  - apply runs_store_keys with (k := k) in Hr; [cbn [Init StoreModel] in Hr; by rewrite lookup_empty in Hr|].
    apply Forall_forall. intros i. rewrite Hp, elem_of_seq. intros ?. apply Hkeys. lia.
Qed.

(** Linearizations of all keys are the parts of one of the store. *)
Lemma keys_store :
  (forall k, positions k <> [] -> exists ρ, lin_on KvModel H (positions k) ρ) ->
  exists ρ, lin_on StoreModel H (seq 0 (length H)) ρ.
Proof.
  intros Hlin. set (keys := remove_dups (omap key_at (seq 0 (length H)))).
  assert (forall k, k ∈ keys <-> exists i, i ∈ positions k) as Hk.
  { intros k. unfold keys. rewrite elem_of_remove_dups, list_elem_of_omap. split.
    - intros (i & _ & E). exists i. by apply elem_of_positions.
    - intros (i & Hi). exists i. split; [by eapply positions_seq|by apply elem_of_positions]. }
  destruct (merge_key_orders keys) as (ρ & p & Hnd & Hp & Hs & Hb & Hr).
  { apply NoDup_remove_dups. }
  { intros k [i Hi]%Hk. apply Hlin. intros E. rewrite E in Hi. by apply elem_of_nil in Hi. }
  assert (ρ ≡ₚ seq 0 (length H)) as Hperm.
  { apply NoDup_Permutation; [done|apply NoDup_seq|]. intros x. rewrite Hp. split.
    - intros (k & _ & E). apply (positions_seq k). by apply elem_of_positions.
    - intros Hx. pose proof Hx as [_ Hx']%elem_of_seq. destruct (Hkeys x) as [k E]; [lia|].
      exists k. split; [|done]. apply Hk. exists x. by apply elem_of_positions. }
  exists ρ. split; [done| |].
  - intros a b oa ob Ha Hb' Hoa Hob Hlt. rewrite <- Hperm in Ha, Hb'. apply (sorted_before p); try done.
    pose proof (Hb a Ha) as Pa. pose proof (Hb b Hb') as Pb. unfold call_at, return_at in Pa, Pb.
    rewrite Hoa in Pa. rewrite Hob in Pb. lia.
  - apply runs_store_keys.
    + apply Forall_forall. intros x. rewrite Hp. intros (k & _ & E). by rewrite E.
    + intros k. cbn. rewrite lookup_empty. cbn. destruct (decide (k ∈ keys)) as [|Hn]; [by apply Hr|].
      assert (filter (fun i => key_at i = Some k) ρ = []) as ->; [|constructor].
      apply length_zero_iff_nil, cnt_zero. intros x (k' & Hk' & E)%Hp E'. congruence.
Qed.

(** The history of a key is the part of the history at its positions. *)
Lemma of_key_positions k : Some <$> of_key k H = (fun i => H !! i) <$> positions k.
Proof.
  unfold of_key, positions. enough (forall n, (n <= length H)%nat ->
    Some <$> filter (fun o => op_key o = Some k) (take n H)
    = (fun i => H !! i) <$> filter (fun i => key_at i = Some k) (seq 0 n)) as Hn.
  { rewrite <- Hn by done. by rewrite firstn_all. }
  induction n as [|n IH]; intros Hn; [done|]. destruct (lookup_lt_is_Some_2 H n) as [o Ho]; [lia|].
  rewrite (take_S_r _ _ _ Ho), seq_S, !filter_app, !fmap_app, IH by lia. f_equal. cbn [Nat.add].
  assert (key_at n = op_key o) as Hk by (unfold key_at; by rewrite Ho).
  rewrite !filter_cons. destruct (decide (op_key o = Some k)), (decide (key_at n = Some k)); try congruence;
    [|done]. cbn. by rewrite Ho.
Qed.

Lemma key_lin k :
  (exists σ, op_linearization KvModel (of_key k H) σ) <-> exists ρ, lin_on KvModel H (positions k) ρ.
Proof.
  pose proof (of_key_positions k) as E. apply lin_on_ops; [apply positions_NoDup| |].
  - apply (f_equal length) in E. by rewrite !length_fmap in E.
  - intros j i Hj. apply (f_equal (fun l => l !! j)) in E. rewrite !list_lookup_fmap, Hj in E. cbn in E.
    destruct (of_key k H !! j); [|done]. by injection E.
Qed.

Lemma store_lin :
  (exists σ, op_linearization StoreModel H σ) <-> exists ρ, lin_on StoreModel H (seq 0 (length H)) ρ.
Proof.
  apply lin_on_ops; [apply NoDup_seq|by rewrite length_seq|].
  intros j i [-> _]%lookup_seq. done.
Qed.

(** Locality: the store is linearizable exactly when every key is. *)
Lemma store_local :
  (exists σ, op_linearization StoreModel H σ) <->
  forall k, of_key k H <> [] -> exists σ, op_linearization KvModel (of_key k H) σ.
Proof.
  rewrite store_lin. assert (forall k, of_key k H <> [] <-> positions k <> []) as Hne.
  { intros k. pose proof (of_key_positions k) as E. destruct (of_key k H), (positions k); done. }
  split.
  - intros [ρ Hl] k _. apply key_lin. exists (filter (fun i => key_at i = Some k) ρ). by apply store_keys.
  - intros Hall. apply keys_store. intros k Hk. by apply key_lin, Hall, Hne.
Qed.
End locality.

(** ** The checker decides linearizability of the store *)

Lemma linearizable_ops {State Val} (model : Model State Val) sort (ops : list (Operation Val)) :
  sorts_by_time sort -> ops_ok model ops ->
  (forall a b, a ∈ ops -> b ∈ ops -> a.(ReturnTime) <> b.(CallTime)) ->
  linearizable model (makeEntries sort ops) <-> exists σ, op_linearization model ops σ.
Proof.
  intros Hs Ho Hne. split; intros [σ Hl]; exists σ.
  - by eapply linearization_ops.
  - by apply ops_linearization.
Qed.

Lemma elem_of_of_key k H o : o ∈ of_key k H -> o ∈ H.
Proof. unfold of_key. by intros [_ ?]%list_elem_of_filter. Qed.

Lemma kv_check_store sort arrival history parts :
  sorts_by_time sort -> kv_partition history = Ret parts -> history <> [] ->
  ops_ok KvModel history ->
  (forall a b, a ∈ history -> b ∈ history -> a.(ReturnTime) <> b.(CallTime)) ->
  arrival ≡ₚ seq 0 (length parts) ->
  exists fuel0 b, (forall fuel, (fuel0 <= fuel)%nat ->
      CheckOperations KvModel VNil sort fuel arrival history = Ret (Some b)) /\
    (b = true <-> exists σ, op_linearization StoreModel history σ).
Proof.
  intros Hs Hp Hne Hok Hd Harr.
  destruct (kv_partition_spec history parts Hp) as (keys & Hnd & Hparts & Hk).
  assert (forall o, o ∈ history -> is_Some (op_key o)) as Hkey.
  { intros o Ho. destruct (Hok o Ho) as [_ Ht]. destruct (Ht "") as [r Hr]. unfold op_key.
    cbn in Hr. by destruct (Input o). }
  assert (forall sub, sub ∈ parts <-> exists k, of_key k history <> [] /\ sub = of_key k history) as Hin.
  { intros sub. rewrite Hparts, list_elem_of_fmap. setoid_rewrite Hk. split; intros (k & ? & ?); eauto. }
  assert (forall k, ops_ok KvModel (of_key k history)) as Hsub by (intros k o Ho%elem_of_of_key; by apply Hok).
  destruct (CheckOperations_decides KvModel VNil kv_equal_sound sort arrival history parts) as (fuel0 & b & Hf & Hb);
    [done|done| | |done|].
  { destruct history as [|o l]; [done|]. intros ->. destruct (Hkey o) as [k E]; [by left|].
    apply (not_elem_of_nil (of_key k (o :: l))). apply Hin. exists k. split; [|done].
    unfold of_key. by rewrite filter_cons, decide_True. }
  { by intros sub (k & _ & ->)%Hin. }
  exists fuel0, b. split; [done|]. rewrite Hb, store_local.
  - split.
    + intros Hall k Hne'. apply (linearizable_ops KvModel sort); [done|done| |apply Hall, Hin; eauto].
      intros x y ?%elem_of_of_key ?%elem_of_of_key. by apply Hd.
    + intros Hall sub (k & Hne' & ->)%Hin. apply (linearizable_ops KvModel sort); [done|done| |by apply Hall].
      intros x y ?%elem_of_of_key ?%elem_of_of_key. by apply Hd.
  - intros o Ho. destruct (Hok o Ho). lia.
  - intros i [o Ho]%lookup_lt_is_Some_2. unfold key_at. rewrite Ho. cbn. apply Hkey.
    by eapply list_elem_of_lookup_2.
Qed.

Lemma store_lin_nil : exists σ, op_linearization StoreModel [] σ.
Proof. exists []. split; [done|by intros [] ? ? ?|constructor]. Qed.

(** Without operations there is no partition, and nothing is sent on the channel that
    [CheckOperations] receives from. *)
Lemma kv_check_empty sort fuel arrival parts :
  kv_partition [] = Ret parts -> arrival ≡ₚ seq 0 (length parts) ->
  CheckOperations KvModel VNil sort fuel arrival [] = Ret None.
Proof.
  intros [= <-] ->%Permutation_nil_r. vm_compute. reflexivity.
Qed.

(** C23. [CheckOperations] with the key/value model decides linearizability of the
    whole store.  On a history of operations of that model that end after they begin,
    with no return at the time of a call, there are two cases.  When the history has
    an operation the check ends, and answers true exactly when one order of all
    operations, on all keys, respects real time and gives the recorded results of a
    key/value store: checking the keys one by one loses nothing.  When the history is
    empty, which is linearizable, the check never answers, because it waits for the
    result of a partition and there is none. *)
Theorem kv_check_decides_store sort arrival history parts :
  sorts_by_time sort -> kv_partition history = Ret parts ->
  ops_ok KvModel history ->
  (forall a b, a ∈ history -> b ∈ history -> a.(ReturnTime) <> b.(CallTime)) ->
  arrival ≡ₚ seq 0 (length parts) ->
  (history <> [] -> exists fuel0 b, (forall fuel, (fuel0 <= fuel)%nat ->
      CheckOperations KvModel VNil sort fuel arrival history = Ret (Some b)) /\
    (b = true <-> exists σ, op_linearization StoreModel history σ)) /\
  (history = [] -> (exists σ, op_linearization StoreModel history σ) /\
    forall fuel, CheckOperations KvModel VNil sort fuel arrival history = Ret None).
Proof.
  intros Hs Hp Hok Hd Ha. split; [intros Hne; by apply (kv_check_store sort arrival history parts)|].
  intros ->. split; [by apply store_lin_nil|]. intros fuel. by apply (kv_check_empty sort fuel arrival parts).
Qed.

(** Two keys: the operations on [b] overlap those on [a]. *)
Definition two_keys : list KvOperation :=
  [kv_op 1 "a" "x" 0 "" 10; kv_op 1 "b" "y" 2 "" 12; kv_op 0 "a" "" 14 "x" 20; kv_op 0 "b" "" 16 "y" 22].

Lemma two_keys_ok : ops_ok KvModel two_keys.
Proof.
  intros o Ho. unfold two_keys in Ho.
  repeat (apply elem_of_cons in Ho as [->|Ho]); try (by apply not_elem_of_nil in Ho);
    (split; [cbn; lia|intros st; eexists; reflexivity]).
Qed.

Lemma two_keys_times a b : a ∈ two_keys -> b ∈ two_keys -> a.(ReturnTime) <> b.(CallTime).
Proof.
  unfold two_keys. intros Ha Hb.
  repeat (apply elem_of_cons in Ha as [->|Ha]); try (by apply not_elem_of_nil in Ha);
    repeat (apply elem_of_cons in Hb as [->|Hb]); try (by apply not_elem_of_nil in Hb); cbn; lia.
Qed.

Lemma kv_check_decides_store_witness :
  exists fuel0 b, (forall fuel, (fuel0 <= fuel)%nat ->
      CheckOperations KvModel VNil time_sort fuel [1%nat; 0%nat] two_keys = Ret (Some b)) /\
    (b = true <-> exists σ, op_linearization StoreModel two_keys σ).
Proof.
  apply (kv_check_decides_store time_sort [1%nat; 0%nat] two_keys
    [of_key "a" two_keys; of_key "b" two_keys]).
  - apply time_sort_sorts.
  - vm_compute. reflexivity.
  - apply two_keys_ok.
  - apply two_keys_times.
  - apply (Permutation_swap 0%nat 1%nat []).
  - discriminate.
Defined.
