(* ===== verification/LinEvents.v ===== *)
(** * LinEvents: CheckEvents, and the checks with a timeout

    A history can also be given as events, calls and returns in the order they
    happened (src/linearizability/linearizability.go): [CheckEvents] renumbers the
    operations and searches as [CheckOperations] does.  With a timeout the loop
    that collects the answers may be interrupted by a timer; then it answers true.
    [receive] is that loop: an arrival is the answer of a partition, or the timer. *)

From S2P Require Import Prelude Bitset LinHeap LinCheck LinSpec LinHistory LinOps LinKv.
From stdpp Require Import strings sorting.
Local Open Scope Z_scope.

(** ** The loop *)

(** [Some i]: partition [i] answers; [None]: the timer fires, which it does only
    when [timeout] is positive.  [Ret None]: the loop waits for ever. *)
Fixpoint receive (timeout : Z) (check : nat -> res (option bool)) (partitions count : nat)
    (arrival : list (option nat)) : res (option bool) :=
  match arrival with
  | [] => Ret None
  | None :: arrival =>
      if 0 <? timeout then Ret (Some true) else receive timeout check partitions count arrival
  | Some i :: arrival =>
      r ← check i;
      match r with
      | None => receive timeout check partitions count arrival
      | Some false => Ret (Some false)
      | Some true =>
          if (partitions <=? count + 1)%nat then Ret (Some true)
          else receive timeout check partitions (count + 1) arrival
      end
  end.

(** A model as its user writes it: functions that are nil get a default. *)
Record RawModel (State Val : Type) := mkRawModel {
  rawPartition : option (list (Operation Val) -> res (list (list (Operation Val))));
  rawPartitionEvent : option (list (Event Val) -> res (list (list (Event Val))));
  rawInit : State;
  rawStep : State -> Val -> Val -> res (bool * State);
  rawEqual : option (State -> State -> bool);
}.
Arguments mkRawModel {_ _}.
Arguments rawPartition {_ _}.
Arguments rawPartitionEvent {_ _}.
Arguments rawInit {_ _}.
Arguments rawStep {_ _}.
Arguments rawEqual {_ _}.

Definition fillDefault {State Val} `{EqDecision State} (model : RawModel State Val) : Model State Val :=
  {| Partition := default NoPartition model.(rawPartition);
     PartitionEvent := default NoPartitionEvent model.(rawPartitionEvent);
     Init := model.(rawInit); Step := model.(rawStep);
     Equal := default ShallowEqual model.(rawEqual) |}.

(** The key/value model as it is written, without a [PartitionEvent]. *)
Definition raw_KvModel : RawModel string KvVal :=
  mkRawModel (Some kv_partition) None "" kv_step (Some ShallowEqual).

Lemma KvModel_filled : fillDefault raw_KvModel = KvModel.
Proof. reflexivity. Qed.

Section check.
Context {State Val : Type} (model : Model State Val) (nil : Val).

(** The goroutine of one partition of events. *)
Definition check_events (fuel : nat) (sub : list (Event Val)) : res (option bool) :=
  let '(h, root) := makeLinkedEntries (convertEntries (renumber sub)) in
  checkSingle model nil fuel (fun _ => false) h root.

Definition CheckEventsTimeout (fuel : nat) (timeout : Z) (arrival : list (option nat))
    (history : list (Event Val)) : res (option bool) :=
  parts ← model.(PartitionEvent) history;
  receive timeout (fun i => sub ← res_of_option (parts !! i); check_events fuel sub)
    (length parts) 0 arrival.

Definition CheckEvents (fuel : nat) (arrival : list (option nat)) (history : list (Event Val))
    : res (option bool) := CheckEventsTimeout fuel 0 arrival history.

Definition CheckOperationsTimeout (sort : list (entry Val) -> list (entry Val)) (fuel : nat) (timeout : Z)
    (arrival : list (option nat)) (history : list (Operation Val)) : res (option bool) :=
  parts ← model.(Partition) history;
  receive timeout (fun i => sub ← res_of_option (parts !! i); check_part model nil sort fuel sub)
    (length parts) 0 arrival.
End check.

(** ** Renumbering *)

Section renumber.
Context {Val : Type}.
Implicit Types (ev : Event Val) (evs : list (Event Val)).

Definition rename (f : Z -> Z) ev : Event Val := mkEvent ev.(Kind) ev.(Value) (f ev.(Id)).

(** The numbers given so far: distinct, from 0. *)
Record numbering (m : gmap Z Z) : Prop := {
  nb_range : forall k r, m !! k = Some r -> 0 <= r < Z.of_nat (size m);
  nb_inj : forall k k' r, m !! k = Some r -> m !! k' = Some r -> k = k';
}.

Lemma numbering_insert m k : numbering m -> m !! k = None ->
  numbering (<[k := Z.of_nat (size m)]> m).
Proof.
  intros [Hr Hi] Hk. split.
  - intros k' r. rewrite map_size_insert_None by done.
    intros [[<- <-]|[_ H]]%lookup_insert_Some; [lia|]. apply Hr in H. lia.
  - intros k1 k2 r. rewrite !lookup_insert_Some.
    intros [[<- <-]|[N1 H1]] [[<- E]|[N2 H2]]; [done| | |by eapply Hi].
    + apply Hr in H2. lia.
    + subst. apply Hr in H1. lia.
Qed.

Lemma renumber_from_spec m evs : numbering m ->
  exists m', numbering m' /\ m ⊆ m' /\ dom m' = dom m ∪ list_to_set (Id <$> evs) /\
    renumber_from m (Z.of_nat (size m)) evs = map (rename (fun k => default 0 (m' !! k))) evs.
Proof.
  revert m. induction evs as [|v evs IH]; intros m Hm; cbn.
  { exists m. split; [done|]. split; [done|]. split; [set_solver|done]. }
  destruct (m !! Id v) as [r|] eqn:Hr.
  - destruct (IH m Hm) as (m' & Hm' & Hs & Hd & E). exists m'. split; [done|]. split; [done|].
    split; [apply elem_of_dom_2 in Hr; rewrite Hd; set_solver|]. rewrite E. unfold rename at 2.
    by rewrite (lookup_weaken _ _ _ _ Hr Hs).
  - destruct (IH (<[Id v := Z.of_nat (size m)]> m)) as (m' & Hm' & Hs & Hd & E);
      [by apply numbering_insert|]. exists m'. split; [done|].
    split; [etrans; [by apply insert_subseteq|exact Hs]|].
    split; [rewrite Hd, dom_insert_L; set_solver|].
    rewrite map_size_insert_None in E by done.
    replace (Z.of_nat (S (size m))) with (Z.of_nat (size m) + 1) in E by lia. rewrite E.
    unfold rename at 2. by rewrite (lookup_weaken _ _ _ _ (lookup_insert_eq m (Id v) _) Hs).
Qed.

(** [renumber] gives the operations distinct numbers below the number of
    operations. *)
Lemma renumber_spec evs : exists f,
  renumber evs = map (rename f) evs /\
  (forall a b, a ∈ Id <$> evs -> b ∈ Id <$> evs -> f a = f b -> a = b) /\
  (forall ids, (forall a, a ∈ Id <$> evs -> a ∈ ids) ->
     forall a, a ∈ Id <$> evs -> 0 <= f a < Z.of_nat (length ids)).
Proof.
  destruct (renumber_from_spec ∅ evs) as (m & [Hr Hi] & _ & Hd & E).
  { split; intros *; by rewrite lookup_empty. }
  assert (forall a, a ∈ Id <$> evs -> exists r, m !! a = Some r) as Hin.
  { intros a Ha. apply elem_of_dom. rewrite Hd. set_solver. }
  exists (fun k => default 0 (m !! k)). split; [exact E|]. split.
  - intros a b [r Ha]%Hin [r' Hb]%Hin. rewrite Ha, Hb. cbn. intros ->. by eapply Hi.
  - intros ids Hids a Ha. destruct (Hin a Ha) as [r Hra]. rewrite Hra. cbn.
    pose proof (Hr a r Hra). enough (size m <= length ids)%nat by lia.
    rewrite <- size_dom, Hd. transitivity (size (list_to_set ids : gset Z)).
    + apply subseteq_size. set_solver.
    + apply submseteq_length, NoDup_submseteq; [apply NoDup_elements|].
      intros x Hx. set_solver.
Qed.
End renumber.

(** ** Well-formed events *)

Section events.
Context {State Val : Type} (model : Model State Val) (nil : Val).
Implicit Types (ev : Event Val) (evs : list (Event Val)).

(** Every operation is a call and a later return with an id of its own. *)
Record events_ok evs : Prop := {
  vo_call : forall i e, evs !! i = Some e -> e.(Kind) = CallEvent ->
    exists j e', (i < j)%nat /\ evs !! j = Some e' /\ e'.(Kind) = ReturnEvent /\ e'.(Id) = e.(Id) /\
      (forall k x, evs !! k = Some x -> x.(Id) = e.(Id) -> k = i \/ k = j) /\
      (forall st, exists r, model.(Step) st e.(Value) e'.(Value) = Ret r);
  vo_return : forall j e', evs !! j = Some e' -> e'.(Kind) = ReturnEvent ->
    exists i e, evs !! i = Some e /\ e.(Kind) = CallEvent /\ e.(Id) = e'.(Id);
}.

Global Instance EventKind_eq_dec : EqDecision EventKind.
Proof. solve_decision. Defined.

Abbreviation calls evs := (filter (fun e => e.(Kind) = CallEvent) evs).
Abbreviation returns evs := (filter (fun e => e.(Kind) = ReturnEvent) evs).

Lemma calls_returns_length evs : (length (calls evs) + length (returns evs) = length evs)%nat.
Proof.
  induction evs as [|e evs IH]; [done|]. rewrite !filter_cons. cbn.
  destruct (Kind e) eqn:Hk; repeat case_decide; try congruence; cbn; lia.
Qed.

(** A list whose elements of a kind sit at one place each has no duplicates. *)
Lemma unique_NoDup {A B} (P : A -> Prop) `{!forall x, Decision (P x)} (f : A -> B) (l : list A) :
  (forall i j x y, l !! i = Some x -> l !! j = Some y -> P x -> P y -> f x = f y -> i = j) ->
  NoDup (f <$> filter P l).
Proof.
  induction l as [|a l IH]; intros Hu; [constructor|].
  assert (NoDup (f <$> filter P l)) as Hl.
  { apply IH. intros i j x y Hi Hj Hx Hy E. specialize (Hu (S i) (S j) x y Hi Hj Hx Hy E). lia. }
  rewrite filter_cons. case_decide as Ha; [|done]. cbn. constructor; [|done].
  intros (y & E & [Hy Hin]%list_elem_of_filter)%list_elem_of_fmap.
  apply list_elem_of_lookup in Hin as [j Hj].
  specialize (Hu 0%nat (S j) a y eq_refl Hj Ha Hy E). lia.
Qed.

(** The ids of the calls are distinct, and are all ids; half of the events are
    calls. *)
Lemma call_ids_half evs : events_ok evs ->
  (forall a, a ∈ Id <$> evs -> a ∈ Id <$> calls evs) /\ (2 * length (calls evs) <= length evs)%nat.
Proof.
  intros [Hc Hr]. split.
  - intros a (e & -> & Hin)%list_elem_of_fmap. apply list_elem_of_lookup in Hin as [i Hi].
    apply list_elem_of_fmap. destruct (Kind e) eqn:Hk.
    + exists e. split; [done|]. apply list_elem_of_filter. split; [done|]. by eapply list_elem_of_lookup_2.
    + destruct (Hr i e Hi Hk) as (j & e0 & Hj & Hk0 & <-). exists e0. split; [done|].
      apply list_elem_of_filter. split; [done|]. by eapply list_elem_of_lookup_2.
  - pose proof (calls_returns_length evs) as Hlen.
    enough (length (Id <$> calls evs) <= length (Id <$> returns evs))%nat as Hle
      by (rewrite !length_fmap in Hle; lia).
    apply submseteq_length, NoDup_submseteq.
    + apply unique_NoDup. intros i j x y Hi Hj Hx Hy E.
      destruct (Hc i x Hi Hx) as (j' & e' & Hlt & Hj' & Hk' & _ & Hu & _).
      destruct (Hu j y Hj (eq_sym E)) as [->| ->]; [done|]. simplify_eq. congruence.
    + intros a (e & -> & [Hk Hin]%list_elem_of_filter)%list_elem_of_fmap.
      apply list_elem_of_lookup in Hin as [i Hi].
      destruct (Hc i e Hi Hk) as (j & e' & _ & Hj & Hk' & <- & _).
      apply list_elem_of_fmap. exists e'. split; [done|]. apply list_elem_of_filter. split; [done|].
      by eapply list_elem_of_lookup_2.
Qed.

(** *** Entries of renamed events *)

Definition entry_of ev : entry Val :=
  mkEntry (match ev.(Kind) with ReturnEvent => returnEntry | CallEvent => callEntry end)
    ev.(Value) ev.(Id) (-1).

Lemma convertEntries_lookup evs i e : convertEntries evs !! i = Some e <->
  exists ev, evs !! i = Some ev /\ e = entry_of ev.
Proof.
  unfold convertEntries. rewrite list_lookup_fmap_Some. split; intros (ev & ? & ?); exists ev; done.
Qed.

Lemma entry_kind_call ev : kind (entry_of ev) = callEntry <-> Kind ev = CallEvent.
Proof. unfold entry_of. cbn. by destruct (Kind ev). Qed.
Lemma entry_kind_return ev : kind (entry_of ev) = returnEntry <-> Kind ev = ReturnEvent.
Proof. unfold entry_of. cbn. by destruct (Kind ev). Qed.

Section renamed.
Context (evs : list (Event Val)) (Hok : events_ok evs) (f : Z -> Z).
Hypothesis Hinj : forall a b, a ∈ Id <$> evs -> b ∈ Id <$> evs -> f a = f b -> a = b.
Hypothesis Hrange : forall a, a ∈ Id <$> evs -> 0 <= f a < Z.of_nat (length evs) / 2.

Notation es := (convertEntries (map (rename f) evs)).

Lemma es_lookup_ev i e : es !! i = Some e <->
  exists ev, evs !! i = Some ev /\ e = entry_of (rename f ev).
Proof.
  rewrite convertEntries_lookup. setoid_rewrite list_lookup_fmap_Some. split.
  - intros (ev & (ev0 & -> & H) & ->). by exists ev0.
  - intros (ev & H & ->). exists (rename f ev). split; [by exists ev|done].
Qed.

Lemma id_in i ev : evs !! i = Some ev -> Id ev ∈ Id <$> evs.
Proof. intros Hi. apply list_elem_of_fmap. exists ev. split; [done|]. by eapply list_elem_of_lookup_2. Qed.

Lemma renamed_entries_ok : entries_ok model es.
Proof.
  destruct Hok as [Hc Hr]. split.
  - intros e He. apply list_elem_of_lookup in He as [i (ev & Hi & ->)%es_lookup_ev].
    unfold convertEntries. rewrite !length_map. cbn. by eapply Hrange, id_in.
  - intros i e (ev & Hi & ->)%es_lookup_ev Hk. rewrite entry_kind_call in Hk.
    destruct (Hc i ev Hi Hk) as (j & ev' & Hlt & Hj & Hk' & Hid & Hu & Hst).
    exists j, (entry_of (rename f ev')). split; [done|]. split; [apply es_lookup_ev; by exists ev'|].
    split; [by apply entry_kind_return|]. split; [cbn; by rewrite Hid|]. split; [|exact Hst].
    intros k x (ev0 & Hk0 & ->)%es_lookup_ev Hx. cbn in Hx.
    apply (Hu k ev0 Hk0). eapply Hinj; [by eapply id_in|by eapply id_in|done].
  - intros j e (ev & Hj & ->)%es_lookup_ev Hk. rewrite entry_kind_return in Hk.
    destruct (Hr j ev Hj Hk) as (i & ev0 & Hi & Hk0 & Hid). exists i, (entry_of (rename f ev0)).
    split; [apply es_lookup_ev; by exists ev0|]. split; [by apply entry_kind_call|]. cbn. by rewrite Hid.
Qed.

(** A linearization of the renamed events is a renamed linearization. *)
Lemma es_fmap : es = (fun e => mkEntry e.(kind) e.(evalue) (f e.(eid)) e.(etime)) <$> convertEntries evs.
Proof. unfold convertEntries. rewrite <- !list_fmap_compose. by apply list_fmap_ext. Qed.

Lemma call_ids_fmap :
  eid <$> filter (fun e => e.(kind) = callEntry) es =
  f <$> (eid <$> filter (fun e => e.(kind) = callEntry) (convertEntries evs)).
Proof.
  rewrite es_fmap. clear. induction (convertEntries evs) as [|e l IH]; [done|].
  rewrite fmap_cons, !filter_cons. cbn. case_decide; cbn; by rewrite IH.
Qed.

Lemma before_renamed σ a b : (forall x, x ∈ σ -> x ∈ Id <$> evs) -> a ∈ Id <$> evs -> b ∈ Id <$> evs ->
  before (f <$> σ) (f a) (f b) <-> before σ a b.
Proof.
  intros Hσ Ha Hb. split.
  - intros (l1 & l2 & E & Hin). apply fmap_app_inv in E as (s1 & s2 & -> & E2 & ->).
    symmetry in E2. apply fmap_cons_inv in E2 as (y & s3 & Ey & -> & ->).
    apply list_elem_of_fmap in Hin as (x & Ex & Hin).
    assert (a = x) as -> by (apply Hinj; [done|apply Hσ; set_solver|done]).
    assert (b = y) as -> by (apply Hinj; [done|apply Hσ; set_solver|done]).
    by exists s1, s3.
  - intros (l1 & l2 & -> & Hin). exists (f <$> l1), (f <$> l2). rewrite fmap_app, fmap_cons.
    split; [done|]. apply list_elem_of_fmap. by exists a.
Qed.

Lemma kind_of_fmap k a e : a ∈ Id <$> evs ->
  (e ∈ es /\ e.(kind) = k /\ e.(eid) = f a) <->
  exists e0, (e0 ∈ convertEntries evs /\ e0.(kind) = k /\ e0.(eid) = a) /\
    e = mkEntry e0.(kind) e0.(evalue) (f e0.(eid)) e0.(etime).
Proof.
  intros Ha. rewrite es_fmap, list_elem_of_fmap. split.
  - intros ((e0 & -> & Hin) & Hk & Hid). cbn in *. exists e0. split; [|done]. split; [done|].
    split; [done|]. apply list_elem_of_fmap in Hin as (ev & -> & Hin). cbn in *.
    apply Hinj; [apply list_elem_of_fmap; by exists ev|done|done].
  - intros (e0 & (Hin & Hk & <-) & ->). cbn. split; [by exists e0|done].
Qed.

Lemma explains_fmap st σ : (forall x, x ∈ σ -> x ∈ Id <$> evs) ->
  explains model es st (f <$> σ) <-> explains model (convertEntries evs) st σ.
Proof.
  revert st. induction σ as [|a σ IH]; intros st Hσ; [split; constructor|].
  assert (a ∈ Id <$> evs) as Ha by (apply Hσ; by left).
  assert (forall x, x ∈ σ -> x ∈ Id <$> evs) as Hr by (intros; apply Hσ; by right).
  rewrite fmap_cons. split; inversion_clear 1 as [|? ? e e' st' ? Hc Hret Hst Hrest].
  - apply kind_of_fmap in Hc as (e0 & Hc & ->); [|done].
    apply kind_of_fmap in Hret as (e0' & Hret & ->); [|done].
    econstructor; [exact Hc|exact Hret|exact Hst|by apply IH].
  - econstructor; [apply kind_of_fmap; [done|by exists e]|apply kind_of_fmap; [done|by exists e']
      |exact Hst|by apply IH].
Qed.

Lemma call_id_in x : x ∈ eid <$> filter (fun e => e.(kind) = callEntry) (convertEntries evs) ->
  x ∈ Id <$> evs.
Proof.
  intros (e & -> & [_ Hin]%list_elem_of_filter)%list_elem_of_fmap.
  apply list_elem_of_fmap in Hin as (ev & -> & Hin). apply list_elem_of_fmap. by exists ev.
Qed.

Lemma linearization_fmap σ :
  σ ≡ₚ eid <$> filter (fun e => e.(kind) = callEntry) (convertEntries evs) ->
  linearization model es (f <$> σ) <-> linearization model (convertEntries evs) σ.
Proof.
  intros Hp. assert (forall x, x ∈ σ -> x ∈ Id <$> evs) as Hσ
    by (intros x Hx; rewrite Hp in Hx; by apply call_id_in).
  split; intros [_ Ho Hx].
  - split; [done| |by apply explains_fmap].
    intros i j e e' (ev & Hi & ->)%convertEntries_lookup Hk (ev' & Hj & ->)%convertEntries_lookup Hk' Hij.
    eapply before_renamed; [done|by eapply id_in|by eapply id_in|].
    apply (Ho i j (entry_of (rename f ev)) (entry_of (rename f ev'))); try done;
      (apply es_lookup_ev; by eexists).
  - split; [by rewrite call_ids_fmap, Hp| |by apply explains_fmap].
    intros i j e e' (ev & Hi & ->)%es_lookup_ev Hk (ev' & Hj & ->)%es_lookup_ev Hk' Hij. cbn.
    eapply before_renamed; [done|by eapply id_in|by eapply id_in|].
    apply (Ho i j (entry_of ev) (entry_of ev')); try done;
      (apply convertEntries_lookup; by eexists).
Qed.

Lemma linearizable_renamed : linearizable model es <-> linearizable model (convertEntries evs).
Proof.
  split; intros [σ Hσ].
  - pose proof (ln_perm _ _ _ Hσ) as Hp. rewrite call_ids_fmap in Hp.
    apply Permutation_map_inv in Hp as (τ & -> & Hp). exists τ. by apply linearization_fmap.
  - exists (f <$> σ). apply linearization_fmap; [|done]. by apply (ln_perm _ _ _ Hσ).
Qed.
End renamed.

(** ** The search of one partition, and of all *)

Context (Heq : forall s s', model.(Equal) s s' = true -> s = s').

Lemma check_events_spec evs : events_ok evs ->
  exists fuel0 b, (forall fuel, (fuel0 <= fuel)%nat -> check_events model nil fuel evs = Ret (Some b)) /\
    (b = true <-> linearizable model (convertEntries evs)).
Proof.
  intros Hok. destruct (renumber_spec evs) as (f & E & Hinj & Hr).
  destruct (call_ids_half evs Hok) as [Hids Hhalf].
  assert (forall a, a ∈ Id <$> evs -> 0 <= f a < Z.of_nat (length evs) / 2) as Hrange.
  { intros a Ha. specialize (Hr _ Hids a Ha). rewrite length_fmap in Hr. split; [lia|].
    apply Z.lt_le_trans with (1 := proj2 Hr). apply Z.div_le_lower_bound; lia. }
  pose proof (renamed_entries_ok evs Hok f Hinj Hrange) as He.
  unfold check_events. rewrite E.
  destruct (makeLinkedEntries (convertEntries (map (rename f) evs))) as [h root] eqn:Hmk.
  destruct (checkSingle_decides model nil _ h root Heq He Hmk) as (fuel0 & b & Hf & Hb).
  exists fuel0, b. split; [done|]. rewrite Hb. rewrite <- (linearizable_renamed evs Hok f Hinj Hrange).
  symmetry. by apply linearizable_nodes.
Qed.
End events.

(** More fuel does not change an answer. *)
Lemma checkSingle_more {State Val} (model : Model State Val) nil kill h root fuel fuel' b :
  (fuel <= fuel')%nat -> checkSingle model nil fuel kill h root = Ret (Some b) ->
  checkSingle model nil fuel' kill h root = Ret (Some b).
Proof.
  unfold checkSingle. destruct (search_start _ _ h root) as [[s hd]|]; [|done]. cbn.
  generalize 0%nat. revert fuel' s. induction fuel as [|fuel IH]; intros fuel' s t Hle; [done|].
  destruct fuel' as [|fuel']; [lia|]. cbn. destruct (iteration _ _ _ _) as [[s'|b']|]; cbn; [|done|done].
  apply IH. lia.
Qed.

(** So a search that answers false, within any number of iterations, is right. *)
Lemma checkSingle_refutes {State Val} (model : Model State Val) nil h root fuel (P : Prop) :
  (exists fuel0 b, (forall fuel, (fuel0 <= fuel)%nat ->
      checkSingle model nil fuel (fun _ => false) h root = Ret (Some b)) /\ (b = true <-> P)) ->
  checkSingle model nil fuel (fun _ => false) h root = Ret (Some false) -> ~ P.
Proof.
  intros (fuel0 & b & Hf & Hb) E HP%Hb. subst b.
  apply (checkSingle_more _ _ _ _ _ _ (max fuel fuel0)) in E; [|lia].
  rewrite Hf in E by lia. done.
Qed.

(** The loop, when every search ends with an answer. *)
Lemma receive_all timeout (check : nat -> res (option bool)) (answer : nat -> bool) n count arrival :
  (forall i, i ∈ arrival -> check i = Ret (Some (answer i))) ->
  (count + length arrival = n)%nat -> arrival <> [] ->
  receive timeout check n count (Some <$> arrival) = Ret (Some (forallb answer arrival)).
Proof.
  revert count. induction arrival as [|i arrival IH]; intros count Hc Hn Hne; [done|]. cbn.
  rewrite (Hc i) by set_solver. cbn. destruct (answer i); cbn; [|done].
  destruct (Nat.leb_spec n (count + 1)).
  - destruct arrival; [done|]. cbn in Hn. lia.
  - apply IH; [set_solver|cbn in *; lia|]. destruct arrival; [cbn in *; lia|done].
Qed.

(** False is always the answer of a search. *)
Lemma receive_false timeout check n count arrival :
  receive timeout check n count arrival = Ret (Some false) ->
  exists i, Some i ∈ arrival /\ check i = Ret (Some false).
Proof.
  revert count. induction arrival as [|[i|] arrival IH]; intros count; cbn; [done| |].
  - destruct (check i) as [[[|]|]|] eqn:Hc; cbn; [destruct (n <=? count + 1)%nat; [done|]|..].
    2: { intros _. exists i. split; [by left|done]. }
    3: done.
    all: intros (j & Hj & E)%IH; exists j; split; [by right|done].
  - destruct (0 <? timeout); [done|]. intros (j & Hj & E)%IH. exists j. split; [by right|done].
Qed.

(** Without a timeout the timer is never heard. *)
Lemma receive_no_timer check n count arrival :
  receive 0 check n count arrival =
  receive 0 check n count (Some <$> omap id arrival).
Proof.
  revert count. induction arrival as [|[i|] arrival IH]; intros count; cbn; [done| |apply IH].
  destruct (check i) as [[[]|]|]; cbn; try done. destruct (n <=? count + 1)%nat; auto.
Qed.

(** [CheckOperations] of LinKv.v, which collects the answers first, is the loop
    without a timeout, when no search fails. *)
Lemma CheckOperations_receive {State Val} (model : Model State Val) nil sort fuel arrival history r :
  CheckOperations model nil sort fuel arrival history = Ret r ->
  CheckOperationsTimeout model nil sort fuel 0 (Some <$> arrival) history = Ret r.
Proof.
  unfold CheckOperations, CheckOperationsTimeout.
  destruct (model.(Partition) history) as [parts|]; [|done]. cbn. generalize 0%nat.
  generalize (length parts) as n. induction arrival as [|i arrival IH]; intros n count; cbn; [done|].
  destruct (res_of_option (parts !! i)) as [sub|]; [|done]. cbn.
  destruct (check_part model nil sort fuel sub) as [[[|]|]|]; cbn; [| | |done];
    (destruct (answers _ _ _ _ _ _) as [bs|] eqn:Ha; [|done]); cbn.
  - destruct (n <=? count + 1)%nat; [by intros [= <-]|]. intros H. apply IH. done.
  - by intros [= <-].
  - intros H. apply IH. done.
Qed.

(** ** The theorems *)

Section theorems.
Context {State Val : Type} (model : Model State Val) (nil : Val).
Context (Heq : forall s s', model.(Equal) s s' = true -> s = s').

(** Enough fuel, and the answers, for every partition. *)
Lemma parts_answers (check : nat -> list (Event Val) -> res (option bool))
    (parts : list (list (Event Val))) :
  (forall sub, sub ∈ parts -> exists fuel0 b,
     (forall fuel, (fuel0 <= fuel)%nat -> check fuel sub = Ret (Some b)) /\
     (b = true <-> linearizable model (convertEntries sub))) ->
  exists fuel0 (answer : nat -> bool), forall i sub, parts !! i = Some sub ->
    (forall fuel, (fuel0 <= fuel)%nat -> check fuel sub = Ret (Some (answer i))) /\
    (answer i = true <-> linearizable model (convertEntries sub)).
Proof.
  induction parts as [|s parts IH]; intros H; [by exists 0%nat, (fun _ => true)|].
  destruct IH as (f1 & an & Han); [intros; apply H; by right|].
  destruct (H s) as (f2 & b & Hb & Hl); [by left|].
  exists (max f1 f2), (fun i => match i with O => b | S i => an i end).
  intros [|i] sub Hi; cbn in Hi.
  - simplify_eq. split; [|done]. intros fuel Hf. apply Hb. lia.
  - destruct (Han i sub Hi) as [Ha1 Ha2]. split; [|done]. intros fuel Hf. apply Ha1. lia.
Qed.

(** C24. [CheckEvents] on well-formed events (every call has one later return with
    its id, and nothing else has that id; the ids are otherwise arbitrary) with
    at least one partition ends, and answers true exactly when every partition is
    linearizable, in whatever order the searches answer. *)
Theorem CheckEvents_correct arrival (history : list (Event Val)) parts :
  model.(PartitionEvent) history = Ret parts -> parts <> [] ->
  (forall sub, sub ∈ parts -> events_ok model sub) -> arrival ≡ₚ seq 0 (length parts) ->
  exists fuel0 b, (forall fuel, (fuel0 <= fuel)%nat ->
      CheckEvents model nil fuel (Some <$> arrival) history = Ret (Some b)) /\
    (b = true <-> forall sub, sub ∈ parts -> linearizable model (convertEntries sub)).
Proof.
  intros Hp Hne Hok Harr.
  destruct (parts_answers (check_events model nil) parts) as (fuel0 & an & Han).
  { intros sub Hsub. apply check_events_spec; auto. }
  assert (forall i, i ∈ arrival -> exists sub, parts !! i = Some sub) as Hin.
  { intros i Hi. apply lookup_lt_is_Some_2. rewrite Harr in Hi. apply elem_of_seq in Hi. lia. }
  assert (length arrival = length parts) as Hlen by (rewrite Harr; apply length_seq).
  exists fuel0, (forallb an arrival). split.
  - intros fuel Hf. unfold CheckEvents, CheckEventsTimeout. rewrite Hp. cbn.
    apply receive_all; [|lia|by destruct arrival, parts].
    intros i Hi. destruct (Hin i Hi) as [sub Hs]. rewrite Hs. cbn. by apply Han.
  - rewrite forallb_forall. split.
    + intros H sub Hsub. apply list_elem_of_lookup in Hsub as [i Hi]. apply (Han i sub Hi), H.
      apply list_elem_of_In. rewrite Harr. apply elem_of_seq. apply lookup_lt_Some in Hi. lia.
    + intros H i Hi%list_elem_of_In. destruct (Hin i Hi) as [sub Hs]. apply (Han i sub Hs), H.
      by eapply list_elem_of_lookup_2.
Qed.

(** C25. A check with a timeout raises no false alarm: whatever the timeout, the
    order of the answers, the moment the timer fires and the number of iterations
    the searches got, when [CheckOperationsTimeout] answers false some partition
    is not linearizable, and likewise [CheckEventsTimeout]. *)
Theorem timeout_no_false_alarm sort fuel timeout arrival
    (ops : list (Operation Val)) (parts : list (list (Operation Val)))
    (events : list (Event Val)) (eparts : list (list (Event Val))) :
  sorts_by_time sort ->
  model.(Partition) ops = Ret parts -> (forall sub, sub ∈ parts -> ops_ok model sub) ->
  model.(PartitionEvent) events = Ret eparts -> (forall sub, sub ∈ eparts -> events_ok model sub) ->
  (CheckOperationsTimeout model nil sort fuel timeout arrival ops = Ret (Some false) ->
   exists sub, sub ∈ parts /\ ~ linearizable model (makeEntries sort sub)) /\
  (CheckEventsTimeout model nil fuel timeout arrival events = Ret (Some false) ->
   exists sub, sub ∈ eparts /\ ~ linearizable model (convertEntries sub)).
Proof.
  intros Hs Hp Hok Hep Heok.
  unfold CheckOperationsTimeout, CheckEventsTimeout. rewrite Hp, Hep. cbn.
  split; intros (i & _ & E)%receive_false.
  - destruct (parts !! i) as [sub|] eqn:Hi; [|done]. cbn in E.
    apply list_elem_of_lookup_2 in Hi. exists sub. split; [done|].
    pose proof (check_part_spec model nil sort Hs Heq sub (Hok sub Hi)) as Hspec.
    unfold check_part in *. destruct (makeLinkedEntries _). by eapply checkSingle_refutes.
  - destruct (eparts !! i) as [sub|] eqn:Hi; [|done]. cbn in E.
    apply list_elem_of_lookup_2 in Hi. exists sub. split; [done|].
    pose proof (check_events_spec model nil Heq sub (Heok sub Hi)) as Hspec.
    unfold check_events in *. destruct (makeLinkedEntries _). by eapply checkSingle_refutes.
Qed.
End theorems.

(** ** Events of the key/value store *)

Definition kv_call (op : Z) (k v : string) (id : Z) : Event KvVal :=
  mkEvent CallEvent (VIn {| kvOp := op; kvKey := k; kvValue := v |}) id.
Definition kv_return (out : string) (id : Z) : Event KvVal :=
  mkEvent ReturnEvent (VOut {| kvResult := out |}) id.

(** A put and an append that overlap, with ids of their own, and a read. *)
Definition demo_events : list (Event KvVal) :=
  [kv_call 2 "k" "y" 70; kv_call 1 "k" "x" (-3); kv_return "" 70; kv_return "" (-3);
   kv_call 0 "k" "" 9; kv_return "xy" 9].

(** [events_ok] is decided by a table of the places of each operation. *)
Lemma events_ok_pairs {State Val} (model : Model State Val) (evs : list (Event Val)) (pairs : list (nat * nat)) :
  (forall i e, evs !! i = Some e -> exists p, p ∈ pairs /\ (i = p.1 \/ i = p.2)) ->
  (forall p, p ∈ pairs -> exists e e', (p.1 < p.2)%nat /\ evs !! p.1 = Some e /\ evs !! p.2 = Some e' /\
     e.(Kind) = CallEvent /\ e'.(Kind) = ReturnEvent /\ e'.(Id) = e.(Id) /\
     (forall k x, evs !! k = Some x -> x.(Id) = e.(Id) -> k = p.1 \/ k = p.2) /\
     (forall st, exists r, model.(Step) st e.(Value) e'.(Value) = Ret r)) ->
  events_ok model evs.
Proof.
  intros Hcov Hp. split.
  - intros i e Hi Hk. destruct (Hcov i e Hi) as (p & Hin & Hor).
    destruct (Hp p Hin) as (e1 & e2 & Hlt & H1 & H2 & K1 & K2 & Hid & Hu & Hst).
    destruct Hor as [->| ->]; simplify_eq; [|congruence]. exists p.2, e2. by repeat split.
  - intros j e' Hj Hk. destruct (Hcov j e' Hj) as (p & Hin & Hor).
    destruct (Hp p Hin) as (e1 & e2 & Hlt & H1 & H2 & K1 & K2 & Hid & Hu & Hst).
    destruct Hor as [->| ->]; simplify_eq; [congruence|]. by exists p.1, e1.
Qed.

Ltac event_cases :=
  repeat match goal with
  | H : _ ∈ [] |- _ => by apply not_elem_of_nil in H
  | H : _ ∈ _ :: _ |- _ => apply elem_of_cons in H as [->|H]
  | H : [] !! _ = Some _ |- _ => by rewrite lookup_nil in H
  | H : (_ :: _) !! ?k = Some _ |- _ => destruct k as [|k]; cbn in H; simplify_eq
  end.

Lemma demo_events_ok : events_ok KvModel demo_events.
Proof.
  unfold demo_events. apply (events_ok_pairs _ _ [(0, 2); (1, 3); (4, 5)]%nat).
  - intros i e Hi. event_cases;
      first [exists (0, 2)%nat; split; [set_solver|cbn; lia]
            |exists (1, 3)%nat; split; [set_solver|cbn; lia]
            |exists (4, 5)%nat; split; [set_solver|cbn; lia]].
  - intros p Hp. event_cases; cbn; eexists _, _;
      (split; [lia|]); (split; [reflexivity|]); (split; [reflexivity|]);
      (split; [reflexivity|]); (split; [reflexivity|]); (split; [reflexivity|]);
      (split; [|intros st; eexists; reflexivity]);
      intros k x Hk Hx; event_cases; cbn in *; lia.
Qed.

Lemma CheckEvents_correct_witness :
  exists fuel0 b, (forall fuel, (fuel0 <= fuel)%nat ->
      CheckEvents KvModel VNil fuel [Some 0%nat] demo_events = Ret (Some b)) /\
    (b = true <-> forall sub, sub ∈ [demo_events] -> linearizable KvModel (convertEntries sub)).
Proof.
  apply (CheckEvents_correct KvModel VNil kv_equal_sound [0%nat] demo_events [demo_events]).
  - reflexivity.
  - discriminate.
  - intros sub ->%list_elem_of_singleton. apply demo_events_ok.
  - reflexivity.
Defined.

Example demo_events_linearizable :
  CheckEvents KvModel VNil 40 [Some 0%nat] demo_events = Ret (Some true).
Proof. vm_compute. reflexivity. Qed.

(** A stale read is refused before the timer fires; when the timer fires first,
    the answer is true. *)
Definition stale_history : list KvOperation :=
  [kv_op 1 "k" "x" 0 "" 5; kv_op 0 "k" "" 10 "" 15].

Lemma stale_ok : ops_ok KvModel stale_history.
Proof.
  intros o Ho. unfold stale_history in Ho. event_cases;
    (split; [cbn; lia|intros st; eexists; reflexivity]).
Qed.

Example timer_first :
  CheckOperationsTimeout KvModel VNil time_sort 40 1 [None; Some 0%nat] stale_history = Ret (Some true).
Proof. vm_compute. reflexivity. Qed.

Lemma timeout_no_false_alarm_witness :
  exists sub, sub ∈ [stale_history] /\ ~ linearizable KvModel (makeEntries time_sort sub).
Proof.
  apply (timeout_no_false_alarm KvModel VNil kv_equal_sound time_sort 40 1 [Some 0%nat; None]
           stale_history [stale_history] demo_events [demo_events]).
  - apply time_sort_sorts.
  - vm_compute. reflexivity.
  - intros sub ->%list_elem_of_singleton. apply stale_ok.
  - reflexivity.
  - intros sub ->%list_elem_of_singleton. apply demo_events_ok.
  - vm_compute. reflexivity.
Defined.

(** The key/value model has no [PartitionEvent], so [CheckEvents] searches the
    events of all keys together against the state of one key: a put to one key
    followed by a read of another, a correct history of a store, is refused,
    though [CheckOperations] accepts it. *)
Lemma events_mix_keys :
  CheckEvents KvModel VNil 40 [Some 0%nat]
    [kv_call 1 "a" "x" 0; kv_return "" 0; kv_call 0 "b" "" 1; kv_return "" 1] = Ret (Some false) /\
  CheckOperations KvModel VNil time_sort 40 [0; 1]%nat
    [kv_op 1 "a" "x" 0 "" 5; kv_op 0 "b" "" 10 "" 15] = Ret (Some true).
Proof. split; vm_compute; reflexivity. Qed.
