(* ===== verification/KvSystem.v ===== *)
(** * KvSystem: clerks and servers of the key/value service together

    The service as its tests see it: servers (KVServer.v) that take client
    requests and apply the commands of one agreed log, clerks (Clerk.v) that retry
    over the servers, a network between them, and the record of the operations
    with the times they were called and returned, which the tests hand to the
    checker of src/linearizability.

    Raft is the agreed log: [Start] at a server that takes itself for the leader
    makes a command a candidate ([started]), a candidate is appended to [log] at
    some time, once, more than once or never, and each server gets the messages
    of the log in order, with repetitions, from the beginning after a restart.
    What [Start] returns as index is arbitrary.  Requests and replies may be
    lost, delayed and delivered again to the caller that waits for them; src/labrpc
    delivers at most once, which is a special case (KvNet.v). *)

From S2P Require Import Prelude Gob Raft KVServer KVTheory Clerk.
From S2P Require Import LinCheck LinOps LinKv.
From stdpp Require Import strings.
Local Open Scope Z_scope.

(** ** One iteration of the loops of [Get] and [PutAppend] *)

Definition next_server (ck : Clerk) : Clerk :=
  set_leaderId ((ck.(leaderId) + 1) mod ck.(servers))%nat ck.

Definition request_call (ck : Clerk) (r : Request) : Call :=
  match r with
  | ReqGet key => CGet (get_args ck key)
  | ReqPutAppend key value op => CPutAppend (putappend_args ck key value op)
  end.

Definition reply_wrong (r : Reply) : bool :=
  match r with RGet r => r.(gr_WrongLeader) | RPutAppend r => r.(par_WrongLeader) end.

(** What the method of the clerk returns. *)
Definition reply_value (r : Reply) : string :=
  match r with RGet r => r.(gr_Value) | RPutAppend _ => "" end.

Global Instance GetArgs_eq_dec : EqDecision GetArgs.
Proof. solve_decision. Defined.
Global Instance PutAppendArgs_eq_dec : EqDecision PutAppendArgs.
Proof. solve_decision. Defined.
Global Instance Call_eq_dec : EqDecision Call.
Proof. solve_decision. Defined.

(** ** State *)

(** A clerk, the servers its handles lead to (the tests shuffle them), and where
    it is: between two methods, or in the [Call] of operation [i] of the record. *)
Record ClerkState := mkCk { ck : Clerk; handles : list nat; busy : option (Call * nat) }.

(** The server behind [ck.servers[ck.leaderId]]. *)
Definition target (hs : list nat) (ck : Clerk) : nat := hs !!! ck.(leaderId).

(** A server and the highest index that was delivered to it since it started. *)
Record Node := mkNode { kv : KVServer; height : nat }.

(** An operation of a test: what was called, when, and what it returned when. *)
Record OpRec := mkRec { or_call : Call; or_start : Z; or_done : option (Z * string) }.

Record Sys := mkSys {
  log : list Op;
  started : list Op;                         (* candidates for the log *)
  nodes : list Node;
  cks : list ClerkState;
  sent : list (nat * Call);                  (* requests, by server *)
  answered : list (nat * (Call * Reply));    (* replies, by server *)
  recs : list OpRec;
  clock : Z;
}.

Definition set_log (v : list Op) (w : Sys) : Sys :=
  mkSys v w.(started) w.(nodes) w.(cks) w.(sent) w.(answered) w.(recs) w.(clock).
Definition set_started (v : list Op) (w : Sys) : Sys :=
  mkSys w.(log) v w.(nodes) w.(cks) w.(sent) w.(answered) w.(recs) w.(clock).
Definition set_nodes (v : list Node) (rs : list (nat * (Call * Reply))) (w : Sys) : Sys :=
  mkSys w.(log) w.(started) v w.(cks) w.(sent) rs w.(recs) w.(clock).
Definition set_cks (v : list ClerkState) (w : Sys) : Sys :=
  mkSys w.(log) w.(started) w.(nodes) v w.(sent) w.(answered) w.(recs) w.(clock).
Definition set_sent (v : list (nat * Call)) (w : Sys) : Sys :=
  mkSys w.(log) w.(started) w.(nodes) w.(cks) v w.(answered) w.(recs) w.(clock).
(** The record changes as time passes. *)
Definition set_recs (v : list OpRec) (w : Sys) : Sys :=
  mkSys w.(log) w.(started) w.(nodes) w.(cks) w.(sent) w.(answered) v (w.(clock) + 1).

(** ** Steps *)

Inductive SLabel :=
| SInvoke (j : nat) (r : Request)       (* clerk [j] calls Get, Put or Append *)
| SFail (j : nat)                       (* its Call returns false *)
| SReply (j k : nat)                    (* its Call returns with reply [k] on the network *)
| SRequest (s : nat) (c : Call) (index : Z) (isLeader : bool)
                                        (* a request arrives; what rf.Start answers *)
| SHandler (s : nat) (lbl : KLabel)     (* a step of a handler or of ch <- notify *)
| SDeliver (s : nat) (index : nat)      (* a message on applyCh *)
| SCommit (k : nat)                     (* candidate [k] enters the log *)
| SRestart (s : nat).

(** The methods of the public interface. *)
Definition proper (r : Request) : bool :=
  match r with
  | ReqGet _ => true
  | ReqPutAppend _ _ op => String.eqb op "Put" || String.eqb op "Append"
  end.

(** The steps of a server that involve neither Raft nor the network. *)
Definition internal (lbl : KLabel) : bool :=
  match lbl with KStart _ _ _ | KApply _ => false | _ => true end.

(** The next iteration of the loop: the RPC goes to the next server. *)
Definition try_next (j : nat) (cs : ClerkState) (c : Call) (i : nat) (w : Sys) : Sys :=
  let ck' := next_server cs.(ck) in
  set_sent (w.(sent) ++ [(target cs.(handles) ck', c)])
    (set_cks (<[j := mkCk ck' cs.(handles) (Some (c, i))]> w.(cks)) w).

(** The [Call] of clerk [j] returns: false, or true with a reply. *)
Definition clerk_returns (j : nat) (o : option Reply) (w : Sys) : option Sys :=
  cs ← w.(cks) !! j;
  b ← cs.(busy);
  match o with
  | Some reply =>
      if reply_wrong reply then Some (try_next j cs b.1 b.2 w)
      else
        r ← w.(recs) !! b.2;
        let ck' := set_lastRequestId (cs.(ck).(lastRequestId) + 1) cs.(ck) in
        let r' := mkRec r.(or_call) r.(or_start) (Some (w.(clock), reply_value reply)) in
        Some (set_recs (<[b.2 := r']> w.(recs)) (set_cks (<[j := mkCk ck' cs.(handles) None]> w.(cks)) w))
  | None => Some (try_next j cs b.1 b.2 w)
  end.

(** Server [s] takes a step of KVServer.v, and what a handler returns goes to the
    network; a panic ends the run. *)
Definition server_step (s : nat) (lbl : KLabel) (h : nat -> nat) (w : Sys) : option Sys :=
  nd ← w.(nodes) !! s;
  match kstep lbl nd.(kv) with
  | Some (Ret kv') =>
      Some (set_nodes (<[s := mkNode kv' (h nd.(height))]> w.(nodes))
              (w.(answered) ++ ((s,.) <$> drop (length nd.(kv).(replies)) kv'.(replies))) w)
  | _ => None
  end.

(** A request arrives at server [s]; [index] and [isLeader] are what [rf.Start]
    answers. *)
Definition arrives (s : nat) (c : Call) (index : Z) (isLeader : bool) (w : Sys) : option Sys :=
  w ← server_step s (KStart c index isLeader) id w;
  Some (if isLeader then set_started (w.(started) ++ [call_op c]) w else w).

Definition apply_msg (op : Op) (index : nat) : ApplyMsg Op :=
  {| CommandValid := true; am_Command := Some op; CommandIndex := Z.of_nat index |}.

Definition sstep (lbl : SLabel) (w : Sys) : option Sys :=
  match lbl with
  | SInvoke j r =>
      cs ← w.(cks) !! j;
      match cs.(busy) with
      | Some _ => None
      | None =>
          if proper r then
            let c := request_call cs.(ck) r in
            let i := length w.(recs) in
            Some (set_recs (w.(recs) ++ [mkRec c w.(clock) None])
                    (set_sent (w.(sent) ++ [(target cs.(handles) cs.(ck), c)])
                       (set_cks (<[j := mkCk cs.(ck) cs.(handles) (Some (c, i))]> w.(cks)) w)))
          else None
      end
  | SFail j => clerk_returns j None w
  | SReply j k =>
      cs ← w.(cks) !! j;
      b ← cs.(busy);
      a ← w.(answered) !! k;
      if bool_decide (a.1 = target cs.(handles) cs.(ck) /\ a.2.1 = b.1)
      then clerk_returns j (Some a.2.2) w else None
  | SRequest s c index isLeader =>
      if bool_decide ((s, c) ∈ w.(sent)) then arrives s c index isLeader w else None
  | SHandler s lbl => if internal lbl then server_step s lbl id w else None
  | SDeliver s index =>
      nd ← w.(nodes) !! s;
      op ← w.(log) !! (index - 1)%nat;
      if (1 <=? index)%nat && (index <=? nd.(height) + 1)%nat
      then server_step s (KApply (apply_msg op index)) (max index) w
      else None
  | SCommit k => op ← w.(started) !! k; Some (set_log (w.(log) ++ [op]) w)
  | SRestart s =>
      nd ← w.(nodes) !! s;
      let kv' := StartKVServer (Z.of_nat s) nd.(kv).(maxraftstate) in
      Some (set_nodes (<[s := mkNode kv' 0]> w.(nodes)) w.(answered) w)
  end.

(** [n] servers and for each of [xs], a number that [nrand] draws and handles, a
    clerk. *)
Definition init (n : nat) (maxraftstate : Z) (xs : list (Z * list nat)) : Sys :=
  mkSys [] [] ((fun s => mkNode (StartKVServer (Z.of_nat s) maxraftstate) 0) <$> seq 0 n)
    ((fun x => mkCk (MakeClerk (length x.2) x.1) x.2 None) <$> xs) [] [] [] 0.

Fixpoint srun (ls : list SLabel) (w : Sys) : option Sys :=
  match ls with
  | [] => Some w
  | lbl :: ls => w ← sstep lbl w; srun ls w
  end.

Inductive sreachable (n : nat) (maxr : Z) (xs : list (Z * list nat)) : Sys -> Prop :=
| sreach_init : sreachable n maxr xs (init n maxr xs)
| sreach_step lbl w w' :
    sreachable n maxr xs w -> sstep lbl w = Some w' -> sreachable n maxr xs w'.

Lemma srun_reachable n maxr xs ls w w' :
  sreachable n maxr xs w -> srun ls w = Some w' -> sreachable n maxr xs w'.
Proof.
  revert w. induction ls as [|lbl ls IH]; cbn; intros w Hr E; [by simplify_eq|].
  destruct (sstep lbl w) as [w1|] eqn:Hs; [|done]. eauto using sreachable.
Qed.

(** ** The history the tests record *)

Definition kv_input (c : Call) : KvInput :=
  match c with
  | CGet args => {| kvOp := 0; kvKey := args.(ga_Key); kvValue := "" |}
  | CPutAppend args =>
      {| kvOp := if String.eqb args.(pa_Op) "Put" then 1 else 2;
         kvKey := args.(pa_Key); kvValue := args.(pa_Value) |}
  end.

(** The operations that have returned. *)
Definition record (r : OpRec) : option KvOperation :=
  match r.(or_done) with
  | Some (t, v) => Some (mkOperation (VIn (kv_input r.(or_call))) r.(or_start) (VOut {| kvResult := v |}) t)
  | None => None
  end.

Definition history (w : Sys) : list KvOperation := omap record w.(recs).

(** No clerk is in a method. *)
Definition idle (w : Sys) : Prop := Forall (fun cs => cs.(busy) = None) w.(cks).

(** ** The clerks of the system are those of Clerk.v *)

(** The loop of Clerk.v with a first answer that is no success goes on as the clerk
    of the system does, and it returns where that returns. *)
Lemma retry_next {A R} (Call : nat -> nat -> A -> option R) WrongLeader fuel t args ck sent :
  (ck.(leaderId) < ck.(servers))%nat ->
  retry Call WrongLeader (S fuel) t args ck sent =
    match Call t ck.(leaderId) args with
    | Some r =>
        if WrongLeader r
        then retry Call WrongLeader fuel (S t) args (next_server ck) (sent ++ [(ck.(leaderId), args)])
        else Ret (Some (ck, r, sent ++ [(ck.(leaderId), args)]))
    | None => retry Call WrongLeader fuel (S t) args (next_server ck) (sent ++ [(ck.(leaderId), args)])
    end.
Proof. intros Hl. cbn [retry]. by rewrite (proj2 (Nat.ltb_lt _ _) Hl). Qed.
