(* ===== verification/KvSystemInv.v ===== *)
(** * KvSystemInv: what holds in every run of the key/value service

    The requests of the record have ids of their own, and whatever is sent,
    started or in the log is one of them; the log is orderly in the sense of
    KVTheory.v; servers hold the result of a prefix of the log, and replies were
    read from such a result.  The numbers [bs] are how long the log was when each
    operation was called: a request enters the log after that, which is why the
    real-time order of operations is the order of the log. *)

From S2P Require Import Prelude Gob Raft KVServer KVTheory Clerk.
From S2P Require Import LinCheck LinOps LinKv KvSystem.
From stdpp Require Import strings.
Local Open Scope Z_scope.

(** ** Replies read from a prefix of the log *)

Definition value_ok (ops : list Op) (c : Call) (v : string) : Prop :=
  match c with
  | CGet args => v = default "" (spec_db ops !! args.(ga_Key))
  | CPutAppend _ => v = ""
  end.

(** The prefix of length [h] has the request [c], or a later one of its client,
    and explains the value [v]. *)
Record settled (lg : list Op) (c : Call) (v : string) (h : nat) : Prop := {
  st_len : (h <= length lg)%nat;
  st_in : exists op, op ∈ take h lg /\ op.(op_ClientId) = (call_op c).(op_ClientId) /\
    (call_op c).(op_RequestId) <= op.(op_RequestId);
  st_value : value_ok (take h lg) c v;
}.

Record node_ok (lg : list Op) (nd : Node) : Prop := {
  no_inv : kv_inv nd.(kv);
  no_height : (nd.(height) <= length lg)%nat;
  no_last : last_ok (take nd.(height) lg) nd.(kv).(lastAppliedRequestId);
  no_db : nd.(kv).(db) = spec_db (take nd.(height) lg);
}.

Definition answer_ok (lg : list Op) (a : nat * (Call * Reply)) : Prop :=
  reply_wrong a.2.2 = false -> exists h, settled lg a.2.1 (reply_value a.2.2) h.

Lemma take_snoc {A} (l : list A) x h : (h <= length l)%nat -> take h (l ++ [x]) = take h l.
Proof. intros. by rewrite take_app_le. Qed.

Lemma settled_snoc lg x c v h : settled lg c v h -> settled (lg ++ [x]) c v h.
Proof.
  intros [H1 H2 H3]. split; [rewrite length_app; lia|..]; by rewrite take_snoc.
Qed.

Lemma node_ok_snoc lg x nd : node_ok lg nd -> node_ok (lg ++ [x]) nd.
Proof.
  intros [H1 H2 H3 H4]. split; [done|rewrite length_app; lia|..]; by rewrite take_snoc.
Qed.

Lemma answer_ok_snoc lg x a : answer_ok lg a -> answer_ok (lg ++ [x]) a.
Proof. intros Ha Hw. destruct (Ha Hw) as [h ?]. exists h. by apply settled_snoc. Qed.

Lemma last_ok_served ops kv c r :
  last_ok ops kv.(lastAppliedRequestId) -> served kv c r ->
  exists op, op ∈ ops /\ op.(op_ClientId) = c /\ r <= op.(op_RequestId).
Proof.
  intros Hl (last & E & Hr). specialize (Hl c). rewrite E in Hl.
  destruct Hl as [(op & Hin & [= Hc Hid]) _]. exists op. split; [done|]. split; [done|lia].
Qed.

(** ** Steps of a server *)

(** What the handlers return in a step. *)
Lemma kstep_replies lbl kv kv' :
  kstep lbl kv = Some (Ret kv') ->
  exists new, kv'.(replies) = kv.(replies) ++ new /\
    forall cr, cr ∈ new -> exists wl, cr.2 = finish cr.1 wl kv /\ WDone cr.1 wl ∈ kv.(waiters).
Proof.
  assert (forall kv', kv'.(replies) = kv.(replies) -> exists new, kv'.(replies) = kv.(replies) ++ new /\
    forall cr, cr ∈ new -> exists wl, cr.2 = finish cr.1 wl kv /\ WDone cr.1 wl ∈ kv.(waiters)) as Hsame.
  { intros x ->. exists []. rewrite app_nil_r. split; [done|]. by intros cr ?%not_elem_of_nil. }
  intros E. destruct lbl as [c index isL|k|k|k|k|k|msg|]; cbn in E.
  1: simplify_eq; by apply Hsame.
  1-5: destruct (waiters kv !! k) as [[c i|c i ch|c i nt|c wl]|] eqn:Hk; try done.
  - unfold register in E. destruct (dispatcher kv !! i); simplify_eq; by apply Hsame.
  - destruct (chans kv !! ch) as [[|nt ns]|]; simplify_eq; by apply Hsame.
  - simplify_eq; by apply Hsame.
  - simplify_eq; by apply Hsame.
  - simplify_eq. eexists. split; [done|]. intros cr ->%list_elem_of_singleton. cbn. exists wl.
    split; [done|]. by eapply list_elem_of_lookup_2.
  - destruct (aloop kv); [|done]. unfold applyMsg in E.
    destruct (CommandValid msg); cbn in E; [|simplify_eq; by apply Hsame].
    destruct (am_Command msg) as [op|]; [|done].
    destruct (applyOp_frame op kv) as (_ & _ & _ & _ & Er).
    destruct (dispatcher (applyOp op kv) !! _); simplify_eq; by apply Hsame.
  - destruct (aloop kv) as [|ch nt]; [done|].
    destruct (chans kv !! ch) as [[|? ?]|]; simplify_eq; by apply Hsame.
Qed.

Lemma finish_settled lg nd c wl :
  node_ok lg nd -> WDone c wl ∈ nd.(kv).(waiters) -> reply_wrong (finish c wl nd.(kv)) = false ->
  settled lg c (reply_value (finish c wl nd.(kv))) nd.(height).
Proof.
  intros [Hi Hh Hl Hd] Hin Hw. assert (wl = false) as -> by (by destruct c, wl).
  pose proof (ki_waiters _ Hi _ Hin) as Hs. cbn in Hs. split; [done|by eapply last_ok_served|].
  unfold finish, value_ok. destruct c as [args|args]; [|done]. rewrite Hd.
  by destruct (spec_db _ !! _).
Qed.

(** The server after a step, and what it answers; [KApply] of the next message
    raises its height. *)
Lemma kstep_node lg nd lbl kv' s h' :
  node_ok lg nd -> kstep lbl nd.(kv) = Some (Ret kv') ->
  (kmsgs [lbl] = [] /\ h' = nd.(height) \/
   exists op index, lbl = KApply (apply_msg op index) /\ (1 <= index <= nd.(height) + 1)%nat /\
     lg !! (index - 1)%nat = Some op /\ h' = max index nd.(height)) ->
  node_ok lg (mkNode kv' h') /\
  forall a, a ∈ (pair s <$> drop (length nd.(kv).(replies)) kv'.(replies)) -> answer_ok lg a.
Proof.
  intros Hok E Hlbl. pose proof (kstep_maps _ _ _ E) as [Hd Hl]. split.
  - destruct Hok as [Hi Hh Hla Hdb]. pose proof (kv_inv_step _ _ _ Hi E) as Hi'.
    destruct Hlbl as [[Hm ->]|(op & index & -> & Hx & Hop & ->)].
    + rewrite Hm in Hd, Hl. cbn in Hd, Hl. split; cbn; [done|done|by rewrite Hl|by rewrite Hd].
    + cbn in Hd, Hl. apply lookup_lt_Some in Hop as Hlt.
      destruct (decide (index = nd.(height) + 1)%nat) as [->|Hne].
      * replace (nd.(height) + 1 - 1)%nat with nd.(height) in * by lia.
        destruct (applyOp_spec _ op _ Hla) as [Hla' Hdb']. rewrite Nat.max_l by lia.
        replace (nd.(height) + 1)%nat with (S nd.(height)) by lia.
        split; cbn; [done|lia|by rewrite (take_S_r _ _ _ Hop), Hl|].
        rewrite (take_S_r _ _ _ Hop), Hd, Hdb'. unfold spec_db. rewrite executed_snoc.
        unfold exec_all. by rewrite foldl_app, Hdb.
      * rewrite Nat.max_r by lia. assert (applyOp op (kv nd) = kv nd) as Ha.
        { apply (applyOp_absorbed (take nd.(height) lg)); [done|].
          apply (list_elem_of_lookup_2 _ (index - 1)%nat). by rewrite lookup_take_lt by lia. }
        rewrite Ha in Hd, Hl.
        split; cbn; [done|done|by rewrite Hl|by rewrite Hd].
  - destruct (kstep_replies _ _ _ E) as (new & -> & Hnew). rewrite drop_app_length.
    intros a ([c r] & -> & Hin)%list_elem_of_fmap. destruct (Hnew _ Hin) as (wl & Er & Hwl).
    cbn in *. intros Hw. cbn in *. subst r. exists nd.(height). by eapply finish_settled.
Qed.

Lemma start_node_ok lg me maxr : node_ok lg (mkNode (StartKVServer me maxr) 0).
Proof.
  split; cbn; [apply start_kv_inv|lia|apply last_ok_nil|done].
Qed.

(** ** Requests *)

Definition rec_op (r : OpRec) : Op := call_op r.(or_call).

Definition proper_call (c : Call) : Prop :=
  match c with CGet _ => True | CPutAppend args => args.(pa_Op) = "Put" \/ args.(pa_Op) = "Append" end.

Definition client (cs : ClerkState) : Z := cs.(ck).(clientId).

(** The clerks have different client ids.  [MakeClerk] draws the id with [nrand], one
    of 2^62 numbers, and nothing in the code excludes that two clerks draw the same. *)
Definition distinct_clients (w : Sys) : Prop := NoDup (client <$> w.(cks)).

Global Instance distinct_clients_dec w : Decision (distinct_clients w).
Proof. unfold distinct_clients. apply _. Defined.

(** The clerk of a request has it as its current one, or has had it before. *)
Definition has_rec (cs : ClerkState) (i : nat) (r : OpRec) : Prop :=
  match r.(or_done) with
  | None => cs.(busy) = Some (r.(or_call), i) /\
      (rec_op r).(op_RequestId) = cs.(ck).(lastRequestId) + 1
  | Some _ => (rec_op r).(op_RequestId) <= cs.(ck).(lastRequestId)
  end.

Record clerk_inv (w : Sys) : Prop := {
  ci_clients : distinct_clients w;
  ci_rec : forall i r, w.(recs) !! i = Some r -> exists j cs, w.(cks) !! j = Some cs /\
    client cs = (rec_op r).(op_ClientId) /\ has_rec cs i r;
  ci_busy : forall j cs c i, w.(cks) !! j = Some cs -> cs.(busy) = Some (c, i) ->
    exists r, w.(recs) !! i = Some r /\ r.(or_call) = c /\ r.(or_done) = None /\
      (call_op c).(op_ClientId) = client cs;
  ci_ids : forall i i' r r', w.(recs) !! i = Some r -> w.(recs) !! i' = Some r' ->
    op_id (rec_op r) = op_id (rec_op r') -> i = i';
  ci_proper : forall i r, w.(recs) !! i = Some r -> proper_call r.(or_call);
  ci_sent : forall s c, (s, c) ∈ w.(sent) -> exists i r, w.(recs) !! i = Some r /\ r.(or_call) = c;
  ci_started : forall op, op ∈ w.(started) -> exists i r, w.(recs) !! i = Some r /\ rec_op r = op;
}.

Section clerk_inv.
Context (w : Sys) (Hc : clerk_inv w).

Lemma client_inj j j' cs cs' :
  w.(cks) !! j = Some cs -> w.(cks) !! j' = Some cs' -> client cs = client cs' -> j = j'.
Proof.
  intros Hj Hj' E. apply (NoDup_lookup (client <$> w.(cks)) j j' (client cs)); [apply Hc|..].
  - by rewrite list_lookup_fmap, Hj.
  - by rewrite list_lookup_fmap, Hj', E.
Qed.

(** The clerk that has the requests of a client. *)
Lemma rec_clerk j cs i r :
  w.(cks) !! j = Some cs -> w.(recs) !! i = Some r -> (rec_op r).(op_ClientId) = client cs ->
  has_rec cs i r.
Proof.
  intros Hj Hr E. destruct (ci_rec _ Hc i r Hr) as (j' & cs' & Hj' & E' & Hh).
  assert (j' = j) as -> by (eapply client_inj; [done|done|congruence]). by simplify_eq.
Qed.

(** An unfinished request is newer than all others of its client, which are
    finished. *)
Lemma newest_rec i r i' r' :
  w.(recs) !! i = Some r -> w.(recs) !! i' = Some r' ->
  (rec_op r').(op_ClientId) = (rec_op r).(op_ClientId) ->
  (rec_op r).(op_RequestId) < (rec_op r').(op_RequestId) -> is_Some r.(or_done).
Proof.
  intros Hi Hi' E Hlt. destruct (ci_rec _ Hc i r Hi) as (j & cs & Hj & Ec & Hh).
  pose proof (rec_clerk j cs i' r' Hj Hi' ltac:(congruence)) as Hh'. unfold has_rec in *.
  destruct (or_done r) as [d|]; [by exists d|]. destruct Hh as [_ Hid]. exfalso.
  destruct (or_done r'); [|destruct Hh' as [_ ?]]; lia.
Qed.

Lemma clients_insert j cs cs' :
  w.(cks) !! j = Some cs -> client cs' = client cs -> NoDup (client <$> <[j := cs']> w.(cks)).
Proof.
  intros Hj E. rewrite list_fmap_insert, E, list_insert_id; [apply Hc|].
  by rewrite list_lookup_fmap, Hj.
Qed.
End clerk_inv.

(** A clerk tries the next server. *)
Lemma try_next_inv j cs c i w :
  clerk_inv w -> w.(cks) !! j = Some cs -> cs.(busy) = Some (c, i) -> clerk_inv (try_next j cs c i w).
Proof.
  intros Hc Hj Hb. destruct (ci_busy _ Hc j cs c i Hj Hb) as (r & Hr & Ec & Hd & Hcl).
  pose proof (clients_insert w Hc j cs (mkCk (next_server (ck cs)) cs.(handles) (Some (c, i))) Hj eq_refl) as Hnd.
  apply lookup_lt_Some in Hj as Hlt. split; cbn.
  - done.
  - intros i' r' Hr'. destruct (ci_rec _ Hc i' r' Hr') as (j' & cs' & Hj' & E & Hh).
    destruct (decide (j' = j)) as [->|Hne].
    + simplify_eq. eexists j, _. rewrite list_lookup_insert_eq by done. split; [done|]. split; [done|].
      unfold has_rec in *. cbn. by rewrite Hb in Hh.
    + exists j', cs'. by rewrite list_lookup_insert_ne.
  - intros j' cs' c' i' [(<- & <- & _)|[_ Hj']]%list_lookup_insert_Some Hb'; cbn in *.
    + simplify_eq. by exists r.
    + by eapply ci_busy.
  - by apply ci_ids.
  - by apply ci_proper.
  - intros s c' [Hin|[= -> ->]%list_elem_of_singleton]%elem_of_app; [by eapply ci_sent|].
    by exists i, r.
  - by apply ci_started.
Qed.

Lemma request_call_ids ck r :
  (call_op (request_call ck r)).(op_ClientId) = ck.(clientId) /\
  (call_op (request_call ck r)).(op_RequestId) = ck.(lastRequestId) + 1.
Proof. by destruct r. Qed.

Lemma request_call_proper ck r : proper r = true -> proper_call (request_call ck r).
Proof.
  destruct r as [|key value op]; cbn; [done|].
  intros [?%String.eqb_eq|?%String.eqb_eq]%orb_true_iff; auto.
Qed.

Definition invoked (j : nat) (cs : ClerkState) (c : Call) (w : Sys) : Sys :=
  set_recs (w.(recs) ++ [mkRec c w.(clock) None])
    (set_sent (w.(sent) ++ [(target cs.(handles) cs.(ck), c)])
       (set_cks (<[j := mkCk cs.(ck) cs.(handles) (Some (c, length w.(recs)))]> w.(cks)) w)).

Lemma idle_clerk_recs w j cs i r :
  clerk_inv w -> w.(cks) !! j = Some cs -> cs.(busy) = None -> w.(recs) !! i = Some r ->
  (rec_op r).(op_ClientId) = client cs -> (rec_op r).(op_RequestId) <= cs.(ck).(lastRequestId).
Proof.
  intros Hc Hj Hb Hr E. pose proof (rec_clerk w Hc j cs i r Hj Hr E) as Hh. unfold has_rec in Hh.
  destruct (or_done r); [done|]. destruct Hh as [Hb' _]. congruence.
Qed.

Lemma invoke_inv j cs r w :
  clerk_inv w -> w.(cks) !! j = Some cs -> cs.(busy) = None -> proper r = true ->
  clerk_inv (invoked j cs (request_call cs.(ck) r) w).
Proof.
  intros Hc Hj Hb Hp. set (c := request_call cs.(ck) r).
  destruct (request_call_ids cs.(ck) r) as [Ecl Eid]. fold c in Ecl, Eid.
  pose proof (clients_insert w Hc j cs (mkCk cs.(ck) cs.(handles) (Some (c, length w.(recs)))) Hj eq_refl) as Hnd.
  assert (forall i' r', w.(recs) !! i' = Some r' -> op_id (rec_op r') <> op_id (call_op c)) as Hnew.
  { intros i' r' Hr' [= E1 E2]. rewrite Ecl in E1.
    pose proof (idle_clerk_recs w j cs i' r' Hc Hj Hb Hr' E1). lia. }
  assert (forall i' r', (w.(recs) ++ [mkRec c w.(clock) None]) !! i' = Some r' ->
    w.(recs) !! i' = Some r' \/ i' = length w.(recs) /\ r' = mkRec c w.(clock) None) as Hcase.
  { intros i' r' [?|[? Hx]]%lookup_app_Some; [by left|right].
    apply list_lookup_singleton_Some in Hx as [? <-]. split; [lia|done]. }
  assert (forall x, x ∈ w.(recs) -> x ∈ w.(recs) ++ [mkRec c w.(clock) None]) as Hkeep
    by (intros x Hx; apply elem_of_app; by left).
  apply lookup_lt_Some in Hj as Hlt. split; cbn.
  - done.
  - intros i' r' [Hr'|[-> ->]]%Hcase.
    + destruct (ci_rec _ Hc i' r' Hr') as (j' & cs' & Hj' & E & Hh).
      destruct (decide (j' = j)) as [->|Hne].
      * simplify_eq. eexists j, _. rewrite list_lookup_insert_eq by done. split; [done|]. split; [done|].
        unfold has_rec in *. cbn. destruct (or_done r'); [done|]. destruct Hh as [? _]. congruence.
      * exists j', cs'. by rewrite list_lookup_insert_ne.
    + eexists j, _. rewrite list_lookup_insert_eq by done. split; [done|].
      split; [symmetry; exact Ecl|]. done.
  - intros j' cs' c' i' [(<- & <- & _)|[_ Hj']]%list_lookup_insert_Some Hb'; cbn in *.
    + simplify_eq. eexists. rewrite lookup_app_r, Nat.sub_diag by lia. by split.
    + destruct (ci_busy _ Hc _ _ _ _ Hj' Hb') as (r' & Hr' & ?). exists r'.
      split; [by apply lookup_app_l_Some|done].
  - intros i1 i2 r1 r2 [H1|[-> ->]]%Hcase [H2|[-> ->]]%Hcase E; [by eapply ci_ids| | |done].
    + by destruct (Hnew _ _ H1).
    + by destruct (Hnew _ _ H2).
  - intros i' r' [Hr'|[-> ->]]%Hcase; [by eapply ci_proper|]. cbn. by apply request_call_proper.
  - intros s c' [Hin|[= -> ->]%list_elem_of_singleton]%elem_of_app.
    + destruct (ci_sent _ Hc _ _ Hin) as (i' & r' & Hr' & ?). exists i', r'.
      split; [by apply lookup_app_l_Some|done].
    + exists (length w.(recs)), (mkRec c w.(clock) None).
      rewrite lookup_app_r, Nat.sub_diag by lia. by split.
  - intros op Hin. destruct (ci_started _ Hc _ Hin) as (i' & r' & Hr' & ?). exists i', r'.
    split; [by apply lookup_app_l_Some|done].
Qed.

Definition returned (j : nat) (cs : ClerkState) (i : nat) (r : OpRec) (v : string) (w : Sys) : Sys :=
  set_recs (<[i := mkRec r.(or_call) r.(or_start) (Some (w.(clock), v))]> w.(recs))
    (set_cks (<[j := mkCk (set_lastRequestId (cs.(ck).(lastRequestId) + 1) cs.(ck)) cs.(handles) None]> w.(cks)) w).

Lemma return_inv j cs c i r v w :
  clerk_inv w -> w.(cks) !! j = Some cs -> cs.(busy) = Some (c, i) -> w.(recs) !! i = Some r ->
  clerk_inv (returned j cs i r v w).
Proof.
  intros Hc Hj Hb Hr. destruct (ci_busy _ Hc j cs c i Hj Hb) as (r0 & Hr0 & Ec & Hd & Hcl).
  simplify_eq. set (cs' := mkCk (set_lastRequestId (cs.(ck).(lastRequestId) + 1) cs.(ck)) cs.(handles) None).
  pose proof (clients_insert w Hc j cs cs' Hj eq_refl) as Hnd.
  set (r' := mkRec r.(or_call) r.(or_start) (Some (w.(clock), v))).
  assert (forall k x, <[i := r']> w.(recs) !! k = Some x -> exists y, w.(recs) !! k = Some y /\
    x.(or_call) = y.(or_call) /\ (k = i /\ x = r' \/ k <> i /\ x = y)) as Hcase.
  { intros k x [(<- & <- & _)|[? Hx]]%list_lookup_insert_Some; [by exists r; auto|by exists x; auto]. }
  assert (forall k y, w.(recs) !! k = Some y -> exists x, <[i := r']> w.(recs) !! k = Some x /\
    x.(or_call) = y.(or_call)) as Hback.
  { intros k y Hy. destruct (decide (k = i)) as [->|].
    - exists r'. rewrite list_lookup_insert_eq by (by eapply lookup_lt_Some). simplify_eq. done.
    - exists y. by rewrite list_lookup_insert_ne. }
  pose proof (rec_clerk w Hc j cs i r Hj Hr Hcl) as Hh. unfold has_rec in Hh. rewrite Hd in Hh.
  destruct Hh as [_ Hid]. apply lookup_lt_Some in Hj as Hlt. split; cbn.
  - done.
  - intros k x (y & Hy & Ey & Hx)%Hcase. destruct (ci_rec _ Hc k y Hy) as (j' & cs1 & Hj' & E & Hh).
    assert (rec_op x = rec_op y) as Eop by (unfold rec_op; by rewrite Ey). unfold has_rec. rewrite Eop.
    destruct (decide (j' = j)) as [->|Hne].
    + simplify_eq. exists j, cs'. rewrite list_lookup_insert_eq by done. split; [done|]. split; [done|].
      destruct Hx as [[-> ->]|[Hk ->]]; cbn.
      * simplify_eq. lia.
      * unfold has_rec in Hh. destruct (or_done y); [lia|]. destruct Hh as [Hb' _]. congruence.
    + exists j', cs1. rewrite list_lookup_insert_ne by done. split; [done|]. split; [done|].
      destruct Hx as [[-> ->]|[Hk ->]]; [|done]. simplify_eq. unfold rec_op in *.
      destruct Hne. eapply client_inj; [done..|congruence].
  - intros j' cs1 c' k [(<- & <- & _)|[Hne Hj']]%list_lookup_insert_Some Hb'; [done|].
    destruct (ci_busy _ Hc _ _ _ _ Hj' Hb') as (y & Hy & Ey & Hdy & Ecl). exists y.
    rewrite list_lookup_insert_ne; [done|]. intros <-. simplify_eq.
    destruct Hne. eapply client_inj; [done..|]. unfold client in *. congruence.
  - intros i1 i2 x1 x2 (y1 & H1 & E1 & _)%Hcase (y2 & H2 & E2 & _)%Hcase. unfold rec_op. rewrite E1, E2.
    by eapply ci_ids.
  - intros k x (y & Hy & -> & _)%Hcase. by eapply ci_proper.
  - intros s c Hin. destruct (ci_sent _ Hc _ _ Hin) as (k & y & Hy & <-).
    destruct (Hback k y Hy) as (x & Hx & E). by exists k, x.
  - intros op Hin. destruct (ci_started _ Hc _ Hin) as (k & y & Hy & <-).
    destruct (Hback k y Hy) as (x & Hx & E). exists k, x. split; [done|]. unfold rec_op. by rewrite E.
Qed.

(** ** The log and the real-time order *)

Record log_inv (lg : list Op) (rs : list OpRec) (now : Z) (bs : list nat) : Prop := {
  li_len : length bs = length rs;
  li_rec : forall op, op ∈ lg -> exists i r, rs !! i = Some r /\ rec_op r = op;
  li_base : forall i r b, rs !! i = Some r -> bs !! i = Some b ->
    (b <= length lg)%nat /\ forall p, lg !! p = Some (rec_op r) -> (b <= p)%nat;
  li_orderly : orderly lg;
  li_time : forall i r, rs !! i = Some r -> r.(or_start) < now;
  li_times : forall i r t v i' r', rs !! i = Some r -> r.(or_done) = Some (t, v) ->
    rs !! i' = Some r' -> t <> r'.(or_start);
  li_done : forall i r t v, rs !! i = Some r -> r.(or_done) = Some (t, v) ->
    r.(or_start) < t < now /\
    exists h, settled lg r.(or_call) v h /\ rec_op r ∈ take h lg /\
      forall i' r' b', rs !! i' = Some r' -> bs !! i' = Some b' -> t < r'.(or_start) -> (h <= b')%nat;
}.

Lemma in_prefix {A} (l : list A) h x : x ∈ take h l -> x ∈ l.
Proof. intros Hx. rewrite <- (take_drop h l). apply elem_of_app. by left. Qed.

Lemma orderly_snoc ops op :
  orderly ops -> op_id op ∈ op_id <$> ops \/ newest ops op -> orderly (ops ++ [op]).
Proof.
  intros Ho Hop pre x post E. destruct post as [|y post _] using rev_ind.
  - apply app_inj_tail in E as [<- <-]. done.
  - rewrite app_comm_cons, app_assoc in E. apply app_inj_tail in E as [E _]. by eapply Ho.
Qed.

(** A request that is not in the log is newer than those of its client that are. *)
Lemma commit_orderly w bs op :
  clerk_inv w -> log_inv w.(log) w.(recs) w.(clock) bs -> op ∈ w.(started) ->
  op_id op ∈ op_id <$> w.(log) \/ newest w.(log) op.
Proof.
  intros Hc Hl Hop. destruct (ci_started _ Hc op Hop) as (i & r & Hr & <-).
  destruct (decide (rec_op r ∈ w.(log))) as [Hin|Hnot]; [left; apply list_elem_of_fmap; eauto|right].
  apply Forall_forall. intros op' Hin' Ecl. destruct (li_rec _ _ _ _ Hl _ Hin') as (i' & r' & Hr' & <-).
  destruct (Ztrichotomy (rec_op r').(op_RequestId) (rec_op r).(op_RequestId)) as [?|[E|E]]; [done|..]; exfalso.
  - assert (i' = i) as -> by (eapply ci_ids; [done..|]; unfold op_id; congruence). by simplify_eq.
  - destruct (newest_rec w Hc i r i' r' Hr Hr' Ecl) as [[t v] Hd]; [lia|].
    destruct (li_done _ _ _ _ Hl i r t v Hr Hd) as (_ & h & _ & Hin & _).
    by apply in_prefix in Hin.
Qed.

Lemma commit_log_inv w bs op :
  clerk_inv w -> log_inv w.(log) w.(recs) w.(clock) bs -> op ∈ w.(started) ->
  log_inv (w.(log) ++ [op]) w.(recs) w.(clock) bs.
Proof.
  intros Hc Hl Hop. pose proof (commit_orderly _ _ _ Hc Hl Hop) as Hord. destruct Hl as [H1 H2 H3 H4 H5 H7 H6].
  split; [done|..|done|done|].
  - intros x [Hx| ->%list_elem_of_singleton]%elem_of_app; [by apply H2|by apply ci_started].
  - intros i r b Hr Hb. destruct (H3 i r b Hr Hb) as [Hle Hp]. rewrite length_app. split; [lia|].
    intros p [Hx|[Hx _]]%lookup_app_Some; [by apply Hp|lia].
  - by apply orderly_snoc.
  - intros i r t v Hr Hd. destruct (H6 i r t v Hr Hd) as (Ht & h & Hs & Hin & Hlater). split; [done|].
    exists h. pose proof (st_len _ _ _ _ Hs). rewrite take_snoc by done. split; [by apply settled_snoc|done].
Qed.

Lemma invoke_log_inv w bs j cs c :
  log_inv w.(log) w.(recs) w.(clock) bs -> clerk_inv (invoked j cs c w) ->
  log_inv w.(log) (w.(recs) ++ [mkRec c w.(clock) None]) (w.(clock) + 1) (bs ++ [length w.(log)]).
Proof.
  intros [H1 H2 H3 H4 H5 H7 H6] Hc'.
  assert (forall i r, (w.(recs) ++ [mkRec c w.(clock) None]) !! i = Some r ->
    w.(recs) !! i = Some r \/ i = length w.(recs) /\ r = mkRec c w.(clock) None) as Hcase.
  { intros i r [?|[? Hx]]%lookup_app_Some; [by left|right].
    apply list_lookup_singleton_Some in Hx as [? <-]. split; [lia|done]. }
  assert (forall i r b, w.(recs) !! i = Some r -> (bs ++ [length w.(log)]) !! i = Some b -> bs !! i = Some b) as Hbs.
  { intros i r b Hi Hb. rewrite lookup_app_l in Hb; [done|]. rewrite H1. by eapply lookup_lt_Some. }
  assert (forall b, (bs ++ [length w.(log)]) !! length w.(recs) = Some b -> b = length w.(log)) as Hnew.
  { intros b. rewrite lookup_app_r, H1, Nat.sub_diag by lia. by intros [= <-]. }
  split.
  - rewrite !length_app, H1. done.
  - intros op Hin. destruct (H2 op Hin) as (i & r & Hr & ?). exists i, r. split; [by apply lookup_app_l_Some|done].
  - intros i r b [Hr|[-> ->]]%Hcase Hb; [by eapply H3; [done|eapply Hbs]|].
    apply Hnew in Hb as ->. split; [lia|]. intros p Hp. exfalso.
    pose proof (list_elem_of_lookup_2 _ _ _ Hp) as Hin. destruct (H2 _ Hin) as (i & r & Hr & E).
    assert (i = length w.(recs)) as ->; [|apply lookup_lt_Some in Hr; lia].
    eapply (ci_ids _ Hc'); cbn; [by apply lookup_app_l_Some| |by rewrite E].
    by rewrite lookup_app_r, Nat.sub_diag by lia.
  - done.
  - intros i r [Hr|[-> ->]]%Hcase; [apply H5 in Hr; lia|cbn; lia].
  - intros i r t v i' r' [Hr|[-> ->]]%Hcase Hd; [|done]. destruct (H6 i r t v Hr Hd) as [Ht _].
    intros [Hr'|[-> ->]]%Hcase; [by eapply (H7 i r t v)|cbn; lia].
  - intros i r t v [Hr|[-> ->]]%Hcase Hd; [|done].
    destruct (H6 i r t v Hr Hd) as (Ht & h & Hs & Hin & Hlater). split; [lia|]. exists h.
    split; [done|]. split; [done|]. intros i' r' b' [Hr'|[-> ->]]%Hcase Hb' Hlt.
    + eapply Hlater; [done|by eapply Hbs|done].
    + apply Hnew in Hb' as ->. by apply st_len in Hs.
Qed.

Lemma return_log_inv w bs j cs c i r v h :
  clerk_inv w -> log_inv w.(log) w.(recs) w.(clock) bs ->
  w.(cks) !! j = Some cs -> cs.(busy) = Some (c, i) -> w.(recs) !! i = Some r ->
  settled w.(log) c v h ->
  log_inv w.(log) (<[i := mkRec r.(or_call) r.(or_start) (Some (w.(clock), v))]> w.(recs)) (w.(clock) + 1) bs.
Proof.
  intros Hc Hl Hj Hb Hr Hs. destruct (ci_busy _ Hc j cs c i Hj Hb) as (r0 & Hr0 & Ec & Hd & Hcl).
  simplify_eq. destruct Hl as [H1 H2 H3 H4 H5 H7 H6].
  set (r' := mkRec r.(or_call) r.(or_start) (Some (w.(clock), v))).
  assert (forall k x, <[i := r']> w.(recs) !! k = Some x -> exists y, w.(recs) !! k = Some y /\
    rec_op x = rec_op y /\ x.(or_start) = y.(or_start) /\ (x = y \/ k = i /\ x = r')) as Hcase.
  { intros k x [(<- & <- & _)|[? Hx]]%list_lookup_insert_Some; [exists r; split_and!; auto|exists x; split_and!; auto]. }
  assert (rec_op r ∈ take h w.(log)) as Hin.
  { destruct (st_in _ _ _ _ Hs) as (op & Hop & Eop & Hid).
    destruct (H2 op (in_prefix _ _ _ Hop)) as (i2 & r2 & Hr2 & <-).
    destruct (decide ((rec_op r2).(op_RequestId) = (rec_op r).(op_RequestId))) as [E|Hne].
    - assert (i2 = i) as -> by (eapply ci_ids; [done..|]; unfold op_id, rec_op in *; congruence). by simplify_eq.
    - destruct (newest_rec w Hc i r i2 r2 Hr Hr2) as [x Hx]; [done|unfold rec_op in *; lia|]. congruence. }
  split.
  - by rewrite length_insert.
  - intros op Hop. destruct (H2 op Hop) as (k & y & Hy & <-). destruct (decide (k = i)) as [->|].
    + exists i, r'. rewrite list_lookup_insert_eq by (by eapply lookup_lt_Some). by simplify_eq.
    + exists k, y. by rewrite list_lookup_insert_ne.
  - intros k x b (y & Hy & -> & _)%Hcase Hb'. by eapply H3.
  - done.
  - intros k x (y & Hy & _ & -> & _)%Hcase. apply H5 in Hy. lia.
  - intros k x t v' k' x' (y & Hy & _ & _ & [->|[-> ->]])%Hcase Hdx (y' & Hy' & _ & -> & _)%Hcase.
    + by apply (H7 k y t v' k' y').
    + cbn in Hdx. simplify_eq. apply H5 in Hy'. lia.
  - intros k x t v' (y & Hy & _ & Est & [->|[-> ->]])%Hcase Hdx.
    + destruct (H6 k y t v' Hy Hdx) as (Ht & h' & Hs' & Hin' & Hlater). split; [lia|]. exists h'.
      split; [done|]. split; [done|]. intros i' r1 b' (y' & Hy' & _ & -> & _)%Hcase. by eapply Hlater.
    + cbn in Hdx. simplify_eq. cbn. apply H5 in Hr as Hst. split; [lia|]. exists h. split; [done|].
      split; [done|]. intros i' r1 b' (y' & Hy' & _ & -> & _)%Hcase _ Hlt. apply H5 in Hy'. lia.
Qed.

(** ** All together *)

Record sys_inv (w : Sys) : Prop := {
  sy_clerks : clerk_inv w;
  sy_log : exists bs, log_inv w.(log) w.(recs) w.(clock) bs;
  sy_nodes : forall nd, nd ∈ w.(nodes) -> node_ok w.(log) nd;
  sy_answers : forall a, a ∈ w.(answered) -> answer_ok w.(log) a;
}.

Lemma clerk_inv_frame w w' :
  w'.(cks) = w.(cks) -> w'.(recs) = w.(recs) -> w'.(sent) = w.(sent) ->
  (forall op, op ∈ w'.(started) -> op ∈ w.(started) \/ exists i r, w.(recs) !! i = Some r /\ rec_op r = op) ->
  clerk_inv w -> clerk_inv w'.
Proof.
  intros E1 E2 E3 Hst [H1 H2 H3 H4 H5 H6 H7].
  split; unfold distinct_clients in *; rewrite ?E1, ?E2, ?E3; try done.
  intros op [Hop|Hop]%Hst; [by apply H7|done].
Qed.

Lemma elem_of_insert_or {A} (l : list A) k x y : y ∈ <[k := x]> l -> y ∈ l \/ y = x.
Proof.
  intros [i Hi]%list_elem_of_lookup.
  apply list_lookup_insert_Some in Hi as [(_ & -> & _)|[_ Hi]]; [by right|left].
  by eapply list_elem_of_lookup_2.
Qed.

(** What a step of a server changes. *)
Lemma server_step_inv s lbl h w w' :
  sys_inv w -> server_step s lbl h w = Some w' ->
  (forall nd, w.(nodes) !! s = Some nd ->
     kmsgs [lbl] = [] /\ h nd.(height) = nd.(height) \/
     exists op index, lbl = KApply (apply_msg op index) /\ (1 <= index <= nd.(height) + 1)%nat /\
       w.(log) !! (index - 1)%nat = Some op /\ h nd.(height) = max index nd.(height)) ->
  sys_inv w' /\ w'.(started) = w.(started) /\ w'.(recs) = w.(recs) /\ w'.(sent) = w.(sent).
Proof.
  intros [Hc Hl Hn Ha] E Hlbl. unfold server_step in E.
  destruct (w.(nodes) !! s) as [nd|] eqn:Hs; [|done]. cbn in E.
  destruct (kstep lbl (kv nd)) as [[kv'|]|] eqn:Hk; [|done..]. injection E as <-.
  pose proof (Hn nd (list_elem_of_lookup_2 _ _ _ Hs)) as Hok.
  destruct (kstep_node w.(log) nd lbl kv' s (h nd.(height)) Hok Hk (Hlbl nd eq_refl)) as [Hok' Hnew].
  split; [|done]. split; cbn.
  - eapply clerk_inv_frame; [..|exact Hc]; try done. auto.
  - done.
  - intros nd' [?| ->]%elem_of_insert_or; [by apply Hn|done].
  - intros a [?|?]%elem_of_app; [by apply Ha|by apply Hnew].
Qed.

Lemma try_next_sys j cs c i w :
  sys_inv w -> w.(cks) !! j = Some cs -> cs.(busy) = Some (c, i) -> sys_inv (try_next j cs c i w).
Proof. intros [Hc Hl Hn Ha] Hj Hb. split; [by apply try_next_inv|done..]. Qed.

Lemma sstep_inv lbl w w' : sys_inv w -> sstep lbl w = Some w' -> sys_inv w'.
Proof.
  intros Hi E. pose proof Hi as [Hc [bs Hl] Hn Ha].
  destruct lbl as [j r|j|j k|s c index isL|s lbl|s index|k|s]; cbn in E.
  - destruct (cks w !! j) as [cs|] eqn:Hj; [|done]. cbn in E. destruct (busy cs) eqn:Hb; [done|].
    destruct (proper r) eqn:Hp; [|done]. injection E as <-.
    pose proof (invoke_inv j cs r w Hc Hj Hb Hp) as Hc'. split; [done| |done..].
    exists (bs ++ [length w.(log)]). by apply (invoke_log_inv w bs j cs).
  - unfold clerk_returns in E. destruct (cks w !! j) as [cs|] eqn:Hj; [|done]. cbn in E.
    destruct (busy cs) as [[c i]|] eqn:Hb; [|done]. injection E as <-. by apply try_next_sys.
  - destruct (cks w !! j) as [cs|] eqn:Hj; [|done]. cbn in E. destruct (busy cs) as [[c i]|] eqn:Hb; [|done].
    cbn in E. destruct (answered w !! k) as [[s [c' rep]]|] eqn:Hk; [|done]. cbn in E.
    case_bool_decide as Hg; [|done]. destruct Hg as [-> ->].
    unfold clerk_returns in E. rewrite Hj in E. cbn in E. rewrite Hb in E. cbn in E.
    destruct (reply_wrong rep) eqn:Hw; [injection E as <-; by apply try_next_sys|].
    destruct (recs w !! i) as [r|] eqn:Hr; [|done]. injection E as <-.
    destruct (Ha _ (list_elem_of_lookup_2 _ _ _ Hk) Hw) as [h Hs]. cbn in Hs.
    split; [by eapply (return_inv j cs c)| |done..]. exists bs. by apply (return_log_inv w bs j cs c i r _ h).
  - case_bool_decide as Hin; [|done].
    unfold arrives in E. destruct (server_step s (KStart c index isL) id w) as [w1|] eqn:E1; [|done]. cbn in E. injection E as <-.
    destruct (server_step_inv _ _ _ _ _ Hi E1) as (Hi1 & E2 & E3 & E4); [by left|].
    destruct isL; [|done]. destruct Hi1 as [Hc1 Hl1 Hn1 Ha1]. split; [|done..].
    eapply clerk_inv_frame; [..|exact Hc1]; try done.
    intros op [?| ->%list_elem_of_singleton]%elem_of_app; [by left|right]. rewrite E3.
    destruct (ci_sent _ Hc _ _ Hin) as (i & r & Hr & <-). by exists i, r.
  - destruct (internal lbl) eqn:Hlbl; [|done].
    destruct (server_step_inv _ _ _ _ _ Hi E) as [? _]; [|done]. intros nd _. left. by destruct lbl.
  - destruct (nodes w !! s) as [nd|] eqn:Hs; [|done]. cbn in E.
    destruct (log w !! (index - 1)%nat) as [op|] eqn:Hop; [|done]. cbn in E.
    destruct (_ && _) eqn:Hx; [|done].
    apply andb_true_iff in Hx as [Hx1 Hx2%Nat.leb_le].
    assert (1 <= index)%nat by (destruct index; [done|lia]).
    destruct (server_step_inv _ _ _ _ _ Hi E) as [? _]; [|done]. intros nd' Hnd'. simplify_eq. right.
    exists op, index. by repeat split.
  - destruct (started w !! k) as [op|] eqn:Hk; [|done]. injection E as <-.
    apply list_elem_of_lookup_2 in Hk. split; cbn.
    + eapply clerk_inv_frame; [..|exact Hc]; try done. auto.
    + exists bs. by apply commit_log_inv.
    + intros nd Hnd. by apply node_ok_snoc, Hn.
    + intros a Hain. by apply answer_ok_snoc, Ha.
  - destruct (nodes w !! s) as [nd|] eqn:Hs; [|done]. injection E as <-. split; [|by exists bs|..]; cbn.
    + eapply clerk_inv_frame; [..|exact Hc]; try done. auto.
    + intros nd' [?| ->]%elem_of_insert_or; [by apply Hn|apply start_node_ok].
    + done.
Qed.

Lemma init_inv n maxr xs : NoDup (nrand <$> xs.*1) -> sys_inv (init n maxr xs).
Proof.
  intros Hnd. split; cbn.
  - split; cbn; try by intros * ?%not_elem_of_nil.
    + unfold distinct_clients. cbn. rewrite <- list_fmap_compose. rewrite <- list_fmap_compose in Hnd. exact Hnd.
    + intros * Hr. by rewrite lookup_nil in Hr.
    + intros j cs c i Hcs. apply list_lookup_fmap_Some in Hcs as (x & -> & _). done.
    + intros * Hr. by rewrite lookup_nil in Hr.
    + intros * Hr. by rewrite lookup_nil in Hr.
  - exists []. split; try done; try by intros * ?%not_elem_of_nil. intros [] ? ? ?; done.
  - intros nd (s & -> & _)%list_elem_of_fmap. apply start_node_ok.
  - by intros a ?%not_elem_of_nil.
Qed.

(** A clerk keeps its id. *)
Lemma sstep_clients lbl w w' : sstep lbl w = Some w' -> client <$> w'.(cks) = client <$> w.(cks).
Proof.
  assert (forall j cs cs', w.(cks) !! j = Some cs -> client cs' = client cs ->
    client <$> <[j := cs']> w.(cks) = client <$> w.(cks)) as Hin.
  { intros j cs cs' Hj E. rewrite list_fmap_insert, E, list_insert_id; [done|]. by rewrite list_lookup_fmap, Hj. }
  assert (forall j o, clerk_returns j o w = Some w' -> client <$> w'.(cks) = client <$> w.(cks)) as Hret.
  { intros j o E. unfold clerk_returns in E. destruct (w.(cks) !! j) as [cs|] eqn:Hj; [|done]. cbn in E.
    destruct (busy cs) as [b|]; [|done]. cbn in E. repeat case_match; simplify_eq; try (by eapply Hin; [exact Hj|]).
    destruct (recs w !! b.2); [|done]. cbn in E. injection E as <-. by eapply Hin. }
  assert (forall s k h w0, server_step s k h w = Some w0 -> w0.(cks) = w.(cks)) as Hsrv.
  { intros s k h w0 E. unfold server_step in E. destruct (nodes w !! s); [|done]. cbn in E.
    by repeat case_match; simplify_eq. }
  destruct lbl as [j r|j|j k|s c index isLeader|s lbl|s index|k|s]; cbn; intros E.
  - destruct (w.(cks) !! j) as [cs|] eqn:Hj; [|done]. cbn in E. repeat case_match; simplify_eq. by eapply Hin.
  - by eapply Hret.
  - destruct (w.(cks) !! j) as [cs|] eqn:Hj; [|done]. cbn in E. destruct (busy cs) as [b|]; [|done]. cbn in E.
    destruct (answered w !! k) as [a|]; [|done]. cbn in E. case_match; [|done]. by eapply Hret.
  - case_match; [|done]. unfold arrives in E. destruct (server_step _ _ _ w) as [w0|] eqn:E0; [|done]. cbn in E.
    injection E as <-. rewrite <- (Hsrv _ _ _ _ E0). by destruct isLeader.
  - case_match; [|done]. by rewrite (Hsrv _ _ _ _ E).
  - destruct (nodes w !! s); [|done]. cbn in E. destruct (log w !! (index - 1)%nat); [|done]. cbn in E.
    case_match; [|done]. by rewrite (Hsrv _ _ _ _ E).
  - destruct (started w !! k); [|done]. cbn in E. by injection E as <-.
  - destruct (nodes w !! s); [|done]. cbn in E. by injection E as <-.
Qed.

Lemma sreachable_clients n maxr xs w : sreachable n maxr xs w -> client <$> w.(cks) = nrand <$> xs.*1.
Proof.
  induction 1 as [|lbl w w' _ IH Hs]; [|by rewrite (sstep_clients _ _ _ Hs)].
  cbn. rewrite <- !list_fmap_compose. done.
Qed.

Lemma sreachable_inv n maxr xs w : distinct_clients w -> sreachable n maxr xs w -> sys_inv w.
Proof.
  intros Hd Hr. assert (NoDup (nrand <$> xs.*1)) as Hnd.
  { unfold distinct_clients in Hd. by rewrite (sreachable_clients _ _ _ _ Hr) in Hd. }
  clear Hd. induction Hr; [by apply init_inv|by eapply sstep_inv].
Qed.
