(* ===== verification/KvLinear.v ===== *)
(** * KvLinear: the key/value service is linearizable

    On an agreed log, with clerks that retry, servers that restart and a network
    that loses and repeats messages, the operations of a test are linearizable:
    a write happens where its request is first in the log, a read after the prefix
    of the log its value was read from.  So the checker of src/linearizability
    accepts what the tests record. *)

From S2P Require Import Prelude Gob Raft KVServer KVTheory.
From S2P Require Import Bitset LinHeap LinCheck LinSpec LinHistory LinOps LinKv LinStore.
From S2P Require Import Clerk KvSystem KvSystemInv.
From stdpp Require Import strings sorting.
Local Open Scope Z_scope.

(** ** Lists *)

Lemma lookup_omap_all {A B} (f : A -> option B) (l : list A) i :
  (forall x, x ∈ l -> is_Some (f x)) -> omap f l !! i = l !! i ≫= f.
Proof.
  revert i. induction l as [|x l IH]; intros i Hall; [done|]. cbn.
  destruct (Hall x) as [y Hy]; [by left|]. rewrite Hy.
  destruct i as [|i]; cbn; [done|]. apply IH. intros z Hz. apply Hall. by right.
Qed.

Lemma length_omap_all {A B} (f : A -> option B) (l : list A) :
  (forall x, x ∈ l -> is_Some (f x)) -> length (omap f l) = length l.
Proof.
  induction l as [|x l IH]; intros Hall; [done|]. cbn. destruct (Hall x) as [y Hy]; [by left|].
  rewrite Hy. cbn. f_equal. apply IH. intros z Hz. apply Hall. by right.
Qed.

(** Choosing a number for every element. *)
Lemma list_choice {A} (l : list A) (P : nat -> A -> nat -> Prop) :
  (forall i x, l !! i = Some x -> exists k, P i x k) ->
  exists f, forall i x, l !! i = Some x -> P i x (f i).
Proof.
  revert P. induction l as [|x l IH]; intros P Hall; [by exists (fun _ => 0%nat)|].
  destruct (IH (fun i => P (S i))) as [f Hf]; [intros i y Hi; by apply Hall|].
  destruct (Hall 0%nat x eq_refl) as [k Hk].
  exists (fun i => match i with O => k | S i => f i end). intros [|i] y Hi; cbn in *; [by simplify_eq|].
  by apply Hf.
Qed.

(** The first place of an element. *)
Lemma first_at {A} `{EqDecision A} (l : list A) x :
  x ∈ l -> exists p, l !! p = Some x /\ x ∉ take p l.
Proof.
  intros (l1 & l2 & -> & Hn)%list_elem_of_split_l. exists (length l1).
  split; [by rewrite lookup_app_r, Nat.sub_diag by lia|]. by rewrite take_app_length.
Qed.

(** ** Stores up to keys that hold the empty string *)

Definition same_store (st d : gmap string string) : Prop := forall k, default "" (st !! k) = default "" (d !! k).

Lemma same_store_insert st d k v : same_store st d -> same_store (<[k := v]> st) (<[k := v]> d).
Proof.
  intros Hs k'. destruct (decide (k' = k)) as [->|]; [by rewrite !lookup_insert_eq|].
  rewrite !lookup_insert_ne by done. apply Hs.
Qed.

Lemma same_store_read st d k : same_store st d -> same_store (<[k := default "" (d !! k)]> st) d.
Proof.
  intros Hs k'. destruct (decide (k' = k)) as [->|]; [by rewrite lookup_insert_eq|].
  rewrite lookup_insert_ne by done. apply Hs.
Qed.

(** A step of the store and the operation of the log. *)
Lemma store_step_get st d args :
  same_store st d ->
  exists st', store_step st (VIn (kv_input (CGet args))) (VOut {| kvResult := default "" (d !! args.(ga_Key)) |})
    = Ret (true, st') /\ same_store st' d.
Proof.
  intros Hs. eexists. split; [|by apply (same_store_read st d args.(ga_Key))].
  cbn. rewrite (Hs args.(ga_Key)), bool_decide_true by done. done.
Qed.

Lemma store_step_put st d args v :
  same_store st d -> proper_call (CPutAppend args) ->
  exists st', store_step st (VIn (kv_input (CPutAppend args))) (VOut v) = Ret (true, st') /\
    same_store st' (exec (call_op (CPutAppend args)) d).
Proof.
  intros Hs [Ep|Ep]; cbn; unfold exec; cbn; rewrite Ep; cbn; eexists; (split; [done|]).
  - by apply same_store_insert.
  - rewrite (Hs args.(pa_Key)). by apply same_store_insert.
Qed.

(** ** Points of the operations *)

Section linear.
Context (w : Sys) (bs : list nat) (Hc : clerk_inv w) (Hl : log_inv w.(log) w.(recs) w.(clock) bs).

(** What [spec_db] does with the operation at [q]. *)
Lemma spec_db_take q op :
  w.(log) !! q = Some op ->
  spec_db (take (S q) w.(log)) =
  exec_all (spec_db (take q w.(log))) (if decide (newest (take q w.(log)) op) then [op] else []).
Proof.
  intros Hq. unfold spec_db. rewrite (take_S_r _ _ _ Hq), executed_snoc. unfold exec_all.
  by rewrite foldl_app.
Qed.

(** A request is executed where it is first in the log, and nowhere else. *)
Lemma first_newest q i r :
  w.(recs) !! i = Some r -> w.(log) !! q = Some (rec_op r) ->
  newest (take q w.(log)) (rec_op r) <-> rec_op r ∉ take q w.(log).
Proof.
  intros Hr Hq. split.
  - intros Hn Hin. eapply Forall_forall in Hn; [|exact Hin]. specialize (Hn eq_refl). lia.
  - intros Hnot. destruct (li_orderly _ _ _ _ Hl (take q w.(log)) (rec_op r) (drop (S q) w.(log))) as [Hid|]; [|exfalso|done].
    { by rewrite take_drop_middle. }
    apply list_elem_of_fmap in Hid as (op & E & Hin).
    destruct (li_rec _ _ _ _ Hl op (in_prefix _ _ _ Hin)) as (i' & r' & Hr' & <-).
    assert (i = i') as <- by (by eapply ci_ids). by simplify_eq.
Qed.

Definition write_at (r : OpRec) (p : nat) : Prop :=
  (exists args, r.(or_call) = CPutAppend args) /\ w.(log) !! p = Some (rec_op r) /\ rec_op r ∉ take p w.(log).

(** Between writes the log changes nothing. *)
Lemma no_writes m q :
  (m <= q <= length w.(log))%nat ->
  (forall p i r, (m <= p < q)%nat -> w.(recs) !! i = Some r -> ~ write_at r p) ->
  spec_db (take q w.(log)) = spec_db (take m w.(log)).
Proof.
  intros Hq Hno. induction q as [|q IH]; [by replace m with 0%nat by lia|].
  destruct (decide (m = S q)) as [->|]; [done|]. rewrite <- IH; [|lia|intros p i r ?; apply (Hno p i r); lia].
  destruct (lookup_lt_is_Some_2 w.(log) q) as [op Hop]; [lia|]. rewrite (spec_db_take q op Hop).
  destruct (li_rec _ _ _ _ Hl op (list_elem_of_lookup_2 _ _ _ Hop)) as (i & r & Hr & <-).
  case_decide as Hn; [|done]. apply (first_newest q i r Hr Hop) in Hn.
  unfold rec_op. destruct (or_call r) as [args|args] eqn:Ec; [done|].
  destruct (Hno q i r); [lia|done|]. split; [by exists args|done].
Qed.

(** The value an operation returned. *)
Definition returns (r : OpRec) (v : string) : Prop := exists t, r.(or_done) = Some (t, v).

(** The point of operation [i]: [2p + 2] for a write at [p], [2h + 1] for a read of
    the prefix of length [h].  It is after the call and before the return. *)
Record point (i : nat) (r : OpRec) (k : nat) : Prop := {
  pt_kind : match r.(or_call) with
    | CGet args => exists h, k = (2 * h + 1)%nat /\ (h <= length w.(log))%nat /\
        returns r (default "" (spec_db (take h w.(log)) !! args.(ga_Key)))
    | CPutAppend args => exists p, k = (2 * p + 2)%nat /\ write_at r p
    end;
  pt_call : forall b, bs !! i = Some b -> (2 * b + 1 < k)%nat;
  pt_return : forall t v i' r' b', r.(or_done) = Some (t, v) ->
    w.(recs) !! i' = Some r' -> bs !! i' = Some b' -> t < r'.(or_start) -> (k <= 2 * b' + 1)%nat;
}.

Lemma point_exists i r : w.(recs) !! i = Some r -> is_Some r.(or_done) -> exists k, point i r k.
Proof.
  intros Hr [[t v] Hd]. destruct (li_done _ _ _ _ Hl i r t v Hr Hd) as (_ & h & Hs & Hin & Hlater).
  destruct (first_at _ _ Hin) as (p & Hp & Hnot). rewrite lookup_take_Some in Hp. destruct Hp as [Hp Hph].
  rewrite take_take, Nat.min_l in Hnot by lia.
  assert (forall b, bs !! i = Some b -> (b <= p)%nat) as Hb
    by (intros b Eb; by apply (li_base _ _ _ _ Hl i r b Hr Eb)).
  assert (forall t' v' i' r' b', or_done r = Some (t', v') -> w.(recs) !! i' = Some r' -> bs !! i' = Some b' ->
    t' < r'.(or_start) -> (h <= b')%nat) as Hlater'.
  { intros t' v' i' r' b' E' Hr' Hb' Hlt. simplify_eq. by eapply Hlater. }
  destruct (or_call r) as [args|args] eqn:Ec.
  - exists (2 * h + 1)%nat. split.
    + rewrite Ec. exists h. split; [done|]. split; [by apply st_len in Hs|]. exists t. rewrite Hd.
      pose proof (st_value _ _ _ _ Hs) as Hv. cbn in Hv. by rewrite Hv.
    + intros b Eb. specialize (Hb b Eb). lia.
    + intros t' v' i' r' b' E' Hr' Hb' Hlt. specialize (Hlater' _ _ _ _ _ E' Hr' Hb' Hlt). lia.
  - exists (2 * p + 2)%nat. split.
    + rewrite Ec. exists p. split; [done|]. split; [by exists args|done].
    + intros b Eb. specialize (Hb b Eb). lia.
    + intros t' v' i' r' b' E' Hr' Hb' Hlt. specialize (Hlater' _ _ _ _ _ E' Hr' Hb' Hlt). lia.
Qed.

(** ** Running the operations in the order of their points *)

Context (Hdone : forall i r, w.(recs) !! i = Some r -> is_Some r.(or_done)).
Context (κ : nat -> nat) (Hκ : forall i r, w.(recs) !! i = Some r -> point i r (κ i)).

Lemma history_lookup i :
  history w !! i = w.(recs) !! i ≫= record.
Proof.
  apply lookup_omap_all. intros r [i' Hi']%list_elem_of_lookup. unfold record.
  destruct (Hdone i' r Hi') as [[t v] ->]. by eexists.
Qed.

Lemma history_length : length (history w) = length w.(recs).
Proof.
  apply length_omap_all. intros r [i Hi]%list_elem_of_lookup. unfold record.
  destruct (Hdone i r Hi) as [[t v] ->]. by eexists.
Qed.

(** The writes that are still to come are those of [ρ], in the log from [m] on. *)
Record pending (m : nat) (ρ : list nat) : Prop := {
  pe_sorted : StronglySorted (fun a b => (κ a <= κ b)%nat) ρ;
  pe_recs : forall i, i ∈ ρ -> exists r, w.(recs) !! i = Some r /\ (2 * m < κ i)%nat;
  pe_writes : forall i r p, w.(recs) !! i = Some r -> write_at r p -> (m <= p)%nat -> i ∈ ρ;
}.

Lemma write_point i r p : w.(recs) !! i = Some r -> write_at r p -> κ i = (2 * p + 2)%nat.
Proof.
  intros Hr ([args Ea] & Hp & Hnot). pose proof (pt_kind _ _ _ (Hκ i r Hr)) as Hk. rewrite Ea in Hk.
  destruct Hk as (p' & -> & _ & Hp' & Hnot'). f_equal. f_equal.
  destruct (Nat.lt_trichotomy p p') as [Hlt|[?|Hlt]]; [|done|]; exfalso.
  - apply Hnot'. apply (list_elem_of_lookup_2 _ p). by rewrite lookup_take_lt.
  - apply Hnot. apply (list_elem_of_lookup_2 _ p'). by rewrite lookup_take_lt.
Qed.

(** No write comes before the head of the order. *)
Lemma head_least m i ρ q :
  pending m (i :: ρ) -> (2 * q < κ i)%nat -> (m <= q <= length w.(log))%nat ->
  spec_db (take q w.(log)) = spec_db (take m w.(log)).
Proof.
  intros [Hs Hr Hw] Hq Hm. apply no_writes; [done|]. intros p i' r' Hp Hr' Hwr.
  pose proof (write_point i' r' p Hr' Hwr) as Ek.
  assert (i' ∈ i :: ρ) as [->|Hin]%elem_of_cons by (eapply Hw; [done|done|lia]); [lia|].
  apply StronglySorted_inv in Hs as [_ Hs]. rewrite Forall_forall in Hs. specialize (Hs i' Hin). lia.
Qed.

(** After the write at [p] those to come are in the log after it. *)
Lemma pending_write m i r p ρ :
  pending m (i :: ρ) -> i ∉ ρ -> w.(recs) !! i = Some r -> write_at r p -> pending (S p) ρ.
Proof.
  intros Hp Hni Hr Hw. pose proof (write_point i r p Hr Hw) as Ek.
  pose proof (pe_sorted _ _ Hp) as [Hs Hle]%StronglySorted_inv. rewrite Forall_forall in Hle.
  destruct (pe_recs _ _ Hp i) as (r0 & Hr0 & Hm); [by left|]. split; [done|..].
  - intros i' Hi'. destruct (pe_recs _ _ Hp i') as (r' & Hr' & _); [by right|]. exists r'. split; [done|].
    specialize (Hle i' Hi'). rewrite Ek in Hle.
    enough (κ i' <> (2 * p + 2)%nat) by lia. intros E. pose proof (pt_kind _ _ _ (Hκ i' r' Hr')) as Hk.
    destruct (or_call r'); [destruct Hk as (h & ? & _); lia|].
    destruct Hk as (p' & ? & _ & Hop' & _). assert (p' = p) as -> by lia. destruct Hw as (_ & Hop & _).
    apply Hni. rewrite (ci_ids _ Hc i i' r r' Hr Hr'); [done|]. congruence.
  - intros i' r' p' Hr' Hw' Hge. pose proof (pe_writes _ _ Hp i' r' p' Hr' Hw') as Hin.
    apply elem_of_cons in Hin as [->|?]; [|done|lia]. pose proof (write_point i r' p' Hr' Hw'). lia.
Qed.

(** The operations run in the order of their points. *)
Lemma run_from m ρ st :
  pending m ρ -> NoDup ρ -> same_store st (spec_db (take m w.(log))) -> runs StoreModel (history w) st ρ.
Proof.
  revert m st. induction ρ as [|i ρ IH]; intros m st Hp Hnd Hs; [constructor|].
  apply NoDup_cons in Hnd as [Hni Hnd]. destruct (pe_recs _ _ Hp i) as (r & Hr & Hm); [by left|].
  pose proof (pe_sorted _ _ Hp) as [Hs' _]%StronglySorted_inv.
  pose proof (history_lookup i) as Hh. rewrite Hr in Hh. cbn in Hh. unfold record in Hh.
  destruct (Hdone i r Hr) as [[t v] Hd]. rewrite Hd in Hh.
  pose proof (pt_kind _ _ _ (Hκ i r Hr)) as Hk. destruct (or_call r) as [args|args] eqn:Ec.
  - destruct Hk as (h & Ek & Hlen & t' & Ed). rewrite Hd in Ed. injection Ed as <- ->.
    assert (Hsame : spec_db (take h w.(log)) = spec_db (take m w.(log)))
      by (eapply head_least; [exact Hp|lia|lia]).
    rewrite Hsame in *. destruct (store_step_get st _ args Hs) as (st' & Hst & Hs1).
    econstructor; [exact Hh|exact Hst|]. apply (IH m); [|done|done]. split; [done|..].
    + intros i' Hi'. apply (pe_recs _ _ Hp). by right.
    + intros i' r' p Hr' Hw Hle. pose proof (pe_writes _ _ Hp i' r' p Hr' Hw Hle) as Hin.
      apply elem_of_cons in Hin as [->|?]; [|done]. destruct Hw as [[? E] _]. congruence.
  - destruct Hk as (p & Ek & Hw). pose proof Hw as (_ & Hop & Hfirst).
    apply lookup_lt_Some in Hop as Hlt.
    assert (Hsame : spec_db (take p w.(log)) = spec_db (take m w.(log)))
      by (eapply head_least; [exact Hp|lia|lia]).
    pose proof (ci_proper _ Hc i r Hr) as Hpr. rewrite Ec in Hpr.
    destruct (store_step_put st _ args {| kvResult := v |} Hs Hpr) as (st' & Hst & Hs1).
    econstructor; [exact Hh|exact Hst|]. apply (IH (S p)); [|done|].
    + by apply (pending_write m i r p).
    + rewrite (spec_db_take p _ Hop), decide_True by (by eapply first_newest).
      unfold rec_op, exec_all. rewrite Ec, Hsame. done.
Qed.

(** The order of the points linearizes the record. *)
Lemma points_linearize : exists σ, op_linearization StoreModel (history w) σ.
Proof.
  apply store_lin. rewrite history_length. set (key := fun i => Z.of_nat (κ i)).
  set (ρ := merge_sort (by_point key) (seq 0 (length w.(recs)))). exists ρ.
  assert (ρ ≡ₚ seq 0 (length w.(recs))) as Hp by apply merge_sort_Permutation.
  assert (StronglySorted (fun a b => key a <= key b) ρ) as Hs by apply (StronglySorted_merge_sort (by_point key)).
  assert (forall i, i ∈ ρ -> exists r, w.(recs) !! i = Some r) as Hrec.
  { intros i. rewrite Hp, elem_of_seq. intros [_ Hi]. by apply lookup_lt_is_Some_2. }
  split; [done|..].
  - intros a b oa ob Ha Hb Hoa Hob Hlt. rewrite <- Hp in Ha, Hb. apply (sorted_before key); [done..|].
    destruct (Hrec a Ha) as [ra Hra], (Hrec b Hb) as [rb Hrb].
    rewrite history_lookup, Hra in Hoa. rewrite history_lookup, Hrb in Hob. cbn in Hoa, Hob. unfold record in *.
    destruct (or_done ra) as [[ta va]|] eqn:Hda; [|done]. destruct (or_done rb) as [[tb vb]|]; [|done].
    simplify_eq. cbn in Hlt. destruct (lookup_lt_is_Some_2 bs b) as [base Hbase].
    { rewrite (li_len _ _ _ _ Hl). by eapply lookup_lt_Some. }
    pose proof (pt_return _ _ _ (Hκ a ra Hra) _ _ _ _ _ Hda Hrb Hbase Hlt).
    pose proof (pt_call _ _ _ (Hκ b rb Hrb) _ Hbase). unfold key. lia.
  - apply (run_from 0); [|rewrite Hp; apply NoDup_seq|by intros k]. split.
    + clear -Hs. induction Hs as [|x l Hs IH Hf]; constructor; [done|].
      eapply Forall_impl; [exact Hf|]. unfold key. cbn. lia.
    + intros i Hi. destruct (Hrec i Hi) as [r Hr]. exists r. split; [done|].
      destruct (lookup_lt_is_Some_2 bs i) as [base Hbase].
      { rewrite (li_len _ _ _ _ Hl). by eapply lookup_lt_Some. }
      pose proof (pt_call _ _ _ (Hκ i r Hr) _ Hbase). lia.
    + intros i r p Hr _ _. rewrite Hp, elem_of_seq. apply lookup_lt_Some in Hr. lia.
Qed.
End linear.

(** ** Histories of complete operations *)

Lemma idle_done w i r : clerk_inv w -> idle w -> w.(recs) !! i = Some r -> is_Some r.(or_done).
Proof.
  intros Hc Hidle Hr. destruct (ci_rec _ Hc i r Hr) as (j & cs & Hj & _ & Hh). unfold has_rec in Hh.
  destruct (or_done r) as [d|]; [by exists d|]. destruct Hh as [Hb _].
  unfold idle in Hidle. rewrite Forall_forall in Hidle.
  rewrite (Hidle cs) in Hb by (by eapply list_elem_of_lookup_2). done.
Qed.

Lemma sys_inv_linearizable w : sys_inv w -> idle w -> exists σ, op_linearization StoreModel (history w) σ.
Proof.
  intros [Hc [bs Hl] _ _] Hidle.
  destruct (list_choice w.(recs) (point w bs)) as [κ Hκ].
  { intros i r Hr. eapply point_exists; [done..|by eapply idle_done]. }
  apply (points_linearize w bs Hc Hl) with κ; [|done]. intros i r. by apply idle_done.
Qed.

Lemma history_elem w o : o ∈ history w -> exists i r t v,
  w.(recs) !! i = Some r /\ r.(or_done) = Some (t, v) /\
  o = mkOperation (VIn (kv_input r.(or_call))) r.(or_start) (VOut {| kvResult := v |}) t.
Proof.
  intros (r & [i Hi]%list_elem_of_lookup & E)%list_elem_of_omap. unfold record in E.
  destruct (or_done r) as [[t v]|] eqn:Hd; [|done]. injection E as <-. by exists i, r, t, v.
Qed.

(** Linearizability does not depend on the order in which operations are listed. *)
Lemma linearization_perm {State Val} (model : Model State Val) (H H' : list (Operation Val)) :
  H' ≡ₚ H -> (exists σ, op_linearization model H σ) -> exists σ, op_linearization model H' σ.
Proof.
  intros Hp Hlin.
  assert (Some <$> H ≡ₚ Some <$> H') as Hm by (by rewrite Hp).
  assert (Some <$> H = (fun i => H !! i) <$> seq 0 (length H)) as E.
  { apply list_eq. intros i. rewrite !list_lookup_fmap. destruct (H !! i) as [o|] eqn:Ho.
    - rewrite (proj2 (lookup_seq 0 (length H) i i)); [cbn; by rewrite Ho|].
      split; [done|]. by eapply lookup_lt_Some.
    - apply lookup_ge_None in Ho. by rewrite lookup_seq_ge. }
  rewrite E in Hm. symmetry in Hm. apply Permutation_map_inv in Hm as (I & EI & HI).
  assert (length H' = length I) as Hlen by (apply (f_equal length) in EI; by rewrite length_fmap, length_map in EI).
  apply (lin_on_ops model H H' I); [rewrite <- HI; apply NoDup_seq|done| |].
  - intros j i Hj. apply (f_equal (fun l => l !! j)) in EI. change (map ?f I) with (f <$> I) in EI.
    rewrite !list_lookup_fmap, Hj in EI. cbn in EI. destruct (H' !! j); [|done]. by injection EI.
  - apply (lin_on_ops model H H (seq 0 (length H))) in Hlin as [ρ [H1 H2 H3]];
      [|apply NoDup_seq|by rewrite length_seq|by intros j i [-> _]%lookup_seq].
    exists ρ. split; [by rewrite H1|intros a b oa ob; rewrite <- !HI; apply H2|done].
Qed.

(** What is recorded is what the checker of src/linearizability expects. *)
Lemma history_ok w ops : sys_inv w -> ops ≡ₚ history w -> ops_ok KvModel ops /\
  (forall a b, a ∈ ops -> b ∈ ops -> a.(ReturnTime) <> b.(CallTime)) /\
  exists parts, kv_partition ops = Ret parts.
Proof.
  intros [Hc [bs Hl] _ _] Hp.
  assert (forall o, o ∈ ops -> o ∈ history w) as Hin by (intros o; by rewrite Hp). split; [|split].
  - intros o (i & r & t & v & Hr & Hd & ->)%Hin%history_elem.
    destruct (li_done _ _ _ _ Hl i r t v Hr Hd) as [Ht _].
    split; [cbn; lia|]. intros st. cbn. destruct (_ =? 0); [by eexists|]. destruct (_ =? 1); by eexists.
  - intros a b (i & r & t & v & Hr & Hd & ->)%Hin%history_elem (i' & r' & t' & v' & Hr' & Hd' & ->)%Hin%history_elem.
    cbn. by eapply (li_times _ _ _ _ Hl i r t v).
  - assert (forall o, o ∈ ops -> exists inp, o.(Input) = VIn inp) as Hi
      by (intros o (i & r & t & v & _ & _ & ->)%Hin%history_elem; by eexists).
    clear -Hi. unfold kv_partition. generalize (∅ : gmap string (list KvOperation)).
    induction ops as [|o l IH]; intros m; cbn; [by eexists|].
    destruct (Hi o) as [inp ->]; [by left|]. apply IH. intros x Hx. apply Hi. by right.
Qed.

(** The recorded operations of a run that has come to rest are linearizable, and the
    checker accepts them. *)
Lemma service_linearizable n maxr xs w operations :
  distinct_clients w -> sreachable n maxr xs w -> idle w -> operations ≡ₚ history w ->
  (exists σ, op_linearization StoreModel operations σ) /\
  exists parts, kv_partition operations = Ret parts /\
    forall sort arrival, sorts_by_time sort -> arrival ≡ₚ seq 0 (length parts) ->
    exists fuel0, forall fuel, (fuel0 <= fuel)%nat ->
      CheckOperations KvModel VNil sort fuel arrival operations =
      Ret (match operations with [] => None | _ => Some true end).
Proof.
  intros Hnd Hr Hidle Hp. pose proof (sreachable_inv _ _ _ _ Hnd Hr) as Hinv.
  pose proof (linearization_perm _ _ _ Hp (sys_inv_linearizable _ Hinv Hidle)) as Hlin. split; [done|].
  destruct (history_ok _ _ Hinv Hp) as (Hok & Ht & parts & Hparts). exists parts. split; [done|].
  intros sort arrival Hs Ha. destruct (decide (operations = [])) as [E|Hne].
  { rewrite E in *. exists 0%nat. intros fuel _. by apply (kv_check_empty sort fuel arrival parts). }
  destruct (kv_check_store sort arrival operations parts Hs Hparts Hne Hok Ht Ha) as (fuel0 & b & Hf & Hb).
  exists fuel0. rewrite (proj2 Hb Hlin) in Hf. by destruct operations.
Qed.

(** The key/value service is linearizable.  In every run of the clerks and the
    servers on one agreed log, with requests and replies lost, delayed and
    repeated, with requests that enter the log several times, and with servers that
    restart from an empty store and apply the log again: when the clerks have
    different client ids and none is in a method, one order of all recorded operations
    respects real time and gives their results on one key/value store; and
    [CheckOperations] of src/linearizability with the key/value model answers true on
    the recorded operations, in whatever order they were recorded, if there is one
    (without operations it waits for ever, [kv_check_empty]). *)
Theorem kv_service_linearizable n maxr xs w operations :
  distinct_clients w -> sreachable n maxr xs w -> idle w -> operations ≡ₚ history w ->
  (exists σ, op_linearization StoreModel operations σ) /\
  exists parts, kv_partition operations = Ret parts /\
    forall sort arrival, sorts_by_time sort -> arrival ≡ₚ seq 0 (length parts) ->
    exists fuel0, forall fuel, (fuel0 <= fuel)%nat ->
      CheckOperations KvModel VNil sort fuel arrival operations =
      Ret (match operations with [] => None | _ => Some true end).
Proof. apply service_linearizable. Qed.

(** A run: the first server refuses, the second appends the request twice to the
    log, because the reply comes after the clerk has tried again; a [Get] of the
    other clerk overlaps; the second server restarts. *)
Definition ex_append : Request := ReqPutAppend "x" "a" "Append".
Definition ex_c0 : Call := request_call (MakeClerk 2 7) ex_append.
Definition ex_c1 : Call := request_call (MakeClerk 2 9) (ReqGet "x").

Definition ex_labels : list SLabel :=
  [SInvoke 0 ex_append; SRequest 0 ex_c0 0 false; SHandler 0 (KFinish 0); SReply 0 0;
   SRequest 1 ex_c0 1 true; SHandler 1 (KRegister 0); SFail 0; SFail 0;
   SRequest 1 ex_c0 2 true; SHandler 1 (KRegister 1); SInvoke 1 (ReqGet "x");
   SCommit 0; SCommit 1; SDeliver 1 1; SHandler 1 KSend; SHandler 1 (KNotify 0); SHandler 1 (KDelete 0);
   SHandler 1 (KFinish 0); SReply 0 1; SRequest 1 ex_c1 3 true; SCommit 2; SHandler 1 (KRegister 1);
   SDeliver 1 2; SHandler 1 KSend; SDeliver 1 3; SHandler 1 KSend; SHandler 1 (KNotify 1); SHandler 1 (KDelete 1);
   SHandler 1 (KFinish 1); SReply 1 2; SRestart 1].

(** The handles of the second clerk are in another order. *)
Definition ex_clerks : list (Z * list nat) := [(7, [0%nat; 1%nat]); (9, [1%nat; 0%nat])].

Definition ex_sys : Sys := default (init 2 (-1) ex_clerks) (srun ex_labels (init 2 (-1) ex_clerks)).

Lemma ex_sys_reachable : sreachable 2 (-1) ex_clerks ex_sys.
Proof.
  apply (srun_reachable _ _ _ ex_labels (init 2 (-1) ex_clerks)); [constructor|].
  vm_compute. reflexivity.
Qed.

Definition ex_operations : list KvOperation := [kv_op 2 "x" "a" 0 "" 2; kv_op 0 "x" "" 1 "a" 3].

Lemma kv_service_linearizable_witness :
  length ex_sys.(log) = 3%nat /\
  (exists σ, op_linearization StoreModel ex_operations σ) /\
  exists parts, kv_partition ex_operations = Ret parts /\
    forall sort arrival, sorts_by_time sort -> arrival ≡ₚ seq 0 (length parts) ->
    exists fuel0, forall fuel, (fuel0 <= fuel)%nat ->
      CheckOperations KvModel VNil sort fuel arrival ex_operations = Ret (Some true).
Proof.
  split; [vm_compute; reflexivity|].
  apply (kv_service_linearizable 2 (-1) ex_clerks ex_sys ex_operations).
  - apply (bool_decide_unpack _). vm_compute. exact I.
  - exact ex_sys_reachable.
  - apply (bool_decide_unpack _). vm_compute. exact I.
  - replace (history ex_sys) with ex_operations by (vm_compute; reflexivity). reflexivity.
Defined.
