(* ===== verification/KvRaft.v ===== *)
(** * KvRaft: the key/value service on the Raft cluster

    The whole program: clerks and servers of src/kvraft (KvSystem.v) on the peers of
    src/raft (Cluster.v).  A server starts a command when its Raft peer appends it,
    applies the messages that its peer delivers on the applyCh, and restarts together
    with its peer.  The log of KvSystem.v is not part of this system: that there is
    one is the refinement of RaftLog.v.  Hence the service on Raft is linearizable in
    timely and prudent runs. *)

From S2P Require Import Prelude Gob Raft Cluster RaftTraces RaftCommit RaftMachine RaftLog.
From S2P Require Import KVServer KVTheory Clerk LinCheck LinOps LinKv LinStore KvSystem KvSystemInv KvLinear KvConfig.
From stdpp Require Import strings functions.
Local Open Scope Z_scope.

(** ** The log is a parameter of the front *)

(** The steps of clerks and servers that do not involve Raft; a request that the
    server refuses because its peer is not the leader is one of them. *)
Definition front (lbl : SLabel) : bool :=
  match lbl with
  | SInvoke _ _ | SFail _ | SReply _ _ | SHandler _ _ | SRequest _ _ _ false => true
  | _ => false
  end.

(** No step but a commit and a delivery reads or writes the log. *)
Definition logless (lbl : SLabel) : bool :=
  match lbl with SCommit _ | SDeliver _ _ => false | _ => true end.

Lemma server_step_log s lbl h l w w' :
  server_step s lbl h w = Some w' -> server_step s lbl h (set_log l w) = Some (set_log l w').
Proof.
  unfold server_step. cbn. destruct (KvSystem.nodes w !! s) as [nd|]; [|done]. cbn.
  destruct (kstep lbl nd.(kv)) as [[kv'|]|]; [|done..]. intros [= <-]. done.
Qed.

Lemma clerk_returns_log j o l w w' :
  clerk_returns j o w = Some w' -> clerk_returns j o (set_log l w) = Some (set_log l w').
Proof.
  unfold clerk_returns. cbn. destruct (w.(cks) !! j) as [cs|]; [|done]. cbn. destruct (busy cs) as [b|]; [|done]. cbn.
  destruct o as [reply|]; [|by intros [= <-]]. destruct (reply_wrong reply); [by intros [= <-]|].
  destruct (w.(recs) !! b.2) as [rc|]; [|done]. cbn. by intros [= <-].
Qed.

Lemma sstep_log lbl l w w' :
  logless lbl = true -> sstep lbl w = Some w' -> sstep lbl (set_log l w) = Some (set_log l w').
Proof.
  destruct lbl as [j r|j|j k|s c index isLeader|s lbl|s index|k|s]; intros Hl; try done; cbn.
  - destruct (w.(cks) !! j) as [cs|]; [|done]. cbn. destruct (busy cs); [done|].
    destruct (proper r); [|done]. by intros [= <-].
  - apply clerk_returns_log.
  - destruct (w.(cks) !! j) as [cs|]; [|done]. cbn. destruct (busy cs) as [b|]; [|done]. cbn.
    destruct (w.(answered) !! k) as [x|]; [|done]. cbn. case_bool_decide; [|done]. apply clerk_returns_log.
  - case_bool_decide; [|done]. unfold arrives. destruct (server_step s _ id w) as [w1|] eqn:E; [|done]. cbn.
    rewrite (server_step_log _ _ _ l _ _ E). cbn. intros [= <-]. by destruct isLeader.
  - destruct (internal lbl); [|done]. apply server_step_log.
  - destruct (KvSystem.nodes w !! s) as [nd|]; [|done]. cbn. by intros [= <-].
Qed.

(** The heights that a step may change. *)
Lemma server_step_nodes s lbl h w w' :
  server_step s lbl h w = Some w' ->
  w'.(started) = w.(started) /\
  forall i nd', KvSystem.nodes w' !! i = Some nd' -> exists nd, KvSystem.nodes w !! i = Some nd /\
    nd'.(height) = (if decide (i = s) then h nd.(height) else nd.(height)).
Proof.
  unfold server_step. destruct (KvSystem.nodes w !! s) as [nd|] eqn:Hs; [|done]. cbn.
  destruct (kstep lbl nd.(kv)) as [[kv'|]|]; [|done..]. intros [= <-]. split; [done|]. cbn. intros i nd'.
  intros [(<- & <- & _)|[Hne Hi]]%list_lookup_insert_Some; [exists nd; by rewrite decide_True|].
  exists nd'. by rewrite decide_False.
Qed.

(** What the front steps leave alone. *)
Definition same_front (w w' : Sys) : Prop :=
  forall i nd', KvSystem.nodes w' !! i = Some nd' -> exists nd, KvSystem.nodes w !! i = Some nd /\ nd'.(height) = nd.(height).

Lemma server_step_id s lbl w w' :
  server_step s lbl id w = Some w' -> w'.(started) = w.(started) /\ same_front w w'.
Proof.
  intros [Es Hn]%server_step_nodes. split; [done|]. intros i nd' (nd & ? & Eh)%Hn. exists nd. split; [done|].
  by case_decide.
Qed.

Lemma clerk_returns_frame j o w w' :
  clerk_returns j o w = Some w' -> w'.(started) = w.(started) /\ KvSystem.nodes w' = KvSystem.nodes w /\ w'.(answered) = w.(answered).
Proof.
  unfold clerk_returns. destruct (w.(cks) !! j) as [cs|]; [|done]. cbn. destruct (busy cs) as [b|]; [|done]. cbn.
  destruct o as [reply|]; [|by intros [= <-]]. destruct (reply_wrong reply); [by intros [= <-]|].
  destruct (w.(recs) !! b.2) as [rc|]; [|done]. cbn. by intros [= <-].
Qed.

Lemma front_frame lbl w w' :
  front lbl = true -> sstep lbl w = Some w' -> w'.(started) = w.(started) /\ same_front w w'.
Proof.
  assert (forall w1 : Sys, KvSystem.nodes w1 = KvSystem.nodes w -> same_front w w1) as Hsame
    by (intros w1 E i nd; rewrite E; eauto).
  destruct lbl as [j r|j|j k|s c index isLeader|s lbl|s index|k|s]; intros Hl; try done; cbn.
  - destruct (w.(cks) !! j) as [cs|]; [|done]. cbn. destruct (busy cs); [done|].
    destruct (proper r); [|done]. intros [= <-]. split; [done|by apply Hsame].
  - intros (Es & En & _)%clerk_returns_frame. split; [done|by apply Hsame].
  - destruct (w.(cks) !! j) as [cs|]; [|done]. cbn. destruct (busy cs) as [b|]; [|done]. cbn.
    destruct (w.(answered) !! k) as [x|]; [|done]. cbn. case_bool_decide; [|done].
    intros (Es & En & _)%clerk_returns_frame. split; [done|by apply Hsame].
  - destruct isLeader; [done|]. case_bool_decide; [|done].
    unfold arrives. destruct (server_step s _ id w) as [w1|] eqn:E; [|done]. cbn. intros [= <-]. by eapply server_step_id.
  - destruct (internal lbl); [|done]. apply server_step_id.
Qed.

Section compose.
Context `{!Gob (PVal Op)} `{!Rand} (n : nat) (maxr : Z) (xs : list (Z * list nat)).
Implicit Types (r : Cluster Op) (f : Sys).

(** ** The composition *)

(** A step of the Raft cluster that shows [o] at its interface. *)
Definition raft_step r (o : list (Obs Op)) r' : Prop :=
  exists lbl, timely lbl r /\ prudent lbl r /\ step lbl r = Some (Ret r') /\ obs lbl r = o.

Inductive cstep : Cluster Op * Sys -> Cluster Op * Sys -> Prop :=
(** The clerks, the network and the handlers. *)
| C_front r f f' lbl : front lbl = true -> sstep lbl f = Some f' -> cstep (r, f) (r, f')
(** Elections, replication, messages between the peers. *)
| C_raft r r' f : raft_step r [] r' -> cstep (r, f) (r', f)
(** A request arrives at server [s], and [rf.Start] appends its operation. *)
| C_start r r' f f' s k c index :
    timely (LGo s k) r -> prudent (LGo s k) r -> step (LGo s k) r = Some (Ret r') ->
    obs (LGo s k) r = [OStart (Some (call_op c))] ->
    sstep (SRequest s c index true) f = Some f' -> cstep (r, f) (r', f')
(** The peer of server [s] sends a message on applyCh, and the server applies it. *)
| C_deliver r r' f f' s m :
    raft_step r [ODeliver s m] r' ->
    server_step s (KApply m) (max (Z.to_nat m.(CommandIndex))) f = Some f' -> cstep (r, f) (r', f')
(** Server and peer restart. *)
| C_restart r r' f f' s :
    raft_step r [ORestart s] r' -> sstep (SRestart s) f = Some f' -> cstep (r, f) (r', f').

Definition creachable : Cluster Op * Sys -> Prop := rtc cstep (Cluster.init n, KvSystem.init n maxr xs).

(** ** The log that Raft agrees on *)

Record corr (a : ALog Op) f (l : list Op) : Prop := {
  co_log : a.(alog) = Some <$> l;
  co_started : a.(proposed) = Some <$> f.(started);
  co_height : forall s nd, KvSystem.nodes f !! s = Some nd -> a.(received) s = nd.(height);
  co_reach : sreachable n maxr xs (set_log l f);
}.

(** Commits of the agreed log are commits of KvSystem.v. *)
Lemma commits a tr a' f l :
  atrace a tr a' -> tr = [] -> corr a f l -> exists l', corr a' f l'.
Proof.
  intros Ht. revert l. induction Ht as [a|a o a1 tr a2 Ho _ IH]; intros l E Hc; [eauto|].
  apply app_eq_nil in E as [-> ->]. inversion Ho as [|? c Hin| |]; subst.
  destruct Hc as [H1 H2 H3 H4]. rewrite H2 in Hin. apply list_elem_of_fmap in Hin as (op & -> & Hin).
  apply list_elem_of_lookup_1 in Hin as [k Hk].
  apply (IH (l ++ [op])); [done|]. split; cbn; [by rewrite H1, fmap_app|done|done|].
  eapply (sreach_step _ _ _ (SCommit k)); [exact H4|]. cbn. by rewrite Hk.
Qed.


(** A trace with one event. *)
Lemma atrace_single {Cmd} (a : ALog Cmd) tr a' o :
  atrace a tr a' -> tr = [o] -> exists a1 a2, atrace a [] a1 /\ astep a1 [o] a2 /\ atrace a2 [] a'.
Proof.
  induction 1 as [a|a os a1 tr a2 Ho Ht IH]; intros E; [done|].
  destruct os as [|o1 os].
  - destruct (IH E) as (b1 & b2 & H1 & H2 & H3). exists b1, b2. split; [|done].
    exact (at_step _ [] _ [] _ Ho H1).
  - cbn in E. injection E as -> E. apply app_eq_nil in E as [-> ->]. exists a, a1. split; [constructor|]. done.
Qed.

Lemma start_corr a a' f f' l s c index :
  astep a [OStart (Some (call_op c))] a' -> corr a f l -> sstep (SRequest s c index true) f = Some f' ->
  corr a' f' l.
Proof.
  intros Ha [H1 H2 H3 H4] Hf. inversion Ha; subst.
  pose proof (sstep_log (SRequest s c index true) l _ _ eq_refl Hf) as Hf'. cbn in Hf.
  case_bool_decide; [|done]. unfold arrives in Hf. destruct (server_step s _ id f) as [f1|] eqn:E; [|done]. cbn in Hf.
  injection Hf as <-. destruct (server_step_id _ _ _ _ E) as [Es Hn]. split; cbn.
  - done.
  - by rewrite H2, Es, fmap_app.
  - intros i nd (nd0 & Hi & ->)%Hn. by apply H3.
  - eapply sreach_step; [exact H4|exact Hf'].
Qed.

Lemma deliver_corr a a' f f' l s m :
  astep a [ODeliver s m] a' -> corr a f l ->
  server_step s (KApply m) (max (Z.to_nat m.(CommandIndex))) f = Some f' -> corr a' f' l.
Proof.
  intros Ha [H1 H2 H3 H4] Hf. inversion Ha as [| |? ? k c Hk Hle|]; subst.
  rewrite H1, list_lookup_fmap in Hk. destruct (l !! k) as [op|] eqn:Hl; [|done]. cbn in Hk. injection Hk as <-.
  cbn [CommandIndex] in Hf. rewrite Nat2Z.id in Hf.
  destruct (server_step_nodes _ _ _ _ _ Hf) as [Es Hn]. pose proof (server_step_log _ _ _ l _ _ Hf) as Hf'.
  split; cbn.
  - done.
  - by rewrite H2, Es.
  - intros i nd (nd0 & Hi & ->)%Hn. case_decide as Hd; [subst i; rewrite fn_lookup_insert; by rewrite (H3 _ _ Hi)|].
    rewrite fn_lookup_insert_ne by done. by apply H3.
  - eapply (sreach_step _ _ _ (SDeliver s (S k))); [exact H4|]. cbn.
    unfold server_step in Hf. destruct (KvSystem.nodes f !! s) as [nd|] eqn:Hs; [|done]. cbn.
    rewrite Nat.sub_0_r, Hl. cbn. rewrite (H3 _ _ Hs) in Hle.
    rewrite Nat.add_1_r. cbn. rewrite (proj2 (Nat.leb_le _ _) Hle). exact Hf'.
Qed.

Lemma restart_corr a a' f f' l s :
  astep a [ORestart s] a' -> corr a f l -> sstep (SRestart s) f = Some f' -> corr a' f' l.
Proof.
  intros Ha [H1 H2 H3 H4] Hf. inversion Ha; subst. pose proof (sstep_log (SRestart s) l _ _ eq_refl Hf) as Hf'.
  cbn in Hf. destruct (KvSystem.nodes f !! s) as [nd|] eqn:Hs; [|done]. cbn in Hf. injection Hf as <-.
  split; cbn; [done|done| |eapply sreach_step; [exact H4|exact Hf']].
  intros i nd'. intros [(<- & <- & _)|[Hne Hi]]%list_lookup_insert_Some; [by rewrite fn_lookup_insert|].
  rewrite fn_lookup_insert_ne by done. by apply H3.
Qed.

(** ** Every state of the composition is one of KvSystem.v with some log *)

Definition agreed (x : Cluster Op * Sys) : Prop :=
  timely_reachable n x.1 /\ exists A a l, sim n x.1 A a /\ corr a x.2 l.

Lemma raft_step_sim r o r' A a :
  timely_reachable n r -> sim n r A a -> raft_step r o r' ->
  timely_reachable n r' /\ exists A' a', atrace a o a' /\ sim n r' A' a'.
Proof.
  intros Hr Hs (lbl & Htm & Hpr & E & <-). split; [by eapply treach_step|]. by eapply sim_step.
Qed.

Lemma agreed_step x x' : agreed x -> cstep x x' -> agreed x'.
Proof.
  intros (Hr & A & a & l & Hs & Hc) Hx.
  assert (forall r o r' f f', x = (r, f) -> x' = (r', f') -> raft_step r [o] r' ->
    (forall a1 a2 l1, astep a1 [o] a2 -> corr a1 f l1 -> corr a2 f' l1) -> agreed x') as Hev.
  { clear Hx. intros r o r' f f' -> -> Hrs Hco. cbn in *.
    destruct (raft_step_sim r [o] r' A a Hr Hs Hrs) as (Hr' & A' & a' & Ht & Hs').
    destruct (atrace_single _ _ _ _ Ht eq_refl) as (a1 & a2 & H1 & H2 & H3).
    destruct (commits _ _ _ _ _ H1 eq_refl Hc) as [l1 Hc1].
    destruct (commits _ _ _ _ _ H3 eq_refl (Hco _ _ _ H2 Hc1)) as [l2 Hc2].
    split; [done|]. by exists A', a', l2. }
  destruct Hx as [r f f' lbl Hfr Hf|r r' f Hrs|r r' f f' s k c index Htm Hpr Hst Ho Hf|r r' f f' s m Hrs Hf
                 |r r' f f' s Hrs Hf]; cbn [fst snd] in *.
  - split; [done|]. exists A, a, l. split; [done|]. destruct Hc as [H1 H2 H3 H4]. cbn in *.
    destruct (front_frame _ _ _ Hfr Hf) as [Es Hn]. split; [done|by rewrite Es| |].
    + intros s nd (nd0 & Hi & ->)%Hn. by apply H3.
    + eapply sreach_step; [exact H4|]. apply sstep_log; [|exact Hf]. by destruct lbl.
  - destruct (raft_step_sim r [] r' A a Hr Hs Hrs) as (Hr' & A' & a' & Ht & Hs').
    destruct (commits _ _ _ _ _ Ht eq_refl Hc) as [l' Hc']. split; [done|]. by exists A', a', l'.
  - apply (Hev r (OStart (Some (call_op c))) r' f f'); [done|done|by exists (LGo s k)|].
    intros a1 a2 l1 ? ?. by eapply start_corr.
  - apply (Hev r (ODeliver s m) r' f f'); [done..|]. intros a1 a2 l1 ? ?. by eapply deliver_corr.
  - apply (Hev r (ORestart s) r' f f'); [done..|]. intros a1 a2 l1 ? ?. by eapply restart_corr.
Qed.

Lemma agreed_init : agreed (Cluster.init n, KvSystem.init n maxr xs).
Proof.
  split; [apply treach_init|]. exists (fun _ _ _ => False), empty_log, []. split; [apply init_sim|].
  split; cbn; [done|done| |constructor].
  intros s nd Hs. rewrite list_lookup_fmap in Hs. by destruct (seq 0 n !! s); simplify_eq/=.
Qed.

Lemma creachable_log r f : creachable (r, f) -> exists l, sreachable n maxr xs (set_log l f).
Proof.
  intros Hr. assert (agreed (r, f)) as (_ & A & a & l & _ & Hc).
  { revert Hr. unfold creachable. generalize agreed_init. generalize (Cluster.init (Cmd:=Op) n, KvSystem.init n maxr xs).
    intros x Hx Hs. induction Hs as [|x y z Hxy _ IH]; [done|]. apply IH. by eapply agreed_step. }
  exists l. apply Hc.
Qed.

(** C2. The key/value service on Raft is linearizable.  In every timely and prudent run
    of the clerks, the servers and the Raft cluster, with elections, with messages
    between clerks and servers and between peers lost, delayed and reordered, with
    requests that enter the log several times and with servers that crash and
    restart: when the clerks have different client ids and none of them is in a
    method, one order of all recorded operations respects real time and gives their
    results on one key/value store, and [CheckOperations] of src/linearizability
    answers true on the recorded operations if there is at least one (on the empty
    record, which is linearizable, it waits for ever).  The ids are random numbers
    below 2^62 that [MakeClerk] draws, and the code does not exclude equal ones:
    [equal_ids_lose_update] is a run of two clerks with the same id that is not
    linearizable, so the condition cannot be dropped. *)
Theorem kv_on_raft_linearizable r f operations :
  distinct_clients f -> creachable (r, f) -> idle f -> operations ≡ₚ history f ->
  (exists σ, op_linearization StoreModel operations σ) /\
  exists parts, kv_partition operations = Ret parts /\
    forall sort arrival, sorts_by_time sort -> arrival ≡ₚ seq 0 (length parts) ->
    exists fuel0, forall fuel, (fuel0 <= fuel)%nat ->
      CheckOperations KvModel VNil sort fuel arrival operations =
      Ret (match operations with [] => None | _ => Some true end).
Proof.
  intros Hnd [l Hr]%creachable_log Hi Hp. exact (service_linearizable n maxr xs (set_log l f) operations Hnd Hr Hi Hp).
Qed.
End compose.

(** ** A run

    Two servers; server 0 is elected, appends the request of a clerk, replicates it,
    delivers and answers it; server 1 restarts. *)

Section crun.
Context `{!Gob (PVal Op)} `{!Rand}.

(** A step of the front, or a step of Raft with the request that it starts. *)
Inductive CLabel :=
| LFront (lbl : SLabel)
| LRaft (lbl : Label Op)
| LStartAt (s k : nat) (c : Call) (index : Z).

Definition raft_next (lbl : Label Op) (r : Cluster Op) : option (Cluster Op) :=
  if timelyb lbl r && prudentb lbl r
  then match step lbl r with Some (Ret r') => Some r' | _ => None end else None.

Definition cnext (l : CLabel) (x : Cluster Op * Sys) : option (Cluster Op * Sys) :=
  let '(r, f) := x in
  match l with
  | LFront lbl => if front lbl then f' ← sstep lbl f; Some (r, f') else None
  | LRaft lbl =>
      r' ← raft_next lbl r;
      match obs lbl r with
      | [] => Some (r', f)
      | [ODeliver s m] => f' ← server_step s (KApply m) (max (Z.to_nat m.(CommandIndex))) f; Some (r', f')
      | [ORestart s] => f' ← sstep (SRestart s) f; Some (r', f')
      | _ => None
      end
  | LStartAt s k c index =>
      r' ← raft_next (LGo s k) r;
      match obs (LGo s k) r with
      | [OStart (Some op)] =>
          if decide (op = call_op c) then f' ← sstep (SRequest s c index true) f; Some (r', f') else None
      | _ => None
      end
  end.

Lemma raft_next_ok lbl r r' :
  raft_next lbl r = Some r' -> timely lbl r /\ prudent lbl r /\ step lbl r = Some (Ret r').
Proof.
  unfold raft_next. destruct (timelyb lbl r && prudentb lbl r) eqn:Ht; [|done].
  apply andb_true_iff in Ht as [H1 H2]. destruct (step lbl r) as [[r1|]|] eqn:Hs; [|done..]. intros [= ->].
  split; [by apply timelyb_timely|]. split; [by apply prudentb_prudent|done].
Qed.

Lemma cnext_step l x x' : cnext l x = Some x' -> cstep x x'.
Proof.
  destruct x as [r f]. unfold cnext. intros E.
  destruct l as [lbl|lbl|s k c index].
  - destruct (front lbl) eqn:Hf; [|done]. destruct (sstep lbl f) as [f'|] eqn:Es; [|done]. injection E as <-.
    by eapply C_front.
  - destruct (raft_next lbl r) as [r'|] eqn:Er; [|done]. cbn [mbind option_bind] in E.
    apply raft_next_ok in Er as (H1 & H2 & H3).
    destruct (obs lbl r) as [|[c|s m|s] [|]] eqn:Ho; try done.
    + injection E as <-. apply C_raft. by exists lbl.
    + destruct (server_step s _ _ f) as [f'|] eqn:Es; [|done]. injection E as <-.
      eapply C_deliver; [by exists lbl|done].
    + destruct (sstep (SRestart s) f) as [f'|] eqn:Es; [|done]. injection E as <-.
      eapply C_restart; [by exists lbl|done].
  - destruct (raft_next (LGo s k) r) as [r'|] eqn:Er; [|done]. cbn [mbind option_bind] in E.
    apply raft_next_ok in Er as (H1 & H2 & H3).
    destruct (obs (LGo s k) r) as [|[[op|]|s' m|s'] [|]] eqn:Ho; try done.
    case_decide as Hd; [|done]. subst op.
    destruct (sstep (SRequest s c index true) f) as [f'|] eqn:Ef; [|done]. injection E as <-. by eapply C_start.
Qed.

Fixpoint crun (ls : list CLabel) (x : Cluster Op * Sys) : option (Cluster Op * Sys) :=
  match ls with
  | [] => Some x
  | l :: ls => match cnext l x with Some x => crun ls x | None => None end
  end.

Lemma crun_steps ls x x' : crun ls x = Some x' -> rtc cstep x x'.
Proof.
  revert x. induction ls as [|l ls IH]; cbn; intros x E; [by simplify_eq|].
  destruct (cnext l x) as [x1|] eqn:Ex; [|done]. eapply rtc_l; [by eapply cnext_step|by apply IH].
Qed.
End crun.

#[local] Instance op_gob : Gob (PVal Op) := countable_gob.

Definition run_append : Request := ReqPutAppend "x" "a" "Append".
Definition run_c : Call := request_call (MakeClerk 2 7) run_append.

Definition run_labels : list CLabel :=
  [LFront (SInvoke 0 run_append);
   LRaft (LExpireElection 0); LRaft (LRecvElection 0); LRaft (LLoop 0);
   LRaft (LGo 0 0); LRaft (LDeliver 0); LRaft (LDeliver 0);
   LRaft (LStart 0 (Some (call_op run_c))); LStartAt 0 1 run_c 1; LFront (SHandler 0 (KRegister 0));
   LRaft (LGo 0 0); LRaft (LDeliver 0); LRaft (LDeliver 0); LRaft (LGo 0 0);
   LFront (SHandler 0 KSend); LFront (SHandler 0 (KNotify 0)); LFront (SHandler 0 (KDelete 0));
   LFront (SHandler 0 (KFinish 0)); LFront (SReply 0 0); LRaft (LCrash 1)].

Definition run_start : Cluster Op * Sys := (Cluster.init 2, KvSystem.init 2 (-1) [(7, [0%nat; 1%nat])]).
Definition run_end : Cluster Op * Sys := default run_start (crun run_labels run_start).
Definition run_operations : list KvOperation := [kv_op 2 "x" "a" 0 "" 1].

Lemma run_reaches : creachable 2 (-1) [(7, [0%nat; 1%nat])] (run_end.1, run_end.2).
Proof.
  rewrite <- surjective_pairing.
  assert (crun run_labels run_start = Some run_end) as E by (vm_compute; reflexivity).
  exact (crun_steps _ _ _ E).
Qed.

Lemma kv_on_raft_linearizable_witness :
  run_end.2.(answered) <> [] /\
  (exists σ, op_linearization StoreModel run_operations σ) /\
  exists parts, kv_partition run_operations = Ret parts /\
    forall sort arrival, sorts_by_time sort -> arrival ≡ₚ seq 0 (length parts) ->
    exists fuel0, forall fuel, (fuel0 <= fuel)%nat ->
      CheckOperations KvModel VNil sort fuel arrival run_operations = Ret (Some true).
Proof.
  split; [vm_compute; discriminate|].
  apply (kv_on_raft_linearizable 2 (-1) [(7, [0%nat; 1%nat])] run_end.1 run_end.2 run_operations).
  - apply (bool_decide_unpack _). vm_compute. exact I.
  - exact run_reaches.
  - apply (bool_decide_unpack _). vm_compute. exact I.
  - replace (history run_end.2) with run_operations by (vm_compute; reflexivity). reflexivity.
Defined.

(** ** Clerks with the same id

    Two clerks that have drawn the same number: the first writes, then the second
    appends, with the request id the first has used, then the first reads. *)

Definition dup_clerks : list (Z * list nat) := [(7, [0%nat; 1%nat]); (7, [0%nat; 1%nat])].
Definition dup_start : Cluster Op * Sys := (Cluster.init 2, KvSystem.init 2 (-1) dup_clerks).

Definition dup_put : Request := ReqPutAppend "x" "a" "Put".
Definition dup_append : Request := ReqPutAppend "x" "b" "Append".

(** The request of clerk [j] reaches server 0, which is the leader, and enters the log
    at [index]. *)
Definition ask_labels (j g : nat) (r : Request) (c : Call) (index : Z) : list CLabel :=
  [LFront (SInvoke j r); LRaft (LStart 0 (Some (call_op c))); LStartAt 0 g c index; LFront (SHandler 0 (KRegister 0))].

Definition heartbeat_labels : list CLabel := LRaft <$> [LExpireHeartbeat 0; LRecvHeartbeat 0; LLoop 0].
Definition copy_labels : list CLabel := LRaft <$> [LGo 0 0; LDeliver 0; LDeliver 0; LGo 0 0].
Definition answer_labels (j k : nat) : list CLabel :=
  (LFront <$> [SHandler 0 KSend; SHandler 0 (KNotify 0); SHandler 0 (KDelete 0); SHandler 0 (KFinish 0); SReply j k]) ++
  (LRaft <$> [LGo 0 0; LGo 0 0]).

Definition dup_labels : list CLabel :=
  (LRaft <$> [LExpireElection 0; LRecvElection 0; LLoop 0; LGo 0 0; LDeliver 0; LDeliver 0]) ++
  ask_labels 0 1 dup_put (request_call (MakeClerk 2 7) dup_put) 1 ++ copy_labels ++ answer_labels 0 0 ++
  ask_labels 1 0 dup_append (request_call (MakeClerk 2 7) dup_append) 2 ++
  heartbeat_labels ++ copy_labels ++ answer_labels 1 1 ++
  ask_labels 0 0 (ReqGet "x") (request_call (set_lastRequestId 1 (MakeClerk 2 7)) (ReqGet "x")) 3 ++
  heartbeat_labels ++ copy_labels ++ answer_labels 0 2.

Definition dup_end : Cluster Op * Sys := default dup_start (crun dup_labels dup_start).

Definition dup_operations : list KvOperation :=
  [kv_op 1 "x" "a" 0 "" 1; kv_op 2 "x" "b" 2 "" 3; kv_op 0 "x" "" 4 "a" 5].

Lemma dup_operations_not_linearizable : ~ exists σ, op_linearization StoreModel dup_operations σ.
Proof.
  intros [σ [Hp Ho He]]. symmetry in Hp. apply permutations_Permutation in Hp.
  destruct (Ho 0%nat 1%nat _ _ eq_refl eq_refl eq_refl) as (a & b & Ea & Hina).
  destruct (Ho 1%nat 2%nat _ _ eq_refl eq_refl eq_refl) as (c & d & Ec & Hinc).
  vm_compute in Hp. repeat (apply elem_of_cons in Hp as [->|Hp]); try (by apply not_elem_of_nil in Hp);
    destruct a as [|? [|? [|? []]]]; simplify_eq/=; destruct c as [|? [|? [|? []]]]; simplify_eq/=;
    try (apply (bool_decide_pack _) in Hina; done); try (apply (bool_decide_pack _) in Hinc; done).
  repeat match goal with
  | H : op_explains _ _ _ (_ :: _) |- _ =>
      inversion H as [|? [|[|[|]]] ? ? ? Hk Hst]; clear H; simplify_eq/=; try lia
  end.
Qed.

(** Two clerks that have drawn the same id break the service: the servers take the
    [Append] of the second for a repetition of the [Put] of the first, answer it, and
    do not execute it.  The record is not linearizable. *)
Theorem equal_ids_lose_update :
  exists r f, creachable 2 (-1) dup_clerks (r, f) /\ idle f /\ history f = dup_operations /\
    ~ exists σ, op_linearization StoreModel (history f) σ.
Proof.
  exists dup_end.1, dup_end.2. rewrite <- surjective_pairing.
  assert (history dup_end.2 = dup_operations) as E by (vm_compute; reflexivity).
  split; [|split; [|split; [exact E|rewrite E; apply dup_operations_not_linearizable]]].
  - assert (crun dup_labels dup_start = Some dup_end) as Er by (vm_compute; reflexivity).
    exact (crun_steps _ _ _ Er).
  - apply (bool_decide_unpack _). vm_compute. exact I.
Qed.
