(* ===== verification/KvNet.v ===== *)
(** * KvNet: the key/value service over the simulated network

    The composition of KvRaft.v, where any reply that a server gave to a request can
    reach the clerk that waits for it, on the network of src/labrpc (LabRpc.v): the
    clerks call [Call] on their ends, the network runs the handlers of the servers
    that are registered at the time, a reply comes back unless it is lost or the
    server is dead by then.  The tests shut servers down and start them again as
    src/kvraft/config.go does: [DeleteServer] first, then the persister is copied,
    and later a new [labrpc.Server] is added under the old name, while handlers of
    the old one still run and return what they like.

    The theorem is that every run of this system is one of KvRaft.v: requests that
    reach a server were sent to it, and a [Call] returns true only with a reply of
    the server the clerk asked, of the incarnation that was registered.  The
    messages between Raft peers stay in Cluster.v. *)

From S2P Require Import Prelude Gob LabRpc LabRpcFacts LabRpcTheory ConfigBase Testbed.
From S2P Require Import Raft Cluster RaftTraces RaftCommit RaftMachine RaftLog.
From S2P Require Import TestbedTheory SvcConfig SvcTheory SvcSteps SvcMain.
From S2P Require Import KVServer KVTheory Clerk LinCheck LinOps LinKv LinStore KvSystem KvSystemInv KvLinear KvConfig KvRaft.
From stdpp Require Import strings functions.
Local Open Scope Z_scope.

(** ** Messages *)

(** The arguments and replies of the RPCs of [KVServer]. *)
Inductive Msg := MCall (c : Call) | MReply (r : Reply).

Definition method (c : Call) : string :=
  match c with CGet _ => "KVServer.Get" | CPutAppend _ => "KVServer.PutAppend" end.

(** The handler that [dispatch] finds, with its arguments. *)
Definition handler (service meth : string) (v : Msg) : option Call :=
  match v with
  | MCall (CGet args) =>
      if String.eqb service "KVServer" && String.eqb meth "Get" then Some (CGet args) else None
  | MCall (CPutAppend args) =>
      if String.eqb service "KVServer" && String.eqb meth "PutAppend" then Some (CPutAppend args) else None
  | MReply _ => None
  end.

(** What gob does to a variable of each of these types, field by field.  Between values
    of different types it decodes nothing; no call of the clerks does that. *)
Definition zero_msg (m : Msg) : Msg :=
  match m with
  | MCall (CGet _) => MCall (CGet {| ga_Key := ""; ga_ClientId := 0; ga_RequestId := 0 |})
  | MCall (CPutAppend _) =>
      MCall (CPutAppend {| pa_Key := ""; pa_Value := ""; pa_Op := ""; pa_ClientId := 0; pa_RequestId := 0 |})
  | MReply (RGet _) => MReply (RGet {| gr_WrongLeader := false; gr_Err := ""; gr_Value := "" |})
  | MReply (RPutAppend _) => MReply (RPutAppend {| par_WrongLeader := false; par_Err := "" |})
  end.

Definition msg_into (x v : Msg) : Msg :=
  match x, v with
  | MCall (CGet a), MCall (CGet b) =>
      MCall (CGet {| ga_Key := field_into "" a.(ga_Key) b.(ga_Key);
                     ga_ClientId := field_into 0 a.(ga_ClientId) b.(ga_ClientId);
                     ga_RequestId := field_into 0 a.(ga_RequestId) b.(ga_RequestId) |})
  | MCall (CPutAppend a), MCall (CPutAppend b) =>
      MCall (CPutAppend {| pa_Key := field_into "" a.(pa_Key) b.(pa_Key);
                           pa_Value := field_into "" a.(pa_Value) b.(pa_Value);
                           pa_Op := field_into "" a.(pa_Op) b.(pa_Op);
                           pa_ClientId := field_into 0 a.(pa_ClientId) b.(pa_ClientId);
                           pa_RequestId := field_into 0 a.(pa_RequestId) b.(pa_RequestId) |})
  | MReply (RGet a), MReply (RGet b) =>
      MReply (RGet {| gr_WrongLeader := field_into false a.(gr_WrongLeader) b.(gr_WrongLeader);
                      gr_Err := field_into "" a.(gr_Err) b.(gr_Err);
                      gr_Value := field_into "" a.(gr_Value) b.(gr_Value) |})
  | MReply (RPutAppend a), MReply (RPutAppend b) =>
      MReply (RPutAppend {| par_WrongLeader := field_into false a.(par_WrongLeader) b.(par_WrongLeader);
                            par_Err := field_into "" a.(par_Err) b.(par_Err) |})
  | _, _ => v
  end.

Lemma msg_into_zero v : msg_into (zero_msg v) v = v.
Proof. destruct v as [[[]|[]]|[[]|[]]]; cbn; by rewrite !field_into_default. Qed.

Global Instance msg_var : GobVar Msg :=
  {| zero_of := zero_msg; decode_into := msg_into; decode_into_zero := msg_into_zero |}.

(** [var reply GetReply] and [var reply PutAppendReply], in the loops of the clerk. *)
Definition fresh_reply (c : Call) : Msg :=
  match c with
  | CGet _ => MReply (RGet {| gr_WrongLeader := false; gr_Err := ""; gr_Value := "" |})
  | CPutAppend _ => MReply (RPutAppend {| par_WrongLeader := false; par_Err := "" |})
  end.

(** The reply comes as the handler gave it. *)
Lemma fresh_reply_into c reply : decode_into (fresh_reply c) (MReply reply) = MReply reply.
Proof. destruct c, reply as [[]|[]]; cbn; by rewrite ?field_into_default. Qed.

(** What [Call] returned: false, or true and a reply. *)
Definition heard (o : option Msg) : option (option Reply) :=
  match o with
  | None => Some None
  | Some (MReply r) => Some (Some r)
  | Some (MCall _) => None
  end.

Definition server_name (s : nat) : Name := NInt (Z.of_nat s).

(** The network, the servers on Raft with their clerks, the [labrpc.Server] of each
    server that is up, and the last call of each clerk. *)
Record Net := mkNet {
  rpc : Rpc Msg;
  core : Cluster Op * Sys;
  live : nat -> option nat;
  cur : list nat;
}.

Section net.
Context `{!Gob (PVal Op)} `{!Rand} `{!Gob Msg}.
(** The ends of each clerk, in the order of its handles. *)
Context (hands : list (list Name)).
Implicit Types (w : Rpc Msg) (f : Sys) (lv : nat -> option nat) (x : Net).

(** ** Steps *)

(** The servers of the network and the ends of the clerks stay; a server may be
    deleted. *)
Definition keeps (lbl : LabRpc.Label Msg) : bool :=
  match lbl with
  | LAdmin (AAddServer _ _ | AMakeServer _) => false
  | LAdmin (AConnect e _) => bool_decide (e ∉ mjoin hands)
  | _ => true
  end.

(** The goroutines of the network, and what a test may do to it while clerks run:
    change its flags, enable and disable ends, delete servers, make and connect ends
    of servers, close it. *)
Definition own (lbl : LabRpc.Label Msg) : bool :=
  keeps lbl && match lbl with LCall _ _ _ _ | LDispatch _ | LReturn _ _ => false | _ => true end.

Definition net_step (lbl : LabRpc.Label Msg) w : option (Rpc Msg) :=
  match LabRpc.step lbl w with Some (Ret w') => Some w' | _ => None end.

(** Clerk [j] is in the loop of a method: it calls [Call] on the end of its leader. *)
Definition next_call (j : nat) f w (cu : list nat) : option (Rpc Msg * list nat) :=
  cs ← f.(cks) !! j;
  match cs.(busy) with
  | None => Some (w, cu)
  | Some b =>
      es ← hands !! j;
      e ← es !! cs.(ck).(leaderId);
      w' ← net_step (LCall e (method b.1) (MCall b.1) (fresh_reply b.1)) w;
      Some (w', <[j := length w.(calls)]> cu)
  end.

(** The goroutine of call [k] enters the handler for [c] at the [labrpc.Server] [p]. *)
Definition enters (k p : nat) (c : Call) w w' : Prop :=
  net_step (LDispatch k) w = Some w' /\
  exists cl service meth v, w'.(calls) !! k = Some cl /\ cl.(disp) = Some (DRun p service meth v) /\
    handler service meth v = Some c.

(** ... and is in it. *)
Definition inside (k p : nat) (c : Call) w : Prop :=
  exists cl service meth v, w.(calls) !! k = Some cl /\ cl.(disp) = Some (DRun p service meth v) /\
    handler service meth v = Some c.

(** No server that is up has the [labrpc.Server] [p]. *)
Definition old lv (p : nat) : Prop := forall s, lv s <> Some p.

(** [kv.Get] and [kv.PutAppend] return in a step of their own. *)
Definition returning (lbl : KLabel) : bool := match lbl with KFinish _ => true | _ => false end.

Inductive nstep : Net -> Net -> Prop :=
| N_net w w' c lv cu lbl :
    own lbl = true -> net_step lbl w = Some w' -> nstep (mkNet w c lv cu) (mkNet w' c lv cu)
(** A test calls a method of clerk [j]. *)
| N_invoke w w' r f f' lv cu cu' j q :
    sstep (SInvoke j q) f = Some f' -> next_call j f' w cu = Some (w', cu') ->
    nstep (mkNet w (r, f) lv cu) (mkNet w' (r, f') lv cu')
(** [Call] returns to clerk [j], which tries the next server or returns. *)
| N_clerk w w' r f f' lv cu cu' j k cl o reply :
    cu !! j = Some k -> w.(calls) !! k = Some cl -> cl.(phase) = PRet o -> heard o = Some reply ->
    clerk_returns j reply f = Some f' -> next_call j f' w cu = Some (w', cu') ->
    nstep (mkNet w (r, f) lv cu) (mkNet w' (r, f') lv cu')
(** A request arrives at server [s], which is not the leader. *)
| N_refuse w w' r f f' lv cu k p s c index :
    enters k p c w w' -> lv s = Some p -> arrives s c index false f = Some f' ->
    nstep (mkNet w (r, f) lv cu) (mkNet w' (r, f') lv cu)
(** A request arrives at server [s], and [rf.Start] appends its operation. *)
| N_start w w' r r' f f' lv cu k p s g c index :
    enters k p c w w' -> lv s = Some p ->
    timely (LGo s g) r -> prudent (LGo s g) r -> step (LGo s g) r = Some (Ret r') ->
    obs (LGo s g) r = [OStart (Some (call_op c))] -> arrives s c index true f = Some f' ->
    nstep (mkNet w (r, f) lv cu) (mkNet w' (r', f') lv cu)
(** A handler of server [s] returns. *)
| N_return w w' r f f' lv cu k p s c h reply :
    inside k p c w -> lv s = Some p -> sstep (SHandler s (KFinish h)) f = Some f' ->
    f'.(answered) = f.(answered) ++ [(s, (c, reply))] -> net_step (LReturn k (MReply reply)) w = Some w' ->
    nstep (mkNet w (r, f) lv cu) (mkNet w' (r, f') lv cu)
(** A handler of a server that was shut down starts or returns. *)
| N_enter_old w w' c lv cu k p q :
    enters k p q w w' -> old lv p -> nstep (mkNet w c lv cu) (mkNet w' c lv cu)
| N_return_old w w' c lv cu k p q v :
    inside k p q w -> old lv p -> net_step (LReturn k v) w = Some w' ->
    nstep (mkNet w c lv cu) (mkNet w' c lv cu)
(** The other steps of handlers and of the apply goroutine. *)
| N_handler w r f f' lv cu s lbl :
    returning lbl = false -> sstep (SHandler s lbl) f = Some f' ->
    nstep (mkNet w (r, f) lv cu) (mkNet w (r, f') lv cu)
(** Raft, and a message on applyCh. *)
| N_raft w r r' f lv cu :
    raft_step r [] r' -> nstep (mkNet w (r, f) lv cu) (mkNet w (r', f) lv cu)
| N_deliver w r r' f f' lv cu s m :
    raft_step r [ODeliver s m] r' ->
    server_step s (KApply m) (max (Z.to_nat m.(CommandIndex))) f = Some f' ->
    nstep (mkNet w (r, f) lv cu) (mkNet w (r', f') lv cu)
(** [ShutdownServer], after [DeleteServer]: from here on the server is what the saved
    state makes of it. *)
| N_shutdown w r r' f f' lv cu s :
    server_at w.(rn) (server_name s) = None ->
    raft_step r [ORestart s] r' -> sstep (SRestart s) f = Some f' ->
    nstep (mkNet w (r, f) lv cu) (mkNet w (r', f') (<[s := None]> lv) cu)
(** [StartServer]: a new [labrpc.Server] under the name of the server. *)
| N_up w w1 w2 c lv cu s svcs :
    lv s = None ->
    net_step (LAdmin (AMakeServer svcs)) w = Some w1 ->
    net_step (LAdmin (AAddServer (server_name s) (length w.(rn).(srv_heap)))) w1 = Some w2 ->
    nstep (mkNet w c lv cu) (mkNet w2 c (<[s := Some (length w.(rn).(srv_heap))]> lv) cu).

Implicit Types (r : Network) (s p k : nat).

(** ** What is known of a call *)

(** [p] was given to server [s] alone. *)
Definition mine (r : Network) lv (s p : nat) : Prop :=
  (p < length r.(srv_heap))%nat /\ forall s', lv s' = Some p -> s' = s.

Definition gone (r : Network) lv (p : nat) : Prop := (p < length r.(srv_heap))%nat /\ old lv p.

(** Server [s] has answered [c] with [v]. *)
Definition given f (s : nat) (c : Call) (v : Msg) : Prop :=
  exists reply, v = MReply reply /\ (s, (c, reply)) ∈ f.(answered).

(** What a handler at [p] returned. *)
Definition replied (r : Network) lv f (s : nat) (c : Call) (p : nat) (rep : replyMsg) : Prop :=
  exists v, rep = answer v /\ (given f s c v \/ gone r lv p).

(** Call [c] to server [s], by the position of the caller and of the handler. *)
Definition phase_at (r : Network) lv f (s : nat) (c : Call) (ph : Phase Msg) : Prop :=
  match ph with
  | PUp nm p _ _ _ | PWait nm p _ _ => nm = server_name s /\ mine r lv s p
  | PGot nm p _ _ rep => nm = server_name s /\ replied r lv f s c p rep
  | PFinal rep _ => rep.(ok) = true -> exists v, rep = answer v /\ given f s c v
  | PRet (Some v) => given f s c v
  | _ => True
  end.

Definition waits_for (p : nat) (ph : Phase Msg) : Prop :=
  match ph with PWait _ q _ _ => q = p | _ => True end.

Definition disp_at (r : Network) lv f (s : nat) (c : Call) (ph : Phase Msg) (d : option (Disp Msg)) : Prop :=
  match d with
  | Some (DStart p) => mine r lv s p /\ waits_for p ph
  | Some (DRun p _ _ v) => mine r lv s p /\ waits_for p ph /\ v = MCall c
  | Some (DSend rep) => match ph with PWait _ p _ _ => replied r lv f s c p rep | _ => True end
  | _ => True
  end.

Record call_to (r : Network) lv f (cl : CallState Msg) (s : nat) (c : Call) : Prop := {
  ct_sent : cl.(LabRpc.sent) = MCall c;
  ct_args : cl.(req).(args) = encode_all [MCall c];
  ct_var : cl.(rvar) = fresh_reply c;
  ct_end : cl.(req).(endname) ∈ mjoin hands;
  ct_conn : connection r cl.(req).(endname) = Some (server_name s);
  ct_asked : (s, c) ∈ f.(KvSystem.sent);
  ct_phase : phase_at r lv f s c cl.(phase);
  ct_disp : disp_at r lv f s c cl.(phase) cl.(disp);
}.

(** The tables of the network. *)
Record tables (r : Network) lv : Prop := {
  tb_ends : forall e, e ∈ mjoin hands -> e ∈ r.(ends);
  tb_server : forall s p, server_at r (server_name s) = Some p -> lv s = Some p;
  tb_live : forall s p, lv s = Some p -> mine r lv s p;
}.

(** The handles of a clerk lead to its servers. *)
Definition wired (r : Network) (cs : list ClerkState) : Prop :=
  forall j es i e, hands !! j = Some es -> es !! i = Some e -> exists c s,
    cs !! j = Some c /\ c.(handles) !! i = Some s /\ connection r e = Some (server_name s).

(** A clerk in a method waits for a call of its request to its server. *)
Definition clerks_wait w f (cu : list nat) : Prop :=
  forall j cs b, f.(cks) !! j = Some cs -> cs.(busy) = Some b -> exists k cl,
    cu !! j = Some k /\ w.(calls) !! k = Some cl /\ cl.(LabRpc.sent) = MCall b.1 /\
    connection w.(rn) cl.(req).(endname) = Some (server_name (target cs.(handles) cs.(ck))).

Record net_inv x : Prop := {
  nv_tables : tables x.(rpc).(rn) x.(live);
  nv_wired : wired x.(rpc).(rn) x.(core).2.(cks);
  nv_calls : forall k cl, x.(rpc).(calls) !! k = Some cl ->
    exists s c, call_to x.(rpc).(rn) x.(live) x.(core).2 cl s c;
  nv_clerks : clerks_wait x.(rpc) x.(core).2 x.(cur);
  nv_cur : length x.(cur) = length x.(core).2.(cks);
}.

(** ** Time passes *)

(** Later ends of clerks are connected as before, servers are allocated, no old one
    is used again, requests and replies are added. *)
Record later (r : Network) lv f (r' : Network) lv' f' : Prop := {
  lt_conn : forall e, e ∈ mjoin hands -> connection r' e = connection r e;
  lt_heap : (length r.(srv_heap) <= length r'.(srv_heap))%nat;
  lt_live : forall s p, (p < length r.(srv_heap))%nat -> lv' s = Some p -> lv s = Some p;
  lt_sent : f.(KvSystem.sent) ⊆ f'.(KvSystem.sent);
  lt_answered : f.(answered) ⊆ f'.(answered);
}.

Section later.
Context (r : Network) lv f (r' : Network) lv' f' (Hl : later r lv f r' lv' f').

Lemma mine_later s p : mine r lv s p -> mine r' lv' s p.
Proof. destruct Hl. intros [Hp Hs]. split; [lia|]. eauto. Qed.

Lemma gone_later p : gone r lv p -> gone r' lv' p.
Proof. destruct Hl. intros [Hp Hs]. split; [lia|]. intros s Hx. eapply Hs; eauto. Qed.

Lemma given_later s c v : given f s c v -> given f' s c v.
Proof. destruct Hl. intros (reply & -> & ?). exists reply. eauto. Qed.

Lemma replied_later s c p rep : replied r lv f s c p rep -> replied r' lv' f' s c p rep.
Proof. intros (v & -> & [?|?]); exists v; eauto using given_later, gone_later. Qed.

Lemma call_to_later cl s c : call_to r lv f cl s c -> call_to r' lv' f' cl s c.
Proof.
  intros [Hs Ha Hv He Hc Hq Hp Hd]. split; try done.
  - by rewrite (lt_conn _ _ _ _ _ _ Hl).
  - by apply (lt_sent _ _ _ _ _ _ Hl).
  - destruct (phase cl) as [| | | | | | |rep ms|[v|]]; cbn in *; try done;
      naive_solver eauto using mine_later, replied_later, given_later.
  - destruct (disp cl) as [[p|p sv m v|rep|]|]; cbn in *; try done; [naive_solver eauto using mine_later..|].
    destruct (phase cl); eauto using replied_later.
Qed.
End later.

(** ** Steps of a call *)

Lemma read_at r lv f s c (q : reqMsg) z :
  tables r lv -> connection r q.(endname) = Some (server_name s) -> phase_at r lv f s c (ProcessReq r q z).
Proof.
  intros Ht Hc. unfold ProcessReq, ReadEndnameInfo. cbn. rewrite Hc. cbn.
  destruct (is_enabled r (endname q)); [|done]. destruct (server_at r (server_name s)) as [p|] eqn:Es; [|done].
  split; [done|]. by apply (tb_live _ _ Ht), (tb_server _ _ Ht).
Qed.

(** A reply is kept only if its server is up. *)
Lemma finish_at r lv f s c e p rel lr rep d0 d1 d2 :
  tables r lv -> replied r lv f s c p rep ->
  phase_at r lv f s c (LabRpc.finish r e (server_name s) p rel lr (Some rep) d0 d1 d2).
Proof.
  intros Ht (v & -> & Hv). unfold LabRpc.finish. destruct (IsServerDead _ _ _ _) eqn:Ed; [done|].
  assert (given f s c v) as Hg.
  { destruct Hv as [?|[_ Hold]]; [done|]. unfold IsServerDead in Ed.
    apply orb_false_iff in Ed as [_ Es%negb_false_iff%bool_decide_eq_true].
    by edestruct Hold; eapply (tb_server _ _ Ht). }
  repeat case_match; cbn; try done; intros _; by exists v.
Qed.

Lemma disp_phase r lv f s c ph ph' d :
  (forall nm p rel lr, ph' <> PWait nm p rel lr) -> disp_at r lv f s c ph d -> disp_at r lv f s c ph' d.
Proof.
  intros Hph Hd. assert (forall p, waits_for p ph') as Hw by (intros p; destruct ph'; try done; by edestruct Hph).
  destruct d as [[p|p sv m v|rep|]|]; cbn in *; naive_solver || (destruct ph'; try done; by edestruct Hph).
Qed.

Lemma call_to_cstep r lv f k cl cl' es s c :
  tables r lv -> call_to r lv f cl s c -> LabRpcFacts.cstep r k cl cl' es ->
  (forall v p sv m a, es = [EReturn k v] -> cl.(disp) = Some (DRun p sv m a) -> given f s c v \/ gone r lv p) ->
  call_to r lv f cl' s c.
Proof.
  intros Ht [Hs Ha Hrv He Hc Hq Hp Hd] Hst Hret. destruct Hst; (split; [done..| |]); cbn [phase disp at_phase at_disp];
    repeat match goal with H : phase cl = _ |- _ => rewrite H in * | H : disp cl = _ |- _ => rewrite H in * end;
    try done; try (eapply disp_phase; [|exact Hd]; done).
  - by apply read_at.
  - eapply disp_phase; [|exact Hd]. intros. unfold ProcessReq. repeat case_match; done.
  - destruct Hp. by split.
  - cbn in *. rewrite decode_args_sent by (by rewrite Ha, Hs). by destruct Hd.
  - cbn in Hd. destruct Hd as (Hm & Hw & ->). destruct (phase cl) as [| | | |nm q rel lr| | | |] eqn:Eph; try done. cbn in *. subst q.
    exists v. split; [done|]. by eapply Hret.
  - cbn in *. by destruct Hp.
  - destruct Hp as [-> Hp]. by apply finish_at.
  - eapply disp_phase; [|exact Hd]. intros. unfold LabRpc.finish. repeat case_match; done.
  - cbn in Hp. destruct Hp as (v' & -> & Hg); [done|]. destruct (decode_encode_one v') as [d' Hd'].
    cbn -[decode_into] in *. simplify_eq. destruct Hg as (reply & -> & Hg). exists reply.
    by rewrite Hrv, fresh_reply_into.
Qed.

(** ** Steps of the network *)

Lemma net_step_eq lbl w w' : net_step lbl w = Some w' -> LabRpc.step lbl w = Some (Ret w').
Proof. unfold net_step. destruct (LabRpc.step lbl w) as [[w1|]|]; [|done..]. by intros [= ->]. Qed.

(** What every step but [AddServer] and [MakeServer] leaves as it is. *)
Lemma step_frame lbl w w' :
  LabRpc.step lbl w = Some (Ret w') ->
  keeps lbl = true ->
  length w'.(rn).(srv_heap) = length w.(rn).(srv_heap) /\
  (forall nm p, server_at w'.(rn) nm = Some p -> server_at w.(rn) nm = Some p) /\
  w.(rn).(ends) ⊆ w'.(rn).(ends) /\
  forall e, e ∈ mjoin hands -> e ∈ w.(rn).(ends) -> connection w'.(rn) e = connection w.(rn) e.
Proof.
  destruct lbl as [a| | | | | | | | | | | | | |]; intros Hst Hb; step_cases Hst; cbn; try done;
    try (rewrite ?length_insert; done).
  destruct a; cbn in *; unfold MakeEnd, Cleanup in *; repeat case_match; simplify_eq; cbn; try done.
  - split; [done|]. split; [done|]. split; [set_solver|]. intros e' _ He'.
    match goal with Hx : bool_decide (_ ∈ _) = false |- _ => apply bool_decide_eq_false in Hx end. unfold connection. cbn. rewrite lookup_insert_ne; [done|by intros ->].
  - split; [done|]. split; [|done]. intros nm p. unfold server_at. cbn. rewrite lookup_insert. by case_decide.
  - apply bool_decide_eq_true in Hb. split; [done|]. split; [done|]. split; [done|]. intros e' He' _.
    unfold connection. cbn. rewrite lookup_insert_ne; [done|by intros ->].
Qed.

(** Handlers return in their own step. *)
Lemma step_returns lbl w w' :
  LabRpc.step lbl w = Some (Ret w') -> exists es, w'.(trace) = w.(trace) ++ es /\
    forall k v, es = [EReturn k v] -> lbl = LReturn k v.
Proof.
  destruct lbl; intros Hst; step_cases Hst; cbn; subst;
    first [by exists []; rewrite app_nil_r | eexists; split; [done|by intros * [= <- <-]] | eexists; split; [done|done]].
Qed.

Lemma step_length lbl w w' :
  LabRpc.step lbl w = Some (Ret w') -> match lbl with LCall _ _ _ _ => False | _ => True end ->
  length w'.(calls) = length w.(calls).
Proof. destruct lbl; intros Hst Hn; step_cases Hst; cbn; rewrite ?length_insert; done. Qed.

Lemma step_calls lbl w w' :
  LabRpc.step lbl w = Some (Ret w') -> match lbl with LCall _ _ _ _ => False | _ => True end ->
  w'.(calls) = w.(calls) \/ exists k cl cl' es, w.(calls) !! k = Some cl /\ LabRpcFacts.cstep w.(rn) k cl cl' es /\
    w'.(calls) = <[k := cl']> w.(calls) /\ forall k' v, es = [EReturn k' v] -> lbl = LReturn k' v.
Proof.
  intros Hst Hn. destruct (step_change _ _ _ Hst) as [Hc _|e m v rv Hc _ _|k cl cl' es Hk Hcs Hc Htr].
  - by left.
  - apply step_length in Hst; [|done]. rewrite Hc, length_app in Hst. cbn in Hst. lia.
  - right. exists k, cl, cl', es. repeat split; try done. destruct (step_returns _ _ _ Hst) as (es' & Htr' & Hret).
    rewrite Htr in Htr'. by apply app_inv_head in Htr' as ->.
Qed.

Lemma hand_elem j es i e : hands !! j = Some es -> es !! i = Some e -> e ∈ mjoin hands.
Proof. intros Hj Hi. apply list_elem_of_join. exists es. split; by eapply list_elem_of_lookup_2. Qed.

(** A step of the network beside a step of the servers. *)
Lemma inv_step lbl w w' lv co (r' : Cluster Op) f' cu :
  net_inv (mkNet w co lv cu) -> LabRpc.step lbl w = Some (Ret w') -> keeps lbl = true ->
  match lbl with LCall _ _ _ _ => False | _ => True end ->
  f'.(cks) = co.2.(cks) -> co.2.(KvSystem.sent) ⊆ f'.(KvSystem.sent) -> co.2.(answered) ⊆ f'.(answered) ->
  (forall k cl v s c p sv m a, lbl = LReturn k v -> w.(calls) !! k = Some cl -> call_to w.(rn) lv co.2 cl s c ->
    cl.(disp) = Some (DRun p sv m a) -> given f' s c v \/ gone w.(rn) lv p) ->
  net_inv (mkNet w' (r', f') lv cu).
Proof.
  intros [Ht Hw Hc Hk Hlen] Hst Hkeep Hn Ecks Hsent Hans Hret. cbn in *.
  destruct (step_frame _ _ _ Hst Hkeep) as (Eh & Hsv & Hends & Hconn).
  assert (forall e, e ∈ mjoin hands -> connection w'.(rn) e = connection w.(rn) e) as Hconn'.
  { intros e He. apply Hconn; [done|]. by apply (tb_ends _ _ Ht). }
  assert (later w.(rn) lv f' w'.(rn) lv f') as Hlater by (split; [done|lia|done..]).
  assert (later w.(rn) lv co.2 w.(rn) lv f') as Hlater0 by (by split).
  split; cbn.
  - split.
    + intros e He. apply Hends. by apply (tb_ends _ _ Ht).
    + intros nm p Hp. by apply (tb_server _ _ Ht), Hsv.
    + intros s p Hp. eapply mine_later; [exact Hlater|]. by apply (tb_live _ _ Ht).
  - intros j es i e Hj He. rewrite Ecks, Hconn' by (by eapply hand_elem). by eapply Hw.
  - intros k cl' Hcl. destruct (step_calls _ _ _ Hst Hn) as [E|(k0 & cl & cl1 & es & Hk0 & Hcs & E & Hes)]; rewrite E in Hcl.
    + destruct (Hc _ _ Hcl) as (s & c & Hto). exists s, c.
      eapply call_to_later; [exact Hlater|]. by eapply call_to_later.
    + apply list_lookup_insert_Some in Hcl as [(<- & <- & _)|[_ Hcl]].
      * destruct (Hc _ _ Hk0) as (s & c & Hto). exists s, c. eapply call_to_later; [exact Hlater|].
        eapply call_to_cstep; [done|by eapply call_to_later|done|]. intros v p sv m a Ees Hd.
        eapply Hret; [by apply Hes|done..].
      * destruct (Hc _ _ Hcl) as (s & c & Hto). exists s, c.
        eapply call_to_later; [exact Hlater|]. by eapply call_to_later.
  - intros j cs b Hj Hb. rewrite Ecks in Hj. destruct (Hk j cs b Hj Hb) as (k & cl & Hcu & Hcl & Hs & Hcn).
    destruct (change_call _ _ _ _ (step_change _ _ _ Hst) Hcl) as (cl' & Hcl' & Ereq & Es & _ & _).
    exists k, cl'. rewrite Ereq, Es, Hconn'; [done|]. destruct (Hc _ _ Hcl) as (s & c & Hto). by apply Hto.
  - by rewrite Ecks.
Qed.

(** A step that is none of a call. *)
Lemma inv_later w w' lv lv' co (r' : Cluster Op) f' cu :
  net_inv (mkNet w co lv cu) -> w'.(calls) = w.(calls) -> later w.(rn) lv co.2 w'.(rn) lv' f' ->
  tables w'.(rn) lv' -> f'.(cks) = co.2.(cks) -> net_inv (mkNet w' (r', f') lv' cu).
Proof.
  intros [Ht Hw Hc Hk Hlen] Ecalls Hlater Ht' Ecks. cbn in *. pose proof (lt_conn _ _ _ _ _ _ Hlater) as Hconn. split; cbn.
  - done.
  - intros j es i e Hj He. rewrite Ecks, Hconn by (by eapply hand_elem). by eapply Hw.
  - rewrite Ecalls. intros k cl Hcl. destruct (Hc _ _ Hcl) as (s & c & Hto). exists s, c. by eapply call_to_later.
  - intros j cs b Hj Hb. rewrite Ecks in Hj. destruct (Hk j cs b Hj Hb) as (k & cl & Hcu & Hcl & Hs & Hcn).
    exists k, cl. rewrite Ecalls. repeat split; try done. rewrite Hconn; [done|].
    destruct (Hc _ _ Hcl) as (s & c & Hto). by apply Hto.
  - by rewrite Ecks.
Qed.

(** ** Steps of a clerk *)

(** Clerk [j] goes on: with a request to its server, or out of the method. *)
Definition goes_on (j : nat) f f' : Prop :=
  f'.(answered) = f.(answered) /\ exists cs cs', f.(cks) !! j = Some cs /\ f'.(cks) = <[j := cs']> f.(cks) /\
    cs'.(handles) = cs.(handles) /\
    f'.(KvSystem.sent) = f.(KvSystem.sent) ++
      match cs'.(busy) with Some b => [(target cs'.(handles) cs'.(ck), b.1)] | None => [] end.

Lemma invoke_goes_on j q f f' : sstep (SInvoke j q) f = Some f' -> goes_on j f f'.
Proof.
  cbn. destruct (cks f !! j) as [cs|] eqn:Hj; [|done]. cbn. destruct (busy cs); [done|]. destruct (proper q); [|done].
  intros [= <-]. split; [done|]. by exists cs, (mkCk cs.(ck) cs.(handles) (Some (request_call cs.(ck) q, length f.(recs)))).
Qed.

Lemma try_next_goes_on j cs c i f : f.(cks) !! j = Some cs -> goes_on j f (try_next j cs c i f).
Proof. intros Hj. split; [done|]. by exists cs, (mkCk (next_server cs.(ck)) cs.(handles) (Some (c, i))). Qed.

Lemma returns_goes_on j o f f' : clerk_returns j o f = Some f' -> goes_on j f f'.
Proof.
  unfold clerk_returns. destruct (cks f !! j) as [cs|] eqn:Hj; [|done]. cbn. destruct (busy cs) as [b|]; [|done]. cbn.
  destruct o as [reply|]; [|intros [= <-]; by apply try_next_goes_on].
  destruct (reply_wrong reply); [intros [= <-]; by apply try_next_goes_on|].
  destruct (recs f !! b.2); [|done]. intros [= <-]. split; [done|].
  exists cs, (mkCk (set_lastRequestId (cs.(ck).(lastRequestId) + 1) cs.(ck)) cs.(handles) None).
  cbn. by rewrite app_nil_r.
Qed.

Lemma wired_insert r cs j c c' :
  wired r cs -> cs !! j = Some c -> c'.(handles) = c.(handles) -> wired r (<[j := c']> cs).
Proof.
  intros Hw Hj Eh j' es i e Hes He. destruct (Hw j' es i e Hes He) as (c0 & s & Hc0 & Hs & Hcn).
  destruct (decide (j' = j)) as [->|Hne].
  - exists c', s. rewrite list_lookup_insert_eq by (by eapply lookup_lt_Some). rewrite Eh. by simplify_eq.
  - exists c0, s. by rewrite list_lookup_insert_ne.
Qed.

Lemma clerks_wait_new w f f' cu j cs' b e :
  clerks_wait w f cu -> length cu = length f.(cks) -> (j < length f.(cks))%nat -> f'.(cks) = <[j := cs']> f.(cks) ->
  cs'.(busy) = Some b -> connection w.(rn) e = Some (server_name (target cs'.(handles) cs'.(ck))) ->
  clerks_wait (mkRpc w.(rn) (w.(calls) ++ [LabRpc.Call e (method b.1) (MCall b.1) (fresh_reply b.1)]) w.(trace)) f'
    (<[j := length w.(calls)]> cu).
Proof.
  intros Hk Hlen Hj Ecks Hb Hcn i cs0 b0 Hi Hb0. rewrite Ecks in Hi.
  apply list_lookup_insert_Some in Hi as [(<- & <- & _)|[Hne Hi]].
  - exists (length w.(calls)), (LabRpc.Call e (method b.1) (MCall b.1) (fresh_reply b.1)).
    rewrite list_lookup_insert_eq by (by rewrite Hlen). cbn. rewrite lookup_app_r, Nat.sub_diag by done.
    simplify_eq. by rewrite Hcn.
  - destruct (Hk i cs0 b0 Hi Hb0) as (k & cl & Hcu & Hcl & Hrest). exists k, cl.
    rewrite list_lookup_insert_ne by done. split; [done|]. split; [|done]. cbn. by apply lookup_app_l_Some.
Qed.

Lemma inv_clerk w w' lv (r : Cluster Op) f f' cu cu' j :
  net_inv (mkNet w (r, f) lv cu) -> goes_on j f f' -> next_call j f' w cu = Some (w', cu') ->
  net_inv (mkNet w' (r, f') lv cu').
Proof.
  intros [Ht Hw Hc Hk Hlen] (Eans & cs & cs' & Hj & Ecks & Eh & Esent) Hnext. cbn in *.
  assert (j < length f.(cks))%nat as Hjl by (by eapply lookup_lt_Some).
  assert (later w.(rn) lv f w.(rn) lv f') as Hlater.
  { split; [done..| |by rewrite Eans]. rewrite Esent. apply list_subseteq_app_l. done. }
  assert (forall k cl, w.(calls) !! k = Some cl -> exists s c, call_to w.(rn) lv f' cl s c) as Hc'.
  { intros k cl Hcl. destruct (Hc _ _ Hcl) as (s' & c & Hto). exists s', c. by eapply call_to_later. }
  assert (wired w.(rn) f'.(cks)) as Hw' by (rewrite Ecks; by eapply wired_insert).
  unfold next_call in Hnext. rewrite Ecks, list_lookup_insert_eq in Hnext by done. cbn in Hnext.
  destruct (busy cs') as [b|] eqn:Hb.
  - destruct (hands !! j) as [es|] eqn:Hes; [|done]. cbn in Hnext.
    destruct (es !! leaderId (ck cs')) as [e|] eqn:He; [|done]. cbn in Hnext.
    destruct (net_step _ w) as [w1|] eqn:Hst; [|done]. cbn in Hnext. injection Hnext as <- <-.
    apply net_step_eq in Hst. cbn in Hst. case_bool_decide as Hend; [|done]. injection Hst as <-.
    destruct (Hw' j es _ e Hes He) as (cs1 & s & Hcs1 & Hs & Hcn).
    rewrite Ecks, list_lookup_insert_eq in Hcs1 by done. injection Hcs1 as <-.
    assert (target cs'.(handles) cs'.(ck) = s) as Et by (by apply list_lookup_total_correct).
    split; cbn; [done|done|..|by rewrite Ecks, !length_insert].
    + intros k cl [[_ Hcl]|[_ <-]]%lookup_snoc_Some; [by eapply Hc'|].
      exists s, b.1. split; try done; [by eapply hand_elem|]. rewrite Esent, Et. apply elem_of_app. right. by left.
    + eapply clerks_wait_new; [done..|]. by rewrite Et.
  - injection Hnext as <- <-. split; cbn; [done|done|done| |by rewrite Ecks, length_insert].
    intros i cs0 b0 Hi Hb0. rewrite Ecks in Hi.
    apply list_lookup_insert_Some in Hi as [(<- & <- & _)|[Hne Hi]]; [congruence|]. by eapply Hk.
Qed.

(** ** Steps of a server *)

Definition same_clerks f f' : Prop :=
  f'.(cks) = f.(cks) /\ f'.(KvSystem.sent) = f.(KvSystem.sent) /\ f.(answered) ⊆ f'.(answered).

Lemma server_same_clerks s lbl h f f' : server_step s lbl h f = Some f' -> same_clerks f f'.
Proof.
  unfold server_step. destruct (KvSystem.nodes f !! s) as [nd|]; [|done]. cbn.
  destruct (kstep lbl nd.(kv)) as [[kv'|]|]; [|done..]. intros [= <-]. split; [done|]. split; [done|].
  cbn. by apply list_subseteq_app_l.
Qed.

Lemma arrives_same_clerks s c index isL f f' : arrives s c index isL f = Some f' -> same_clerks f f'.
Proof.
  unfold arrives. destruct (server_step s _ id f) as [f1|] eqn:E; [|done]. cbn. intros [= <-].
  apply server_same_clerks in E. by destruct isL.
Qed.

Lemma handler_same_clerks s lbl f f' : sstep (SHandler s lbl) f = Some f' -> same_clerks f f'.
Proof. cbn. destruct (internal lbl); [|done]. apply server_same_clerks. Qed.

Lemma restart_same_clerks s f f' : sstep (SRestart s) f = Some f' -> same_clerks f f'.
Proof. cbn. destruct (KvSystem.nodes f !! s); [|done]. by intros [= <-]. Qed.

Lemma handler_call sv m c c' : handler sv m (MCall c) = Some c' -> c' = c.
Proof. destruct c; cbn; case_match; by intros [= <-]. Qed.

(** The handlers that run at a server run requests that were sent to it. *)
Lemma inside_call r lv f p c cl sv m v s c' :
  cl.(disp) = Some (DRun p sv m v) -> handler sv m v = Some c -> call_to r lv f cl s c' -> c' = c /\ mine r lv s p.
Proof.
  intros Hd Hh Hto. pose proof (ct_disp _ _ _ _ _ _ Hto) as Hx. rewrite Hd in Hx. destruct Hx as (Hm & _ & ->).
  by apply handler_call in Hh as ->.
Qed.

Lemma inside_asked w co lv cu k p c s :
  net_inv (mkNet w co lv cu) -> inside k p c w -> lv s = Some p -> (s, c) ∈ co.2.(KvSystem.sent).
Proof.
  intros Hi (cl & sv & m & v & Hk & Hd & Hh) Hs. destruct (nv_calls _ Hi _ _ Hk) as (s' & c' & Hto). cbn in Hto.
  destruct (inside_call _ _ _ _ _ _ _ _ _ _ _ Hd Hh Hto) as [-> [_ Hm]].
  rewrite (Hm s Hs). apply Hto.
Qed.

(** A handler starts beside a step of the servers. *)
Lemma inv_enters w w' co lv cu k p c :
  net_inv (mkNet w co lv cu) -> enters k p c w w' -> net_inv (mkNet w' co lv cu) /\ inside k p c w'.
Proof.
  intros Hi [Hst%net_step_eq Hin]. split; [|exact Hin]. destruct co as [r f].
  by apply (inv_step (LDispatch k) w w' lv (r, f) r f cu).
Qed.

Lemma inv_server w lv (r r' : Cluster Op) f f' cu :
  net_inv (mkNet w (r, f) lv cu) -> same_clerks f f' -> net_inv (mkNet w (r', f') lv cu).
Proof.
  intros Hi (E1 & E2 & E3). apply (inv_later w w lv lv (r, f)); try done; [|by apply (nv_tables _ Hi)].
  split; try done. cbn. by rewrite E2.
Qed.

Lemma inv_shutdown w lv (r r' : Cluster Op) f f' cu s :
  net_inv (mkNet w (r, f) lv cu) -> server_at w.(rn) (server_name s) = None -> same_clerks f f' ->
  net_inv (mkNet w (r', f') (<[s := None]> lv) cu).
Proof.
  intros Hi Hdead (E1 & E2 & E3). pose proof (nv_tables _ Hi) as Ht. cbn in Ht.
  assert (forall s' p, <[s := None]> lv s' = Some p -> lv s' = Some p) as Hlv.
  { intros s' p. destruct (decide (s = s')) as [->|Hne]; [by rewrite fn_lookup_insert|by rewrite fn_lookup_insert_ne]. }
  apply (inv_later w w lv (<[s := None]> lv) (r, f)); try done.
  - split; try done; [by eauto|]. cbn. by rewrite E2.
  - destruct Ht as [He Hs Hl]. split; [done| |].
    + intros s' p Hp. rewrite fn_lookup_insert_ne; [by apply Hs|]. intros ->. congruence.
    + intros s' p Hp%Hlv. destruct (Hl s' p Hp) as [? Hm]. split; [done|]. eauto.
Qed.

Lemma inv_up w w1 w2 lv co cu s svcs :
  net_inv (mkNet w co lv cu) ->
  LabRpc.step (LAdmin (AMakeServer svcs)) w = Some (Ret w1) ->
  LabRpc.step (LAdmin (AAddServer (server_name s) (length w.(rn).(srv_heap)))) w1 = Some (Ret w2) ->
  net_inv (mkNet w2 co (<[s := Some (length w.(rn).(srv_heap))]> lv) cu).
Proof.
  intros Hi H1 H2. set (p0 := length w.(rn).(srv_heap)) in *. destruct co as [r f].
  cbn in H1. injection H1 as <-. cbn in H2. destruct (bool_decide _); [|done]. injection H2 as <-.
  destruct (nv_tables _ Hi) as [He Hsv Hl]. cbn in He, Hsv, Hl.
  assert (forall s' p, <[s := Some p0]> lv s' = Some p -> s' = s /\ p = p0 \/ lv s' = Some p) as Hlv.
  { intros s' p. destruct (decide (s = s')) as [->|Hne]; [rewrite fn_lookup_insert; intros [= <-]; by left|].
    rewrite fn_lookup_insert_ne by done. by right. }
  apply (inv_later w _ lv _ (r, f)); try done; cbn.
  - split; cbn; try done; [rewrite length_app; lia|].
    intros s' p Hp [[-> ->]|?]%Hlv; [unfold p0 in Hp; lia|done].
  - split; [done| |].
    + intros s' p. unfold server_at. cbn. rewrite lookup_insert. case_decide as En.
      * intros [= <-]. injection En as ->%Nat2Z.inj. apply fn_lookup_insert.
      * intros Hp. rewrite fn_lookup_insert_ne; [by apply Hsv|]. congruence.
    + intros s' p Hp. unfold mine. cbn. rewrite length_app. cbn. fold p0. apply Hlv in Hp as [[-> ->]|Hp].
      * split; [lia|]. intros s' [[-> _]|Hp]%Hlv; [done|]. destruct (Hl s' p0 Hp) as [? _]. unfold p0 in *. lia.
      * destruct (Hl s' p Hp) as [Hb Hm]. split; [unfold p0; lia|]. intros s'' [[-> ->]|?]%Hlv; [unfold p0 in Hb; lia|eauto].
Qed.

(** A handler returns beside a step of the servers. *)
Lemma inv_return w w' lv (r : Cluster Op) f f' cu k p c v :
  net_inv (mkNet w (r, f) lv cu) -> inside k p c w -> net_step (LReturn k v) w = Some w' -> same_clerks f f' ->
  (forall s, mine w.(rn) lv s p -> given f' s c v \/ gone w.(rn) lv p) -> net_inv (mkNet w' (r, f') lv cu).
Proof.
  intros Hi (cl & sv & m & a & Hk & Hd & Hh) Hst%net_step_eq (E1 & E2 & E3) Hv.
  apply (inv_step (LReturn k v) w w' lv (r, f)); try done; [cbn; by rewrite E2|].
  intros k' cl' v' s c' p' sv' m' a' [= <- <-] Hk' Hto Hd'. simplify_eq.
  destruct (inside_call _ _ _ _ _ _ _ _ _ _ _ Hd Hh Hto) as [-> Hm]. by apply Hv.
Qed.

(** ** The network does what KvRaft.v allows *)

(** A [Call] that returns true brings a reply of the server that the clerk asked. *)
Lemma clerk_step w lv (r : Cluster Op) f f' cu j k cl o reply :
  net_inv (mkNet w (r, f) lv cu) -> cu !! j = Some k -> w.(calls) !! k = Some cl -> cl.(phase) = PRet o ->
  heard o = Some reply -> clerk_returns j reply f = Some f' -> cstep (r, f) (r, f').
Proof.
  intros Hi Hcu Hk Hph Ho Hret. destruct o as [[c|rep]|]; cbn in Ho; [done| |]; injection Ho as <-;
    [|by apply (C_front _ _ _ (SFail j))].
  pose proof Hret as Hr. unfold clerk_returns in Hr. destruct (cks f !! j) as [cs|] eqn:Hj; [|done]. cbn in Hr.
  destruct (busy cs) as [b|] eqn:Hb; [|done]. clear Hr.
  destruct (nv_clerks _ Hi j cs b Hj Hb) as (k0 & cl0 & Hcu0 & Hcl0 & Es & Hcn). cbn in Hcu0, Hcl0, Hcn. simplify_eq.
  destruct (nv_calls _ Hi _ _ Hk) as (s & c & Hto). cbn in Hto.
  pose proof (ct_phase _ _ _ _ _ _ Hto) as Hg. rewrite Hph in Hg. destruct Hg as (rep' & [= <-] & Hin).
  pose proof (ct_sent _ _ _ _ _ _ Hto) as Es'. rewrite Es in Es'. injection Es' as <-.
  pose proof (ct_conn _ _ _ _ _ _ Hto) as Hc. rewrite Hcn in Hc. injection Hc as Hc%Nat2Z.inj.
  apply list_elem_of_lookup_1 in Hin as [i Hi']. apply (C_front _ _ _ (SReply j i)); [done|].
  cbn. rewrite Hj. cbn. rewrite Hb. cbn. rewrite Hi'. cbn. by rewrite bool_decide_true.
Qed.

Lemma nstep_sim x x' : net_inv x -> nstep x x' -> net_inv x' /\ rtc cstep x.(core) x'.(core).
Proof.
  intros Hi Hst. destruct Hst as [w w' [r f] lv cu lbl Ho Hst|w w' r f f' lv cu cu' j q Hq Hn
    |w w' r f f' lv cu cu' j k cl o reply Hcu Hk Hph Ho Hret Hn|w w' r f f' lv cu k p s c index Hen Hs Ha
    |w w' r r' f f' lv cu k p s g c index Hen Hs Htm Hpr Hst Hobs Ha|w w' r f f' lv cu k p s c h reply Hin Hs Hf Eans Hst
    |w w' c lv cu k p q Hen Hold|w w' [r f] lv cu k p q v Hin Hold Hst|w r f f' lv cu s lbl Hlbl Hf
    |w r r' f lv cu Hr|w r r' f f' lv cu s m Hr Hf|w r r' f f' lv cu s Hdead Hr Hf|w w1 w2 c lv cu s svcs Hs H1 H2]; cbn [core].
  - apply andb_true_iff in Ho as [Hk Ho]. split; [|done].
    apply (inv_step lbl w w' lv (r, f) r f cu); try done; [by apply net_step_eq|by destruct lbl|]. intros. by subst lbl.
  - split; [|by apply rtc_once, (C_front _ _ _ (SInvoke j q))]. eapply inv_clerk; [done|by eapply invoke_goes_on|done].
  - split; [|by eapply rtc_once, clerk_step]. eapply inv_clerk; [done|by eapply returns_goes_on|done].
  - destruct (inv_enters _ _ _ _ _ _ _ _ Hi Hen) as [Hi' Hin]. split; [eapply inv_server, arrives_same_clerks; done|].
    apply rtc_once, (C_front _ _ _ (SRequest s c index false)); [done|]. cbn.
    rewrite bool_decide_true; [done|]. by eapply (inside_asked w' (r, f)).
  - destruct (inv_enters _ _ _ _ _ _ _ _ Hi Hen) as [Hi' Hin]. split; [eapply inv_server, arrives_same_clerks; done|].
    eapply rtc_once, C_start; [done..|]. cbn. rewrite bool_decide_true; [done|]. by eapply (inside_asked w' (r, f)).
  - split; [|by apply rtc_once, (C_front _ _ _ (SHandler s (KFinish h)))].
    eapply inv_return; [done..|by eapply handler_same_clerks|]. intros s' [_ Hm]. left. rewrite <- (Hm s Hs).
    exists reply. split; [done|]. rewrite Eans. apply elem_of_app. right. by left.
  - split; [|done]. by destruct (inv_enters _ _ _ _ _ _ _ _ Hi Hen).
  - split; [|done]. eapply inv_return; [done..| |]; [by split|]. intros s' [Hp _]. right. by split.
  - split; [eapply inv_server, handler_same_clerks; done|]. by apply rtc_once, (C_front _ _ _ (SHandler s lbl)).
  - split; [by eapply inv_server|]. by apply rtc_once, C_raft.
  - split; [eapply inv_server, server_same_clerks; done|]. by eapply rtc_once, C_deliver.
  - split; [eapply inv_shutdown, restart_same_clerks; done|]. by eapply rtc_once, C_restart.
  - split; [|done]. eapply inv_up; [done..| |]; by apply net_step_eq.
Qed.

(** ** From the start of a test *)

Context (n : nat) (maxr : Z) (xs : list (Z * list nat)).

(** [n] servers on the network [r], and for each of [xs] a clerk that has not called
    yet. *)
Definition start r lv : Net :=
  mkNet (mkRpc r [] []) (Cluster.init n, KvSystem.init n maxr xs) lv (replicate (length xs) 0%nat).

Lemma start_inv r lv : tables r lv -> wired r (KvSystem.init n maxr xs).(cks) -> net_inv (start r lv).
Proof.
  intros Ht Hw. split; cbn; [done|done|done| |by rewrite length_replicate, length_fmap].
  intros j cs b Hj Hb. apply list_lookup_fmap_Some in Hj as (x & -> & _). done.
Qed.

Lemma net_refines r lv x :
  tables r lv -> wired r (KvSystem.init n maxr xs).(cks) -> rtc nstep (start r lv) x -> creachable n maxr xs x.(core).
Proof.
  intros Ht Hw Hx. pose proof (start_inv r lv Ht Hw) as Hi.
  assert (forall x0, net_inv x0 -> rtc nstep x0 x -> rtc cstep x0.(core) x.(core)) as Hsim.
  { clear Hx Hi. intros x0 Hi Hx. induction Hx as [|x0 x1 x2 Hst _ IH]; [done|].
    destruct (nstep_sim _ _ Hi Hst) as [Hi1 Hc]. etrans; [exact Hc|by apply IH]. }
  exact (Hsim _ Hi Hx).
Qed.

End net.

(** ** The network of a test *)

Section tester.
Context `{!Gob (PVal Op)} `{!Rand} `{!CryptoRand} `{!Gob Msg}.
Context (n : nat) (maxr : Z).
#[local] Instance kv_servers : TestServer Op (KVServer * Raft Op) := kv_server maxr.
Implicit Types (r : Network) (hands : list (list Name)) (cfg : config (KVServer * Raft Op)).

(** The server an end leads to. *)
Definition behind r (e : Name) : nat :=
  match connection r e with Some (NInt z) => Z.to_nat z | _ => 0%nat end.

(** The clerks with handles [hands], given what [nrand] draws. *)
Definition clerks_of r (zs : list Z) hands : list (Z * list nat) := zip zs (map (behind r) <$> hands).

(** Each clerk got the ends that were made for it, in some order. *)
Definition handed cfg hands : Prop :=
  Forall (fun hs => exists k l, cfg.(clerks) !! k = Some l /\ hs ≡ₚ l) hands.

Definition at_start cfg zs hands : Net :=
  start n maxr (clerks_of cfg.(bed).(bnet) zs hands) cfg.(bed).(bnet) (fun s => server_at cfg.(bed).(bnet) (server_name s)).

Lemma handed_end cfg hands j es i e :
  svc_ok n cfg -> handed cfg hands -> hands !! j = Some es -> es !! i = Some e ->
  e ∈ cfg.(bed).(bnet).(ends) /\ connection cfg.(bed).(bnet) e = Some (server_name (behind cfg.(bed).(bnet) e)).
Proof.
  intros Hok Hh Hj Hi. destruct (Forall_lookup_1 _ _ _ _ Hh Hj) as (k & l & Hl & Hp).
  apply list_elem_of_lookup_2 in Hi. rewrite Hp in Hi. apply list_elem_of_lookup_1 in Hi as [m Hm].
  destruct (so_clerk _ Hok _ _ _ _ Hl Hm) as (He & Hc & _). split; [done|]. unfold behind, server_name. rewrite Hc.
  by rewrite Nat2Z.id.
Qed.

Lemma tester_tables cfg hands :
  svc_ok n cfg -> handed cfg hands -> tables hands cfg.(bed).(bnet) (fun s => server_at cfg.(bed).(bnet) (server_name s)).
Proof.
  intros Hok Hh. destruct (bo_srv _ (so_bed _ Hok)) as [Hlt Hinj]. split; [|done|].
  - intros e (es & He & Hes)%list_elem_of_join. apply list_elem_of_lookup_1 in Hes as [j Hj].
    apply list_elem_of_lookup_1 in He as [i Hi]. by eapply handed_end.
  - intros s p Hp. split; [by eapply Hlt|]. intros s' Hp'. pose proof (Hinj _ _ _ Hp' Hp) as E.
    by injection E as ->%Nat2Z.inj.
Qed.

Lemma tester_wired cfg zs hands :
  svc_ok n cfg -> handed cfg hands -> length zs = length hands ->
  wired hands cfg.(bed).(bnet) (KvSystem.init n maxr (clerks_of cfg.(bed).(bnet) zs hands)).(cks).
Proof.
  intros Hok Hh Hlen j es i e Hj Hi. destruct (handed_end _ _ _ _ _ _ Hok Hh Hj Hi) as [_ Hc].
  destruct (lookup_lt_is_Some_2 zs j) as [z Hz]; [rewrite Hlen; by eapply lookup_lt_Some|].
  set (hs := map (behind cfg.(bed).(bnet)) es).
  exists (mkCk (MakeClerk (length hs) z) hs None), (behind cfg.(bed).(bnet) e). split; [|split; [|done]].
  - cbn. rewrite list_lookup_fmap. unfold clerks_of. rewrite lookup_zip_with, Hz. cbn. rewrite list_lookup_fmap, Hj. done.
  - unfold hs. cbn. by rewrite list_lookup_fmap, Hi.
Qed.

(** C1. The key/value service over the network of src/labrpc is linearizable.  A tester of
    src/kvraft has set up its servers and made its clerks, with their handles in any
    order.  Then, in every timely and prudent run in which the clerks make their RPCs
    over the simulated network, which delays, reorders and loses requests and replies
    and disconnects clerks, and in which servers are shut down while requests are in
    their handlers, and are started again from what was saved: when the clerks have
    different client ids and none of them is in a method, one order of all recorded
    operations respects real time and gives their results on one key/value store, and
    [CheckOperations] answers true on them if there is at least one (on the empty
    record, which is linearizable, it waits for ever).  The ids are random numbers
    below 2^62 that [MakeClerk] draws, and the code does not exclude equal ones; that
    the condition is needed shows [equal_ids_lose_update] of KvRaft.v. *)
Theorem kv_over_rpc_linearizable cfg zs hands x operations :
  svc_reach n cfg -> handed cfg hands -> length zs = length hands ->
  rtc (nstep hands) (at_start cfg zs hands) x ->
  distinct_clients x.(core).2 -> idle x.(core).2 -> operations ≡ₚ history x.(core).2 ->
  (exists σ, op_linearization StoreModel operations σ) /\
  exists parts, kv_partition operations = Ret parts /\
    forall sort arrival, sorts_by_time sort -> arrival ≡ₚ seq 0 (length parts) ->
    exists fuel0, forall fuel, (fuel0 <= fuel)%nat ->
      CheckOperations KvModel VNil sort fuel arrival operations =
      Ret (match operations with [] => None | _ => Some true end).
Proof.
  intros Hok%svc_reach_ok Hh Hlen Hx Hnd Hi Hp. set (xs := clerks_of cfg.(bed).(bnet) zs hands).
  assert (creachable n maxr xs x.(core)) as Hc.
  { eapply net_refines; [by eapply tester_tables|by eapply tester_wired|exact Hx]. }
  destruct x as [w [cl f] lv cu]. destruct (creachable_log n maxr xs cl f Hc) as [l Hr].
  by apply (service_linearizable n maxr xs (set_log l f)).
Qed.
End tester.

(** ** Runs *)

Global Instance GetReply_eq_dec : EqDecision GetReply.
Proof. solve_decision. Defined.
Global Instance PutAppendReply_eq_dec : EqDecision PutAppendReply.
Proof. solve_decision. Defined.
Global Instance Reply_eq_dec : EqDecision Reply.
Proof. solve_decision. Defined.

Global Instance Msg_eq_dec : EqDecision Msg.
Proof. solve_decision. Defined.

Section runs.
Context `{!Gob (PVal Op)} `{!Rand} `{!Gob Msg} (hands : list (list Name)).

(** The steps of [nstep] that a run takes, with what they leave open. *)
Inductive NLabel :=
| NNet (lbl : LabRpc.Label Msg)
| NInvoke (j : nat) (q : Request)
| NClerk (j : nat)
| NRefuse (k s : nat) (index : Z)
| NStart (k s g : nat) (index : Z)
| NReturn (k s h : nat)
| NHandler (s : nat) (lbl : KLabel)
| NRaft (lbl : Cluster.Label Op)
| NShutdown (s : nat)
| NUp (s : nat).

(** The handler that call [k] is in, and where. *)
Definition inside_at (k : nat) (w : Rpc Msg) : option (nat * Call) :=
  cl ← w.(calls) !! k;
  match cl.(disp) with
  | Some (DRun p service meth v) => c ← handler service meth v; Some (p, c)
  | _ => None
  end.

Lemma inside_at_ok k w p c : inside_at k w = Some (p, c) -> inside k p c w.
Proof.
  unfold inside_at. destruct (w.(calls) !! k) as [cl|] eqn:Hk; [|done]. cbn.
  destruct (disp cl) as [[|q sv m v| |]|] eqn:Hd; try done.
  destruct (handler sv m v) as [c'|] eqn:Hh; [|done]. intros [= -> ->]. by exists cl, sv, m, v.
Qed.

Definition returned (cl : CallState Msg) : option (option Msg) :=
  match cl.(phase) with PRet o => Some o | _ => None end.

Definition starts (lbl : Cluster.Label Op) (r : Cluster Op) : option Op :=
  match obs lbl r with [OStart (Some op)] => Some op | _ => None end.

Definition newest (f : Sys) : option Reply :=
  match f.(answered) !! pred (length f.(answered)) with Some a => Some a.2.2 | None => None end.

(** The network and the last calls, with the rest of [x]. *)
Definition with_net (p : Rpc Msg * list nat) (f : Sys) (x : Net) : Net :=
  mkNet p.1 (x.(core).1, f) x.(live) p.2.

Definition net_next (l : NLabel) (x : Net) : option Net :=
  let w := x.(rpc) in let f := x.(core).2 in let cu := x.(cur) in
  match l with
  | NNet lbl => if own hands lbl then w' ← net_step lbl w; Some (with_net (w', cu) f x) else None
  | NInvoke j q =>
      f' ← sstep (SInvoke j q) f;
      p ← next_call hands j f' w cu;
      Some (with_net p f' x)
  | NClerk j =>
      k ← cu !! j;
      cl ← w.(calls) !! k;
      o ← returned cl;
      reply ← heard o;
      f' ← clerk_returns j reply f;
      p ← next_call hands j f' w cu;
      Some (with_net p f' x)
  | NRefuse k s index =>
      w' ← net_step (LDispatch k) w;
      pc ← inside_at k w';
      f' ← arrives s pc.2 index false f;
      if bool_decide (x.(live) s = Some pc.1) then Some (with_net (w', cu) f' x) else None
  | NReturn k s h =>
      pc ← inside_at k w;
      f' ← sstep (SHandler s (KFinish h)) f;
      reply ← newest f';
      w' ← net_step (LReturn k (MReply reply)) w;
      if bool_decide (x.(live) s = Some pc.1 /\ f'.(answered) = f.(answered) ++ [(s, (pc.2, reply))])
      then Some (with_net (w', cu) f' x) else None
  | _ => None
  end.

Definition core_next (l : NLabel) (x : Net) : option Net :=
  let w := x.(rpc) in let r := x.(core).1 in let f := x.(core).2 in
  match l with
  | NStart k s g index =>
      w' ← net_step (LDispatch k) w;
      pc ← inside_at k w';
      r' ← raft_next (LGo s g) r;
      op ← starts (LGo s g) r;
      f' ← arrives s pc.2 index true f;
      if bool_decide (x.(live) s = Some pc.1 /\ op = call_op pc.2)
      then Some (mkNet w' (r', f') x.(live) x.(cur)) else None
  | NHandler s lbl => if returning lbl then None else f' ← sstep (SHandler s lbl) f; Some (with_net (w, x.(cur)) f' x)
  | NRaft lbl =>
      r' ← raft_next lbl r;
      match obs lbl r with
      | [] => Some (mkNet w (r', f) x.(live) x.(cur))
      | [ODeliver s m] =>
          f' ← server_step s (KApply m) (max (Z.to_nat m.(CommandIndex))) f;
          Some (mkNet w (r', f') x.(live) x.(cur))
      | _ => None
      end
  | NShutdown s =>
      r' ← raft_next (LCrash s) r;
      f' ← sstep (SRestart s) f;
      if bool_decide (server_at w.(rn) (server_name s) = None)
      then Some (mkNet w (r', f') (<[s := None]> x.(live)) x.(cur)) else None
  | NUp s =>
      w1 ← net_step (LAdmin (AMakeServer [MakeService "KVServer" kv_methods])) w;
      w2 ← net_step (LAdmin (AAddServer (server_name s) (length w.(rn).(srv_heap)))) w1;
      if bool_decide (x.(live) s = None)
      then Some (mkNet w2 x.(core) (<[s := Some (length w.(rn).(srv_heap))]> x.(live)) x.(cur)) else None
  | _ => None
  end.

Definition nnext (l : NLabel) (x : Net) : option Net :=
  match net_next l x with Some x' => Some x' | None => core_next l x end.

Fixpoint nrun (ls : list NLabel) (x : Net) : option Net :=
  match ls with
  | [] => Some x
  | l :: ls => match nnext l x with Some x => nrun ls x | None => None end
  end.
Ltac next_cases E :=
  repeat match type of E with
  | (if ?b then _ else _) = _ => let Eb := fresh "Eb" in destruct b eqn:Eb; try discriminate E
  | mbind _ ?m = _ => let Em := fresh "Em" in destruct m eqn:Em; [cbn [mbind option_bind] in E|discriminate E]
  end.

Lemma nnext_step l x x' : nnext l x = Some x' -> nstep hands x x'.
Proof.
  destruct x as [w [r f] lv cu]. unfold nnext. destruct (net_next l _) as [y|] eqn:E.
  - intros [= <-]. destruct l as [lbl|j q|j|k s index| |k s h| | | |]; cbn -[sstep] in E; try done;
      next_cases E; injection E as <-.
    + by eapply N_net.
    + destruct p. by eapply N_invoke.
    + destruct p. unfold returned in Em1. destruct (phase c) eqn:Ep; try done. injection Em1 as ->. by eapply N_clerk.
    + destruct p as [p c]. eapply N_refuse; [split; [done|by apply inside_at_ok]|by eapply bool_decide_eq_true_1|done].
    + destruct p as [p c]. apply inside_at_ok in Em. apply bool_decide_eq_true_1 in Eb as [? ?]. by eapply N_return.
  - clear E. intros E. destruct l as [| | | |k s g index| |s lbl|lbl|s|s]; cbn -[sstep raft_next obs] in E; try done; next_cases E.
    + injection E as <-. destruct p as [p c0]. apply inside_at_ok in Em0. apply bool_decide_eq_true_1 in Eb as [? ->].
      apply raft_next_ok in Em1 as (? & ? & ?). eapply N_start; [by split|try done..]. unfold starts in Em2. by repeat case_match; simplify_eq.
    + injection E as <-. by eapply N_handler.
    + apply raft_next_ok in Em as (? & ? & ?).
      destruct (obs lbl r) as [|[c1|s m|s] [|]] eqn:Eo; try done; [injection E as <-; apply N_raft; by exists lbl|].
      next_cases E. injection E as <-. eapply N_deliver; [by exists lbl|done].
    + injection E as <-. apply raft_next_ok in Em as (? & ? & ?). apply bool_decide_eq_true_1 in Eb.
      eapply N_shutdown; [done|by exists (LCrash s)|done].
    + injection E as <-. apply bool_decide_eq_true_1 in Eb. eapply N_up with (svcs := [MakeService "KVServer" kv_methods]); [exact Eb|reflexivity|exact Em].
Qed.

Lemma nrun_steps ls x x' : nrun ls x = Some x' -> rtc (nstep hands) x x'.
Proof.
  revert x. induction ls as [|l ls IH]; cbn; intros x E; [by simplify_eq|].
  destruct (nnext l x) as [x1|] eqn:Ex; [|done]. eapply rtc_l; [by eapply nnext_step|by apply IH].
Qed.
End runs.

Global Instance Msg_countable : Countable Msg.
Proof.
  apply (inj_countable'
    (fun m => match m with
     | MCall (CGet a) => inl (inl (a.(ga_Key), a.(ga_ClientId), a.(ga_RequestId)))
     | MCall (CPutAppend a) => inl (inr (a.(pa_Key), a.(pa_Value), a.(pa_Op), a.(pa_ClientId), a.(pa_RequestId)))
     | MReply (RGet r) => inr (inl (r.(gr_WrongLeader), r.(gr_Err), r.(gr_Value)))
     | MReply (RPutAppend r) => inr (inr (r.(par_WrongLeader), r.(par_Err)))
     end)
    (fun s => match s with
     | inl (inl (k, c, i)) => MCall (CGet {| ga_Key := k; ga_ClientId := c; ga_RequestId := i |})
     | inl (inr (k, v, o, c, i)) =>
         MCall (CPutAppend {| pa_Key := k; pa_Value := v; pa_Op := o; pa_ClientId := c; pa_RequestId := i |})
     | inr (inl (w, e, v)) => MReply (RGet {| gr_WrongLeader := w; gr_Err := e; gr_Value := v |})
     | inr (inr (w, e)) => MReply (RPutAppend {| par_WrongLeader := w; par_Err := e |})
     end)).
  by intros [[[]|[]]|[[]|[]]].
Defined.

#[local] Existing Instances KvConfig.op_gob KvConfig.zero_rand KvConfig.byte_rand.
#[local] Instance msg_gob : Gob Msg := countable_gob.

(** The way of a request to the handler, and of a reply to the clerk. *)
Definition go_labels (k : nat) : list NLabel := NNet <$> [LTake k; LSpawn; LRead k 0; LabRpc.LDrop k 0].
Definition back_labels (k : nat) : list NLabel := NNet <$> [LabRpc.LRecv k; LFinish k 0 0 0 0; LReply k].

(** Three servers and a clerk whose handles the tester has shuffled: the first request
    goes to server 2, which refuses it; server 0 has been elected, appends the request,
    replicates it to server 1, delivers and answers it; then server 1 is shut down and
    started again. *)
Definition net_labels : list NLabel :=
  (NRaft <$> [LExpireElection 0; LRecvElection 0; LLoop 0; LGo 0 0; LGo 0 0; LDeliver 0; LDeliver 1]) ++
  [NInvoke 0 run_append] ++ go_labels 0 ++ [NRefuse 0 2 0; NReturn 0 2 0] ++ back_labels 0 ++ [NClerk 0] ++
  go_labels 1 ++ [NRaft (LStart 0 (Some (call_op run_c))); NStart 1 0 2 1; NHandler 0 (KRegister 0)] ++
  (NRaft <$> [LGo 0 0; LDeliver 1; LDeliver 1; LGo 0 1]) ++
  (NHandler 0 <$> [KSend; KNotify 0; KDelete 0]) ++ [NReturn 1 0 0] ++ back_labels 1 ++ [NClerk 0] ++
  [NNet (LAdmin (ADeleteServer (server_name 1))); NShutdown 1; NUp 1].

Definition net_hands : list (list Name) := [kv3_handles].
Definition net_start : Net := at_start 3 (-1) kv3_clerk [7] net_hands.
Definition net_end : Net := default net_start (nrun net_hands net_labels net_start).

Lemma net_reaches : rtc (nstep net_hands) net_start net_end.
Proof.
  assert (nrun net_hands net_labels net_start = Some net_end) as E; [|by eapply nrun_steps].
  unfold net_end. assert (is_Some (nrun net_hands net_labels net_start)) as [x ->]; [|done].
  apply (bool_decide_unpack _). vm_compute. exact I.
Qed.

Lemma handed_one (cfg : config (KVServer * Raft Op)) k hs :
  from_option (fun l => bool_decide (hs ≡ₚ l)) false (cfg.(clerks) !! k) = true -> handed cfg [hs].
Proof.
  intros Hp. constructor; [|constructor]. destruct (cfg.(clerks) !! k) as [l|] eqn:El; [|discriminate Hp].
  exists k, l. split; [exact El|]. by apply bool_decide_eq_true_1 in Hp.
Qed.

Lemma net_handed : handed kv3_clerk net_hands.
Proof. apply (handed_one kv3_clerk 0). vm_compute. reflexivity. Qed.

Lemma kv_over_rpc_linearizable_witness :
  (exists σ, op_linearization StoreModel run_operations σ) /\
  exists parts, kv_partition run_operations = Ret parts /\
    forall sort arrival, sorts_by_time sort -> arrival ≡ₚ seq 0 (length parts) ->
    exists fuel0, forall fuel, (fuel0 <= fuel)%nat ->
      CheckOperations KvModel VNil sort fuel arrival run_operations = Ret (Some true).
Proof.
  apply (kv_over_rpc_linearizable 3 (-1) kv3_clerk [7] net_hands net_end run_operations).
  - exact kv3_clerk_reach.
  - exact net_handed.
  - reflexivity.
  - exact net_reaches.
  - apply (bool_decide_unpack _). vm_compute. exact I.
  - apply (bool_decide_unpack _). vm_compute. exact I.
  - replace (history net_end.(core).2) with run_operations by (vm_compute; reflexivity). reflexivity.
Defined.
