(* ===== verification/Shard.v ===== *)
(** * Shard: the clients of the sharded service (src/shardmaster, src/shardkv)

    The shardmaster clerk tries every server in rounds until one answers; the
    shardkv clerk asks the group that the configuration gives for a key's shard
    and fetches a new configuration after every round.  The servers in the
    repository are stubs that leave their replies empty.  What the network
    answers is an oracle, as in Clerk.v. *)

From S2P Require Import Prelude.
From stdpp Require Import strings.
From Stdlib Require Import Ascii.
Local Open Scope Z_scope.

(** ** Configurations (src/shardmaster/common.go) *)

Definition NShards : nat := 10.

Record Config := { Num : Z; Shards : list Z; Groups : gmap Z (list string) }.

(** The zero value of the struct. *)
Definition zeroConfig : Config := {| Num := 0; Shards := replicate NShards 0; Groups := ∅ |}.

(** The replies of the four RPCs; [Config] is that of [QueryReply]. *)
Record MasterReply := { mr_WrongLeader : bool; mr_Err : string; mr_Config : Config }.

Inductive MasterArgs :=
| JoinArgs (Servers : gmap Z (list string))
| LeaveArgs (GIDs : list Z)
| MoveArgs (Shard GID : Z)
| QueryArgs (Num : Z).

(** The state of a master server, and its handlers, which do nothing. *)
Record ShardMaster := { sm_me : Z; configs : list Config }.

Definition StartMaster (me : Z) : ShardMaster := {| sm_me := me; configs := [zeroConfig] |}.

Definition master_handler (sm : ShardMaster) (args : MasterArgs) : ShardMaster * MasterReply :=
  (sm, {| mr_WrongLeader := false; mr_Err := ""; mr_Config := zeroConfig |}).

(** ** The shardmaster clerk (src/shardmaster/client.go) *)

Section master.
Context (Call : nat -> nat -> MasterArgs -> option MasterReply).

(** [for _, srv := range ck.servers]: the reply that ends the loop, if one does,
    and the number of RPCs made so far. *)
Fixpoint try_servers (t : nat) (args : MasterArgs) (srvs : list nat) : (MasterReply * nat) + nat :=
  match srvs with
  | [] => inr t
  | srv :: srvs =>
      match Call t srv args with
      | Some reply => if mr_WrongLeader reply then try_servers (S t) args srvs else inl (reply, S t)
      | None => try_servers (S t) args srvs
      end
  end.

(** The outer loop of [Query], [Join], [Leave] and [Move]: [fuel] rounds. *)
Fixpoint master_call (fuel t servers : nat) (args : MasterArgs) : option (MasterReply * nat) :=
  match fuel with
  | O => None
  | S fuel =>
      match try_servers t args (seq 0 servers) with
      | inl (reply, t) => Some (reply, t)
      | inr t => master_call fuel t servers args
      end
  end.

Definition Query (fuel t servers : nat) (num : Z) : option (Config * nat) :=
  (fun '(reply, t) => (mr_Config reply, t)) <$> master_call fuel t servers (QueryArgs num).
Definition Join (fuel t servers : nat) (groups : gmap Z (list string)) : option nat :=
  snd <$> master_call fuel t servers (JoinArgs groups).
Definition Leave (fuel t servers : nat) (gids : list Z) : option nat :=
  snd <$> master_call fuel t servers (LeaveArgs gids).
Definition Move (fuel t servers : nat) (shard gid : Z) : option nat :=
  snd <$> master_call fuel t servers (MoveArgs shard gid).

Lemma try_servers_inv t args srvs :
  match try_servers t args srvs with
  | inl (reply, t2) => mr_WrongLeader reply = false /\
      exists t' srv, (t <= t' < t2)%nat /\ srv ∈ srvs /\ Call t' srv args = Some reply
  | inr t' => t' = (t + length srvs)%nat /\
      forall i srv reply, srvs !! i = Some srv -> Call (t + i)%nat srv args = Some reply ->
        mr_WrongLeader reply = true
  end.
Proof.
  revert t. induction srvs as [|srv srvs IH]; intros t; cbn [try_servers].
  { split; [cbn; lia|]. intros i ? ? Hi. by rewrite lookup_nil in Hi. }
  assert (Hrec : (forall reply, Call t srv args = Some reply -> mr_WrongLeader reply = true) ->
    match try_servers (S t) args srvs with
    | inl (reply, t2) => mr_WrongLeader reply = false /\
        exists t' s, (t <= t' < t2)%nat /\ s ∈ srv :: srvs /\ Call t' s args = Some reply
    | inr t' => t' = (t + S (length srvs))%nat /\
        forall i s reply, (srv :: srvs) !! i = Some s -> Call (t + i)%nat s args = Some reply ->
          mr_WrongLeader reply = true
    end).
  { intros Hno. specialize (IH (S t)). destruct (try_servers (S t) args srvs) as [[reply t2]|t'].
    - destruct IH as (Hw & t' & s & Ht & Hs & Hc). split; [done|]. exists t', s.
      split; [lia|]. split; [by right|done].
    - destruct IH as [-> Hall]. split; [lia|]. intros [|i] s reply Hi Hc; cbn in Hi.
      + simplify_eq. rewrite Nat.add_0_r in Hc. by apply Hno.
      + eapply Hall; [exact Hi|]. by replace (S t + i)%nat with (t + S i)%nat by lia. }
  destruct (Call t srv args) as [reply|] eqn:Hc; [|by apply Hrec].
  destruct (mr_WrongLeader reply) eqn:Hw; [apply Hrec; by intros ? [= <-]|].
  split; [done|]. exists t, srv. split; [lia|]. split; [by left|done].
Qed.

(** What a call returns is an answer without WrongLeader, given during the call. *)
Lemma master_call_inv fuel t servers args reply t2 :
  master_call fuel t servers args = Some (reply, t2) -> mr_WrongLeader reply = false /\
  exists t' srv, (t <= t' < t2)%nat /\ (srv < servers)%nat /\ Call t' srv args = Some reply.
Proof.
  revert t. induction fuel as [|fuel IH]; intros t E; [done|]. cbn [master_call] in E.
  pose proof (try_servers_inv t args (seq 0 servers)) as Hinv.
  destruct (try_servers t args (seq 0 servers)) as [[r tr]|t'].
  - injection E as -> ->. destruct Hinv as (Hw & t' & srv & Ht & Hs & Hc). split; [done|].
    apply elem_of_seq in Hs. exists t', srv. split; [done|]. split; [lia|done].
  - destruct Hinv as [-> _]. destruct (IH _ E) as (Hw & t' & srv & Ht & Hs). split; [done|].
    exists t', srv. split; [lia|done].
Qed.

(** From RPC [T] on server [l] answers without WrongLeader. *)
Definition master_answers (T l : nat) (args : MasterArgs) : Prop :=
  forall t, (T <= t)%nat -> exists reply, Call t l args = Some reply /\ mr_WrongLeader reply = false.

Lemma master_call_returns T l servers args fuel t :
  (l < servers)%nat -> master_answers T l args -> (T - t < fuel)%nat ->
  exists reply t2, master_call fuel t servers args = Some (reply, t2).
Proof.
  intros Hl Ha. revert t. induction fuel as [|fuel IH]; intros t Hf; [lia|]. cbn [master_call].
  pose proof (try_servers_inv t args (seq 0 servers)) as Hinv.
  destruct (try_servers t args (seq 0 servers)) as [[reply t2]|t']; [eauto|].
  destruct Hinv as [-> Hall]. rewrite length_seq.
  destruct (le_lt_dec T (t + l)) as [Hle|Hlt].
  - exfalso. destruct (Ha (t + l)%nat Hle) as (reply & Hc & Hw).
    rewrite (Hall l l reply) in Hw; [done| |done]. by apply lookup_seq.
  - apply IH. lia.
Qed.
End master.

(** ** The shardkv clerk (src/shardkv/client.go) *)

Definition key2shard (key : string) : Z :=
  let shard := match key with
               | String c _ => Z.of_N (N_of_ascii c)
               | EmptyString => 0
               end in
  shard mod Z.of_nat NShards.

Record ShardReply := { sr_WrongLeader : bool; sr_Err : string; sr_Value : string }.

Inductive ShardArgs := SGet (Key : string) | SPutAppend (Key Value Op : string).

Definition OK : string := "OK".
Definition ErrNoKey : string := "ErrNoKey".
Definition ErrWrongGroup : string := "ErrWrongGroup".

(** The test that ends [Get], and the one that ends [PutAppend]. *)
Definition accepted (args : ShardArgs) (reply : ShardReply) : bool :=
  negb reply.(sr_WrongLeader) &&
  match args with
  | SGet _ => String.eqb reply.(sr_Err) OK || String.eqb reply.(sr_Err) ErrNoKey
  | SPutAppend _ _ _ => String.eqb reply.(sr_Err) OK
  end.

Definition shard_key (args : ShardArgs) : string :=
  match args with SGet k => k | SPutAppend k _ _ => k end.

(** A shardkv server is a stub: its handlers leave the reply empty. *)
Definition shardkv_handler (args : ShardArgs) : ShardReply :=
  {| sr_WrongLeader := false; sr_Err := ""; sr_Value := "" |}.

(** [Clerk] and [MakeClerk]: [masters] servers of the shardmaster; the configuration
    is the zero value until the first [Query].  [make_end] is how [CallKv] finds the
    server of a name. *)
Record ShardClerk := { masters : nat; config : Config }.

Definition MakeClerk (masters : nat) : ShardClerk := {| masters := masters; config := zeroConfig |}.

Section clerk.
Context (CallKv : nat -> string -> ShardArgs -> option ShardReply)
        (CallMaster : nat -> nat -> MasterArgs -> option MasterReply).

(** The loop over the servers of a group. *)
Fixpoint try_group (t : nat) (args : ShardArgs) (servers : list string) : (ShardReply * nat) + nat :=
  match servers with
  | [] => inr t
  | srv :: servers =>
      match CallKv t srv args with
      | Some reply =>
          if accepted args reply then inl (reply, S t)
          else if String.eqb reply.(sr_Err) ErrWrongGroup then inr (S t)
          else try_group (S t) args servers
      | None => try_group (S t) args servers
      end
  end.

(** The outer loop: [fuel] rounds, each with at most [mfuel] rounds of [Query]; the
    reply, the clerk at the end and the number of RPCs. *)
Fixpoint shard_call (fuel mfuel t : nat) (args : ShardArgs) (ck : ShardClerk)
    : res (option (ShardReply * ShardClerk * nat)) :=
  match fuel with
  | O => Ret None
  | S fuel =>
      gid ← idx ck.(config).(Shards) (key2shard (shard_key args));
      let round := match ck.(config).(Groups) !! gid with
                   | Some servers => try_group t args servers
                   | None => inr t
                   end in
      match round with
      | inl (reply, t) => Ret (Some (reply, ck, t))
      | inr t =>
          match Query CallMaster mfuel t ck.(masters) (-1) with
          | Some (config, t) =>
              shard_call fuel mfuel t args {| masters := ck.(masters); config := config |}
          | None => Ret None
          end
      end
  end.

Definition Get (fuel mfuel t : nat) (key : string) (ck : ShardClerk) : res (option (string * ShardClerk * nat)) :=
  o ← shard_call fuel mfuel t (SGet key) ck;
  Ret (match o with Some (reply, ck, t) => Some (reply.(sr_Value), ck, t) | None => None end).
Definition PutAppend (fuel mfuel t : nat) (key value op : string) (ck : ShardClerk)
    : res (option (ShardClerk * nat)) :=
  o ← shard_call fuel mfuel t (SPutAppend key value op) ck;
  Ret (match o with Some (_, ck, t) => Some (ck, t) | None => None end).
Definition Put (fuel mfuel t : nat) (key value : string) (ck : ShardClerk) : res (option (ShardClerk * nat)) :=
  PutAppend fuel mfuel t key value "Put" ck.
Definition Append (fuel mfuel t : nat) (key value : string) (ck : ShardClerk) : res (option (ShardClerk * nat)) :=
  PutAppend fuel mfuel t key value "Append" ck.

(** ** Routing *)

Lemma try_group_inv t args servers :
  match try_group t args servers with
  | inl (reply, t2) => accepted args reply = true /\
      exists t' srv, (t <= t' < t2)%nat /\ srv ∈ servers /\ CallKv t' srv args = Some reply
  | inr t2 => (t <= t2)%nat
  end.
Proof.
  revert t. induction servers as [|srv servers IH]; intros t; cbn [try_group]; [done|].
  assert (match try_group (S t) args servers with
    | inl (reply, t2) => accepted args reply = true /\
        exists t' s, (t <= t' < t2)%nat /\ s ∈ srv :: servers /\ CallKv t' s args = Some reply
    | inr t2 => (t <= t2)%nat
    end) as Hrec.
  { specialize (IH (S t)). destruct (try_group (S t) args servers) as [[reply t2]|t2]; [|lia].
    destruct IH as (Hacc & t' & s & Ht & Hs & Hc). split; [done|]. exists t', s.
    split; [lia|]. split; [by right|done]. }
  destruct (CallKv t srv args) as [reply|] eqn:Hc; [|done].
  destruct (accepted args reply) eqn:Hacc.
  - split; [done|]. exists t, srv. split; [lia|]. split; [by left|done].
  - destruct (String.eqb (sr_Err reply) ErrWrongGroup); [lia|done].
Qed.

(** What a call of the clerk returns was accepted from a server of the group that,
    in the configuration the clerk ends with, serves the shard of the key. *)
Theorem shard_call_routed fuel mfuel t args ck reply ck' t2 :
  shard_call fuel mfuel t args ck = Ret (Some (reply, ck', t2)) ->
  accepted args reply = true /\ exists gid servers srv t',
    ck'.(config).(Shards) !! Z.to_nat (key2shard (shard_key args)) = Some gid /\
    ck'.(config).(Groups) !! gid = Some servers /\ srv ∈ servers /\
    (t <= t' < t2)%nat /\ CallKv t' srv args = Some reply.
Proof.
  revert t ck. induction fuel as [|fuel IH]; intros t ck E; [done|]. cbn [shard_call] in E.
  bind_inv E. apply idx_Ret in E0 as [_ Hgid].
  assert (forall t1, (t <= t1)%nat ->
    match Query CallMaster mfuel t1 ck.(masters) (-1) with
    | Some (config, t0) => shard_call fuel mfuel t0 args {| masters := ck.(masters); config := config |}
    | None => Ret None
    end = Ret (Some (reply, ck', t2)) ->
    accepted args reply = true /\ exists gid servers srv t',
      ck'.(config).(Shards) !! Z.to_nat (key2shard (shard_key args)) = Some gid /\
      ck'.(config).(Groups) !! gid = Some servers /\ srv ∈ servers /\
      (t <= t' < t2)%nat /\ CallKv t' srv args = Some reply) as Hnext.
  { intros t1 Ht1 Eq. unfold Query in Eq.
    destruct (master_call CallMaster mfuel t1 ck.(masters) (QueryArgs (-1))) as [[r t0]|] eqn:Em; [|done].
    apply master_call_inv in Em as (_ & ? & ? & ? & _). cbn in Eq.
    destruct (IH _ _ Eq) as (Hacc & gid & servers & srv & t' & H1 & H2 & H3 & H4 & H5).
    split; [done|]. exists gid, servers, srv, t'. repeat (split; [done|]). split; [lia|done]. }
  destruct (ck.(config).(Groups) !! x) as [servers|] eqn:Eg; [|by eapply Hnext].
  pose proof (try_group_inv t args servers) as Hinv.
  destruct (try_group t args servers) as [[r t1]|t1]; [|by eapply Hnext].
  injection E as -> <- ->. destruct Hinv as (Hacc & t' & srv & Ht & Hs & Hc). split; [done|].
  exists x, servers, srv, t'. done.
Qed.
End clerk.

Lemma key2shard_lt key : 0 <= key2shard key < 10.
Proof. unfold key2shard. apply Z.mod_pos_bound. unfold NShards. lia. Qed.

(** The shardmaster clerk returns: if from the [T]-th RPC on some server
    answers every time without WrongLeader, [Query] needs at most [T + 1] rounds,
    and what it returns is the configuration of such an answer. *)
Lemma master_query_returns Call T l servers num fuel t :
  (l < servers)%nat -> master_answers Call T l (QueryArgs num) -> (T - t < fuel)%nat ->
  exists reply t2 t' srv, Query Call fuel t servers num = Some (mr_Config reply, t2) /\
    (t <= t' < t2)%nat /\ Call t' srv (QueryArgs num) = Some reply /\ mr_WrongLeader reply = false.
Proof.
  intros Hl Ha Hf. destruct (master_call_returns Call T l servers _ fuel t Hl Ha Hf) as (r & t2 & E).
  destruct (master_call_inv _ _ _ _ _ _ _ E) as (Hw & t' & srv & Ht & _ & Hc).
  exists r, t2, t', srv. split; [unfold Query; by rewrite E|]. done.
Qed.

(** ** Progress

    From RPC [T] on the shardmaster has settled: a server of it answers, all answers
    carry configuration [c], and in the group of the shard of the key a server
    accepts while none answers ErrWrongGroup.  Then the clerk returns. *)
Section progress.
Context (CallKv : nat -> string -> ShardArgs -> option ShardReply)
        (CallMaster : nat -> nat -> MasterArgs -> option MasterReply)
        (args : ShardArgs) (T l : nat) (c : Config) (gid : Z) (servers : list string) (s : string)
        (Hmaster : master_answers CallMaster T l (QueryArgs (-1)))
        (Harray : forall t srv reply, CallMaster t srv (QueryArgs (-1)) = Some reply ->
           length reply.(mr_Config).(Shards) = NShards)
        (Hc : forall t srv reply, (T <= t)%nat -> CallMaster t srv (QueryArgs (-1)) = Some reply ->
           mr_WrongLeader reply = false -> mr_Config reply = c)
        (Hgid : c.(Shards) !! Z.to_nat (key2shard (shard_key args)) = Some gid)
        (Hgroup : c.(Groups) !! gid = Some servers) (Hs : s ∈ servers)
        (Hacc : forall t, (T <= t)%nat -> exists reply, CallKv t s args = Some reply /\ accepted args reply = true)
        (Hgood : forall t srv reply, (T <= t)%nat -> srv ∈ servers -> CallKv t srv args = Some reply ->
           reply.(sr_Err) <> ErrWrongGroup).

Lemma try_group_accepts t srvs :
  (T <= t)%nat -> s ∈ srvs -> srvs ⊆ servers -> exists reply t2, try_group CallKv t args srvs = inl (reply, t2).
Proof.
  revert t. induction srvs as [|srv srvs IH]; intros t Ht Hin Hsub; [by apply not_elem_of_nil in Hin|].
  cbn [try_group]. assert (s ∈ srvs -> exists reply t2, try_group CallKv (S t) args srvs = inl (reply, t2)) as Hrec.
  { intros ?. apply IH; [lia|done|]. intros x Hx. apply Hsub. by right. }
  destruct (CallKv t srv args) as [reply|] eqn:E.
  - destruct (accepted args reply) eqn:Ea; [eauto|].
    destruct (String.eqb_spec (sr_Err reply) ErrWrongGroup) as [He|_].
    + exfalso. eapply (Hgood t srv); [done|apply Hsub; by left|done|done].
    + apply Hrec. apply elem_of_cons in Hin as [->|?]; [|done].
      destruct (Hacc t Ht) as (r & Er & Ha). congruence.
  - apply Hrec. apply elem_of_cons in Hin as [->|?]; [|done].
    destruct (Hacc t Ht) as (r & Er & Ha). congruence.
Qed.

(** The clerk with the settled configuration. *)
Lemma shard_call_settled fuel mfuel t ck :
  (T <= t)%nat -> (0 < fuel)%nat -> ck.(config) = c ->
  exists r, shard_call CallKv CallMaster fuel mfuel t args ck = Ret (Some r).
Proof.
  intros Ht Hf Ec. destruct fuel as [|fuel]; [lia|]. cbn [shard_call]. rewrite Ec.
  assert (idx c.(Shards) (key2shard (shard_key args)) = Ret gid) as ->.
  { apply idx_Ret. split; [|done]. apply key2shard_lt. }
  cbn [mbind res_bind]. rewrite Hgroup.
  destruct (try_group_accepts t servers) as (reply & t2 & ->); [done..|]. eauto.
Qed.

(** It needs at most [T + 2] rounds, each of at most [T + 1] rounds of [Query]. *)
Theorem shard_call_returns fuel mfuel t ck :
  (l < ck.(masters))%nat -> length ck.(config).(Shards) = NShards ->
  (T - t + 1 < fuel)%nat -> (T < mfuel)%nat ->
  exists r, shard_call CallKv CallMaster fuel mfuel t args ck = Ret (Some r).
Proof.
  intros Hl. revert t ck Hl. induction fuel as [|fuel IH]; intros t ck Hl Hlen Hf Hm; [lia|]. cbn [shard_call].
  destruct (idx_in_range ck.(config).(Shards) (key2shard (shard_key args))) as [g Hg].
  { unfold len. rewrite Hlen. pose proof (key2shard_lt (shard_key args)). unfold NShards. lia. }
  rewrite Hg. cbn [mbind res_bind].
  assert (forall t1, (t <= t1)%nat -> exists r,
    match Query CallMaster mfuel t1 ck.(masters) (-1) with
    | Some (config, t0) => shard_call CallKv CallMaster fuel mfuel t0 args {| masters := ck.(masters); config := config |}
    | None => Ret None
    end = Ret (Some r)) as Hnext.
  { intros t1 Ht1. destruct (master_query_returns CallMaster T l ck.(masters) (-1) mfuel t1)
      as (reply & t2 & t' & srv & -> & Ht & Hcall & Hw); [done|done|lia|].
    destruct (le_lt_dec T t1) as [Hle|Hlt].
    - apply shard_call_settled; [lia|lia|]. apply (Hc t' srv); [lia|done|done].
    - apply IH; cbn; [done|by eapply Harray|lia|done]. }
  destruct (ck.(config).(Groups) !! g) as [srvs|]; [|by apply Hnext].
  pose proof (try_group_inv CallKv t args srvs) as Hinv.
  destruct (try_group CallKv t args srvs) as [[r t1]|t1]; [eauto|by apply Hnext].
Qed.
End progress.

Definition stub_master (t l : nat) (args : MasterArgs) : option MasterReply :=
  Some (master_handler (StartMaster 0) args).2.

(** With the stub master, [Get] of the sharded service never returns: the
    master always answers with the zero configuration, in which no group serves
    any shard, so the clerk asks again for ever and contacts no server. *)
Theorem shard_get_never_returns CallKv fuel mfuel t masters key :
  Get CallKv stub_master fuel mfuel t key (MakeClerk masters) = Ret None.
Proof.
  unfold Get. enough (shard_call CallKv stub_master fuel mfuel t (SGet key) (MakeClerk masters) = Ret None)
    as -> by done.
  revert t. induction fuel as [|fuel IH]; intros t; [done|]. cbn [shard_call shard_key].
  assert (idx (config (MakeClerk masters)).(Shards) (key2shard key) = Ret 0) as ->.
  { pose proof (key2shard_lt key). apply idx_Ret. split; [lia|].
    apply lookup_replicate. split; [done|]. unfold NShards. lia. }
  cbn [mbind res_bind]. cbn [config MakeClerk Groups zeroConfig]. rewrite lookup_empty.
  unfold Query. destruct (master_call stub_master mfuel t masters (QueryArgs (-1))) as [[r t2]|] eqn:Em;
    cbn [config MakeClerk Shard.masters fmap option_fmap option_map] in *; rewrite Em; [|done].
  apply master_call_inv in Em as (_ & t' & srv & _ & _ & [= <-]). apply IH.
Qed.

(** ** An example: one group, one server *)

Definition demo_config : Config := {| Num := 1; Shards := replicate NShards 100; Groups := {[100 := ["s0"; "s1"]]} |}.
Definition demo_master (t l : nat) (args : MasterArgs) : option MasterReply :=
  if decide (t < 3)%nat then None
  else Some {| mr_WrongLeader := false; mr_Err := OK; mr_Config := demo_config |}.
Definition demo_kv (t : nat) (srv : string) (args : ShardArgs) : option ShardReply :=
  if decide (srv = "s1") then Some {| sr_WrongLeader := false; sr_Err := OK; sr_Value := "v" |} else None.

(** The clerk asks the masters four times, then server s0 and server s1. *)
Example shard_get_runs :
  Get demo_kv demo_master 2 4 0 "k" (MakeClerk 1) = Ret (Some ("v", {| masters := 1; config := demo_config |}, 6%nat)).
Proof. reflexivity. Qed.

Example shard_get_returns fuel mfuel t :
  (3 - t + 1 < fuel)%nat -> (3 < mfuel)%nat ->
  exists r, shard_call demo_kv demo_master fuel mfuel t (SGet "k") (MakeClerk 1) = Ret (Some r).
Proof.
  intros Hf Hm. apply (shard_call_returns demo_kv demo_master (SGet "k") 3 0 demo_config 100 ["s0"; "s1"] "s1");
    try done; try lia.
  - intros u Hu. unfold demo_master. rewrite decide_False by lia. eauto.
  - intros u srv reply. unfold demo_master. case_decide; [done|]. by intros [= <-].
  - intros u srv reply Hu. unfold demo_master. rewrite decide_False by lia. by intros [= <-].
  - right. left.
  - intros u _. unfold demo_kv. rewrite decide_True by done. eauto.
  - intros u srv reply _ _. unfold demo_kv. case_decide; [|done]. by intros [= <-].
  - cbn. lia.
Qed.
