(* ===== verification/SmConfig.v ===== *)
(** * SmConfig: the tester of the shardmaster (src/shardmaster/config.go)

    The file is that of the key/value service with other servers, and without the
    statistics; so the operations are those of SvcConfig.v on pairs of a
    [ShardMaster] (Shard.v) and its Raft peer, and the theorems of SvcMain.v hold
    of them as they are. *)

From S2P Require Import Prelude Gob Raft Shard LabRpc ConfigBase Testbed SvcConfig.
Local Open Scope Z_scope.

(** Commands are values of the empty struct [Op]. *)
Abbreviation SMOp := unit.
Abbreviation SMServer := (ShardMaster * Raft SMOp)%type.

Definition sm_methods : list Method :=
  [{| m_Name := "Join"; m_PkgPath := ""; m_In := [KPtr; KPtr; KPtr]; m_NumOut := 0 |};
   {| m_Name := "Kill"; m_PkgPath := ""; m_In := [KPtr]; m_NumOut := 0 |};
   {| m_Name := "Leave"; m_PkgPath := ""; m_In := [KPtr; KPtr; KPtr]; m_NumOut := 0 |};
   {| m_Name := "Move"; m_PkgPath := ""; m_In := [KPtr; KPtr; KPtr]; m_NumOut := 0 |};
   {| m_Name := "Query"; m_PkgPath := ""; m_In := [KPtr; KPtr; KPtr]; m_NumOut := 0 |};
   {| m_Name := "Raft"; m_PkgPath := ""; m_In := [KPtr]; m_NumOut := 1 |}].

Section sm.
Context `{!Gob (PVal SMOp)} `{!Rand} `{!CryptoRand}.

(** [StartServer] of src/shardmaster/server.go. *)
Definition start_master (n me : nat) (ps : Persister) : SMServer :=
  (StartMaster (Z.of_nat me), Make n (Z.of_nat me) ps).

Global Instance sm_server : TestServer SMOp SMServer := {
  start_server := start_master;
  raft_of := snd;
  services_of := [MakeService "ShardMaster" sm_methods; MakeService "Raft" raft_methods];
  start_persister := fun n me ps => Make_persister n (Z.of_nat me) ps;
}.

Abbreviation sm_config := (config SMServer).

Definition sm_checkTimeout : bool -> Z -> res unit := checkTimeout.
Definition sm_cleanup : bool -> Z -> sm_config -> res sm_config := cleanup.
Definition sm_LogSize : sm_config -> res Z := LogSize.
Definition sm_connectUnlocked : Z -> list Z -> sm_config -> res sm_config := connectUnlocked.
Definition sm_connect : Z -> list Z -> sm_config -> res sm_config := connect.
Definition sm_disconnectUnlocked : Z -> list Z -> sm_config -> res sm_config := disconnectUnlocked.
Definition sm_disconnect : Z -> list Z -> sm_config -> res sm_config := disconnect.
Definition sm_All : sm_config -> list Z := All.
Definition sm_ConnectAll : sm_config -> res sm_config := ConnectAll.
Definition sm_partition : list Z -> list Z -> sm_config -> res sm_config := SvcConfig.partition.
Definition sm_makeClient : list Z -> (nat -> Z) -> sm_config -> res (nat * list Name * sm_config) :=
  makeClient.
Definition sm_deleteClient : nat -> sm_config -> sm_config := deleteClient.
Definition sm_ConnectClientUnlocked : nat -> list Z -> sm_config -> res sm_config :=
  ConnectClientUnlocked.
Definition sm_ConnectClient : nat -> list Z -> sm_config -> res sm_config := ConnectClient.
Definition sm_DisconnectClientUnlocked : nat -> list Z -> sm_config -> res sm_config :=
  DisconnectClientUnlocked.
Definition sm_DisconnectClient : nat -> list Z -> sm_config -> res sm_config := DisconnectClient.
Definition sm_ShutdownServer : Z -> sm_config -> res sm_config := ShutdownServer.
Definition sm_StartServer : Z -> sm_config -> res sm_config := StartServer.
Definition sm_Leader : sm_config -> res (bool * Z) := Leader.
Definition sm_make_partition : sm_config -> res (list Z * list Z) := make_partition.
Definition sm_make_config : nat -> bool -> res sm_config := make_config.
End sm.
