(* ===== verification/Utf8.v ===== *)
(** * Utf8: runes of a Go string (standard library, as the repository uses it)

    Go strings are byte strings.  [range] over a string, [strings.FieldsFunc]
    and [encoding/json] see them as UTF-8: [runes] splits a string into its
    runes with the bytes of each; a byte that begins no valid sequence is the
    rune [RuneError] of width one (unicode/utf8, [DecodeRuneInString]).
    [FieldsFunc] is used by the word-count and inverted-index programs of
    src/main. *)

From S2P Require Import Prelude.
From Stdlib Require Import Ascii.
Local Open Scope N_scope.

Definition RuneError : N := 65533.

Definition between (lo hi : N) (c : ascii) : bool :=
  (lo <=? N_of_ascii c) && (N_of_ascii c <=? hi).

(** The sequences a first byte of at least 128 can begin: the number of bytes and
    the range of the second byte. *)
Definition first (b : N) : option (nat * N * N) :=
  if (b <? 194) then None
  else if b <=? 223 then Some (2%nat, 128, 191)
  else if b =? 224 then Some (3%nat, 160, 191)
  else if b =? 237 then Some (3%nat, 128, 159)
  else if b <=? 239 then Some (3%nat, 128, 191)
  else if b =? 240 then Some (4%nat, 144, 191)
  else if b <=? 243 then Some (4%nat, 128, 191)
  else if b =? 244 then Some (4%nat, 128, 143)
  else None.

(** The six payload bits of a continuation byte. *)
Definition payload (c : ascii) : N := N.land (N_of_ascii c) 63.

Fixpoint runes (s : string) : list (N * string) :=
  match s with
  | EmptyString => []
  | String c0 s1 =>
      let b0 := N_of_ascii c0 in
      let bad := (RuneError, String c0 EmptyString) :: runes s1 in
      if b0 <? 128 then (b0, String c0 EmptyString) :: runes s1
      else match first b0, s1 with
      | Some (size, lo, hi), String c1 s2 =>
          if negb (between lo hi c1) then bad
          else if (size =? 2)%nat then
            (N.lor (N.shiftl (N.land b0 31) 6) (payload c1),
             String c0 (String c1 EmptyString)) :: runes s2
          else match s2 with
          | String c2 s3 =>
              if negb (between 128 191 c2) then bad
              else if (size =? 3)%nat then
                (N.lor (N.shiftl (N.land b0 15) 12) (N.lor (N.shiftl (payload c1) 6) (payload c2)),
                 String c0 (String c1 (String c2 EmptyString))) :: runes s3
              else match s3 with
              | String c3 s4 =>
                  if negb (between 128 191 c3) then bad
                  else
                    (N.lor (N.shiftl (N.land b0 7) 18) (N.lor (N.shiftl (payload c1) 12)
                       (N.lor (N.shiftl (payload c2) 6) (payload c3))),
                     String c0 (String c1 (String c2 (String c3 EmptyString)))) :: runes s4
              | EmptyString => bad
              end
          | EmptyString => bad
          end
      | _, _ => bad
      end
  end.

(** A byte that is not part of a valid sequence. *)
Definition invalid (rw : N * string) : bool :=
  (rw.1 =? RuneError) && (String.length rw.2 =? 1)%nat.

Definition ValidString (s : string) : bool := forallb (fun rw => negb (invalid rw)) (runes s).

(** [strings.FieldsFunc]: the maximal runs of runes that do not satisfy [f]. *)
Fixpoint fields (f : N -> bool) (rs : list (N * string)) (cur : string) : list string :=
  match rs with
  | [] => if String.eqb cur "" then [] else [cur]
  | (r, w) :: rs =>
      if f r then (if String.eqb cur "" then [] else [cur]) ++ fields f rs ""
      else fields f rs (cur +:+ w)
  end.

Definition FieldsFunc (s : string) (f : N -> bool) : list string := fields f (runes s) "".

(** [unicode.IsLetter] on the first 256 code points; [table] is the Unicode
    table of letters above them. *)
Definition IsLetter (table : N -> bool) (r : N) : bool :=
  if r <=? 255 then
    ((65 <=? r) && (r <=? 90)) || ((97 <=? r) && (r <=? 122)) ||
    (r =? 170) || (r =? 181) || (r =? 186) ||
    ((192 <=? r) && (r <=? 214)) || ((216 <=? r) && (r <=? 246)) || (248 <=? r)
  else table r.

(** ** Lemmas *)

Lemma append_cons c s t : String c s +:+ t = String c (s +:+ t).
Proof. done. Qed.

Lemma append_nil_r s : s +:+ "" = s.
Proof. induction s as [|c s IH]; [done|]. by rewrite append_cons, IH. Qed.

Lemma append_assoc a b c : (a +:+ b) +:+ c = a +:+ (b +:+ c).
Proof. induction a as [|x a IH]; [done|]. by rewrite !append_cons, IH. Qed.

Lemma append_nil_inv a b : a +:+ b = "" -> a = "" /\ b = "".
Proof. by destruct a, b. Qed.

(** A rune with its bytes, in front of any string, is read as that rune. *)
Definition chunk (rw : N * string) : Prop :=
  rw.2 <> "" /\ forall s, runes (rw.2 +:+ s) = rw :: runes s.

Lemma runes_chunk s rw : rw ∈ runes s -> invalid rw = false -> chunk rw.
Proof.
  induction s as [s IH] using (induction_ltof1 _ String.length). unfold ltof in IH.
  intros Hin Hok. destruct s as [|c0 s1]; [by apply elem_of_nil in Hin|]. cbn [runes] in Hin.
  assert (Hbad : rw ∈ (RuneError, String c0 EmptyString) :: runes s1 -> chunk rw).
  { intros [->|Hr]%elem_of_cons; [done|]. eapply IH; [|done..]. cbn; lia. }
  assert (Hgo : forall w t, rw ∈ w :: runes t -> (String.length t < String.length (String c0 s1))%nat ->
            chunk w -> chunk rw).
  { intros w t [->|Hr]%elem_of_cons ? ?; [done|]. by eapply IH. }
  destruct (N_of_ascii c0 <? 128) eqn:E0.
  { eapply Hgo; [done|cbn; lia|]. split; [done|]. intros t. cbn [snd].
    rewrite append_cons. cbn [runes]. by rewrite E0. }
  destruct (first (N_of_ascii c0)) as [[[size lo] hi]|] eqn:Ef; [|by apply Hbad].
  destruct s1 as [|c1 s2]; [by apply Hbad|].
  destruct (negb (between lo hi c1)) eqn:E1; [by apply Hbad|].
  destruct (size =? 2)%nat eqn:Es2.
  { eapply Hgo; [done|cbn; lia|]. split; [done|]. intros t. cbn [snd].
    rewrite !append_cons. cbn [runes]. by rewrite E0, Ef, E1, Es2. }
  destruct s2 as [|c2 s3]; [by apply Hbad|].
  destruct (negb (between 128 191 c2)) eqn:E2; [by apply Hbad|].
  destruct (size =? 3)%nat eqn:Es3.
  { eapply Hgo; [done|cbn; lia|]. split; [done|]. intros t. cbn [snd].
    rewrite !append_cons. cbn [runes]. by rewrite E0, Ef, E1, Es2, E2, Es3. }
  destruct s3 as [|c3 s4]; [by apply Hbad|].
  destruct (negb (between 128 191 c3)) eqn:E3; [by apply Hbad|].
  eapply Hgo; [done|cbn; lia|]. split; [done|]. intros t. cbn [snd].
  rewrite !append_cons. cbn [runes]. by rewrite E0, Ef, E1, Es2, E2, Es3, E3.
Qed.

(** The bytes of a list of runes. *)
Fixpoint text (rs : list (N * string)) : string :=
  match rs with [] => "" | rw :: rs => rw.2 +:+ text rs end.

Lemma text_app rs1 rs2 : text (rs1 ++ rs2) = text rs1 +:+ text rs2.
Proof. induction rs1 as [|rw rs1 IH]; [done|]. cbn. by rewrite IH, append_assoc. Qed.

Lemma runes_text rs : Forall chunk rs -> runes (text rs) = rs.
Proof.
  induction 1 as [|rw rs [_ Hw] _ IH]; [done|]. cbn [text]. by rewrite Hw, IH.
Qed.

(** What [FieldsFunc] returns: non-empty strings of runes that do not satisfy [f]. *)
Lemma fields_spec f rs pre w :
  (forall rw, rw ∈ rs ++ pre -> f rw.1 = false -> chunk rw) ->
  (forall rw, rw ∈ pre -> f rw.1 = false) ->
  w ∈ fields f rs (text pre) ->
  w <> "" /\ exists ws, w = text ws /\ Forall chunk ws /\ Forall (fun rw => f rw.1 = false) ws.
Proof.
  revert pre. induction rs as [|[r b] rs IH]; intros pre Hch Hpre Hw; cbn [fields] in Hw.
  - destruct (String.eqb_spec (text pre) ""); [by apply elem_of_nil in Hw|].
    apply list_elem_of_singleton in Hw as ->. split; [done|]. exists pre. split; [done|].
    split; apply Forall_forall; [|done]. intros rw Hrw. apply Hch; [done|by apply Hpre].
  - destruct (f r) eqn:Ef.
    + apply elem_of_app in Hw as [Hw|Hw].
      * destruct (String.eqb_spec (text pre) ""); [by apply elem_of_nil in Hw|].
        apply list_elem_of_singleton in Hw as ->. split; [done|]. exists pre. split; [done|].
        split; apply Forall_forall; [|done]. intros rw Hrw. apply Hch; [|by apply Hpre].
        rewrite elem_of_app. by right.
      * apply (IH []); [|by intros ? ?%elem_of_nil|done].
        intros rw. rewrite app_nil_r. intros Hrw. apply Hch. rewrite elem_of_app. left. by right.
    + apply (IH (pre ++ [(r, b)])).
      * intros rw Hrw. apply Hch. rewrite !elem_of_app, elem_of_cons in *.
        rewrite elem_of_nil in Hrw. tauto.
      * intros rw [Hrw|Hrw%list_elem_of_singleton]%elem_of_app; [by apply Hpre|by subst].
      * rewrite text_app. cbn [text snd]. by rewrite append_nil_r.
Qed.

(** When [RuneError] separates fields, every field is a valid string. *)
Lemma FieldsFunc_valid s f w :
  f RuneError = true -> w ∈ FieldsFunc s f -> w <> "" /\ ValidString w = true.
Proof.
  intros Hf Hw. destruct (fields_spec f (runes s) [] w) as (Hne & ws & -> & Hch & Hno);
    [|by intros ? ?%elem_of_nil|done|].
  - intros rw. rewrite app_nil_r. intros Hin Hr. apply (runes_chunk s); [done|].
    unfold invalid. destruct (N.eqb_spec rw.1 RuneError) as [E|]; [|done]. by rewrite E, Hf in Hr.
  - split; [done|]. unfold ValidString. rewrite runes_text by done. apply forallb_forall.
    intros rw Hin. rewrite Forall_forall in Hno. specialize (Hno rw).
    rewrite list_elem_of_In in Hno. specialize (Hno Hin). unfold invalid.
    destruct (N.eqb_spec rw.1 RuneError) as [E|]; [|done]. by rewrite E, Hf in Hno.
Qed.

Lemma text_runes s : text (runes s) = s.
Proof.
  induction s as [s IH] using (induction_ltof1 _ String.length). unfold ltof in IH.
  destruct s as [|c0 s1]; [done|]. cbn [runes]. cbn [String.length] in IH.
  assert (H1 : forall r, text ((r, String c0 EmptyString) :: runes s1) = String c0 s1).
  { intros r. cbn [text snd]. rewrite IH by lia. done. }
  destruct (N_of_ascii c0 <? 128); [apply H1|].
  destruct (first (N_of_ascii c0)) as [[[size lo] hi]|]; [|apply H1].
  destruct s1 as [|c1 s2]; [apply H1|]. cbn [String.length] in IH.
  destruct (negb _); [apply H1|]. destruct (size =? 2)%nat.
  { cbn [text snd]. by rewrite IH by lia. }
  destruct s2 as [|c2 s3]; [apply H1|]. cbn [String.length] in IH.
  destruct (negb _); [apply H1|]. destruct (size =? 3)%nat.
  { cbn [text snd]. by rewrite IH by lia. }
  destruct s3 as [|c3 s4]; [apply H1|]. cbn [String.length] in IH.
  destruct (negb _); [apply H1|]. cbn [text snd]. by rewrite IH by lia.
Qed.

Lemma runes_text_app rs s : Forall chunk rs -> runes (text rs +:+ s) = rs ++ runes s.
Proof.
  induction 1 as [|rw rs [_ Hw] _ IH]; [done|]. cbn [text]. rewrite append_assoc, Hw, IH. done.
Qed.

(** Valid strings are closed under concatenation. *)
Lemma ValidString_app s t : ValidString s = true -> ValidString t = true -> ValidString (s +:+ t) = true.
Proof.
  unfold ValidString. intros Hs Ht. rewrite <- (text_runes s), runes_text_app.
  - rewrite forallb_app, Hs, Ht. done.
  - apply Forall_forall. intros rw Hin. apply (runes_chunk s); [done|].
    rewrite forallb_forall in Hs. specialize (Hs rw). rewrite <- list_elem_of_In in Hs.
    by apply negb_true_iff, Hs.
Qed.
