(* ===== verification/LabgobMain.v ===== *)
(** * LabgobMain: what the checks of labgob find

    [checkType] terminates on every type graph, checks exactly the types reachable
    from a value's type, and counts every lower-case field of every struct among
    them once in the life of the program.  [checkDefault] is a fold over the basic
    values within three levels; it panics on the fields that are not exported.
    What is encoded through the wrappers decodes as through gob. *)

From S2P Require Import Prelude Gob Utf8 Labgob.
From stdpp Require Import strings.
Local Open Scope Z_scope.

Section types.
Context (table : N -> bool) (desc : Ty -> Desc).
Implicit Types (t u : Ty) (st : LabState).

(** The types that [checkType] goes on to. *)
Definition children t : list Ty :=
  match desc t with
  | DStruct _ fs => map snd fs
  | DElem e => [e]
  | DMap e k => [e; k]
  | DOther => []
  end.

Definition part_of t u : Prop := u ∈ children t.

(** The number of lower-case fields. *)
Definition lower_fields (fs : list (string * Ty)) : nat :=
  length (filter (fun f => exported table f.1 = false) fs).
Definition lower t : nat := match desc t with DStruct _ fs => lower_fields fs | _ => 0%nat end.
Definition lowers (X : gset Ty) : nat := sum_list_with lower (elements X).

Lemma lowers_split (X Y Z : gset Ty) : X ⊆ Y -> Y ⊆ Z -> lowers (Z ∖ X) = (lowers (Y ∖ X) + lowers (Z ∖ Y))%nat.
Proof.
  intros HXY HYZ. unfold lowers.
  assert (Z ∖ X = (Y ∖ X) ∪ (Z ∖ Y)) as ->.
  { apply set_eq. intros t. rewrite elem_of_union, !elem_of_difference.
    destruct (decide (t ∈ Y)); set_solver. }
  rewrite elements_disj_union by set_solver. apply sum_list_with_app.
Qed.

Lemma lowers_singleton (X : gset Ty) t : t ∉ X -> lowers (({[t]} ∪ X) ∖ X) = lower t.
Proof.
  intros Ht. unfold lowers. assert (({[t]} ∪ X) ∖ X = {[t]}) as -> by set_solver.
  rewrite elements_singleton. cbn. lia.
Qed.

Lemma lowers_same (X : gset Ty) : lowers (X ∖ X) = 0%nat.
Proof. unfold lowers. rewrite difference_diag_L, elements_empty. done. Qed.

(** What a check that starts from the types [from] has done, with [extra]
    complaints of its own. *)
Record walked (from : list Ty) (extra : nat) st st' : Prop := {
  wk_mono : st.(checked) ⊆ st'.(checked);
  wk_from : forall t, t ∈ from -> t ∈ st'.(checked);
  wk_new : forall u, u ∈ st'.(checked) -> u ∉ st.(checked) ->
    (exists t, t ∈ from /\ rtc part_of t u) /\ forall c, part_of u c -> c ∈ st'.(checked);
  wk_count : st'.(errorCount)
    = st.(errorCount) + Z.of_nat (extra + lowers (st'.(checked) ∖ st.(checked)));
}.

Lemma walked_nil st : walked [] 0 st st.
Proof.
  split; [done|by intros t ?%not_elem_of_nil|done|]. rewrite lowers_same. cbn. lia.
Qed.

Lemma walked_app f1 f2 e1 e2 st st1 st2 :
  walked f1 e1 st st1 -> walked f2 e2 st1 st2 -> walked (f1 ++ f2) (e1 + e2) st st2.
Proof.
  intros [M1 F1 N1 C1] [M2 F2 N2 C2]. split.
  - set_solver.
  - intros t [?|?]%elem_of_app; [by apply M2, F1|by apply F2].
  - intros u Hu Hn. destruct (decide (u ∈ st1.(checked))) as [H1|H1].
    + destruct (N1 u H1 Hn) as [(t & Ht & Hr) Hc]. split; [exists t; set_solver|].
      intros c Hpc. by apply M2, Hc.
    + destruct (N2 u Hu H1) as [(t & Ht & Hr) Hc]. split; [exists t; set_solver|done].
  - rewrite C2, C1, (lowers_split _ _ _ M1 M2). lia.
Qed.

(** Entering type [t], whose parts are then walked. *)
Lemma walked_enter t st st' :
  t ∉ st.(checked) ->
  walked (children t) (lower t) (set_checked ({[t]} ∪ st.(checked)) st) st' -> walked [t] 0 st st'.
Proof.
  intros Ht [M F N C]. cbn in *. split.
  - set_solver.
  - intros u ->%list_elem_of_singleton. set_solver.
  - intros u Hu Hn. destruct (decide (u = t)) as [->|Hne].
    + split; [exists t; split; [by constructor|done]|]. intros c Hc. by apply F.
    + destruct (N u Hu) as [(c & Hc & Hr) Hk]; [set_solver|]. split; [|done].
      exists t. split; [by constructor|]. by eapply rtc_l.
  - rewrite C. rewrite (lowers_split st.(checked) ({[t]} ∪ st.(checked)) st'.(checked)) by set_solver.
    rewrite lowers_singleton by done. lia.
Qed.

(** A complaint about a field leaves [checked] alone. *)
Lemma walked_complain f from extra st st' :
  walked from extra (complain table f st) st' ->
  walked from ((if exported table f then 0 else 1) + extra) st st'.
Proof.
  unfold complain. destruct (exported table f); [done|]. intros [M F N C]. cbn in *.
  split; try done. rewrite C. cbn. lia.
Qed.

Lemma lower_fields_cons f t fs :
  lower_fields ((f, t) :: fs) = ((if exported table f then 0 else 1) + lower_fields fs)%nat.
Proof.
  unfold lower_fields. rewrite filter_cons. cbn. destruct (exported table f); [|done].
  by rewrite decide_False by done.
Qed.

Section walk.
Context (univ : gset Ty).
Hypothesis Hclosed : forall t u, t ∈ univ -> part_of t u -> u ∈ univ.

(** The types not yet checked. *)
Definition rest st : nat := size (univ ∖ st.(checked)).

Lemma rest_mono st st' : st.(checked) ⊆ st'.(checked) -> (rest st' <= rest st)%nat.
Proof. intros Hs. unfold rest. apply subseteq_size. set_solver. Qed.

Lemma rest_enter t st : t ∈ univ -> t ∉ st.(checked) ->
  (rest (set_checked ({[t]} ∪ st.(checked)) st) < rest st)%nat.
Proof. intros Ht Hn. unfold rest. cbn. apply subset_size. set_solver. Qed.

(** [check] walks every type of [univ], when few enough are left. *)
Definition walks (check : Ty -> LabState -> option LabState) (fuel : nat) : Prop :=
  forall t st, t ∈ univ -> (rest st < fuel)%nat ->
    exists st', check t st = Some st' /\ walked [t] 0 st st'.

Lemma fields_walk check fuel fs st :
  walks check fuel -> (forall t, t ∈ map snd fs -> t ∈ univ) -> (rest st < fuel)%nat ->
  exists st', fields_loop table check fs st = Some st' /\
    walked (map snd fs) (lower_fields fs) st st'.
Proof.
  intros Hc. revert st. induction fs as [|[f t] fs IH]; intros st Hu Hf.
  { exists st. split; [done|]. apply walked_nil. }
  destruct (Hc t (complain table f st)) as (st1 & E1 & W1); [apply Hu; constructor| |].
  { unfold complain. by destruct (exported table f). }
  apply walked_complain in W1 as W1'.
  destruct (IH st1) as (st2 & E2 & W2); [intros u Hin; apply Hu; by constructor| |].
  { pose proof (rest_mono st st1 (wk_mono _ _ _ _ W1')). lia. }
  exists st2. split; [cbn; rewrite E1; exact E2|]. rewrite lower_fields_cons.
  pose proof (walked_app _ _ _ _ _ _ _ W1' W2) as W. by rewrite Nat.add_0_r in W.
Qed.

Lemma checkType_walks fuel : walks (checkType table desc fuel) fuel.
Proof.
  induction fuel as [|fuel IH]; intros t st Ht Hf; [lia|]. cbn [checkType].
  destruct (decide (t ∈ st.(checked))) as [Hin|Hn].
  { exists st. split; [done|]. destruct (walked_nil st) as [? _ ? C]. split; try done.
    by intros u ->%list_elem_of_singleton. }
  pose proof (rest_enter t st Ht Hn) as Hr. set (st0 := set_checked _ st) in *.
  enough (exists st', match desc t with
    | DStruct _ fs => fields_loop table (checkType table desc fuel) fs st0
    | DElem e => checkType table desc fuel e st0
    | DMap e k => st1 ← checkType table desc fuel e st0; checkType table desc fuel k st1
    | DOther => Some st0
    end = Some st' /\ walked (children t) (lower t) st0 st') as (st' & E & W).
  { exists st'. split; [done|]. by apply walked_enter. }
  assert (forall u, u ∈ children t -> u ∈ univ) as Hu by (intros u; by apply Hclosed).
  unfold children, lower in *. destruct (desc t) as [name fs|e|e k|].
  - by apply (fields_walk _ fuel); [|done|lia].
  - apply IH; [apply Hu; constructor|lia].
  - destruct (IH e st0) as (st1 & E1 & W1); [apply Hu; constructor|lia|].
    destruct (IH k st1) as (st2 & E2 & W2); [apply Hu; right; constructor| |].
    { pose proof (rest_mono _ _ (wk_mono _ _ _ _ W1)). lia. }
    exists st2. split; [by rewrite E1|]. exact (walked_app [e] [k] 0 0 _ _ _ W1 W2).
  - exists st0. split; [done|]. apply walked_nil.
Qed.
End walk.

(** The parts of checked types are checked; true of no type, and kept. *)
Definition settled st : Prop := forall t u, t ∈ st.(checked) -> part_of t u -> u ∈ st.(checked).

Lemma settled_reach st t u : settled st -> t ∈ st.(checked) -> rtc part_of t u -> u ∈ st.(checked).
Proof. intros Hs Ht Hr. revert Ht. induction Hr; [done|]. intros. eauto. Qed.

(** C38. [checkType] terminates, also on types that contain themselves, with as many
    nested calls as there are unchecked types; it checks exactly the types that are
    reachable from the one it is given, and it adds to [errorCount] the number of
    lower-case fields of those that were not checked before: every struct is
    complained about once. *)
Theorem checkType_counts (univ : gset Ty) fuel t st :
  (forall t u, t ∈ univ -> part_of t u -> u ∈ univ) -> t ∈ univ ->
  (size (univ ∖ st.(checked)) < fuel)%nat -> settled st ->
  exists st', checkType table desc fuel t st = Some st' /\ settled st' /\
    (forall u, u ∈ st'.(checked) <-> u ∈ st.(checked) \/ rtc part_of t u) /\
    st'.(errorCount) = st.(errorCount) + Z.of_nat (lowers (st'.(checked) ∖ st.(checked))) /\
    checkType table desc 1 t st' = Some st'.
Proof.
  intros Hc Ht Hf Hset. destruct (checkType_walks univ Hc fuel t st Ht Hf) as (st' & E & [M F N C]).
  assert (settled st') as Hset'.
  { intros u v Hu Hv. destruct (decide (u ∈ st.(checked))) as [H1|H1]; [by eapply M, Hset|].
    by apply (N u Hu H1). }
  assert (t ∈ st'.(checked)) as Ht' by (apply F; constructor).
  exists st'. split; [done|]. split; [done|]. split; [|split].
  - intros u. split.
    + intros Hu. destruct (decide (u ∈ st.(checked))) as [H1|H1]; [by left|right].
      destruct (N u Hu H1) as [(t' & ->%list_elem_of_singleton & Hr) _]. done.
    + intros [Hu|Hu]; [by apply M|by eapply settled_reach].
  - rewrite C. by rewrite Nat.add_0_l.
  - cbn. by rewrite decide_True.
Qed.
End types.

(** ** [checkDefault] *)

Section defaults.
Context (table : N -> bool).

(** A basic value that the check comes to: whether it is read-only, the name of
    the path, the name of its type, whether it is zero. *)
Definition Leaf : Type := bool * string * string * bool.

(** The basic values within [n] levels, in order. *)
Fixpoint leaves (n : nat) (v : Value) (fl : Flag) (name : string) : list Leaf :=
  match n with
  | O => []
  | S n =>
      match v with
      | VStruct fs => fs ≫= fun '(f, embedded, vv) => leaves n vv (field_flag table fl f embedded) (field_name name f)
      | VPtr None => []
      | VPtr (Some v) => leaves n v fl name
      | VBasic tname z => [(readonly fl, name, tname, z)]
      | VOther => []
      end
  end.

(** What the leaves do, one after the other. *)
Fixpoint check_leaves (ls : list Leaf) (st : LabState) : res LabState :=
  match ls with
  | [] => Ret st
  | (ro, name, tname, z) :: ls => st ← check_basic ro name tname z st; check_leaves ls st
  end.

Lemma check_leaves_app l1 l2 st :
  check_leaves (l1 ++ l2) st = (st ← check_leaves l1 st; check_leaves l2 st).
Proof.
  revert st. induction l1 as [|[[[ro name] tname] z] l1 IH]; intros st; [done|]. cbn.
  destruct (check_basic ro name tname z st); cbn; [apply IH|done].
Qed.

Lemma checkDefault1_leaves n v depth fl name st :
  depth = 4 - Z.of_nat n -> checkDefault1 table v depth fl name st = check_leaves (leaves n v fl name) st.
Proof.
  revert v depth fl name st. induction n as [|n IH]; intros v depth fl name st ->.
  { destruct v as [fs|[v|]|tname z|]; reflexivity. }
  assert ((3 <? 4 - Z.of_nat (S n)) = false) as Hd by (apply Z.ltb_ge; lia).
  destruct v as [fs|[v|]|tname z|]; cbn [checkDefault1 leaves]; rewrite Hd; try done.
  - revert st. induction fs as [|[[f emb] vv] fs IHf]; intros st; [done|]. cbn.
    rewrite check_leaves_app, (IH vv) by lia.
    destruct (check_leaves _ st); cbn; [apply IHf|done].
  - apply IH. lia.
  - cbn. by destruct (check_basic (readonly fl) name tname z st).
Qed.

(** The leaves that hold a value other than zero. *)
Definition nonzero (ls : list Leaf) : nat := length (filter (fun l : Leaf => l.2 = false) ls).

Lemma nonzero_cons l ls :
  nonzero (l :: ls) = ((if l.2 then 0 else 1) + nonzero ls)%nat.
Proof. unfold nonzero. rewrite filter_cons. destruct l as [l0 z]. cbn. by destruct z. Qed.

Lemma check_leaves_spec ls st :
  match check_leaves ls st with
  | Panic => exists l, l ∈ ls /\ l.1.1.1 = true
  | Ret st' => (forall l, l ∈ ls -> l.1.1.1 = false) /\
      st'.(errorCount) = st.(errorCount) + Z.of_nat (nonzero ls) /\
      st'.(checked) = st.(checked) /\
      (1 <= st.(errorCount) -> st'.(printed) = st.(printed)) /\
      (0 <= st.(errorCount) -> (length st'.(printed) <= length st.(printed) + 1)%nat)
  end.
Proof.
  revert st. induction ls as [|[[[ro name] tname] z] ls IH]; intros st; cbn [check_leaves].
  { split; [by intros l ?%not_elem_of_nil|]. cbn. split_and!; try done; lia. }
  rewrite nonzero_cons. cbn [snd]. unfold check_basic. destruct ro; cbn [mbind res_bind].
  { exists (true, name, tname, z). split; [constructor|done]. }
  destruct z; cbn [mbind res_bind].
  - specialize (IH st). destruct (check_leaves ls st) as [st'|].
    + destruct IH as (Hl & ? & ? & ? & ?). split; [intros l [->|Hin]%elem_of_cons; [done|by apply Hl]|done].
    + destruct IH as (l & Hin & ?). exists l. split; [by constructor|done].
  - set (st1 := mkLab _ _ _). specialize (IH st1). destruct (check_leaves ls st1) as [st'|].
    + destruct IH as (Hl & He & Hc & Hp1 & Hp2). split; [intros l [->|Hin]%elem_of_cons; [done|by apply Hl]|].
      split; [rewrite He; cbn; lia|]. split; [done|]. split.
      * intros H1. rewrite Hp1 by (cbn; lia). cbn. destruct (Z.ltb_spec (errorCount st) 1); [lia|done].
      * intros H0. rewrite Hp1 by (cbn; lia). cbn.
        destruct (Z.ltb_spec (errorCount st) 1); [rewrite length_app; cbn|]; lia.
    + destruct IH as (l & Hin & ?). exists l. split; [by constructor|done].
Qed.

(** [checkDefault] looks at exactly the basic values within three levels of
    structs and pointers: it adds the number of those that are not zero to
    [errorCount], prints at most one warning, and none once an error was counted;
    and it panics exactly when one of them lies in a field whose name is not
    capitalised, the fields that the package is there to warn about; the capitalised
    fields of an embedded struct are not among them, whatever its name. *)
Theorem checkDefault_counts v st :
  match checkDefault table (Some v) st with
  | Panic => exists l, l ∈ leaves 3 v (mkFlag false false) "" /\ l.1.1.1 = true
  | Ret st' => (forall l, l ∈ leaves 3 v (mkFlag false false) "" -> l.1.1.1 = false) /\
      st'.(errorCount) = st.(errorCount) + Z.of_nat (nonzero (leaves 3 v (mkFlag false false) "")) /\
      st'.(checked) = st.(checked) /\
      (1 <= st.(errorCount) -> st'.(printed) = st.(printed)) /\
      (0 <= st.(errorCount) -> (length st'.(printed) <= length st.(printed) + 1)%nat)
  end.
Proof.
  unfold checkDefault. rewrite (checkDefault1_leaves 3) by done. apply check_leaves_spec.
Qed.
End defaults.

(** ** The wrappers *)

Section coders.
Context (table : N -> bool) (desc : Ty -> Desc) {V : Type} `{!Gob V} (typeOf : V -> option Ty).

(** What the wrapper encodes, the wrapper decodes, whatever the checks find. *)
Lemma lab_roundtrip fuel enc dec v t old rest st st1 st2 enc' bs r :
  gob_sync enc dec ->
  lab_Encode table desc typeOf fuel enc v st = Ret (Some (st1, (enc', bs))) ->
  lab_Decode table desc fuel dec t old (bs ++ rest) st1 = Ret (Some (st2, r)) ->
  exists dec', r = Some (dec', v, rest) /\ gob_sync enc' dec'.
Proof.
  intros Hs E D. unfold lab_Encode in E. bind_inv E. destruct x as [st0|]; [|done]. cbn in E.
  injection E as <- E. destruct (gob_Decode_Encode enc dec v enc' bs rest Hs E) as (dec' & Hd & Hs').
  unfold lab_Decode in D. bind_inv D. destruct x as [st3|]; [|done]. bind_inv D. inv_res.
  exists dec'. by rewrite Hd.
Qed.

(** A nil value panics in the check, before gob sees it: [Decode(nil)], which gob
    defines to skip a value, cannot be used through the wrapper. *)
Lemma lab_Decode_nil fuel dec bs st : lab_Decode (V := V) table desc fuel dec None None bs st = Panic.
Proof. done. Qed.
End coders.

(** ** The types of the package's test *)

Definition no_upper (r : N) : bool := false.

(** 0: int, 1: struct T4 { Yes int; no int }, 2: *T4, 3: map[*T4]int, 4: []map[*T4]int,
    5: a list node that points to its own type. *)
Definition test_types (t : Ty) : Desc :=
  match t with
  | 1%nat => DStruct "T4" [("Yes", 0%nat); ("no", 0%nat)]
  | 2%nat => DElem 1%nat
  | 3%nat => DMap 0%nat 2%nat
  | 4%nat => DElem 3%nat
  | 5%nat => DStruct "node" [("next", 6%nat); ("Val", 0%nat)]
  | 6%nat => DElem 5%nat
  | _ => DOther
  end.

Definition all_types : gset Ty := {[0; 1; 2; 3; 4; 5; 6]}%nat.

Lemma test_types_closed t u : t ∈ all_types -> part_of test_types t u -> u ∈ all_types.
Proof.
  unfold all_types, part_of, children. intros Ht.
  repeat (apply elem_of_union in Ht as [Ht|Ht]); apply elem_of_singleton in Ht as ->; cbn;
    rewrite ?elem_of_cons, elem_of_nil; intros Hu; destruct_or?; subst; set_solver.
Qed.

Definition after_test : LabState := default lab_init (checkType no_upper test_types 8 4 lab_init).

(** One complaint, about [no]; a recursive type, about [next]. *)
Lemma test_capital : after_test.(errorCount) = 1 /\ after_test.(printed) = ["no"].
Proof. split; vm_compute; reflexivity. Qed.
Lemma test_recursive :
  errorCount <$> checkType no_upper test_types 8 5 after_test = Some 2.
Proof. vm_compute. reflexivity. Qed.

Lemma checkType_counts_witness :
  exists st', checkType no_upper test_types 8 4 lab_init = Some st' /\ settled test_types st' /\
    (forall u, u ∈ st'.(checked) <-> u ∈ lab_init.(checked) \/ rtc (part_of test_types) 4%nat u) /\
    st'.(errorCount) = 0 + Z.of_nat (lowers no_upper test_types (st'.(checked) ∖ lab_init.(checked))) /\
    checkType no_upper test_types 1 4 st' = Some st'.
Proof.
  apply (checkType_counts no_upper test_types all_types 8 4 lab_init).
  - exact test_types_closed.
  - vm_compute. reflexivity.
  - vm_compute. lia.
  - intros t u Ht. cbn in Ht. by apply elem_of_empty in Ht.
Defined.

(** Decoding into a [T4] panics at the field [no]. *)
Lemma decode_lower_case_panics :
  checkDefault no_upper
    (Some (VPtr (Some (VStruct [("Yes", false, VBasic "int" true); ("no", false, VBasic "int" true)])))) lab_init
  = Panic.
Proof. vm_compute. reflexivity. Qed.

(** The test of the warning: one error. *)
Lemma decode_non_default :
  checkDefault no_upper (Some (VPtr (Some (VStruct [("X", false, VBasic "int" false)])))) lab_init
  = Ret (mkLab 1 ∅ ["X"]).
Proof. vm_compute. reflexivity. Qed.
