(* ===== verification/LabgobConc.v ===== *)
(** * LabgobConc: goroutines that check types and variables at the same time

    [checked] and [errorCount] are shared by all encoders and decoders of a
    program.  However the goroutines interleave, the types that are reachable from
    theirs are checked once, their lower-case fields counted once, and every non-zero
    value of a variable that is decoded into is counted; every schedule ends, and one
    goroutine alone does what [checkType] and [checkDefault] do. *)

From S2P Require Import Prelude Gob Utf8 Labgob LabgobMain.
From stdpp Require Import strings.
Local Open Scope Z_scope.

Section conc.
Context (table : N -> bool) (desc : Ty -> Desc).
Implicit Types (t u : Ty) (st : LabState) (gs : list (list Work)).

Local Abbreviation step := (gstep table desc).

(** ** The work of all goroutines *)


Global Instance mjoin_perm {A} : Proper ((≡ₚ) ==> (≡ₚ)) (mjoin (M := list) (A := A)).
Proof.
  intros l l' Hp. induction Hp as [|x l l' _ IH|x y l|l1 l2 l3 _ IH1 _ IH2]; cbn; [done|by rewrite IH| |by etrans].
  by rewrite !(assoc_L (++)), (Permutation_app_comm x y).
Qed.



(** [checkDefault] of the variable, before it is decoded into; an encoder has none. *)
Definition default_work (old : option Value) : list Work :=
  match old with
  | None => []
  | Some v => (fun '(ro, name, tname, z) => WBasic ro name tname z) <$> leaves table 3 v (mkFlag false false) ""
  end.

(** The checks of a call of [Encode], [Decode], [Register] or [RegisterName]. *)
Definition call_work (call : Ty * option Value) : list Work := WType call.1 :: default_work call.2.




(** ** What has been done, and what is left *)















(** ** Every schedule ends *)

Section ends.
Context (univ : gset Ty) (Hclosed : forall t u, t ∈ univ -> part_of desc t u -> u ∈ univ).





End ends.



(** ** One goroutine alone runs [checkType] and [checkDefault] *)

Lemma one_step w ws st l st' :
  work_step table desc w ws st = Ret (l, st') -> step ([w :: ws], st) ([l], st').
Proof. intros E. exact (G_step table desc [w :: ws] 0 w ws st (l, st') eq_refl E). Qed.

Definition runs_as (check : Ty -> LabState -> option LabState) : Prop :=
  forall t st st' ws, check t st = Some st' -> rtc step ([WType t :: ws], st) ([ws], st').

Lemma fields_run check fs ws st st' :
  runs_as check -> fields_loop table check fs st = Some st' ->
  rtc step ([(fs ≫= fun '(f, u) => [WField f; WType u]) ++ ws], st) ([ws], st').
Proof.
  intros Hc. revert st. induction fs as [|[f u] fs IH]; intros st E; cbn in E; [by simplify_eq|].
  destruct (check u (complain table f st)) as [st1|] eqn:E1; [|done]. cbn in E.
  eapply rtc_l; [by apply one_step|]. cbn. etrans; [by apply Hc|]. by apply IH.
Qed.

Lemma checkType_runs fuel : runs_as (checkType table desc fuel).
Proof.
  induction fuel as [|fuel IH]; intros t st st' ws E; [done|]. cbn [checkType] in E.
  destruct (decide (t ∈ st.(checked))) as [Ht|Ht].
  { injection E as <-. apply rtc_once, one_step. cbn. by rewrite decide_True. }
  eapply rtc_l; [apply one_step; cbn; by rewrite decide_False|]. cbn. unfold parts_work.
  destruct (desc t) as [name fs|e|e k|].
  - by eapply fields_run.
  - by apply IH.
  - destruct (checkType table desc fuel e _) as [st1|] eqn:E1; [|done]. cbn in E.
    etrans; [by apply IH|]. by apply IH.
  - by simplify_eq.
Qed.

Lemma checkDefault_runs old st st' ws :
  checkDefault table old st = Ret st' -> rtc step ([default_work old ++ ws], st) ([ws], st').
Proof.
  destruct old as [v|]; cbn [checkDefault default_work]; [|by intros [= ->]].
  rewrite (checkDefault1_leaves table 3) by done. generalize (leaves table 3 v (mkFlag false false) "").
  intros ls. revert st. induction ls as [|[[[ro name] tname] z] ls IH]; intros st E; cbn in E; [by simplify_eq|].
  destruct (check_basic ro name tname z st) as [st1|] eqn:E1; [|done]. cbn in E.
  eapply rtc_l; [apply one_step; cbn; by rewrite E1|]. by apply IH.
Qed.

(** The checks of [Decode], by a goroutine alone. *)
Lemma call_runs fuel t old st st1 st2 ws :
  checkType table desc fuel t st = Some st1 -> checkDefault table old st1 = Ret st2 ->
  rtc step ([call_work (t, old) ++ ws], st) ([ws], st2).
Proof. intros E1 E2. etrans; [by eapply checkType_runs|]. by apply checkDefault_runs. Qed.
End conc.


