(* ===== verification/MapReduce.v ===== *)
(** * MapReduce: the tasks of a job and its sequential run (src/mapreduce)

    Files are a map from names to contents.  [doMap], [doReduce], [merge] and
    [CleanupFiles] are functions on it; a run-time panic and [log.Fatal] both
    stop the process and are [Panic].  What Go leaves open is an argument: which
    files the operating system lets the process create ([can_create]), the order
    in which [range] visits a map ([GoMapOrder]) and the JSON codec
    ([JsonCodec]). *)

From S2P Require Import Prelude Utf8.
From stdpp Require Import pretty sorting.
From Stdlib Require Import Ascii.
Local Open Scope Z_scope.

(** ** Names and data (src/mapreduce/common.go) *)

Inductive jobPhase := mapPhase | reducePhase.

Record KeyValue := { Key : string; Value : string }.

(** [strconv.Itoa] *)
Definition Itoa (n : Z) : string := pretty n.

Definition reduceName (jobName : string) (mapTask reduceTask : Z) : string :=
  "mrtmp." +:+ jobName +:+ "-" +:+ Itoa mapTask +:+ "-" +:+ Itoa reduceTask.

Definition mergeName (jobName : string) (reduceTask : Z) : string :=
  "mrtmp." +:+ jobName +:+ "-res-" +:+ Itoa reduceTask.

(** FNV-1a on 32 bits, without the sign bit. *)
Fixpoint fnv32a (h : Z) (s : string) : Z :=
  match s with
  | EmptyString => h
  | String c s => fnv32a (Z.lxor h (Z.of_N (N_of_ascii c)) * 16777619 mod 2 ^ 32) s
  end.

Definition ihash (s : string) : Z := Z.land (fnv32a 2166136261 s) 0x7fffffff.

(** ** Files, JSON and the order of map iteration *)

Abbreviation FS := (gmap string string).

(** [json.Encoder.Encode] writes one value and a newline; [json.Decoder.Decode]
    reads one value and fails at the end of the file.  Strings that are valid
    UTF-8 survive; JSON replaces other bytes. *)
Class JsonCodec := {
  json_Encode : KeyValue -> string;
  json_Decode : string -> option (KeyValue * string);
  json_Decode_Encode : forall kv rest,
    ValidString kv.(Key) = true -> ValidString kv.(Value) = true ->
    json_Decode (json_Encode kv +:+ rest) = Some (kv, rest);
  json_Decode_eof : json_Decode "" = None;
  json_Decode_consumes : forall s kv rest,
    json_Decode s = Some (kv, rest) -> (String.length rest < String.length s)%nat
}.

(** [for k, v := range m] visits every entry once, in an order that may differ
    from one loop to the next: [seed] names the loop. *)
Class GoMapOrder := {
  range_map : forall {V}, Z -> gmap string V -> list (string * V);
  range_map_perm : forall V seed (m : gmap string V), range_map seed m ≡ₚ map_to_list m
}.

(** A Go [for i := 0; i < n; i++] loop over a state. *)
Fixpoint for_loop {S} (k : nat) (i : Z) (body : Z -> S -> res S) (s : S) : res S :=
  match k with
  | O => Ret s
  | Datatypes.S k => s' ← body i s; for_loop k (i + 1) body s'
  end.
Definition for_range {S} (n : Z) (body : Z -> S -> res S) (s : S) : res S :=
  for_loop (Z.to_nat n) 0 body s.

(** [x % y] on integers that are not negative. *)
Definition go_rem (x y : Z) : res Z := if y =? 0 then Panic else Ret (Z.rem x y).

(** [make([]T, n)] *)
Definition make_slice {A} (n : Z) (zero : A) : res (list A) :=
  if n <? 0 then Panic else Ret (replicate (Z.to_nat n) zero).

Section tasks.
Context `{!JsonCodec, !GoMapOrder} (can_create : string -> bool).

(** [os.Create] and everything written to the file until it is closed. *)
Definition create (name contents : string) (fs : FS) : res FS :=
  if can_create name then Ret (<[name := contents]> fs) else Panic.

(** What an encoder writes for a list of pairs. *)
Fixpoint encode_kvs (kvs : list KeyValue) : string :=
  match kvs with
  | [] => ""
  | kv :: kvs => json_Encode kv +:+ encode_kvs kvs
  end.

(** [dec.Decode] until it fails.  A decoded value takes at least one byte, so
    the length of the file bounds the number of values. *)
Fixpoint decode_loop (fuel : nat) (s : string) : list KeyValue :=
  match fuel with
  | O => []
  | S fuel =>
      match json_Decode s with
      | Some (kv, rest) => kv :: decode_loop fuel rest
      | None => []
      end
  end.
Definition decode_kvs (s : string) : list KeyValue := decode_loop (S (String.length s)) s.

(** ** A map task (src/mapreduce/common_map.go) *)

(** The first loop of [doMap]: every pair to the slice of its reduce task. *)
Fixpoint partition_kvs (nReduce : Z) (keyValues : list KeyValue) (tasks : list (list KeyValue))
    : res (list (list KeyValue)) :=
  match keyValues with
  | [] => Ret tasks
  | kv :: keyValues =>
      taskNo ← go_rem (ihash kv.(Key)) nReduce;
      task ← idx tasks taskNo;
      tasks' ← upd tasks taskNo (task ++ [kv]);
      partition_kvs nReduce keyValues tasks'
  end.

Definition doMap (jobName : string) (mapTask : Z) (inFile : string) (nReduce : Z)
    (mapF : string -> string -> list KeyValue) (fs : FS) : res FS :=
  inContent ← res_of_option (fs !! inFile);
  let keyValues := mapF inFile inContent in
  tasks ← make_slice nReduce [];
  tasks ← partition_kvs nReduce keyValues tasks;
  for_range nReduce (fun i fs =>
    task ← idx tasks i;
    create (reduceName jobName mapTask i) (encode_kvs task) fs) fs.

(** ** A reduce task (src/mapreduce/common_reduce.go) *)

(** [kvs[kv.Key] = append(kvs[kv.Key], kv.Value)] *)
Definition append_value (kvs : gmap string (list string)) (kv : KeyValue) : gmap string (list string) :=
  <[kv.(Key) := default [] (kvs !! kv.(Key)) ++ [kv.(Value)]]> kvs.

Definition doReduce (jobName : string) (reduceTask : Z) (outFile : string) (nMap : Z)
    (reduceF : string -> list string -> string) (fs : FS) : res FS :=
  kvs ← for_range nMap (fun m kvs =>
    reduceFile ← res_of_option (fs !! reduceName jobName m reduceTask);
    Ret (foldl append_value kvs (decode_kvs reduceFile))) ∅;
  create outFile
    (encode_kvs ((fun kv => {| Key := kv.1; Value := reduceF kv.1 kv.2 |}) <$> range_map reduceTask kvs))
    fs.

(** ** The master (src/mapreduce/master.go, master_splitmerge.go) *)

Record Master := {
  address : string; workers : list string;
  jobName : string; files : list string; nReduce : Z; stats : list Z
}.

Definition newMaster (master : string) : Master :=
  {| address := master; workers := []; jobName := ""; files := []; nReduce := 0; stats := [] |}.

Definition Register (worker : string) (mr : Master) : Master :=
  {| address := mr.(address); workers := mr.(workers) ++ [worker]; jobName := mr.(jobName);
     files := mr.(files); nReduce := mr.(nReduce); stats := mr.(stats) |}.

(** One line of the result. *)
Definition outline (k v : string) : string := k +:+ ": " +:+ v +:+ String "010" "".

Definition concat_strings (l : list string) : string := foldr String.append "" l.

Definition merge (mr : Master) (fs : FS) : res FS :=
  kvs ← for_range mr.(nReduce) (fun i (kvs : gmap string string) =>
    file ← res_of_option (fs !! mergeName mr.(jobName) i);
    Ret (foldl (fun kvs kv => <[kv.(Key) := kv.(Value)]> kvs) kvs (decode_kvs file))) ∅;
  let keys := merge_sort String.le ((range_map mr.(nReduce) kvs).*1) in
  create ("mrtmp." +:+ mr.(jobName))
    (concat_strings ((fun k => outline k (default "" (kvs !! k))) <$> keys)) fs.

Definition removeFile (n : string) (fs : FS) : res FS :=
  match fs !! n with
  | Some _ => Ret (delete n fs)
  | None => Panic
  end.

Definition CleanupFiles (mr : Master) (fs : FS) : res FS :=
  fs ← for_range (len mr.(files)) (fun i fs =>
         for_range mr.(nReduce) (fun j fs => removeFile (reduceName mr.(jobName) i j) fs) fs) fs;
  fs ← for_range mr.(nReduce) (fun i fs => removeFile (mergeName mr.(jobName) i) fs) fs;
  removeFile ("mrtmp." +:+ mr.(jobName)) fs.

(** [run], with the phases of the job and what follows them as arguments; the
    signal to [Wait] at its end is the return. *)
Definition run (mr : Master) (job : string) (inputs : list string) (nreduce : Z)
    (schedule : Master -> jobPhase -> FS -> res FS) (finish : Master -> Master) (fs : FS)
    : res (Master * FS) :=
  let mr := {| address := mr.(address); workers := mr.(workers); jobName := job;
               files := inputs; nReduce := nreduce; stats := mr.(stats) |} in
  fs ← schedule mr mapPhase fs;
  fs ← schedule mr reducePhase fs;
  let mr := finish mr in
  fs ← merge mr fs;
  Ret (mr, fs).

Definition sequential_phase (mapF : string -> string -> list KeyValue)
    (reduceF : string -> list string -> string) (mr : Master) (phase : jobPhase) (fs : FS) : res FS :=
  match phase with
  | mapPhase =>
      for_range (len mr.(files)) (fun i fs =>
        f ← idx mr.(files) i; doMap mr.(jobName) i f mr.(nReduce) mapF fs) fs
  | reducePhase =>
      for_range mr.(nReduce) (fun i fs =>
        doReduce mr.(jobName) i (mergeName mr.(jobName) i) (len mr.(files)) reduceF fs) fs
  end.

Definition Sequential (job : string) (inputs : list string) (nreduce : Z)
    (mapF : string -> string -> list KeyValue) (reduceF : string -> list string -> string) (fs : FS)
    : res (Master * FS) :=
  run (newMaster "master") job inputs nreduce (sequential_phase mapF reduceF)
    (fun mr => {| address := mr.(address); workers := mr.(workers); jobName := mr.(jobName);
                  files := mr.(files); nReduce := mr.(nReduce);
                  stats := [len inputs + nreduce] |}) fs.
End tasks.
