(* ===== verification/MRFacts.v ===== *)
(** * MRFacts: file names, streams and tasks of a MapReduce job

    The names of the files of a job are distinct; what a task writes is what
    another reads; the effect of one map task and of one reduce task. *)

From S2P Require Import Prelude Utf8 MapReduce.
From stdpp Require Import pretty sorting.
From Stdlib Require Import Ascii.
Local Open Scope Z_scope.

(** ** Decimal numbers and file names *)

Fixpoint all_chars (P : ascii -> bool) (s : string) : bool :=
  match s with
  | EmptyString => true
  | String c s => P c && all_chars P s
  end.

(** The characters of a number are neither a dash nor an [r], and are ASCII. *)
Definition digit_like (c : ascii) : bool :=
  bool_decide (c ≠ "-"%char) && bool_decide (c ≠ "r"%char) && (N_of_ascii c <? 128)%N.
Definition digits : string -> bool := all_chars digit_like.

Lemma pretty_N_go_digits x s : digits s = true -> digits (pretty_N_go x s) = true.
Proof.
  revert s. induction (N.lt_wf_0 x) as [x _ IH]; intros s Hs.
  assert (x = 0 \/ 0 < x)%N as [->|Hx] by lia; [done|].
  rewrite pretty_N_go_step by done. apply IH; [by apply N.div_lt|]. unfold digits in *. cbn [all_chars].
  rewrite Hs. unfold pretty_N_char. by repeat case_match.
Qed.

Lemma Itoa_digits n : 0 <= n -> digits (Itoa n) = true.
Proof.
  intros Hn. destruct n as [|p|p]; [done| |lia].
  unfold Itoa, pretty, pretty_Z, pretty, pretty_positive, pretty, pretty_N.
  rewrite decide_False by done. by apply pretty_N_go_digits.
Qed.

(** ASCII strings are valid UTF-8. *)
Lemma ascii_valid s : all_chars (fun c => N_of_ascii c <? 128)%N s = true -> ValidString s = true.
Proof.
  induction s as [|c s IH]; [done|]. cbn [all_chars]. intros [Hc Hs]%andb_true_iff.
  unfold ValidString. cbn [runes]. rewrite Hc. cbn [forallb]. apply andb_true_iff. split; [|by apply IH].
  unfold invalid. cbn [fst snd]. apply negb_true_iff, andb_false_iff. left. apply N.ltb_lt in Hc.
  apply N.eqb_neq. unfold RuneError. lia.
Qed.

Lemma all_chars_weaken (P Q : ascii -> bool) s :
  (forall c, P c = true -> Q c = true) -> all_chars P s = true -> all_chars Q s = true.
Proof.
  intros HPQ. induction s as [|c s IH]; [done|]. cbn. intros [? ?]%andb_true_iff.
  apply andb_true_iff. auto.
Qed.

Lemma Itoa_valid n : 0 <= n -> ValidString (Itoa n) = true.
Proof.
  intros Hn. apply ascii_valid. eapply all_chars_weaken; [|by apply Itoa_digits].
  unfold digit_like. by intros c [_ ?]%andb_true_iff.
Qed.

Lemma Itoa_nonempty n : Itoa n <> "".
Proof.
  intros H. assert (n = 0 \/ n <> 0) as [->|Hn] by lia; [done|].
  destruct n as [|p|p]; [done| |done]. unfold Itoa, pretty, pretty_Z, pretty, pretty_positive, pretty, pretty_N in H.
  rewrite decide_False in H by done.
  assert (forall x s, s <> "" -> pretty_N_go x s <> "") as Hgo.
  { intros x. induction (N.lt_wf_0 x) as [x _ IH]; intros s Hs.
    assert (x = 0 \/ 0 < x)%N as [->|Hx] by lia; [done|].
    rewrite pretty_N_go_step by done. apply IH; [by apply N.div_lt|done]. }
  rewrite pretty_N_go_step in H by lia. by apply Hgo in H.
Qed.

Lemma append_inj_l p s t : p +:+ s = p +:+ t -> s = t.
Proof. induction p as [|c p IH]; [done|]. rewrite !append_cons. by intros [= ?%IH]. Qed.

Lemma split_dash a a' b b' :
  digits a = true -> digits a' = true ->
  a +:+ "-" +:+ b = a' +:+ "-" +:+ b' -> a = a' /\ b = b'.
Proof.
  revert a'. induction a as [|c a IH]; intros [|c' a'] Ha Ha'; cbn in Ha, Ha'; rewrite ?append_cons.
  - intros E. by injection E as E.
  - intros E. injection E as <- _. done.
  - intros E. injection E as -> _. done.
  - intros E. injection E as -> E. apply andb_true_iff in Ha as [_ Ha], Ha' as [_ Ha'].
    by destruct (IH a' Ha Ha' E) as [-> ->].
Qed.

Lemma reduceName_inj job m r m' r' :
  0 <= m -> 0 <= m' -> reduceName job m r = reduceName job m' r' -> m = m' /\ r = r'.
Proof.
  unfold reduceName. intros Hm Hm' E. do 3 apply append_inj_l in E.
  apply split_dash in E as [E1 E2]; [|by apply Itoa_digits..].
  by apply (inj pretty) in E1, E2.
Qed.

Lemma mergeName_inj job r r' : mergeName job r = mergeName job r' -> r = r'.
Proof. unfold mergeName. intros E. do 3 apply append_inj_l in E. by apply (inj pretty) in E. Qed.

Lemma reduceName_mergeName job m r r' : 0 <= m -> reduceName job m r <> mergeName job r'.
Proof.
  unfold reduceName, mergeName. intros Hm E. do 2 apply append_inj_l in E.
  apply (append_inj_l "-" _ ("res-" +:+ _)) in E.
  pose proof (Itoa_digits m Hm) as Hd. pose proof (Itoa_nonempty m) as Hne.
  destruct (Itoa m) as [|c s]; [done|]. rewrite append_cons in E. injection E as -> _.
  by cbn in Hd.
Qed.

Lemma append_self_nil s t : s +:+ t = s -> t = "".
Proof. rewrite <- (append_nil_r s) at 2. apply append_inj_l. Qed.

Lemma reduceName_outName job m r : reduceName job m r <> "mrtmp." +:+ job.
Proof. unfold reduceName. intros E%append_inj_l%append_self_nil. done. Qed.

Lemma mergeName_outName job r : mergeName job r <> "mrtmp." +:+ job.
Proof. unfold mergeName. intros E%append_inj_l%append_self_nil. done. Qed.

(** ** Hashes *)

Lemma fnv32a_range s h : 0 <= h < 2 ^ 32 -> 0 <= fnv32a h s < 2 ^ 32.
Proof.
  revert h. induction s as [|c s IH]; intros h Hh; [done|]. cbn [fnv32a]. apply IH.
  apply Z.mod_pos_bound. lia.
Qed.

Lemma ihash_range s : 0 <= ihash s < 2 ^ 31.
Proof.
  unfold ihash. pose proof (fnv32a_range s 2166136261 ltac:(lia)) as Hh.
  change 0x7fffffff with (Z.ones 31). rewrite Z.land_ones by lia. apply Z.mod_pos_bound. lia.
Qed.

(** The reduce task of a key. *)
Definition bin (nReduce : Z) (k : string) : Z := ihash k mod nReduce.

Lemma bin_range n k : 0 < n -> 0 <= bin n k < n.
Proof. intros. by apply Z.mod_pos_bound. Qed.

Lemma go_rem_bin n k : 0 < n -> go_rem (ihash k) n = Ret (bin n k).
Proof.
  intros Hn. unfold go_rem, bin. destruct (Z.eqb_spec n 0); [lia|]. f_equal.
  apply Z.rem_mod_nonneg; [|done]. apply ihash_range.
Qed.

(** ** Loops *)

Lemma for_range_inv {S} (P : Z -> S -> Prop) n body s :
  0 <= n -> P 0 s ->
  (forall i s, 0 <= i < n -> P i s -> exists s', body i s = Ret s' /\ P (i + 1) s') ->
  exists s', for_range n body s = Ret s' /\ P n s'.
Proof.
  intros Hn H0 Hstep. unfold for_range.
  enough (forall k i s, i + Z.of_nat k = n -> 0 <= i -> P i s ->
            exists s', for_loop k i body s = Ret s' /\ P n s') as Hk.
  { apply Hk; [lia|lia|done]. }
  induction k as [|k IH]; intros i t Hi Hi0 HP; cbn [for_loop].
  - exists t. split; [done|]. by replace n with i by lia.
  - destruct (Hstep i t) as (t' & Hb & HP'); [lia|done|]. rewrite Hb. cbn. apply IH; [lia|lia|done].
Qed.

(** ** Values by key and by reduce task *)

(** The values of key [k], in order. *)
Definition values (k : string) (l : list KeyValue) : list string :=
  Value <$> filter (fun kv => Key kv = k) l.

(** The pairs for reduce task [r] of [n]. *)
Definition in_bin (n r : Z) (l : list KeyValue) : list KeyValue :=
  filter (fun kv => bin n (Key kv) = r) l.

Lemma values_app k l1 l2 : values k (l1 ++ l2) = values k l1 ++ values k l2.
Proof. unfold values. by rewrite filter_app, fmap_app. Qed.

Lemma in_bin_app n r l1 l2 : in_bin n r (l1 ++ l2) = in_bin n r l1 ++ in_bin n r l2.
Proof. apply filter_app. Qed.

Lemma values_cons k kv l :
  values k (kv :: l) = (if decide (Key kv = k) then [Value kv] else []) ++ values k l.
Proof. unfold values. rewrite filter_cons. by case_decide. Qed.

Lemma values_in_bin n r k l :
  values k (in_bin n r l) = if decide (bin n k = r) then values k l else [].
Proof.
  induction l as [|kv l IH]; [by case_decide|].
  change (kv :: l) with ([kv] ++ l). rewrite in_bin_app, !values_app, IH.
  assert (values k (in_bin n r [kv])
          = if decide (bin n k = r) then values k [kv] else []) as ->;
    [|by case_decide].
  unfold in_bin, values. rewrite filter_cons. destruct (decide (Key kv = k)) as [<-|Hk].
  - by case_decide.
  - assert (filter (fun kv => Key kv = k) [kv] = []) as E by (by rewrite filter_cons, decide_False).
    rewrite E. destruct (decide (bin n (Key kv) = r)); [change (kv :: _) with [kv]; rewrite E|]; by case_decide.
Qed.

Lemma values_nil_iff k l : values k l <> [] <-> exists v, {| Key := k; Value := v |} ∈ l.
Proof.
  induction l as [|[k' v'] l IH].
  - split; [done|]. by intros [v ?%elem_of_nil].
  - rewrite values_cons. cbn. setoid_rewrite elem_of_cons. case_decide as E.
    + subst. split; [|done]. intros _. exists v'. by left.
    + cbn. rewrite IH. split; [intros [v ?]; eauto|]. intros [v [[= -> _]|?]]; [done|eauto].
Qed.

(** The map a reduce task builds. *)
Definition groups (l : list KeyValue) : gmap string (list string) := foldl append_value ∅ l.

Lemma foldl_append_value l m k :
  foldl append_value m l !! k =
  if decide (values k l = []) then m !! k else Some (default [] (m !! k) ++ values k l).
Proof.
  revert m. induction l as [|kv l IH]; intros m; [done|]. cbn [foldl].
  rewrite IH, values_cons. unfold append_value. destruct (decide (Key kv = k)) as [->|Hne].
  - rewrite lookup_insert_eq. cbn [app]. rewrite (decide_False (P := _ :: _ = [])) by done.
    destruct (decide (values k l = [])) as [->|]; cbn; [done|]. by rewrite <- app_assoc.
  - rewrite lookup_insert_ne by done. done.
Qed.

Lemma groups_lookup l k :
  groups l !! k = if decide (values k l = []) then None else Some (values k l).
Proof. unfold groups. by rewrite foldl_append_value, lookup_empty. Qed.

(** ** Streams of pairs *)

Definition valid_kv (kv : KeyValue) : Prop := ValidString kv.(Key) = true /\ ValidString kv.(Value) = true.

Section streams.
Context `{!JsonCodec, !GoMapOrder}.

Lemma decode_encode_kvs kvs : Forall valid_kv kvs -> decode_kvs (encode_kvs kvs) = kvs.
Proof.
  intros Hv. unfold decode_kvs. generalize (Nat.lt_succ_diag_r (String.length (encode_kvs kvs))).
  generalize (S (String.length (encode_kvs kvs))) as fuel. induction Hv as [|kv kvs [? ?] _ IH]; intros fuel Hf.
  - destruct fuel; [done|]. cbn. by rewrite json_Decode_eof.
  - destruct fuel; [lia|]. cbn [decode_loop encode_kvs] in *.
    pose proof (json_Decode_Encode kv (encode_kvs kvs)) as Hd. rewrite Hd by done.
    f_equal. apply IH. specialize (Hd ltac:(done) ltac:(done)). apply json_Decode_consumes in Hd. lia.
Qed.

(** More fuel changes nothing: the length of the file is enough. *)
Lemma decode_loop_fuel fuel s :
  (String.length s < fuel)%nat -> decode_loop fuel s = decode_kvs s.
Proof.
  unfold decode_kvs. generalize (Nat.lt_succ_diag_r (String.length s)).
  generalize (S (String.length s)) as fuel'. revert fuel. induction s as [s IH] using (induction_ltof1 _ String.length).
  intros [|fuel] [|fuel'] Hf' Hf; [lia..|]. cbn. destruct (json_Decode s) as [[kv rest]|] eqn:E; [|done].
  apply json_Decode_consumes in E. f_equal. apply IH; unfold ltof; lia.
Qed.

(** The pairs that [merge] reads from the file of a reduce task. *)
Definition reduced (reduceF : string -> list string -> string) (seed : Z)
    (m : gmap string (list string)) : list KeyValue :=
  (fun kv => {| Key := kv.1; Value := reduceF kv.1 kv.2 |}) <$> range_map seed m.

Lemma foldl_insert_reduced_list reduceF (l : list (string * list string)) (kvs : gmap string string) k :
  NoDup l.*1 ->
  foldl (fun kvs kv => <[kv.(Key) := kv.(Value)]> kvs) kvs
    ((fun kv => {| Key := kv.1; Value := reduceF kv.1 kv.2 |}) <$> l) !! k =
  match (list_to_map l : gmap string (list string)) !! k with
  | Some v => Some (reduceF k v)
  | None => kvs !! k
  end.
Proof.
  revert kvs. induction l as [|[k' v'] l IH]; intros kvs Hnd; [done|].
  cbn in Hnd. apply NoDup_cons in Hnd as [Hni Hnd]. cbn [fmap list_fmap foldl fst snd Key Value].
  rewrite IH by done. cbn [list_to_map foldr]. cbn. destruct (decide (k' = k)) as [->|Hne].
  - rewrite lookup_insert_eq, not_elem_of_list_to_map_1 by done. by rewrite lookup_insert_eq.
  - by rewrite !lookup_insert_ne.
Qed.

Lemma foldl_insert_reduced reduceF seed m (kvs : gmap string string) k :
  foldl (fun kvs kv => <[kv.(Key) := kv.(Value)]> kvs) kvs (reduced reduceF seed m) !! k =
  match m !! k with Some v => Some (reduceF k v) | None => kvs !! k end.
Proof.
  assert (NoDup (range_map seed m).*1) as Hnd.
  { rewrite range_map_perm. apply NoDup_fst_map_to_list. }
  unfold reduced. rewrite foldl_insert_reduced_list by done.
  assert (list_to_map (range_map seed m) = m) as ->; [|done].
  rewrite (list_to_map_proper _ (map_to_list m)) by (done || apply range_map_perm).
  apply list_to_map_to_list.
Qed.
End streams.
