(* ===== verification/ShardkvConfig.v ===== *)
(** * ShardkvConfig: the tester of the sharded service (src/shardkv/config.go)

    Three masters and three groups of [n] key/value servers share one network, on
    which servers go by strings ("master0", "server-100-2").  A [*group] is updated
    in place in [groups]; persisters and server objects live in stores, as in
    Testbed.v.  The shardmaster clerk [mck] is the list of its ends. *)

From S2P Require Import Prelude Gob Raft LabRpc ConfigBase Testbed MapReduce MRFacts Shard SmConfig.
From stdpp Require Import strings pretty.
Local Open Scope Z_scope.

(** ** Servers (src/shardkv/server.go) *)

Record ShardKV := { skv_me : Z; skv_maxraftstate : Z; skv_gid : Z; skv_masters : list Name }.

Definition shardkv_methods : list Method :=
  [{| m_Name := "Get"; m_PkgPath := ""; m_In := [KPtr; KPtr; KPtr]; m_NumOut := 0 |};
   {| m_Name := "Kill"; m_PkgPath := ""; m_In := [KPtr]; m_NumOut := 0 |};
   {| m_Name := "PutAppend"; m_PkgPath := ""; m_In := [KPtr; KPtr; KPtr]; m_NumOut := 0 |}].

(** ** The state *)

Record group := mkGroup {
  gid : Z;
  gservers : list (option nat);
  gsaved : list (option nat);
  gendnames : list (option (list Name));
  mendnames : list (option (list Name));
}.

(** An object is kept with the location of its persister. *)
Abbreviation KVObject := (ShardKV * Raft unit * nat)%type.
Abbreviation MasterObject := (SMServer * nat)%type.

Record config := mkConfig {
  knet : Network;
  kdraws : nat;                       (* calls of randstring so far *)
  kheap : list Persister;
  kinsts : list KVObject;
  minsts : list MasterObject;
  nmasters : nat;
  masterservers : list (option nat);
  mck : list Name;
  ngroups : nat;
  gsize : nat;                        (* cfg.n *)
  groups : list (option group);       (* None: nil *)
  clerks : gmap nat (list Name);
  nclerks : nat;
  nextClientId : Z;
  maxraftstate : Z;
}.

Definition set_net (v : Network) (d : nat) (c : config) : config :=
  mkConfig v d c.(kheap) c.(kinsts) c.(minsts) c.(nmasters) c.(masterservers) c.(mck) c.(ngroups)
    c.(gsize) c.(groups) c.(clerks) c.(nclerks) c.(nextClientId) c.(maxraftstate).
Definition set_heap (v : list Persister) (c : config) : config :=
  mkConfig c.(knet) c.(kdraws) v c.(kinsts) c.(minsts) c.(nmasters) c.(masterservers) c.(mck)
    c.(ngroups) c.(gsize) c.(groups) c.(clerks) c.(nclerks) c.(nextClientId) c.(maxraftstate).
Definition set_kinsts (v : list KVObject) (c : config) : config :=
  mkConfig c.(knet) c.(kdraws) c.(kheap) v c.(minsts) c.(nmasters) c.(masterservers) c.(mck)
    c.(ngroups) c.(gsize) c.(groups) c.(clerks) c.(nclerks) c.(nextClientId) c.(maxraftstate).
Definition set_masters (v : list MasterObject) (m : list (option nat)) (c : config) : config :=
  mkConfig c.(knet) c.(kdraws) c.(kheap) c.(kinsts) v c.(nmasters) m c.(mck) c.(ngroups) c.(gsize)
    c.(groups) c.(clerks) c.(nclerks) c.(nextClientId) c.(maxraftstate).
Definition set_mck (v : list Name) (c : config) : config :=
  mkConfig c.(knet) c.(kdraws) c.(kheap) c.(kinsts) c.(minsts) c.(nmasters) c.(masterservers) v
    c.(ngroups) c.(gsize) c.(groups) c.(clerks) c.(nclerks) c.(nextClientId) c.(maxraftstate).
Definition set_groups (v : list (option group)) (c : config) : config :=
  mkConfig c.(knet) c.(kdraws) c.(kheap) c.(kinsts) c.(minsts) c.(nmasters) c.(masterservers) c.(mck)
    c.(ngroups) c.(gsize) v c.(clerks) c.(nclerks) c.(nextClientId) c.(maxraftstate).
Definition set_clerks (v : gmap nat (list Name)) (k : nat) (id : Z) (c : config) : config :=
  mkConfig c.(knet) c.(kdraws) c.(kheap) c.(kinsts) c.(minsts) c.(nmasters) c.(masterservers) c.(mck)
    c.(ngroups) c.(gsize) c.(groups) v k id c.(maxraftstate).

Definition on_net (f : Network -> Network) (c : config) : config := set_net (f c.(knet)) c.(kdraws) c.

Section shardkv.
Context `{!Gob (PVal unit)} `{!Rand} `{!CryptoRand}.

(** ** Names *)

Definition mastername (i : Z) : string := "master" +:+ Itoa i.
Definition servername (gid i : Z) : string := "server-" +:+ Itoa gid +:+ "-" +:+ Itoa i.

(** [randstring(20)]. *)
Definition fresh_name (c : config) : res (Name * config) :=
  s ← randstring c.(kdraws) 20; Ret (NStr s, set_net c.(knet) (S c.(kdraws)) c).

(** [MakeEnd], [Connect] and [Enable]. *)
Definition link (name : Name) (servername : string) (c : config) : res config :=
  r ← MakeEnd name c.(knet);
  Ret (on_net (fun _ => Enable name true (Connect name (NStr servername) r)) c).

(** The function that [makeClient] and [StartServer] pass as [make_end]. *)
Definition make_end (servername : string) (c : config) : res (Name * config) :=
  '(name, c) ← fresh_name c; c ← link name servername c; Ret (name, c).

(** A fresh end to every master. *)
Definition master_ends (c : config) : res (list Name * config) :=
  each (map Z.of_nat (seq 0 c.(nmasters))) (fun j st =>
    '(name, c) ← make_end (mastername j) st.2; Ret (st.1 ++ [name], c)) ([], c).

(** ** Masters and clerks *)

Definition add_server (name : string) (svcs : list Service) (c : config) : config :=
  let srv := foldl (fun s v => AddService v s) MakeServer svcs in
  on_net (fun rn => let '(rn, sp) := new_server srv rn in AddServer (NStr name) sp rn) c.

Definition StartMasterServer (i : Z) (c : config) : res config :=
  '(ends, c) ← master_ends c;
  let p := length c.(kheap) in
  let c := set_heap (c.(kheap) ++ [MakePersister]) c in
  let obj := (start_master (length ends) (Z.to_nat i) MakePersister, p) in
  m ← upd c.(masterservers) i (Some (length c.(minsts)));
  let c := set_masters (c.(minsts) ++ [obj]) m c in
  Ret (add_server (mastername i)
         [MakeService "ShardMaster" sm_methods; MakeService "Raft" raft_methods] c).

Definition shardclerk (c : config) : res (list Name * config) := master_ends c.

(** The loop of [makeClient]: [endnames] has [cfg.n] entries. *)
Definition client_end (j : Z) (st : list Name * list Name * config) : res (list Name * list Name * config) :=
  let '(endnames, ends, c) := st in
  '(name, c) ← fresh_name c;
  endnames ← upd endnames j name;
  c ← link name (mastername j) c;
  Ret (endnames, ends ++ [name], c).

(** The clerk and the ends of its shardmaster clerk. *)
Definition makeClient (c : config) : res (nat * list Name * config) :=
  '(endnames, ends, c) ← each (map Z.of_nat (seq 0 c.(nmasters))) client_end
    (replicate c.(gsize) (NStr ""), [], c);
  let ck := c.(nclerks) in
  Ret (ck, ends, set_clerks (<[ck := endnames]> c.(clerks)) (S ck) (c.(nextClientId) + 1) c).

Definition deleteClient (ck : nat) (c : config) : config :=
  set_clerks (delete ck c.(clerks)) c.(nclerks) c.(nextClientId) c.

(** ** Groups *)

(** [gg := cfg.groups[gi]]; its fields: nil panics. *)
Definition group_at (c : config) (gi : Z) : res group :=
  o ← idx c.(groups) gi; res_of_option o.
Definition put_group (gi : Z) (gg : group) (c : config) : res config :=
  v ← upd c.(groups) gi (Some gg); Ret (set_groups v c).

(** [rows[i][j]]: indexing a nil slice panics. *)
Definition cell (rows : list (option (list Name))) (i j : Z) : res Name :=
  o ← idx rows i; idx (default [] o) j.

Definition set_gendnames (v : list (option (list Name))) (gg : group) : group :=
  mkGroup gg.(gid) gg.(gservers) gg.(gsaved) v gg.(mendnames).
Definition set_mendnames (v : list (option (list Name))) (gg : group) : group :=
  mkGroup gg.(gid) gg.(gservers) gg.(gsaved) gg.(gendnames) v.
Definition set_gsaved (v : list (option nat)) (gg : group) : group :=
  mkGroup gg.(gid) gg.(gservers) v gg.(gendnames) gg.(mendnames).
Definition set_gservers (v : list (option nat)) (gg : group) : group :=
  mkGroup gg.(gid) v gg.(gsaved) gg.(gendnames) gg.(mendnames).

Definition persister_of (c : config) (p : nat) : res Persister := res_of_option (c.(kheap) !! p).

(** [gg.saved[i] = ps], a new persister. *)
Definition save (gi i : Z) (ps : Persister) (c : config) : res config :=
  gg ← group_at c gi;
  v ← upd gg.(gsaved) i (Some (length c.(kheap)));
  put_group gi (set_gsaved v gg) (set_heap (c.(kheap) ++ [ps]) c).

(** [if gg.saved[i] != nil { gg.saved[i] = gg.saved[i].Copy() }]. *)
Definition copy_saved (gi i : Z) (c : config) : res config :=
  gg ← group_at c gi;
  o ← idx gg.(gsaved) i;
  match o with
  | None => Ret c
  | Some p => ps ← persister_of c p; save gi i (Copy ps) c
  end.

(** ... [else { gg.saved[i] = raft.MakePersister() }]. *)
Definition renew_saved (gi i : Z) (c : config) : res config :=
  gg ← group_at c gi;
  o ← idx gg.(gsaved) i;
  match o with
  | None => save gi i MakePersister c
  | Some p => ps ← persister_of c p; save gi i (Copy ps) c
  end.

(** Disable the ends of a row, up to [k]. *)
Definition disable_row (rows : list (option (list Name))) (i : Z) (k : nat) (c : config) : res config :=
  each (map Z.of_nat (seq 0 k)) (fun j c =>
    name ← cell rows i j; Ret (on_net (Enable name false) c)) c.

(** [kv.Kill] does nothing. *)
Definition ShutdownServer (gi i : Z) (c : config) : res config :=
  gg ← group_at c gi;
  c ← disable_row gg.(gendnames) i (length gg.(gservers)) c;
  row ← idx gg.(mendnames) i;
  c ← disable_row gg.(mendnames) i (length (default [] row)) c;
  let c := on_net (DeleteServer (NStr (servername gg.(gid) i))) c in
  c ← copy_saved gi i c;
  gg ← group_at c gi;
  kv ← idx gg.(gservers) i;
  match kv with
  | None => Ret c
  | Some _ => v ← upd gg.(gservers) i None; put_group gi (set_gservers v gg) c
  end.

Definition ShutdownGroup (gi : Z) (c : config) : res config :=
  each (map Z.of_nat (seq 0 c.(gsize))) (ShutdownServer gi) c.

(** The fresh names of the ends of server [i], and the ends. *)
Definition new_gendnames (gi i : Z) (c : config) : res config :=
  '(names, c) ← each (seq 0 c.(gsize)) (fun _ st =>
    '(name, c) ← fresh_name st.2; Ret (st.1 ++ [name], c)) ([], c);
  gg ← group_at c gi;
  v ← upd gg.(gendnames) i (Some names);
  put_group gi (set_gendnames v gg) c.

Definition make_gends (gi i : Z) (c : config) : res config :=
  each (map Z.of_nat (seq 0 c.(gsize))) (fun j c =>
    gg ← group_at c gi;
    name ← cell gg.(gendnames) i j;
    link name (servername gg.(gid) j) c) c.

(** [gg.mendnames[i] = make(...)] comes first, and panics beyond [nmasters]. *)
Definition make_mends (gi i : Z) (c : config) : res config :=
  gg ← group_at c gi;
  v ← upd gg.(mendnames) i (Some (replicate c.(nmasters) (NStr "")));
  c ← put_group gi (set_mendnames v gg) c;
  '(names, c) ← master_ends c;
  gg ← group_at c gi;
  v ← upd gg.(mendnames) i (Some names);
  put_group gi (set_mendnames v gg) c.

(** [StartServer] of src/shardkv/server.go. *)
Definition start_kv (n : nat) (me : Z) (ps : Persister) (maxraftstate gid : Z) (masters : list Name)
    : ShardKV * Raft unit :=
  ({| skv_me := me; skv_maxraftstate := maxraftstate; skv_gid := gid; skv_masters := masters |},
   Make n me ps).

Definition launch (gi i : Z) (c : config) : res config :=
  gg ← group_at c gi;
  o ← idx gg.(gsaved) i;
  p ← res_of_option o;
  ps ← persister_of c p;
  row ← idx gg.(mendnames) i;
  let obj := start_kv c.(gsize) i ps c.(maxraftstate) gg.(gid) (default [] row) in
  v ← upd gg.(gservers) i (Some (length c.(kinsts)));
  c ← put_group gi (set_gservers v gg) (set_kinsts (c.(kinsts) ++ [(obj, p)]) c);
  Ret (add_server (servername gg.(gid) i)
         [MakeService "ShardKV" shardkv_methods; MakeService "Raft" raft_methods] c).

Definition StartServer (gi i : Z) (c : config) : res config :=
  _ ← group_at c gi;
  c ← new_gendnames gi i c;
  c ← make_gends gi i c;
  c ← make_mends gi i c;
  c ← renew_saved gi i c;
  launch gi i c.

Definition StartGroup (gi : Z) (c : config) : res config :=
  each (map Z.of_nat (seq 0 c.(gsize))) (StartServer gi) c.

(** The object at [r] runs, and what it persists goes to its persister. *)
Definition exec (r : nat) (f : ShardKV * Raft unit -> ShardKV * Raft unit) (c : config) : config :=
  match c.(kinsts) !! r with
  | None => c
  | Some (obj, p) =>
      set_heap (<[p := (f obj).2.(persister)]> c.(kheap)) (set_kinsts (<[r := (f obj, p)]> c.(kinsts)) c)
  end.

(** ** Checks *)

Definition checkTimeout (failed : bool) (elapsed : Z) : res unit :=
  if negb failed && (120 <? elapsed) then Panic else Ret tt.

Definition cleanup (failed : bool) (elapsed : Z) (c : config) : res config :=
  c ← each (map Z.of_nat (seq 0 c.(ngroups))) ShutdownGroup c;
  r ← Cleanup c.(knet);
  let c := on_net (fun _ => r) c in
  _ ← checkTimeout failed elapsed;
  Ret c.

(** One server of [checklogs]: [t.Fatalf] is [Panic]. *)
Definition checklog (gi i : Z) (c : config) : res unit :=
  gg ← group_at c gi;
  o ← idx gg.(gsaved) i;
  p ← res_of_option o;
  ps ← persister_of c p;
  let raft := RaftStateSize ps in
  let snap := len (ReadSnapshot ps) in
  if (0 <=? c.(maxraftstate)) && (2 * c.(maxraftstate) <? raft) then Panic
  else if (c.(maxraftstate) <? 0) && (0 <? snap) then Panic
  else Ret tt.

Definition checklogs (c : config) : res unit :=
  each (map Z.of_nat (seq 0 c.(ngroups))) (fun gi _ =>
    each (map Z.of_nat (seq 0 c.(gsize))) (fun i _ => checklog gi i c) tt) tt.

(** ** Joining and leaving *)

(** The servers of group [g]. *)
Definition servernames (c : config) (gid : Z) : list string :=
  map (fun i => servername gid (Z.of_nat i)) (seq 0 c.(gsize)).

Definition joinm_args (gis : list Z) (c : config) : res (gmap Z (list string)) :=
  each gis (fun g m => gg ← group_at c g; Ret (<[gg.(gid) := servernames c gg.(gid)]> m)) ∅.

Definition leavem_args (gis : list Z) (c : config) : res (list Z) :=
  each gis (fun g gids => gg ← group_at c g; Ret (gids ++ [gg.(gid)])) [].

(** [Call] is what the masters answer, as in Shard.v. *)
Definition joinm (Call : nat -> nat -> MasterArgs -> option MasterReply) (fuel t : nat) (gis : list Z)
    (c : config) : res (option nat) :=
  m ← joinm_args gis c; Ret (Shard.Join Call fuel t (length c.(mck)) m).
Definition join Call (fuel t : nat) (gi : Z) (c : config) := joinm Call fuel t [gi] c.

Definition leavem (Call : nat -> nat -> MasterArgs -> option MasterReply) (fuel t : nat) (gis : list Z)
    (c : config) : res (option nat) :=
  gids ← leavem_args gis c; Ret (Shard.Leave Call fuel t (length c.(mck)) gids).
Definition leave Call (fuel t : nat) (gi : Z) (c : config) := leavem Call fuel t [gi] c.

(** ** Making a configuration *)

Definition make_group (gi : Z) (c : config) : res config :=
  let gg := mkGroup (100 + gi) (replicate c.(gsize) None) (replicate c.(gsize) None)
              (replicate c.(gsize) None) (replicate c.(nmasters) None) in
  c ← put_group gi gg c;
  each (map Z.of_nat (seq 0 c.(gsize))) (StartServer gi) c.

Definition empty_config (n : nat) (maxraftstate : Z) : config :=
  mkConfig MakeNetwork 0 [] [] [] 3 (replicate 3 None) [] 3 n (replicate 3 None) ∅ 0
    (Z.of_nat n + 1000) maxraftstate.

Definition make_config (n : nat) (unreliable : bool) (maxraftstate : Z) : res config :=
  let c := empty_config n maxraftstate in
  c ← each (map Z.of_nat (seq 0 c.(nmasters))) StartMasterServer c;
  '(ends, c) ← shardclerk c;
  let c := set_mck ends c in
  c ← each (map Z.of_nat (seq 0 c.(ngroups))) make_group c;
  Ret (on_net (Reliable (negb unreliable)) c).
End shardkv.
