(* ===== verification/ShardkvTheory.v ===== *)
(** * ShardkvTheory: what the tester of the sharded service sets up

    All servers of a configuration are on the network under distinct names, which
    are the names the shardmaster is told; the tester works for groups of three
    servers only; a server that is shut down is cut off, and its successor starts
    from what was persisted last. *)

From S2P Require Import Prelude Gob Raft LabRpc LabRpcTheory ConfigBase Testbed TestbedTheory MapReduce MRFacts Shard SmConfig ShardkvConfig.
From stdpp Require Import strings pretty.
Local Open Scope Z_scope.

(** ** Names *)

Lemma mastername_inj i i' : mastername i = mastername i' -> i = i'.
Proof. unfold mastername. intros E. apply append_inj_l in E. by apply (inj pretty) in E. Qed.

Lemma servername_inj g i g' i' : 0 <= g -> 0 <= g' -> servername g i = servername g' i' ->
  g = g' /\ i = i'.
Proof.
  unfold servername. intros Hg Hg' E. apply append_inj_l in E.
  apply split_dash in E as [E1 E2]; [|by apply Itoa_digits..]. by apply (inj pretty) in E1, E2.
Qed.

Lemma mastername_servername i g j : mastername i <> servername g j.
Proof. unfold mastername, servername. intros E. by injection E. Qed.

Section theory.
Context `{!Gob (PVal unit)} `{!Rand} `{!CryptoRand}.
Implicit Types c : config.

(** ** Steps that only touch ends *)

Definition quiet c c' : Prop := exists rn d, c' = set_net rn d c /\
  rn.(LabRpc.servers) = c.(knet).(LabRpc.servers) /\ rn.(srv_heap) = c.(knet).(srv_heap).

Global Instance quiet_preorder : PreOrder quiet.
Proof.
  split.
  - intros c. exists c.(knet), c.(kdraws). by destruct c.
  - intros c c1 c2 (rn & d & -> & H1 & H2) (rn' & d' & -> & H3 & H4). exists rn', d'.
    split; [done|]. cbn in *. split; congruence.
Qed.

Lemma fresh_name_quiet c name c' : fresh_name c = Ret (name, c') -> quiet c c'.
Proof. unfold fresh_name. intros E. bind_inv E. inv_res. by exists c.(knet), (S c.(kdraws)). Qed.

Lemma link_quiet name s c c' : link name s c = Ret c' -> quiet c c'.
Proof.
  unfold link. intros E. bind_inv E. inv_res. unfold MakeEnd in E0. case_if; [done|]. inv_res.
  eexists _, _. split; [reflexivity|done].
Qed.

Lemma make_end_quiet s c name c' : make_end s c = Ret (name, c') -> quiet c c'.
Proof.
  unfold make_end. intros E. destruct (fresh_name c) as [[nm c1]|] eqn:E1; [|done]. cbn in E.
  bind_inv E. inv_res. etrans; [by eapply fresh_name_quiet|by eapply link_quiet].
Qed.

Lemma master_ends_quiet c names c' : master_ends c = Ret (names, c') ->
  quiet c c' /\ length names = c.(nmasters).
Proof.
  unfold master_ends. intros E.
  pose proof (each_seq (fun k (st : list Name * config) => quiet c st.2 /\ length st.1 = k) 0 (nmasters c)
    (fun j st => '(name, c0) ← make_end (mastername j) st.2; Ret (st.1 ++ [name], c0)) ([], c) (names, c')) as Hk.
  cbn in Hk. apply Hk; [|done|exact E]. intros k [ns c1] [ns2 c2] _ [Hq Hl] E1. cbn in *.
  destruct (make_end _ c1) as [[nm c3]|] eqn:E2; [|done]. cbn in E1. inv_res.
  split; [etrans; [exact Hq|by eapply make_end_quiet]|]. rewrite length_app. cbn. lia.
Qed.

(** ** Groups *)

Lemma put_group_Ret (gi : Z) gg c c' : put_group gi gg c = Ret c' ->
  0 <= gi < len c.(groups) /\ c' = set_groups (<[Z.to_nat gi := Some gg]> c.(groups)) c.
Proof. unfold put_group. intros E. bind_inv E. apply upd_Ret in E0 as [? ->]. by inv_res. Qed.

Lemma group_at_Ret c gi gg : group_at c gi = Ret gg <->
  0 <= gi /\ c.(groups) !! Z.to_nat gi = Some (Some gg).
Proof.
  unfold group_at. split.
  - intros E. bind_inv E. apply idx_Ret in E0 as [? H1]. destruct x; [|done]. cbn in E. by inv_res.
  - intros [? H1]. assert (idx (groups c) gi = Ret (Some gg)) as -> by (by apply idx_Ret). done.
Qed.

Record group_ok (n : nat) (gi : nat) (gg : group) : Prop := {
  go_gid : gg.(gid) = 100 + Z.of_nat gi;
  go_servers : length gg.(gservers) = n;
  go_saved : length gg.(gsaved) = n;
  go_ends : length gg.(gendnames) = n;
  go_mends : length gg.(mendnames) = 3%nat;
}.

Record cfg_ok (n : nat) c : Prop := {
  co_masters : c.(nmasters) = 3%nat;
  co_ngroups : c.(ngroups) = 3%nat;
  co_size : c.(gsize) = n;
  co_groups : length c.(groups) = 3%nat;
  co_group : forall gi gg, c.(groups) !! gi = Some (Some gg) -> group_ok n gi gg;
  co_mservers : length c.(masterservers) = 3%nat;
  co_srv : srv_ok c.(knet);
  co_locs : forall r obj p, c.(kinsts) !! r = Some (obj, p) -> (p < length c.(kheap))%nat;
}.

(** The names that are registered. *)
Definition registered c (s : string) : Prop := is_Some (server_at c.(knet) (NStr s)).

Lemma quiet_cfg_ok n c c' : quiet c c' -> cfg_ok n c -> cfg_ok n c'.
Proof.
  intros (rn & d & -> & Hs & Hh) []. split; cbn; try done. by eapply srv_ok_same.
Qed.

Lemma quiet_registered c c' s : quiet c c' -> registered c' s <-> registered c s.
Proof. intros (rn & d & -> & Hs & _). unfold registered, server_at. cbn. by rewrite Hs. Qed.

Lemma quiet_groups c c' : quiet c c' -> c'.(groups) = c.(groups).
Proof. by intros (rn & d & -> & _). Qed.

(** Replacing a group by one of the same shape. *)
Lemma put_group_ok n (gi : nat) gg c c' :
  put_group (Z.of_nat gi) gg c = Ret c' -> cfg_ok n c -> group_ok n gi gg ->
  cfg_ok n c' /\ c'.(knet) = c.(knet) /\ c'.(groups) !! gi = Some (Some gg).
Proof.
  intros [Hgi ->]%put_group_Ret [] Hg. rewrite Nat2Z.id. cbn.
  assert ((gi < length (groups c))%nat) as Hlt by (unfold len in Hgi; lia).
  split; [|split; [done|by apply list_lookup_insert_eq]].
  split; cbn; rewrite ?length_insert; try done. intros gj gg' Hj.
  destruct (decide (gj = gi)) as [->|Hne].
  - rewrite list_lookup_insert_eq in Hj by done. by simplify_eq.
  - rewrite list_lookup_insert_ne in Hj by done. auto.
Qed.

(** ** Steps that leave servers and what is saved alone *)

(** What group [gj] has of servers and persisters. *)
Definition core (o : option (option group)) : option (Z * list (option nat) * list (option nat)) :=
  (fun gg => (gg.(gid), gg.(gservers), gg.(gsaved))) <$> mjoin o.

Record tame (n : nat) c c' : Prop := {
  tm_ok : cfg_ok n c';
  tm_heap : c'.(kheap) = c.(kheap);
  tm_insts : c'.(kinsts) = c.(kinsts);
  tm_max : c'.(maxraftstate) = c.(maxraftstate);
  tm_core : forall gj, core (c'.(groups) !! gj) = core (c.(groups) !! gj);
  tm_reg : forall s, registered c' s <-> registered c s;
}.

Lemma tame_trans n c c1 c2 : tame n c c1 -> tame n c1 c2 -> tame n c c2.
Proof.
  intros [] [Hok Hh Hi Hm Hc Hr]. split; try congruence.
  intros s. by rewrite Hr.
Qed.

Lemma quiet_tame n c c' : cfg_ok n c -> quiet c c' -> tame n c c'.
Proof.
  intros Hok Hq. split; [by eapply quiet_cfg_ok|..|intros s; by apply quiet_registered];
    destruct Hq as (rn & d & -> & _); done.
Qed.

Lemma put_group_tame n (gi : nat) gg gg' c c' :
  put_group (Z.of_nat gi) gg' c = Ret c' ->
  cfg_ok n c -> c.(groups) !! gi = Some (Some gg) -> group_ok n gi gg' ->
  core (Some (Some gg')) = core (Some (Some gg)) ->
  tame n c c' /\ c'.(groups) !! gi = Some (Some gg').
Proof.
  intros E Hok Hg Hgok Hcore. destruct (put_group_ok n gi gg' c c' E Hok Hgok) as (Hok' & Hn & Hg').
  split; [|done]. apply put_group_Ret in E as [Hgi ->]. rewrite Nat2Z.id in *. split; try done.
  intros gj. cbn. destruct (decide (gj = gi)) as [->|Hne].
  - rewrite list_lookup_insert_eq by (by eapply lookup_lt_Some). by rewrite Hg.
  - by rewrite list_lookup_insert_ne.
Qed.

Lemma new_gendnames_tame n (gi : nat) i c c' :
  cfg_ok n c -> new_gendnames (Z.of_nat gi) i c = Ret c' -> tame n c c'.
Proof.
  intros Hok E. unfold new_gendnames in E.
  match type of E with context [each ?l ?f ?s] => destruct (each l f s) as [[names c1]|] eqn:E1; [|done] end.
  assert (quiet c c1) as Hq.
  { eapply (each_keeps (fun st : list Name * config => quiet c st.2)) in E1; [exact E1| |reflexivity].
    intros x [ns c2] [ns' c3] _ Hq E2. cbn in *. destruct (fresh_name c2) as [[nm c4]|] eqn:E3; [|done].
    cbn in E2. inv_res. etrans; [exact Hq|by eapply fresh_name_quiet]. }
  cbn in E. bind_inv E. apply group_at_Ret in E0 as [_ Hg]. rewrite Nat2Z.id in Hg.
  bind_inv E. apply upd_Ret in E0 as [_ ->].
  pose proof (quiet_tame n c c1 Hok Hq) as T1. eapply tame_trans; [exact T1|].
  eapply put_group_tame; [exact E|apply T1|exact Hg| |done].
  destruct (co_group _ _ (tm_ok _ _ _ T1) _ _ Hg). split; cbn; by rewrite ?length_insert.
Qed.

Lemma make_gends_tame n gi i c c' :
  cfg_ok n c -> make_gends gi i c = Ret c' -> tame n c c'.
Proof.
  intros Hok E. apply quiet_tame; [done|]. unfold make_gends in E.
  eapply (each_keeps (quiet c)), E; [|reflexivity]. intros j c1 c2 _ Hq E1. cbn in E1.
  repeat bind_inv E1. etrans; [exact Hq|by eapply link_quiet].
Qed.

Lemma make_mends_tame n (gi i : nat) c c' :
  cfg_ok n c -> make_mends (Z.of_nat gi) (Z.of_nat i) c = Ret c' ->
  tame n c c' /\ (i < 3)%nat /\
  exists gg names, c'.(groups) !! gi = Some (Some gg) /\ gg.(mendnames) !! i = Some (Some names) /\
    length names = 3%nat.
Proof.
  intros Hok E. unfold make_mends in E. bind_inv E. apply group_at_Ret in E0 as [_ Hg]. rewrite Nat2Z.id in Hg.
  bind_inv E. apply upd_Ret in E0 as [Hi ->]. bind_inv E.
  pose proof (co_group _ _ Hok _ _ Hg) as Hgo. pose proof Hgo as [? ? ? ? Hm].
  assert ((i < 3)%nat) as Hlt by (unfold len in Hi; lia).
  eapply put_group_tame in E0 as [T1 Hg1]; [|exact Hok|exact Hg| |done];
    [|destruct Hgo; split; cbn; by rewrite ?length_insert].
  destruct (master_ends x0) as [[names c2]|] eqn:Em; [|done]. cbn in E.
  apply master_ends_quiet in Em as [Hq Hlen].
  pose proof (quiet_tame n x0 c2 (tm_ok _ _ _ T1) Hq) as T2.
  bind_inv E. apply group_at_Ret in E0 as [_ Hg2]. rewrite Nat2Z.id, (quiet_groups _ _ Hq) in Hg2.
  rewrite Hg1 in Hg2. injection Hg2 as <-. cbn in E. bind_inv E. apply upd_Ret in E0 as [_ ->].
  rewrite Nat2Z.id in *.
  eapply put_group_tame in E as [T3 Hg3]; [|apply T2|by rewrite (quiet_groups _ _ Hq)| |done];
    [|destruct Hgo; split; cbn; by rewrite ?length_insert].
  split; [eapply tame_trans; [exact T1|]; by eapply tame_trans|]. split; [done|].
  eexists _, names. split; [exact Hg3|]. cbn. split.
  - apply list_lookup_insert_eq. by rewrite length_insert, Hm.
  - rewrite Hlen. apply (co_masters _ _ (tm_ok _ _ _ T1)).
Qed.

(** ** Persisters *)

(** What is saved for server [i] of group [gi]. *)
Definition saved_at c (gi i : nat) : option nat :=
  gg ← mjoin (c.(groups) !! gi); mjoin (gg.(gsaved) !! i).
Definition saved_state c (gi i : nat) : option Persister :=
  p ← saved_at c gi i; c.(kheap) !! p.

Lemma saved_at_core c c' gi i : core (c'.(groups) !! gi) = core (c.(groups) !! gi) ->
  saved_at c' gi i = saved_at c gi i.
Proof.
  unfold saved_at, core.
  destruct (mjoin (groups c' !! gi)), (mjoin (groups c !! gi)); cbn; congruence.
Qed.

Lemma tame_saved n c c' gi i : tame n c c' -> saved_state c' gi i = saved_state c gi i.
Proof.
  intros [_ Hh _ _ Hc _]. unfold saved_state. by rewrite (saved_at_core c c' gi i (Hc gi)), Hh.
Qed.

(** A new persister with content [ps] for server [i]. *)
Record resaved (n : nat) (gi i : nat) (ps : Persister) c c' : Prop := {
  rv_ok : cfg_ok n c';
  rv_lt : (i < n)%nat;
  rv_heap : c'.(kheap) = c.(kheap) ++ [ps];
  rv_insts : c'.(kinsts) = c.(kinsts);
  rv_max : c'.(maxraftstate) = c.(maxraftstate);
  rv_net : c'.(knet) = c.(knet);
  rv_saved : saved_at c' gi i = Some (length c.(kheap));
  rv_group : exists gg, c.(groups) !! gi = Some (Some gg) /\
    c'.(groups) !! gi = Some (Some (set_gsaved (<[i := Some (length c.(kheap))]> gg.(gsaved)) gg));
  rv_others : forall gj, gj <> gi -> c'.(groups) !! gj = c.(groups) !! gj;
}.

Lemma save_resaved n (gi i : nat) ps c c' :
  cfg_ok n c -> save (Z.of_nat gi) (Z.of_nat i) ps c = Ret c' -> resaved n gi i ps c c'.
Proof.
  intros Hok E. unfold save in E. bind_inv E. apply group_at_Ret in E0 as [_ Hg]. rewrite Nat2Z.id in Hg.
  bind_inv E. apply upd_Ret in E0 as [Hi ->]. rewrite Nat2Z.id in *.
  pose proof (co_group _ _ Hok _ _ Hg) as Hgo. pose proof Hgo as [_ _ Hsv _ _].
  assert ((i < n)%nat) as Hlt by (unfold len in Hi; lia).
  destruct (put_group_ok n gi _ _ _ E) as (Hok' & Hnet & Hg').
  { destruct Hok. split; cbn; try done. intros r obj p Hr. rewrite length_app. cbn.
    enough (p < length (kheap c))%nat by lia. eauto. }
  { destruct Hgo. split; cbn; by rewrite ?length_insert. }
  apply put_group_Ret in E as [_ ->]. split; try done.
  - unfold saved_at. rewrite Hg'. cbn. rewrite list_lookup_insert_eq; [done|]. lia.
  - by exists x.
  - intros gj Hj. cbn. by rewrite Nat2Z.id, list_lookup_insert_ne.
Qed.

Lemma renew_saved_spec n (gi i : nat) c c' :
  cfg_ok n c -> renew_saved (Z.of_nat gi) (Z.of_nat i) c = Ret c' ->
  resaved n gi i (default MakePersister (saved_state c gi i)) c c'.
Proof.
  intros Hok E. unfold renew_saved in E. bind_inv E. apply group_at_Ret in E0 as [_ Hg]. rewrite Nat2Z.id in Hg.
  bind_inv E. apply idx_Ret in E0 as [_ Hs]. rewrite Nat2Z.id in Hs.
  unfold saved_state, saved_at. rewrite Hg. cbn. rewrite Hs. cbn.
  destruct x0 as [p|]; [|by apply save_resaved]. bind_inv E. unfold persister_of in E0.
  cbn. destruct (kheap c !! p) as [ps|]; [|done]. cbn in E0. inv_res. cbn.
  apply save_resaved; [done|]. by destruct x0.
Qed.

Lemma copy_saved_spec n (gi i : nat) c c' :
  cfg_ok n c -> copy_saved (Z.of_nat gi) (Z.of_nat i) c = Ret c' ->
  (saved_at c gi i = None /\ c' = c) \/
  exists ps, saved_state c gi i = Some ps /\ resaved n gi i ps c c'.
Proof.
  intros Hok E. unfold copy_saved in E. bind_inv E. apply group_at_Ret in E0 as [_ Hg]. rewrite Nat2Z.id in Hg.
  bind_inv E. apply idx_Ret in E0 as [_ Hs]. rewrite Nat2Z.id in Hs.
  unfold saved_state, saved_at. rewrite Hg. cbn. rewrite Hs. cbn.
  destruct x0 as [p|]; [|inv_res; by left]. right. bind_inv E. unfold persister_of in E0.
  cbn. destruct (kheap c !! p) as [ps|]; [|done]. cbn in E0. inv_res. exists x0. split; [done|].
  apply save_resaved; [done|]. by destruct x0.
Qed.

(** ** Starting a server *)

Lemma add_server_server_at name svcs c s :
  server_at (add_server name svcs c).(knet) s
  = if decide (s = NStr name) then Some (length c.(knet).(srv_heap)) else server_at c.(knet) s.
Proof. unfold add_server. cbn. by rewrite server_at_Add. Qed.

Lemma add_server_ok n name svcs c : cfg_ok n c -> cfg_ok n (add_server name svcs c).
Proof. intros []. split; try done. by apply srv_ok_new. Qed.

Lemma add_server_registered name svcs c s :
  registered (add_server name svcs c) s <-> s = name \/ registered c s.
Proof.
  unfold registered. rewrite add_server_server_at. case_decide as Hd.
  - injection Hd as ->. split; [by left|]. intros _. by eexists.
  - split; [by right|]. intros [->|?]; done.
Qed.

(** After [StartServer]: a new object on a new persister that holds what was
    saved, registered under the name of the server. *)
Record kv_started (n gi i : nat) c c' : Prop := {
  ks_ok : cfg_ok n c';
  ks_lt : (i < n)%nat /\ (i < 3)%nat;
  ks_reg : forall s, registered c' s <->
    s = servername (100 + Z.of_nat gi) (Z.of_nat i) \/ registered c s;
  ks_obj : exists names, length names = 3%nat /\ c'.(kinsts) = c.(kinsts) ++
    [(start_kv n (Z.of_nat i) (default MakePersister (saved_state c gi i)) c.(maxraftstate)
        (100 + Z.of_nat gi) names, length c.(kheap))];
  ks_saved : saved_at c' gi i = Some (length c.(kheap)) /\
    c'.(kheap) = c.(kheap) ++ [default MakePersister (saved_state c gi i)];
  ks_server : exists gg, c'.(groups) !! gi = Some (Some gg) /\
    gg.(gservers) !! i = Some (Some (length c.(kinsts)));
  ks_others : forall gj, gj <> gi -> core (c'.(groups) !! gj) = core (c.(groups) !! gj);
}.

Lemma StartServer_started n (gi i : nat) c c' :
  cfg_ok n c -> StartServer (Z.of_nat gi) (Z.of_nat i) c = Ret c' -> kv_started n gi i c c'.
Proof.
  intros Hok E. unfold StartServer in E. bind_inv E. bind_inv E. bind_inv E. bind_inv E. bind_inv E.
  pose proof (new_gendnames_tame n gi _ _ _ Hok E1) as T1.
  pose proof (make_gends_tame n _ _ _ _ (tm_ok _ _ _ T1) E2) as T2.
  destruct (make_mends_tame n gi i _ _ (tm_ok _ _ _ T2) E3) as (T3 & Hi3 & gg & names & Hg & Hrow & Hlen).
  pose proof (tame_trans _ _ _ _ (tame_trans _ _ _ _ T1 T2) T3) as T.
  pose proof (renew_saved_spec n gi i _ _ (tm_ok _ _ _ T) E4) as [Hok4 Hi Hh4 Hi4 Hm4 Hn4 Hs4 (gg' & Hg' & Hg4) Ho4].
  rewrite Hg in Hg'. injection Hg' as <-. rewrite (tame_saved _ _ _ gi i T) in Hh4.
  pose proof (co_group _ _ (tm_ok _ _ _ T) _ _ Hg) as Hgo.
  unfold launch in E. bind_inv E. apply group_at_Ret in E5 as [_ Hg5]. rewrite Nat2Z.id, Hg4 in Hg5.
  injection Hg5 as <-. cbn in E. bind_inv E. apply idx_Ret in E5 as [_ Hx]. rewrite Nat2Z.id in Hx.
  rewrite list_lookup_insert_eq in Hx by (destruct Hgo; lia). injection Hx as <-. cbn in E.
  unfold persister_of in E. rewrite Hh4, list_lookup_middle in E by done. cbn in E.
  bind_inv E. apply idx_Ret in E5 as [_ Hx]. rewrite Nat2Z.id, Hrow in Hx. injection Hx as <-. cbn in E.
  bind_inv E. apply upd_Ret in E5 as [_ ->]. rewrite Nat2Z.id in E. bind_inv E. inv_res.
  eapply put_group_ok in E5 as Hput; [| |destruct Hgo; split; cbn; by rewrite ?length_insert].
  2: { destruct Hok4. split; cbn; try done. intros r obj p [[_ Hr]|[_ [= <- <-]]]%lookup_snoc_Some; [eauto|].
       rewrite Hh4, length_app. cbn. lia. }
  destruct Hput as (Hok5 & Hnet5 & Hgr5). apply put_group_Ret in E5 as [_ ->].
  rewrite (go_gid _ _ _ Hgo), Nat2Z.id in *. rewrite (tm_heap _ _ _ T) in Hs4, Hh4.
  split.
  - by apply add_server_ok.
  - done.
  - intros s. rewrite add_server_registered.
    unfold registered at 1. cbn. rewrite Hn4. by rewrite <- (tm_reg _ _ _ T s).
  - exists names. split; [done|]. cbn.
    rewrite Hi4, (tm_insts _ _ _ T), (tm_heap _ _ _ T), Hm4, (tm_max _ _ _ T).
    by rewrite (co_size _ _ Hok4).
  - cbn. split; [|done]. unfold saved_at in *. cbn in *. rewrite Hgr5. rewrite Hg4 in Hs4. exact Hs4.
  - eexists. split; [exact Hgr5|]. cbn. rewrite Hi4, (tm_insts _ _ _ T).
    apply list_lookup_insert_eq. destruct Hgo. lia.
  - intros gj Hj. cbn. rewrite list_lookup_insert_ne by done. rewrite (Ho4 gj Hj). apply (tm_core _ _ _ T).
Qed.

End theory.
