(* ===== verification/ShardkvMain.v ===== *)
(** * ShardkvMain: the guarantees of the tester of the sharded service

    Every configuration that [make_config] returns has all its servers on the
    network, under the names that [join] tells the shardmaster; it returns none for
    more than three servers per group, and no clerk can be made for fewer; shutting
    a server down and starting it again carries over what was persisted last. *)

From S2P Require Import Prelude Gob Raft LabRpc LabRpcTheory ConfigBase Testbed TestbedTheory MapReduce MRFacts Shard SmConfig ShardkvConfig ShardkvTheory.
From stdpp Require Import strings pretty.
Local Open Scope Z_scope.

Section main.
Context `{!Gob (PVal unit)} `{!Rand} `{!CryptoRand}.
Implicit Types c : config.

(** ** Making a configuration *)

Lemma core_is_Some o o' : core o = core o' -> is_Some (mjoin o) -> is_Some (mjoin o').
Proof. unfold core. destruct (mjoin o), (mjoin o'); cbn; try done; by intros ? []. Qed.

Lemma StartMasterServer_spec n (i : nat) c c' :
  cfg_ok n c -> StartMasterServer (Z.of_nat i) c = Ret c' ->
  cfg_ok n c' /\ forall s, registered c' s <-> s = mastername (Z.of_nat i) \/ registered c s.
Proof.
  intros Hok E. unfold StartMasterServer in E.
  destruct (master_ends c) as [[ends c1]|] eqn:Em; [|done]. cbn in E.
  apply master_ends_quiet in Em as [Hq _]. bind_inv E. apply upd_Ret in E0 as [_ ->]. inv_res.
  pose proof (quiet_cfg_ok n c c1 Hq Hok) as Hok1. split.
  - apply add_server_ok. destruct Hok1. split; cbn; rewrite ?length_insert; try done.
    intros r obj p Hr. rewrite length_app. cbn. enough (p < length (kheap c1))%nat by lia. eauto.
  - intros s. rewrite add_server_registered. unfold registered at 1. cbn.
    fold (registered c1 s). by rewrite (quiet_registered _ _ _ Hq).
Qed.

Lemma make_group_spec n (gi : nat) c c' :
  cfg_ok n c -> (gi < 3)%nat -> make_group (Z.of_nat gi) c = Ret c' ->
  cfg_ok n c' /\ (n <= 3)%nat /\ is_Some (mjoin (c'.(groups) !! gi)) /\
  (forall gj, is_Some (mjoin (c.(groups) !! gj)) -> is_Some (mjoin (c'.(groups) !! gj))) /\
  (forall s, registered c s -> registered c' s) /\
  (forall i, (i < n)%nat -> registered c' (servername (100 + Z.of_nat gi) (Z.of_nat i))).
Proof.
  intros Hok Hgi E. unfold make_group in E. bind_inv E. rename x into c1.
  pose proof Hok as [Hm _ Hz _ _ _ _]. rewrite Hz, Hm in E0.
  eapply put_group_ok in E0 as Hput; [|exact Hok|split; cbn; by rewrite ?length_replicate].
  destruct Hput as (Hok1 & Hnet & Hg1). apply put_group_Ret in E0 as [_ Ec1]. rewrite Nat2Z.id in *.
  assert (forall gj, is_Some (mjoin (c.(groups) !! gj)) -> is_Some (mjoin (c1.(groups) !! gj))) as Hold.
  { intros gj Hj. rewrite Ec1. cbn. destruct (decide (gj = gi)) as [->|Hne].
    - rewrite list_lookup_insert_eq by (by rewrite (co_groups _ _ Hok)). cbn. by eexists.
    - by rewrite list_lookup_insert_ne. }
  assert (gsize c1 = n) as Hz1 by apply (co_size _ _ Hok1). rewrite Hz1 in E.
  assert (cfg_ok n c' /\ (0 + n <= 3)%nat /\ is_Some (mjoin (c'.(groups) !! gi)) /\
    (forall gj, is_Some (mjoin (c1.(groups) !! gj)) -> is_Some (mjoin (c'.(groups) !! gj))) /\
    (forall s, registered c1 s -> registered c' s) /\
    (forall i, (i < 0 + n)%nat -> registered c' (servername (100 + Z.of_nat gi) (Z.of_nat i)))) as Hall.
  { eapply (each_seq (fun k c2 => cfg_ok n c2 /\ (k <= 3)%nat /\ is_Some (mjoin (c2.(groups) !! gi)) /\
      (forall gj, is_Some (mjoin (c1.(groups) !! gj)) -> is_Some (mjoin (c2.(groups) !! gj))) /\
      (forall s, registered c1 s -> registered c2 s) /\
      (forall i, (i < k)%nat -> registered c2 (servername (100 + Z.of_nat gi) (Z.of_nat i)))));
      [| |exact E].
    - intros k c2 c3 _ (Hok2 & Hk & Hg2 & Ho2 & Hr2 & Hs2) Es.
      destruct (StartServer_started n gi k c2 c3 Hok2 Es) as [Hok3 [_ Hk3] Hreg _ _ (gg & Hg3 & _) Hoth].
      split; [done|]. split; [lia|]. split; [rewrite Hg3; by eexists|].
      split.
      { intros gj Hj. destruct (decide (gj = gi)) as [->|Hne]; [rewrite Hg3; by eexists|].
        eapply core_is_Some; [by symmetry; apply Hoth|by apply Ho2]. }
      split; [intros s Hs; apply Hreg; right; by apply Hr2|].
      intros i Hi. apply Hreg. destruct (decide (i = k)) as [->|Hne]; [by left|right; apply Hs2; lia].
    - split; [done|]. split; [lia|]. split; [rewrite Hg1; by eexists|]. split; [done|]. split; [done|lia]. }
  destruct Hall as (? & ? & ? & Ho & Hr & ?). split_and!; try done.
  - intros gj Hj. by apply Ho, Hold.
  - intros s Hs. apply Hr. unfold registered in *. by rewrite Hnet.
Qed.

Lemma empty_config_ok n m : cfg_ok n (empty_config n m).
Proof.
  split; cbn; try done.
  - intros gi gg Hg. apply (lookup_replicate 3 None (Some gg) gi) in Hg as [? _]. done.
Qed.

Record made (n : nat) c : Prop := {
  md_ok : cfg_ok n c;
  md_le : (n <= 3)%nat;
  md_groups : forall gi, (gi < 3)%nat -> exists gg, c.(groups) !! gi = Some (Some gg);
  md_masters : forall i, (i < 3)%nat -> registered c (mastername (Z.of_nat i));
  md_servers : forall gi i, (gi < 3)%nat -> (i < n)%nat ->
    registered c (servername (100 + Z.of_nat gi) (Z.of_nat i));
}.

Lemma make_config_made n unreliable m c : make_config n unreliable m = Ret c -> made n c.
Proof.
  intros E. unfold make_config in E. bind_inv E. rename x into c1.
  change (nmasters (empty_config n m)) with 3%nat in E0.
  assert (cfg_ok n c1 /\ forall i, (i < 0 + 3)%nat -> registered c1 (mastername (Z.of_nat i))) as [Hok1 Hr1].
  { eapply (each_seq (fun k c2 => cfg_ok n c2 /\
      forall i, (i < k)%nat -> registered c2 (mastername (Z.of_nat i)))); [| |exact E0].
    - intros k c2 c3 _ [Hok2 Hr2] Es. destruct (StartMasterServer_spec n k c2 c3 Hok2 Es) as [Hok3 Hreg].
      split; [done|]. intros i Hi. apply Hreg.
      destruct (decide (i = k)) as [->|Hne]; [by left|right; apply Hr2; lia].
    - split; [apply empty_config_ok|lia]. }
  destruct (shardclerk c1) as [[ends c2]|] eqn:Ec; [|done]. cbn in E.
  apply master_ends_quiet in Ec as [Hq _]. bind_inv E. rename x into c3. inv_res.
  pose proof (quiet_cfg_ok n c1 c2 Hq Hok1) as Hok2. rewrite (co_ngroups _ _ Hok2) in E1.
  assert (cfg_ok n (set_mck ends c2)) as Hok2' by (by destruct Hok2).
  assert (cfg_ok n c3 /\ (1 <= 0 + 3 -> n <= 3)%nat /\
    (forall gi, (gi < 0 + 3)%nat -> is_Some (mjoin (c3.(groups) !! gi))) /\
    (forall s, registered c2 s -> registered c3 s) /\
    (forall gi i, (gi < 0 + 3)%nat -> (i < n)%nat ->
       registered c3 (servername (100 + Z.of_nat gi) (Z.of_nat i)))) as (Hok3 & Hle & Hg3 & Hr3 & Hs3).
  { eapply (each_seq (fun k c4 => cfg_ok n c4 /\ (1 <= k -> n <= 3)%nat /\
      (forall gi, (gi < k)%nat -> is_Some (mjoin (c4.(groups) !! gi))) /\
      (forall s, registered c2 s -> registered c4 s) /\
      (forall gi i, (gi < k)%nat -> (i < n)%nat ->
         registered c4 (servername (100 + Z.of_nat gi) (Z.of_nat i))))); [| |exact E1].
    - intros k c4 c5 Hk (Hok4 & _ & Hg4 & Hr4 & Hs4) Es.
      destruct (make_group_spec n k c4 c5 Hok4) as (Hok5 & Hn5 & Hg5 & Ho5 & Hr5 & Hs5); [lia|done|].
      split; [done|]. split; [done|]. split; [|split].
      + intros gi Hgi. destruct (decide (gi = k)) as [->|Hne]; [done|]. apply Ho5, Hg4. lia.
      + intros s Hs. by apply Hr5, Hr4.
      + intros gi i Hgi Hi. destruct (decide (gi = k)) as [->|Hne]; [by apply Hs5|].
        apply Hr5, Hs4; [lia|done].
    - split; [done|]. split; [lia|]. split; [lia|]. split; [done|lia]. }
  split.
  - destruct Hok3. split; cbn; try done. by apply (srv_ok_same (knet c3)).
  - apply Hle. lia.
  - intros gi Hgi. destruct (Hg3 gi) as [gg Hgg]; [lia|]. exists gg. cbn.
    destruct (groups c3 !! gi) as [[|]|]; cbn in Hgg; congruence.
  - intros j Hj. apply (Hr3 (mastername _)), (quiet_registered _ _ _ Hq), Hr1. lia.
  - intros gi j Hgi Hj. by apply Hs3.
Qed.

(** In a configuration that [make_config] returns, all three masters and all
    servers of the three groups are on the network; no two names stand for the same
    server; and [join] tells the shardmaster, for the id of a group, the names of
    exactly the servers of that group. *)
Theorem shardkv_servers_up n unreliable m c :
  make_config n unreliable m = Ret c ->
  (forall i, (i < 3)%nat -> registered c (mastername (Z.of_nat i))) /\
  (forall gi i, (gi < 3)%nat -> (i < n)%nat ->
     registered c (servername (100 + Z.of_nat gi) (Z.of_nat i))) /\
  (forall s s' p, server_at c.(knet) (NStr s) = Some p -> server_at c.(knet) (NStr s') = Some p -> s = s') /\
  (forall i gi j, mastername i <> servername gi j) /\
  (forall gi i gi' i', (gi < 3)%nat -> (gi' < 3)%nat ->
     servername (100 + Z.of_nat gi) i = servername (100 + Z.of_nat gi') i' -> gi = gi' /\ i = i') /\
  (forall gi, (gi < 3)%nat -> joinm_args [Z.of_nat gi] c = Ret {[100 + Z.of_nat gi :=
     map (fun i => servername (100 + Z.of_nat gi) (Z.of_nat i)) (seq 0 n)]}).
Proof.
  intros [Hok _ Hg Hm Hs]%make_config_made. split; [done|]. split; [done|].
  split; [intros s s' p H1 H2; pose proof (so_inj _ (co_srv _ _ Hok) _ _ _ H1 H2); congruence|].
  split; [intros; apply mastername_servername|]. split.
  - intros gi i gi' i' _ _ E. apply servername_inj in E as [? ?]; [split; [lia|done]|lia..].
  - intros gi Hgi. destruct (Hg gi Hgi) as [gg Hgg]. unfold joinm_args. cbn.
    assert (group_at c (Z.of_nat gi) = Ret gg) as ->
      by (apply group_at_Ret; split; [lia|by rewrite Nat2Z.id]). cbn.
    rewrite (go_gid _ _ _ (co_group _ _ Hok _ _ Hgg)). unfold servernames.
    by rewrite (co_size _ _ Hok).
Qed.

(** ** Groups of three *)

(** The loop of [makeClient] writes beyond [cfg.n] entries. *)
Lemma client_end_panics (k : nat) endnames ends c :
  (length endnames <= k)%nat -> client_end (Z.of_nat k) (endnames, ends, c) = Panic.
Proof.
  intros Hk. unfold client_end. destruct (fresh_name c) as [[nm c1]|]; [|done]. cbn.
  destruct (upd endnames (Z.of_nat k) nm) as [l|] eqn:E; [|done].
  apply upd_Ret in E as [? _]. unfold len in *. lia.
Qed.

(** C37. The tester only works for groups of three servers: [make_config] panics for
    more, since [mendnames] has an entry per master and is indexed by servers; and
    for fewer no clerk can be made, since [endnames] has an entry per server and is
    indexed by masters. *)
Theorem shardkv_three_servers n unreliable m :
  ((3 < n)%nat -> make_config n unreliable m = Panic) /\
  ((n < 3)%nat -> forall c, make_config n unreliable m = Ret c -> makeClient c = Panic).
Proof.
  split.
  - intros Hn. destruct (make_config n unreliable m) as [c|] eqn:E; [|done].
    apply make_config_made in E as [_ ? _ _ _]. lia.
  - intros Hn c [Hok _ _ _ _]%make_config_made. unfold makeClient.
    destruct (each _ client_end _) as [st|] eqn:E; [|done]. exfalso.
    rewrite (co_masters _ _ Hok), (co_size _ _ Hok) in E.
    assert (length (replicate n (NStr "")) = n /\ (0 + 3 <= n)%nat) as [_ ?]; [|lia].
    enough (length st.1.1 = n /\ (0 + 3 <= n)%nat) as [_ ?] by (split; [apply length_replicate|done]).
    eapply (each_seq (fun k st => length st.1.1 = n /\ (k <= n)%nat)); [| |exact E].
    + intros k [[es ends] c1] [[es' ends'] c2] _ [Hl Hk] Es. cbn in Hl |- *.
      destruct (decide (k < n)%nat) as [Hlt|Hge].
      * unfold client_end in Es. destruct (fresh_name c1) as [[nm c3]|]; [|done]. cbn in Es.
        bind_inv Es. apply upd_length in E0. bind_inv Es. inv_res. split; [congruence|lia].
      * rewrite client_end_panics in Es; [done|lia].
    + cbn. rewrite length_replicate. split; [done|lia].
Qed.

(** ** Shutting down and starting again *)

Lemma exec_saved_other r f c gi i p :
  saved_at c gi i = Some p -> (forall obj q, c.(kinsts) !! r = Some (obj, q) -> q <> p) ->
  saved_state (exec r f c) gi i = saved_state c gi i.
Proof.
  intros Hp Hne. unfold exec. destruct (kinsts c !! r) as [[obj q]|] eqn:Er; [|done].
  unfold saved_state, saved_at in *. cbn. rewrite Hp. cbn. apply list_lookup_insert_ne.
  by eapply Hne.
Qed.

Lemma disable_row_spec rows i k c c' :
  disable_row rows i k c = Ret c' ->
  quiet c c' /\
  (forall j name, (j < k)%nat -> cell rows i (Z.of_nat j) = Ret name -> is_enabled c'.(knet) name = false) /\
  (forall name, is_enabled c.(knet) name = false -> is_enabled c'.(knet) name = false).
Proof.
  intros E. eapply (each_seq (fun k c1 => quiet c c1 /\
    (forall j name, (j < k)%nat -> cell rows i (Z.of_nat j) = Ret name -> is_enabled c1.(knet) name = false) /\
    (forall name, is_enabled c.(knet) name = false -> is_enabled c1.(knet) name = false)) 0); [| |exact E].
  - intros j c1 c2 _ (Hq & Hj & Hk) E1. cbn in E1. bind_inv E1. inv_res.
    split; [etrans; [exact Hq|by eexists _, _]|]. cbn. split.
    + intros j' name Hlt Hc. rewrite is_enabled_Enable. case_decide as Hd; [done|].
      destruct (decide (j' = j)) as [->|Hne]; [congruence|]. eapply Hj; [|exact Hc]. lia.
    + intros name Hn. rewrite is_enabled_Enable. case_decide; [done|by apply Hk].
  - split; [reflexivity|]. split; [lia|done].
Qed.

(** After [ShutdownServer gi i], with [ps] saved for the server. *)
Lemma ShutdownServer_spec n (gi i : nat) gg c c' ps :
  cfg_ok n c -> c.(groups) !! gi = Some (Some gg) -> saved_state c gi i = Some ps ->
  ShutdownServer (Z.of_nat gi) (Z.of_nat i) c = Ret c' ->
  cfg_ok n c' /\ c'.(kinsts) = c.(kinsts) /\ c'.(maxraftstate) = c.(maxraftstate) /\
  (forall j name, (j < n)%nat -> cell gg.(gendnames) (Z.of_nat i) (Z.of_nat j) = Ret name ->
     is_enabled c'.(knet) name = false) /\
  (forall row j name, gg.(mendnames) !! i = Some (Some row) -> row !! j = Some name ->
     is_enabled c'.(knet) name = false) /\
  server_at c'.(knet) (NStr (servername (100 + Z.of_nat gi) (Z.of_nat i))) = None /\
  saved_at c' gi i = Some (length c.(kheap)) /\ c'.(kheap) = c.(kheap) ++ [ps].
Proof.
  intros Hok Hg Hps E. pose proof (co_group _ _ Hok _ _ Hg) as Hgo.
  unfold ShutdownServer in E.
  assert (group_at c (Z.of_nat gi) = Ret gg) as Hga by (apply group_at_Ret; split; [lia|by rewrite Nat2Z.id]).
  rewrite Hga in E. cbn in E. rewrite (go_servers _ _ _ Hgo) in E.
  bind_inv E. rename x into c1. apply disable_row_spec in E0 as (Hq1 & He1 & _).
  bind_inv E. rename x into row. apply idx_Ret in E0 as [_ Hrow]. rewrite Nat2Z.id in Hrow.
  bind_inv E. rename x into c2. apply disable_row_spec in E0 as (Hq2 & He2 & Hk2).
  assert (quiet c c2) as Hq by (by etrans). pose proof (quiet_cfg_ok n c c2 Hq Hok) as Hok2.
  rewrite (go_gid _ _ _ Hgo) in E. set (nm := servername _ _) in *.
  set (c3 := on_net (DeleteServer (NStr nm)) c2) in *.
  assert (cfg_ok n c3) as Hok3 by (destruct Hok2; split; cbn; try done; by apply srv_ok_Delete).
  bind_inv E. rename x into c4.
  assert (saved_state c3 gi i = Some ps) as Hps3.
  { destruct Hq as (rn & d & Ec2 & _). unfold saved_state, saved_at in *. unfold c3. rewrite Ec2. exact Hps. }
  assert (kheap c3 = kheap c /\ kinsts c3 = kinsts c /\ maxraftstate c3 = maxraftstate c) as (F1 & F2 & F3).
  { unfold c3. destruct Hq as (rn & d & -> & _). done. }
  destruct (copy_saved_spec n gi i c3 c4 Hok3 E0) as [[Hnone _]|(ps' & Hps' & [Hok4 Hi Hh4 Hi4 Hm4 Hn4 Hs4 _ _])].
  { unfold saved_state in Hps3. by rewrite Hnone in Hps3. }
  rewrite Hps3 in Hps'. injection Hps' as <-. rewrite F1 in Hh4, Hs4.
  bind_inv E. rename x into gg4. apply group_at_Ret in E1 as [_ Hg4]. rewrite Nat2Z.id in Hg4.
  bind_inv E. assert (cfg_ok n c' /\ knet c' = knet c4 /\ kheap c' = kheap c4 /\ kinsts c' = kinsts c4 /\
    maxraftstate c' = maxraftstate c4 /\ saved_at c' gi i = saved_at c4 gi i) as (Hok' & G1 & G2 & G3 & G4 & G5).
  { destruct x as [r|]; [|by inv_res]. bind_inv E. apply upd_Ret in E2 as [_ ->].
    pose proof (co_group _ _ Hok4 _ _ Hg4) as Hgo4.
    eapply put_group_ok in E as Hput; [|exact Hok4|destruct Hgo4; split; cbn; by rewrite ?length_insert].
    destruct Hput as (? & Hn & Hg'). apply put_group_Ret in E as [_ ->]. split_and!; try done.
    unfold saved_at. rewrite Hg', Hg4. done. }
  split; [done|]. split; [congruence|]. split; [congruence|].
  rewrite G1, Hn4, G5, G2. unfold c3. cbn. split.
  { intros j name Hj Hc. apply Hk2. by eapply He1. }
  split.
  { intros r j name Hr Hj. rewrite Hr in Hrow. injection Hrow as <-. eapply (He2 j).
    - by eapply lookup_lt_Some.
    - unfold cell. rewrite (idx_of_nat _ _ _ Hr). cbn. by apply idx_of_nat. }
  split; [rewrite server_at_Delete; by rewrite decide_True|done].
Qed.

(** Reachable configurations. *)
Inductive skv_step : config -> config -> Prop :=
| ss_start gi i c c' : StartServer (Z.of_nat gi) (Z.of_nat i) c = Ret c' -> skv_step c c'
| ss_shutdown gi i c c' : is_Some (saved_state c gi i) ->
    ShutdownServer (Z.of_nat gi) (Z.of_nat i) c = Ret c' -> skv_step c c'
| ss_client ck ends c c' : makeClient c = Ret (ck, ends, c') -> skv_step c c'
| ss_make_end s name c c' : make_end s c = Ret (name, c') -> skv_step c c'
| ss_delete ck c : skv_step c (deleteClient ck c)
| ss_exec r f c : skv_step c (exec r f c).

Inductive skv_reach (n : nat) : config -> Prop :=
| sv_make unreliable m c : make_config n unreliable m = Ret c -> skv_reach n c
| sv_step c c' : skv_reach n c -> skv_step c c' -> skv_reach n c'.

Lemma exec_ok n r f c : cfg_ok n c -> cfg_ok n (exec r f c).
Proof.
  intros Hok. unfold exec. destruct (kinsts c !! r) as [[obj p]|] eqn:Er; [|done].
  destruct Hok. split; cbn; try done. intros r' obj' p'. rewrite length_insert.
  destruct (decide (r' = r)) as [->|Hne].
  - rewrite list_lookup_insert_eq by (by eapply lookup_lt_Some). intros [= <- <-]. eauto.
  - rewrite list_lookup_insert_ne by done. eauto.
Qed.

Lemma makeClient_ok n ck ends c c' : makeClient c = Ret (ck, ends, c') -> cfg_ok n c -> cfg_ok n c'.
Proof.
  intros E Hok. unfold makeClient in E.
  destruct (each _ client_end _) as [[[es ends'] c1]|] eqn:E1; [|done]. cbn in E. inv_res.
  assert (quiet c c1) as Hq.
  { eapply (each_keeps (fun st : list Name * list Name * config => quiet c st.2)) in E1;
      [exact E1| |reflexivity].
    intros j [[es1 ends1] c2] [[es2 ends2] c3] _ Hq E2. unfold client_end in E2. cbn in *.
    destruct (fresh_name c2) as [[nm c4]|] eqn:E3; [|done]. cbn in E2. repeat bind_inv E2. inv_res.
    etrans; [exact Hq|]. etrans; [by eapply fresh_name_quiet|by eapply link_quiet]. }
  apply (quiet_cfg_ok n) in Hq; [|done]. by destruct Hq.
Qed.

Lemma skv_reach_ok n c : skv_reach n c -> cfg_ok n c.
Proof.
  induction 1 as [u m c E|c c' _ IH Hs]; [by apply make_config_made in E as []|].
  destruct Hs as [gi i c c' E|gi i c c' [ps Hps] E|ck ends c c' E|s name c c' E|ck c|r f c].
  - by eapply ks_ok, StartServer_started.
  - destruct (mjoin (groups c !! gi)) as [gg|] eqn:Hg;
      [|unfold saved_state, saved_at in Hps; by rewrite Hg in Hps].
    destruct (groups c !! gi) as [[|]|] eqn:Hg'; cbn in Hg; [|done..]. injection Hg as ->.
    by destruct (ShutdownServer_spec n gi i gg c c' ps IH Hg' Hps E).
  - by eapply makeClient_ok.
  - eapply quiet_cfg_ok; [by eapply make_end_quiet|done].
  - by destruct IH.
  - by apply exec_ok.
Qed.

(** [ShutdownServer] followed by [StartServer] in the sharded tester: the ends of
    the old server to its group and to the masters are disabled and its name is
    off the network; whatever any object does in between, the new server starts
    from the state that was saved last and is registered under the same name; and
    no earlier object can change what is saved for it. *)
Theorem shardkv_shutdown_start n gi i gg ps c c1 c2 :
  skv_reach n c -> c.(groups) !! gi = Some (Some gg) -> saved_state c gi i = Some ps ->
  ShutdownServer (Z.of_nat gi) (Z.of_nat i) c = Ret c1 ->
  (forall j name, (j < n)%nat -> cell gg.(gendnames) (Z.of_nat i) (Z.of_nat j) = Ret name ->
     is_enabled c1.(knet) name = false) /\
  (forall row j name, gg.(mendnames) !! i = Some (Some row) -> row !! j = Some name ->
     is_enabled c1.(knet) name = false) /\
  ~ registered c1 (servername (100 + Z.of_nat gi) (Z.of_nat i)) /\
  (forall r f, saved_state (exec r f c1) gi i = Some ps) /\
  forall r f, StartServer (Z.of_nat gi) (Z.of_nat i) (exec r f c1) = Ret c2 ->
    registered c2 (servername (100 + Z.of_nat gi) (Z.of_nat i)) /\
    (exists r' p' names, length names = 3%nat /\ r' = length c.(kinsts) /\
       c2.(kinsts) !! r' = Some (start_kv n (Z.of_nat i) ps c.(maxraftstate) (100 + Z.of_nat gi) names, p')) /\
    saved_state c2 gi i = Some ps /\
    forall r' f', (r' < length c.(kinsts))%nat -> saved_state (exec r' f' c2) gi i = Some ps.
Proof.
  intros Hr Hg Hps E1. pose proof (skv_reach_ok n c Hr) as Hok.
  destruct (ShutdownServer_spec n gi i gg c c1 ps Hok Hg Hps E1)
    as (Hok1 & Hi1 & Hm1 & He1 & He2 & Hreg & Hs1 & Hh1).
  assert (saved_state c1 gi i = Some ps) as Hps1.
  { unfold saved_state. rewrite Hs1. cbn. rewrite Hh1. by apply list_lookup_middle. }
  assert (forall r f, saved_state (exec r f c1) gi i = Some ps) as Hex.
  { intros r f. rewrite <- Hps1. eapply exec_saved_other; [exact Hs1|].
    intros obj q Hq. rewrite Hi1 in Hq. apply (co_locs _ _ Hok) in Hq. lia. }
  split; [done|]. split; [done|]. split; [unfold registered; by rewrite Hreg; intros []|].
  split; [done|]. intros r f E2. pose proof (exec_ok n r f c1 Hok1) as Hokx.
  assert (length (kinsts (exec r f c1)) = length (kinsts c) /\
    maxraftstate (exec r f c1) = maxraftstate c) as [Hlx Hmx].
  { unfold exec. destruct (kinsts c1 !! r) as [[obj q]|]; cbn; rewrite ?length_insert; by rewrite Hi1. }
  destruct (StartServer_started n gi i _ c2 Hokx E2) as [Hok2 _ Hreg2 (names & Hl & Hobj) [Hs2 Hh2] _ _].
  rewrite Hex, Hmx in Hobj. rewrite Hex in Hh2. cbn in Hobj, Hh2.
  assert (saved_state c2 gi i = Some ps) as Hps2.
  { unfold saved_state. rewrite Hs2. cbn. rewrite Hh2. by apply list_lookup_middle. }
  split; [apply Hreg2; by left|]. split; [|split; [done|]].
  - eexists (length (kinsts c)), _, names. split; [done|]. split; [done|].
    rewrite Hobj. apply list_lookup_middle. by rewrite Hlx.
  - intros r' f' Hlt. rewrite <- Hps2. eapply exec_saved_other; [exact Hs2|].
    intros obj q Hq. rewrite Hobj, lookup_app_l in Hq by lia. apply (co_locs _ _ Hokx) in Hq. lia.
Qed.
End main.

(** ** A concrete test *)

#[local] Instance unit_entry_eq_dec : EqDecision (LogEntry unit).
Proof. solve_decision. Defined.
#[local] Instance unit_entry_countable : Countable (LogEntry unit).
Proof.
  apply (inj_countable' (fun e => (e.(le_Command), e.(le_Term)))
           (fun p => {| le_Command := p.1; le_Term := p.2 |})).
  by intros [].
Defined.
#[local] Instance unit_PVal_eq_dec : EqDecision (PVal unit).
Proof. solve_decision. Defined.
#[local] Instance unit_PVal_countable : Countable (PVal unit).
Proof.
  apply (inj_countable' (fun v => match v with PInt z => inl z | PLogs l => inr l end)
           (fun s => match s with inl z => PInt z | inr l => PLogs l end)).
  by intros [].
Defined.
#[local] Instance unit_gob : Gob (PVal unit) := countable_gob.
#[local] Program Instance no_rand : Rand := {| Int63n := fun _ _ => 0 |}.
Next Obligation. intros. lia. Qed.
#[local] Program Instance byte_names : CryptoRand :=
  {| crand_Read := fun k n => replicate n (default Byte.x00 (Byte.of_N (N.of_nat k))) |}.
Next Obligation. intros. apply length_replicate. Qed.

Definition result : res config -> config := value (empty_config 0 0).

Definition skv3 : config := result (make_config 3 false (-1)).
Lemma skv3_made : make_config 3 false (-1) = Ret skv3.
Proof. apply value_Ret. vm_compute. reflexivity. Qed.
Lemma skv3_client : returns (makeClient skv3) = true.
Proof. vm_compute. reflexivity. Qed.
Definition skv2 : config := result (make_config 2 false (-1)).
Lemma skv2_made : make_config 2 false (-1) = Ret skv2.
Proof. apply value_Ret. vm_compute. reflexivity. Qed.

Lemma shardkv_servers_up_witness : registered skv3 "server-102-1".
Proof. apply (proj1 (proj2 (shardkv_servers_up 3 false (-1) skv3 skv3_made)) 2%nat 1%nat); lia. Defined.

Lemma shardkv_three_servers_witness : make_config 4 false (-1) = Panic /\ makeClient skv2 = Panic.
Proof.
  split; [apply (shardkv_three_servers 4 false (-1)); lia|].
  apply (proj2 (shardkv_three_servers 2 false (-1))); [lia|exact skv2_made].
Defined.

Definition skv3_down : config := result (ShutdownServer (Z.of_nat 0) (Z.of_nat 1) skv3).
Lemma skv3_shut : ShutdownServer (Z.of_nat 0) (Z.of_nat 1) skv3 = Ret skv3_down.
Proof. apply value_Ret. vm_compute. reflexivity. Qed.
Definition skv3_group : group :=
  default (mkGroup 0 [] [] [] []) (mjoin (skv3.(groups) !! 0%nat)).
Lemma skv3_group0 : skv3.(groups) !! 0%nat = Some (Some skv3_group).
Proof.
  destruct (md_groups _ _ (make_config_made _ _ _ _ skv3_made) 0%nat) as [gg Hg]; [lia|].
  exact (eq_trans Hg (f_equal (fun o => Some (Some (default (mkGroup 0 [] [] [] []) (mjoin o)))) (eq_sym Hg))).
Qed.
Lemma skv3_saved : saved_state skv3 0 1 = Some MakePersister.
Proof. vm_compute. reflexivity. Qed.

Lemma shardkv_shutdown_start_witness :
  ~ registered skv3_down (servername (100 + Z.of_nat 0) (Z.of_nat 1)).
Proof.
  exact (proj1 (proj2 (proj2 (shardkv_shutdown_start 3 0 1 skv3_group MakePersister skv3 skv3_down skv3
    (sv_make 3 false (-1) skv3 skv3_made) skv3_group0 skv3_saved skv3_shut)))).
Defined.
