(* ===== verification/MRTheory.v ===== *)
(** * MRTheory: a sequential MapReduce job computes its specification

    Every map task puts each pair in the file of the reduce task of its key,
    every reduce task applies the reduce function once to each key with all its
    values in order, and [merge] writes one line per key in sorted order. *)

From S2P Require Import Prelude Utf8 MapReduce MRFacts.
From stdpp Require Import pretty sorting.
Local Open Scope Z_scope.

Lemma partition_kvs_spec n kvs tasks :
  0 < n -> len tasks = n ->
  exists tasks', partition_kvs n kvs tasks = Ret tasks' /\ len tasks' = n /\
    forall i t, tasks !! i = Some t -> tasks' !! i = Some (t ++ in_bin n (Z.of_nat i) kvs).
Proof.
  intros Hn. revert tasks. induction kvs as [|kv kvs IH]; intros tasks Hl.
  - exists tasks. split; [done|]. split; [done|]. intros i t ->. by rewrite app_nil_r.
  - cbn [partition_kvs]. rewrite go_rem_bin by done. cbn [mbind res_bind].
    pose proof (bin_range n (Key kv) Hn) as Hb.
    destruct (idx_in_range tasks (bin n (Key kv))) as [task Ht]; [lia|]. rewrite Ht. cbn [mbind res_bind].
    destruct (upd_in_range tasks (bin n (Key kv)) (task ++ [kv])) as [tasks1 Hu]; [lia|].
    rewrite Hu. cbn [mbind res_bind]. destruct (IH tasks1) as (tasks' & Hp & Hl' & Hall).
    { unfold len in *. by rewrite (upd_length _ _ _ _ Hu). }
    exists tasks'. split; [done|]. split; [done|]. intros i t Hi.
    unfold in_bin. rewrite filter_cons. fold (in_bin n (Z.of_nat i) kvs).
    apply idx_Ret in Ht as [_ Ht]. pose proof (upd_lookup _ _ _ _ i Hu) as Hl1.
    destruct (decide (bin n (Key kv) = Z.of_nat i)) as [E|E].
    + rewrite decide_True in Hl1 by lia. replace (Z.to_nat (bin n (Key kv))) with i in Ht by lia.
      rewrite Ht in Hi. injection Hi as ->. apply Hall in Hl1. by rewrite <- app_assoc in Hl1.
    + rewrite decide_False in Hl1 by lia. rewrite Hi in Hl1. by apply Hall.
Qed.

Section tasks.
Context `{!JsonCodec, !GoMapOrder} (can_create : string -> bool).

Lemma create_Ret name contents fs :
  can_create name = true -> create can_create name contents fs = Ret (<[name := contents]> fs).
Proof. unfold create. by intros ->. Qed.

(** A loop that writes one file per iteration. *)
Lemma write_loop n (name : Z -> string) (content : Z -> string) (body : Z -> FS -> res FS) fs :
  0 <= n ->
  (forall i j, 0 <= i < n -> 0 <= j < n -> name i = name j -> i = j) ->
  (forall i fs', 0 <= i < n -> (forall p, (forall j, 0 <= j < i -> p <> name j) -> fs' !! p = fs !! p) ->
     body i fs' = Ret (<[name i := content i]> fs')) ->
  exists fs', for_range n body fs = Ret fs' /\
    (forall i, 0 <= i < n -> fs' !! name i = Some (content i)) /\
    (forall p, (forall i, 0 <= i < n -> p <> name i) -> fs' !! p = fs !! p).
Proof.
  intros Hn Hinj Hbody.
  apply (for_range_inv (fun i fs' =>
    (forall j, 0 <= j < i -> fs' !! name j = Some (content j)) /\
    (forall p, (forall j, 0 <= j < i -> p <> name j) -> fs' !! p = fs !! p))); [done| |].
  - split; [lia|done].
  - intros i fs' Hi [Hw Hf]. eexists. split; [by apply Hbody|]. split.
    + intros j Hj. destruct (decide (j = i)) as [->|Hne]; [apply lookup_insert_eq|].
      rewrite lookup_insert_ne; [apply Hw; lia|]. intros E. apply Hinj in E; lia.
    + intros p Hp. rewrite lookup_insert_ne by (intros <-; by apply (Hp i); [lia|]).
      apply Hf. intros j Hj. apply Hp. lia.
Qed.

(** A map task: the pairs of each reduce task in their file, nothing else written. *)
Lemma doMap_spec job m inFile n mapF fs c :
  0 <= m -> 0 < n -> fs !! inFile = Some c ->
  (forall r, 0 <= r < n -> can_create (reduceName job m r) = true) ->
  exists fs', doMap can_create job m inFile n mapF fs = Ret fs' /\
    (forall r, 0 <= r < n -> fs' !! reduceName job m r = Some (encode_kvs (in_bin n r (mapF inFile c)))) /\
    (forall p, (forall r, 0 <= r < n -> p <> reduceName job m r) -> fs' !! p = fs !! p).
Proof.
  intros Hm Hn Hin Hcc. unfold doMap. rewrite Hin. cbn [res_of_option mbind res_bind].
  unfold make_slice. destruct (Z.ltb_spec n 0); [lia|]. cbn [mbind res_bind].
  destruct (partition_kvs_spec n (mapF inFile c) (replicate (Z.to_nat n) [])) as (tasks & -> & Hl & Hall);
    [done|unfold len; rewrite length_replicate; lia|]. cbn [mbind res_bind].
  apply write_loop; [lia| |].
  - intros i j _ _ E. by apply reduceName_inj in E as [_ ?].
  - intros i fs' Hi _. rewrite (proj2 (idx_Ret tasks i (in_bin n i (mapF inFile c)))).
    + cbn. by rewrite create_Ret by auto.
    + split; [lia|]. rewrite (Hall _ []); [by rewrite Z2Nat.id by lia|].
      apply lookup_replicate. split; [done|lia].
Qed.

(** A reduce task: the files of the map tasks hold the parts of [outs] for this
    task; the output has one pair per key. *)
Lemma doReduce_spec job r outFile n reduceF fs (outs : list (list KeyValue)) :
  (forall m out, outs !! m = Some out ->
     fs !! reduceName job (Z.of_nat m) r = Some (encode_kvs (in_bin n r out))) ->
  Forall valid_kv (concat outs) ->
  can_create outFile = true ->
  doReduce can_create job r outFile (len outs) reduceF fs =
    Ret (<[outFile := encode_kvs (reduced reduceF r (groups (in_bin n r (concat outs))))]> fs).
Proof.
  intros Hfs Hv Hcc. unfold doReduce.
  destruct (for_range_inv (fun m kvs => kvs = groups (in_bin n r (concat (take (Z.to_nat m) outs)))) (len outs)
    (fun m kvs => reduceFile ← res_of_option (fs !! reduceName job m r);
                  Ret (foldl append_value kvs (decode_kvs reduceFile))) ∅) as (kvs & -> & ->).
  - apply len_nonneg.
  - done.
  - intros m kvs Hm ->. unfold len in Hm.
    destruct (lookup_lt_is_Some_2 outs (Z.to_nat m)) as [out Hout]; [lia|].
    pose proof (Hfs _ _ Hout) as Hf. rewrite Z2Nat.id in Hf by lia. rewrite Hf. cbn [res_of_option mbind res_bind].
    eexists. split; [reflexivity|]. rewrite decode_encode_kvs.
    + replace (Z.to_nat (m + 1)) with (S (Z.to_nat m)) by lia.
      rewrite (take_S_r _ _ _ Hout), concat_app. cbn. rewrite app_nil_r, in_bin_app.
      unfold groups. by rewrite foldl_app.
    + rewrite Forall_concat, Forall_forall in Hv. specialize (Hv out).
      rewrite Forall_forall in *. intros kv [_ Hkv]%list_elem_of_filter.
      apply Hv; [|done]. by eapply list_elem_of_lookup_2.
  - cbn [mbind res_bind]. rewrite firstn_all2 by (unfold len; lia). by apply create_Ret.
Qed.
End tasks.

(** ** The specification of a job *)

(** The pairs all map tasks emit, in the order of the input files. *)
Definition outs_of (mapF : string -> string -> list KeyValue) (inputs : list (string * string))
    : list (list KeyValue) := (fun fc => mapF fc.1 fc.2) <$> inputs.
Definition emitted mapF inputs : list KeyValue := concat (outs_of mapF inputs).

(** The files a job writes. *)
Definition job_file (job : string) (nMap nReduce : Z) (p : string) : Prop :=
  (exists m r, 0 <= m < nMap /\ 0 <= r < nReduce /\ p = reduceName job m r) \/
  (exists r, 0 <= r < nReduce /\ p = mergeName job r) \/ p = "mrtmp." +:+ job.

(** The job can run: its inputs are there and are no files of the job, the files
    of the job can be created, and its strings are valid UTF-8. *)
Record job_ok (can_create : string -> bool) (job : string) (n : Z)
    (mapF : string -> string -> list KeyValue) (reduceF : string -> list string -> string)
    (inputs : list (string * string)) (fs : FS) : Prop := {
  ok_n : 0 < n;
  ok_inputs : forall f c, (f, c) ∈ inputs ->
    fs !! f = Some c /\ ~ job_file job (len inputs) n f;
  ok_create : forall p, job_file job (len inputs) n p -> can_create p = true;
  ok_emitted : Forall valid_kv (emitted mapF inputs);
  ok_results : forall k, values k (emitted mapF inputs) <> [] ->
    ValidString (reduceF k (values k (emitted mapF inputs))) = true
}.

Section job.
Context `{!JsonCodec, !GoMapOrder} (can_create : string -> bool) (job : string) (n : Z)
        (mapF : string -> string -> list KeyValue) (reduceF : string -> list string -> string)
        (inputs : list (string * string)) (fs : FS)
        (Hok : job_ok can_create job n mapF reduceF inputs fs).

Local Abbreviation pairs := (emitted mapF inputs).
Local Abbreviation nMap := (len inputs).

Lemma len_inputs : len inputs.*1 = nMap.
Proof. unfold len. by rewrite length_fmap. Qed.

(** The files of the map tasks below [i]. *)
Definition mapped (i : Z) (fs' : FS) : Prop :=
  (forall m out r, outs_of mapF inputs !! m = Some out -> Z.of_nat m < i -> 0 <= r < n ->
     fs' !! reduceName job (Z.of_nat m) r = Some (encode_kvs (in_bin n r out))) /\
  (forall p, (forall m r, 0 <= m < i -> 0 <= r < n -> p <> reduceName job m r) -> fs' !! p = fs !! p).

Lemma map_phase st :
  let mr := {| address := "master"; workers := []; jobName := job; files := inputs.*1;
               nReduce := n; stats := st |} in
  exists fs', sequential_phase can_create mapF reduceF mr mapPhase fs = Ret fs' /\ mapped nMap fs'.
Proof.
  cbn zeta. unfold sequential_phase. cbn [files jobName nReduce]. rewrite len_inputs.
  destruct Hok as [Hn Hin Hcc _ _].
  apply (for_range_inv mapped); [apply len_nonneg|by split; [lia|]|].
  intros i fs' Hi [Hw Hf]. unfold len in Hi.
  destruct (lookup_lt_is_Some_2 inputs (Z.to_nat i)) as [[f c] Hfc]; [lia|].
  rewrite (proj2 (idx_Ret inputs.*1 i f)) by (rewrite list_lookup_fmap, Hfc; split; [lia|done]).
  cbn [mbind res_bind].
  destruct (Hin f c) as [Hfs Hnj]; [by eapply list_elem_of_lookup_2|].
  destruct (doMap_spec can_create job i f n mapF fs' c) as (fs'' & -> & Hw' & Hf').
  - lia.
  - done.
  - rewrite Hf; [done|]. intros m r Hm Hr ->. apply Hnj. left. exists m, r.
    unfold len. split; [lia|done].
  - intros r Hr. apply Hcc. left. exists i, r. unfold len. split; [lia|done].
  - exists fs''. split; [done|]. split.
    + intros m out r Hm Hlt Hr. destruct (decide (Z.of_nat m = i)) as [<-|Hne].
      * rewrite Nat2Z.id in Hfc. unfold outs_of in Hm. rewrite list_lookup_fmap, Hfc in Hm.
        injection Hm as <-. by apply Hw'.
      * rewrite Hf'; [apply Hw; [done|lia|done]|]. intros r' _ E. apply reduceName_inj in E; lia.
    + intros p Hp. rewrite Hf' by (intros r Hr; apply Hp; [lia|done]).
      apply Hf. intros m r Hm Hr. apply Hp; [lia|done].
Qed.

Lemma reduce_phase st fs1 :
  let mr := {| address := "master"; workers := []; jobName := job; files := inputs.*1;
               nReduce := n; stats := st |} in
  mapped nMap fs1 ->
  exists fs', sequential_phase can_create mapF reduceF mr reducePhase fs1 = Ret fs' /\
    (forall r, 0 <= r < n ->
       fs' !! mergeName job r = Some (encode_kvs (reduced reduceF r (groups (in_bin n r pairs))))) /\
    (forall p, (forall r, 0 <= r < n -> p <> mergeName job r) -> fs' !! p = fs1 !! p).
Proof.
  cbn zeta. intros [Hw _]. unfold sequential_phase. cbn [files jobName nReduce]. rewrite len_inputs.
  destruct Hok as [Hn _ Hcc Hv _].
  apply write_loop; [lia|by intros i j _ _ ?%mergeName_inj|].
  intros r fs' Hr Hf. assert (nMap = len (outs_of mapF inputs)) as ->.
  { unfold len, outs_of. by rewrite length_fmap. }
  apply (doReduce_spec can_create job r (mergeName job r) n reduceF fs' (outs_of mapF inputs)).
  - intros m out Hm. rewrite Hf; [apply Hw; [done| |done]|].
    + apply lookup_lt_Some in Hm. unfold outs_of in Hm. rewrite length_fmap in Hm. unfold len. lia.
    + intros j _. apply reduceName_mergeName. lia.
  - done.
  - apply Hcc. right. left. eauto.
Qed.

Lemma groups_bin_lookup r k :
  groups (in_bin n r pairs) !! k =
  if decide (values k pairs <> [] /\ bin n k = r) then Some (values k pairs) else None.
Proof.
  rewrite groups_lookup, values_in_bin. destruct (decide (bin n k = r)), (values k pairs);
    repeat case_decide; intuition congruence.
Qed.

Lemma reduced_valid r : Forall valid_kv (reduced reduceF r (groups (in_bin n r pairs))).
Proof.
  destruct Hok as [_ _ _ Hv Hr]. apply Forall_forall. intros kv Hkv.
  apply list_elem_of_fmap in Hkv as ([k vs] & -> & Hin). rewrite range_map_perm in Hin.
  apply elem_of_map_to_list in Hin. rewrite groups_bin_lookup in Hin.
  case_decide as Hk; [|done]. injection Hin as <-. destruct Hk as [Hk _]. split; [|by apply Hr].
  apply values_nil_iff in Hk as [v Hv']. rewrite Forall_forall in Hv. by apply Hv in Hv' as [? _].
Qed.

(** The map [merge] builds from the first [i] files. *)
Definition merged (i : Z) (kvs : gmap string string) : Prop :=
  forall k, kvs !! k = if decide (values k pairs <> [] /\ bin n k < i)
                       then Some (reduceF k (values k pairs)) else None.

Lemma merge_loop (fs2 : FS) :
  (forall r, 0 <= r < n ->
     fs2 !! mergeName job r = Some (encode_kvs (reduced reduceF r (groups (in_bin n r pairs))))) ->
  exists kvs, for_range n (fun i (kvs : gmap string string) =>
    file ← res_of_option (fs2 !! mergeName job i);
    Ret (foldl (fun kvs kv => <[kv.(Key) := kv.(Value)]> kvs) kvs (decode_kvs file))) ∅ = Ret kvs /\
    merged n kvs.
Proof.
  intros Hfs. apply for_range_inv; [destruct Hok; lia| |].
  - intros k. rewrite lookup_empty, decide_False; [done|]. destruct Hok as [Hn _ _ _ _].
    pose proof (bin_range n k Hn). lia.
  - intros i kvs Hi Hm. rewrite Hfs by done. cbn [res_of_option mbind res_bind].
    eexists. split; [reflexivity|]. rewrite decode_encode_kvs by apply reduced_valid.
    intros k. rewrite foldl_insert_reduced, groups_bin_lookup, Hm.
    repeat case_decide; try done; intuition lia.
Qed.

Definition sorted_keys (keys : list string) : Prop :=
  StronglySorted String.le keys /\ NoDup keys /\ forall k, k ∈ keys <-> values k pairs <> [].

Lemma merge_keys seed kvs :
  merged n kvs -> sorted_keys (merge_sort String.le ((range_map seed kvs).*1)).
Proof.
  intros Hm. split; [apply (StronglySorted_merge_sort String.le)|].
  assert (merge_sort String.le (range_map seed kvs).*1 ≡ₚ (map_to_list kvs).*1) as Hp.
  { etrans; [apply merge_sort_Permutation|]. by rewrite range_map_perm. }
  split; [rewrite Hp; apply NoDup_fst_map_to_list|]. intros k. rewrite Hp.
  destruct Hok as [Hn _ _ _ _]. pose proof (bin_range n k Hn) as Hb. specialize (Hm k).
  rewrite list_elem_of_fmap. split.
  - intros ([k' v] & -> & Hin). apply elem_of_map_to_list in Hin. cbn in *. rewrite Hin in Hm.
    case_decide; [tauto|done].
  - intros Hk. rewrite decide_True in Hm by (split; [done|lia]).
    exists (k, reduceF k (values k pairs)). split; [done|]. by apply elem_of_map_to_list.
Qed.

(** The text of the result. *)
Definition job_output (keys : list string) : string :=
  concat_strings ((fun k => outline k (reduceF k (values k pairs))) <$> keys).

Lemma merge_spec mr (fs2 : FS) :
  jobName mr = job -> nReduce mr = n ->
  (forall r, 0 <= r < n ->
     fs2 !! mergeName job r = Some (encode_kvs (reduced reduceF r (groups (in_bin n r pairs))))) ->
  exists keys, sorted_keys keys /\
    MapReduce.merge can_create mr fs2 = Ret (<["mrtmp." +:+ job := job_output keys]> fs2).
Proof.
  intros Hj Hn Hfs. unfold MapReduce.merge. rewrite Hj, Hn.
  destruct (merge_loop fs2 Hfs) as (kvs & -> & Hm). cbn [mbind res_bind].
  pose proof (merge_keys n kvs Hm) as Hk. eexists. split; [exact Hk|].
  rewrite create_Ret.
  - do 2 f_equal. unfold job_output. f_equal. apply list_fmap_ext. intros _ k Hin%list_elem_of_lookup_2.
    destruct Hk as (_ & _ & Hk). apply Hk in Hin. rewrite Hm, decide_True; [done|].
    split; [done|]. destruct Hok as [Hn' _ _ _ _]. by apply bin_range.
  - destruct Hok as [_ _ Hcc _ _]. apply Hcc. right. by right.
Qed.

(** The state after a sequential run. *)
Definition job_done (mr : Master) (fs' : FS) : Prop :=
  mr = {| address := "master"; workers := []; jobName := job; files := inputs.*1;
          nReduce := n; stats := [nMap + n] |} /\
  (exists keys, sorted_keys keys /\ fs' !! ("mrtmp." +:+ job) = Some (job_output keys)) /\
  (forall p, job_file job nMap n p -> is_Some (fs' !! p)) /\
  (forall p, ~ job_file job nMap n p -> fs' !! p = fs !! p).

Lemma sequential_done :
  exists mr fs', Sequential can_create job inputs.*1 n mapF reduceF fs = Ret (mr, fs') /\ job_done mr fs'.
Proof.
  unfold Sequential, run. cbn [address workers jobName files nReduce stats newMaster].
  destruct (map_phase []) as (fs1 & -> & Hm). cbn [mbind res_bind].
  destruct (reduce_phase [] fs1 Hm) as (fs2 & -> & Hw2 & Hf2). cbn [mbind res_bind].
  destruct (merge_spec {| address := "master"; workers := []; jobName := job; files := inputs.*1;
    nReduce := n; stats := [len inputs.*1 + n] |} fs2) as (keys & Hk & ->); [done..|].
  cbn [mbind res_bind]. eexists _, _. split; [reflexivity|]. rewrite len_inputs.
  split; [done|]. split; [exists keys; split; [done|apply lookup_insert_eq]|]. destruct Hm as [Hm1 Hm2]. split.
  - intros p [(m & r & Hm & Hr & ->)|[(r & Hr & ->)| ->]].
    + rewrite lookup_insert_ne by (apply not_eq_sym, reduceName_outName).
      rewrite Hf2 by (intros; apply reduceName_mergeName; lia).
      destruct (lookup_lt_is_Some_2 (outs_of mapF inputs) (Z.to_nat m)) as [out Hout].
      { unfold outs_of. rewrite length_fmap. unfold len in Hm. lia. }
      specialize (Hm1 _ _ r Hout). rewrite Z2Nat.id in Hm1 by lia. rewrite Hm1 by lia. eauto.
    + rewrite lookup_insert_ne by (apply not_eq_sym, mergeName_outName). rewrite Hw2 by done. eauto.
    + rewrite lookup_insert_eq. eauto.
  - intros p Hp. rewrite lookup_insert_ne by (intros <-; apply Hp; right; by right).
    rewrite Hf2 by (intros r Hr ->; apply Hp; right; left; eauto).
    apply Hm2. intros m r ? ? ->. apply Hp. left. eauto 6.
Qed.
End job.
