(* ===== verification/MRJobs.v ===== *)
(** * MRJobs: properties of the tasks and of sequential jobs

    The correctness of a sequential job, of cleaning up after it and of the
    error paths of a map task, with a JSON codec for the examples. *)

From S2P Require Import Prelude Utf8 MapReduce MRFacts MRTheory.
From stdpp Require Import pretty sorting.
From Stdlib Require Import Ascii.
Local Open Scope Z_scope.

(** ** Cleaning up *)

Lemma removeFile_Ret p fs : is_Some (fs !! p) -> removeFile p fs = Ret (delete p fs).
Proof. unfold removeFile. by intros [? ->]. Qed.

Lemma remove_loop n (name : Z -> string) (fs : FS) :
  0 <= n -> (forall i j, 0 <= i < n -> 0 <= j < n -> name i = name j -> i = j) ->
  (forall i, 0 <= i < n -> is_Some (fs !! name i)) ->
  exists fs', for_range n (fun i fs => removeFile (name i) fs) fs = Ret fs' /\
    (forall i, 0 <= i < n -> fs' !! name i = None) /\
    (forall p, (forall i, 0 <= i < n -> p <> name i) -> fs' !! p = fs !! p).
Proof.
  intros Hn Hinj Hpres. apply (for_range_inv (fun i fs' =>
    (forall j, 0 <= j < i -> fs' !! name j = None) /\
    (forall p, (forall j, 0 <= j < i -> p <> name j) -> fs' !! p = fs !! p))); [done|by split; [lia|]|].
  intros i fs' Hi [Hd Hf]. eexists. split; [apply removeFile_Ret|split].
  - rewrite Hf; [by apply Hpres|]. intros j Hj E. apply Hinj in E; lia.
  - intros j Hj. destruct (decide (j = i)) as [->|Hne]; [apply lookup_delete_eq|].
    rewrite lookup_delete_ne; [apply Hd; lia|]. intros E. apply Hinj in E; lia.
  - intros p Hp. rewrite lookup_delete_ne by (intros <-; by apply (Hp i); [lia|]).
    apply Hf. intros j Hj. apply Hp. lia.
Qed.

Lemma cleanup_spec mr (fs : FS) :
  0 <= nReduce mr ->
  (forall p, job_file (jobName mr) (len (files mr)) (nReduce mr) p -> is_Some (fs !! p)) ->
  exists fs', CleanupFiles mr fs = Ret fs' /\
    (forall p, job_file (jobName mr) (len (files mr)) (nReduce mr) p -> fs' !! p = None) /\
    (forall p, ~ job_file (jobName mr) (len (files mr)) (nReduce mr) p -> fs' !! p = fs !! p).
Proof.
  intros Hn Hpres. unfold CleanupFiles.
  set (job := jobName mr) in *. set (n := nReduce mr) in *. set (M := len (files mr)) in *.
  destruct (for_range_inv (fun i fs' =>
    (forall m r, 0 <= m < i -> 0 <= r < n -> fs' !! reduceName job m r = None) /\
    (forall p, (forall m r, 0 <= m < i -> 0 <= r < n -> p <> reduceName job m r) -> fs' !! p = fs !! p)) M
    (fun i fs => for_range n (fun j fs => removeFile (reduceName job i j) fs) fs) fs)
    as (fs1 & -> & Hd1 & Hf1).
  { apply len_nonneg. }
  { split; [lia|done]. }
  { intros i fs' Hi [Hd Hf].
    destruct (remove_loop n (reduceName job i) fs') as (fs'' & -> & Hd' & Hf'); [done| | |].
    - intros j j' _ _ E. by apply reduceName_inj in E as [_ ?]; [|lia..].
    - intros j Hj. rewrite Hf; [apply Hpres; left; eauto 6|].
      intros m r Hm _ E. apply reduceName_inj in E; lia.
    - exists fs''. split; [done|]. split.
      + intros m r Hm Hr. destruct (decide (m = i)) as [->|Hne]; [by apply Hd'|].
        rewrite Hf'; [apply Hd; [lia|done]|]. intros j _ E. apply reduceName_inj in E; lia.
      + intros p Hp. rewrite Hf' by (intros; apply Hp; [lia|done]).
        apply Hf. intros m r Hm Hr. apply Hp; [lia|done]. }
  cbn [mbind res_bind].
  destruct (remove_loop n (mergeName job) fs1) as (fs2 & -> & Hd2 & Hf2);
    [done|by intros i j _ _ ?%mergeName_inj| |].
  { intros r Hr. rewrite Hf1; [apply Hpres; right; left; eauto|].
    intros m r' Hm _ E. symmetry in E. by apply reduceName_mergeName in E; [|lia]. }
  cbn [mbind res_bind]. rewrite removeFile_Ret.
  2:{ rewrite Hf2 by (intros r _ E; symmetry in E; by apply mergeName_outName in E).
      rewrite Hf1 by (intros m r _ _ E; symmetry in E; by apply reduceName_outName in E).
      apply Hpres. right. by right. }
  eexists. split; [reflexivity|]. split.
  - intros p Hp. apply lookup_delete_None. destruct Hp as [(m & r & Hm & Hr & ->)|[(r & Hr & ->)| ->]].
    + right. rewrite Hf2 by (intros; apply reduceName_mergeName; lia). by apply Hd1.
    + right. by apply Hd2.
    + by left.
  - intros p Hp. rewrite lookup_delete_ne by (intros <-; apply Hp; right; by right).
    rewrite Hf2 by (intros r Hr ->; apply Hp; right; left; eauto).
    apply Hf1. intros m r Hm Hr ->. apply Hp. left. eauto 6.
Qed.

(** ** A JSON codec

    The format of [encoding/json] for strings of printable ASCII characters,
    quotes, backslashes and newlines. *)

Definition dq : ascii := "034".
Definition bs : ascii := "092".
Definition nl : ascii := "010".

Fixpoint escape (s : string) : string :=
  match s with
  | EmptyString => ""
  | String c s =>
      if decide (c = dq) then String bs (String dq (escape s))
      else if decide (c = bs) then String bs (String bs (escape s))
      else if decide (c = nl) then String bs (String "n" (escape s))
      else String c (escape s)
  end.

(** The characters up to the closing quote. *)
Fixpoint unescape (s : string) : option (string * string) :=
  match s with
  | EmptyString => None
  | String c s =>
      if decide (c = dq) then Some ("", s)
      else if decide (c = bs) then
        match s with
        | String d s =>
            '(t, r) ← unescape s;
            Some (String (if decide (d = "n"%char) then nl else d) t, r)
        | EmptyString => None
        end
      else '(t, r) ← unescape s; Some (String c t, r)
  end.

Fixpoint strip (p s : string) : option string :=
  match p, s with
  | EmptyString, _ => Some s
  | String c p, String d s => if decide (c = d) then strip p s else None
  | _, EmptyString => None
  end.

Definition before_key : string := "{" +:+ String dq ("Key" +:+ String dq (":" +:+ String dq "")).
Definition before_value : string := "," +:+ String dq ("Value" +:+ String dq (":" +:+ String dq "")).
Definition after_value : string := "}" +:+ String nl "".

Definition encode_object (kv : KeyValue) : string :=
  before_key +:+ escape kv.(Key) +:+ String dq (before_value +:+ escape kv.(Value) +:+ String dq after_value).

Definition decode_object (s : string) : option (KeyValue * string) :=
  s ← strip before_key s;
  '(k, s) ← unescape s;
  s ← strip before_value s;
  '(v, s) ← unescape s;
  s ← strip after_value s;
  Some ({| Key := k; Value := v |}, s).

Lemma strip_append p s : strip p (p +:+ s) = Some s.
Proof. induction p as [|c p IH]; [done|]. rewrite append_cons. cbn. by rewrite decide_True. Qed.

Lemma unescape_escape s rest : unescape (escape s +:+ String dq rest) = Some (s, rest).
Proof.
  induction s as [|c s IH]; [done|]. cbn [escape].
  destruct (decide (c = dq)) as [->|Hq]; [|destruct (decide (c = bs)) as [->|Hb];
    [|destruct (decide (c = nl)) as [->|Hn]]]; rewrite !append_cons; cbn [unescape].
  - by rewrite IH.
  - by rewrite IH.
  - by rewrite IH.
  - by rewrite !decide_False, IH by done.
Qed.

Lemma strip_length p s r : strip p s = Some r -> String.length s = (String.length p + String.length r)%nat.
Proof.
  revert s. induction p as [|c p IH]; intros [|d s]; cbn; try (by intros [= <-]).
  case_decide; [|done]. intros H'%IH. lia.
Qed.

Lemma unescape_length s t r : unescape s = Some (t, r) -> (String.length r < String.length s)%nat.
Proof.
  revert t. induction s as [s IH] using (induction_ltof1 _ String.length). unfold ltof in IH.
  intros t. destruct s as [|c s]; [done|]. cbn [unescape]. case_decide; [intros [= _ <-]; cbn; lia|].
  case_decide.
  - destruct s as [|d s]; [done|]. destruct (unescape s) as [[t' r']|] eqn:E; [|done].
    intros [= _ <-]. apply IH in E; cbn; lia.
  - destruct (unescape s) as [[t' r']|] eqn:E; [|done]. intros [= _ <-]. apply IH in E; cbn; lia.
Qed.

Global Program Instance json_ascii : JsonCodec :=
  {| json_Encode := encode_object; json_Decode := decode_object |}.
Next Obligation.
  intros [k v] rest _ _. unfold encode_object, decode_object. cbn [Key Value].
  rewrite append_assoc, strip_append. cbn [mbind option_bind].
  rewrite append_assoc, append_cons, unescape_escape. cbn [mbind option_bind].
  rewrite append_assoc, strip_append. cbn [mbind option_bind].
  rewrite append_assoc, append_cons, unescape_escape. cbn [mbind option_bind].
  by rewrite strip_append.
Qed.
Next Obligation. done. Qed.
Next Obligation.
  intros s kv rest. unfold decode_object.
  destruct (strip before_key s) as [s1|] eqn:E1; [|done]. cbn [mbind option_bind].
  destruct (unescape s1) as [[k s2]|] eqn:E2; [|done]. cbn [mbind option_bind].
  destruct (strip before_value s2) as [s3|] eqn:E3; [|done]. cbn [mbind option_bind].
  destruct (unescape s3) as [[v s4]|] eqn:E4; [|done]. cbn [mbind option_bind].
  destruct (strip after_value s4) as [s5|] eqn:E5; [|done]. intros [= _ <-].
  apply strip_length in E1, E3, E5. apply unescape_length in E2, E4. lia.
Qed.

Global Instance map_order : GoMapOrder :=
  {| range_map := fun V _ m => map_to_list m; range_map_perm := fun V _ m => reflexivity _ |}.

(** ** The properties *)

Section properties.
Context `{!JsonCodec, !GoMapOrder} (can_create : string -> bool).

Lemma create_loop n (name content : Z -> string) (body : Z -> FS -> res FS) k i fs :
  i + Z.of_nat k = n -> 0 <= i ->
  (forall j fs, 0 <= j < n -> body j fs = create can_create (name j) (content j) fs) ->
  for_loop k i body fs = Panic <-> exists j, i <= j < n /\ can_create (name j) = false.
Proof.
  revert i fs. induction k as [|k IH]; intros i fs Hk Hi Hb; cbn [for_loop].
  - split; [done|]. intros (j & ? & _). lia.
  - rewrite Hb by lia. unfold create. destruct (can_create (name i)) eqn:Ec; cbn [mbind res_bind].
    + rewrite IH by (done || lia). split; intros (j & Hj & E); exists j; split; try done; [lia|].
      destruct (decide (j = i)) as [->|]; [congruence|lia].
    + split; [|done]. intros _. exists i. split; [lia|done].
Qed.

(** When a map task stops the process: exactly when its input cannot be read,
    the number of reduce tasks is negative, it is zero and there is a pair to
    store, or one of the intermediate files cannot be created. *)
Theorem doMap_fails_iff job m inFile n mapF fs :
  doMap can_create job m inFile n mapF fs = Panic <->
  match fs !! inFile with
  | None => True
  | Some c => n < 0 \/ n = 0 /\ mapF inFile c <> [] \/
              exists r, 0 <= r < n /\ can_create (reduceName job m r) = false
  end.
Proof.
  unfold doMap. destruct (fs !! inFile) as [c|]; [|done]. cbn [res_of_option mbind res_bind].
  unfold make_slice. destruct (Z.ltb_spec n 0) as [?|Hn]; cbn [mbind res_bind];
    [split; [by left|done]|].
  destruct (decide (n = 0)) as [->|Hn0].
  { cbn. destruct (mapF inFile c) as [|kv kvs]; cbn; [|split; [by right; left|done]]. split; [done|].
    intros [?|[[_ ?]|(r & ? & _)]]; [lia|done|lia]. }
  destruct (partition_kvs_spec n (mapF inFile c) (replicate (Z.to_nat n) [])) as (tasks & -> & Hl & Hall);
    [lia|unfold len; rewrite length_replicate; lia|]. cbn [mbind res_bind].
  unfold for_range. rewrite (create_loop n (reduceName job m)
    (fun i => encode_kvs (in_bin n i (mapF inFile c)))); [|lia|lia|].
  - split; [tauto|]. intros [?|[[? _]|?]]; [lia|lia|done].
  - intros i fs' Hi. rewrite (proj2 (idx_Ret tasks i (in_bin n i (mapF inFile c)))); [done|].
    split; [lia|]. rewrite (Hall _ []); [by rewrite Z2Nat.id by lia|].
    apply lookup_replicate. split; [done|lia].
Qed.

(** C27. A sequential job that can run ends, and its result file has one line for each
    key that a map task emitted, in ascending order of the keys: the key and the
    reduce function applied to all values of the key, in the order of the input
    files.  Files that are not of the job are as before.  The job can run
    ([job_ok]) when: it has at least one reduce task; every input file is readable and
    is not one of the job's own files (intermediate files, merge files, the result);
    each of the job's files can be created; the keys and values that the map function
    emits for the inputs are valid UTF-8, and so is what the reduce function makes of
    them (JSON replaces anything else).  Without these the job may end in [log.Fatal]
    or a panic, or mix keys. *)
Theorem sequential_correct job n mapF reduceF inputs fs :
  job_ok can_create job n mapF reduceF inputs fs ->
  exists mr fs' keys,
    Sequential can_create job inputs.*1 n mapF reduceF fs = Ret (mr, fs') /\
    StronglySorted String.le keys /\ NoDup keys /\
    (forall k, k ∈ keys <-> exists v, {| Key := k; Value := v |} ∈ emitted mapF inputs) /\
    fs' !! ("mrtmp." +:+ job) = Some (concat_strings
      ((fun k => outline k (reduceF k (values k (emitted mapF inputs)))) <$> keys)) /\
    forall p, ~ job_file job (len inputs) n p -> fs' !! p = fs !! p.
Proof.
  intros Hok. destruct (sequential_done can_create job n mapF reduceF inputs fs Hok)
    as (mr & fs' & E & _ & (keys & (Hs & Hnd & Hk) & Hout) & _ & Hf).
  exists mr, fs', keys. split; [done|]. split; [done|]. split; [done|]. split; [|done].
  intros k. rewrite Hk. apply values_nil_iff.
Qed.

(** [CleanupFiles] after a sequential job removes every file the job made and
    nothing else: if none of them was there before, the files are as before. *)
Theorem cleanup_restores job n mapF reduceF inputs fs :
  job_ok can_create job n mapF reduceF inputs fs ->
  (forall p, job_file job (len inputs) n p -> fs !! p = None) ->
  exists mr fs', Sequential can_create job inputs.*1 n mapF reduceF fs = Ret (mr, fs') /\
    CleanupFiles mr fs' = Ret fs.
Proof.
  intros Hok Hno. destruct (sequential_done can_create job n mapF reduceF inputs fs Hok)
    as (mr & fs' & E & Hmr & _ & Hp & Hf).
  exists mr, fs'. split; [done|]. destruct (cleanup_spec mr fs') as (fs'' & -> & Hd & Hk).
  - subst mr. cbn. destruct Hok. lia.
  - subst mr. cbn [jobName files nReduce]. by rewrite len_inputs.
  - subst mr. cbn [jobName files nReduce] in Hd, Hk. rewrite len_inputs in Hd, Hk.
    f_equal. apply map_eq. intros p.
    destruct (fs'' !! p) as [c|] eqn:Ep.
    + assert (~ job_file job (len inputs) n p) as Hn by (intros Hj; by rewrite Hd in Ep).
      by rewrite <- Hf, <- Hk, Ep.
    + destruct (fs !! p) as [c|] eqn:Ef; [|done].
      assert (~ job_file job (len inputs) n p) as Hn by (intros Hj; by rewrite Hno in Ef).
      rewrite <- Hf in Ef by done. rewrite <- Hk in Ef by done. congruence.
Qed.
End properties.
