(* ===== verification/WordCount.v ===== *)
(** * WordCount: the word-count program (src/main/wc.go)

    A sequential job of the MapReduce library with three reduce tasks.  [table]
    is the Unicode table of letters above the first 256 code points. *)

From S2P Require Import Prelude Utf8 MapReduce MRFacts MRTheory MRJobs.
From stdpp Require Import pretty sorting.
Local Open Scope Z_scope.

(** The words of a text. *)
Definition words_of (table : N -> bool) (contents : string) : list string :=
  FieldsFunc contents (fun c => negb (IsLetter table c)).

Lemma words_of_valid table contents w :
  table RuneError = false -> w ∈ words_of table contents -> ValidString w = true.
Proof.
  intros Ht Hw. eapply FieldsFunc_valid; [|exact Hw]. unfold IsLetter.
  change (RuneError <=? 255)%N with false. cbn. by rewrite Ht.
Qed.

Definition mapF (table : N -> bool) (filename contents : string) : list KeyValue :=
  (fun w => {| Key := w; Value := "1" |}) <$> words_of table contents.

Definition reduceF (key : string) (values : list string) : string := Itoa (len values).

(** ** Word count *)

Section wc.
Context `{!JsonCodec, !GoMapOrder} (can_create : string -> bool) (table : N -> bool).

(** The inputs of a job are there, and its files can be made. *)
Definition inputs_ok (job : string) (n : Z) (inputs : list (string * string)) (fs : FS) : Prop :=
  (forall f c, (f, c) ∈ inputs -> fs !! f = Some c /\ ~ job_file job (len inputs) n f) /\
  (forall p, job_file job (len inputs) n p -> can_create p = true).

(** All words of the inputs. *)
Definition all_words (inputs : list (string * string)) : list string :=
  concat ((fun fc => words_of table fc.2) <$> inputs).

Lemma wc_values k l : values k ((fun w => {| Key := w; Value := "1" |}) <$> l)
  = (fun _ => "1") <$> filter (fun w => w = k) l.
Proof.
  induction l as [|w l IH]; [done|]. rewrite fmap_cons, values_cons, filter_cons, IH. cbn.
  by case_decide.
Qed.

Lemma wc_emitted inputs :
  emitted (mapF table) inputs = (fun w => {| Key := w; Value := "1" |}) <$> all_words inputs.
Proof.
  unfold emitted, outs_of, all_words. induction inputs as [|fc inputs IH]; [done|].
  rewrite !fmap_cons. cbn [concat]. by rewrite fmap_app, IH.
Qed.

Lemma wc_job_ok job n inputs fs :
  0 < n -> table RuneError = false -> inputs_ok job n inputs fs ->
  job_ok can_create job n (mapF table) reduceF inputs fs.
Proof.
  intros Hn Ht [Hin Hcc]. split; [done|done|done| |].
  - rewrite wc_emitted. apply Forall_fmap, Forall_forall. intros w Hw. split; [|done].
    apply list_elem_of_In, in_concat in Hw as (l & Hl & Hw%list_elem_of_In).
    apply list_elem_of_In, list_elem_of_fmap in Hl as (fc & -> & _). by eapply words_of_valid.
  - intros k _. apply Itoa_valid, len_nonneg.
Qed.

(** Word count: [wc] writes one line for each word of its input files, in
    ascending order, with the number of times the word occurs in all of them. *)
Theorem wc_counts inputs fs :
  table RuneError = false -> inputs_ok "wcseq" 3 inputs fs ->
  exists mr fs' keys,
    Sequential can_create "wcseq" inputs.*1 3 (mapF table) reduceF fs = Ret (mr, fs') /\
    StronglySorted String.le keys /\ NoDup keys /\ (forall w, w ∈ keys <-> w ∈ all_words inputs) /\
    fs' !! "mrtmp.wcseq" = Some (concat_strings
      ((fun w => outline w (Itoa (Z.of_nat (cnt (fun x => x = w) (all_words inputs))))) <$> keys)).
Proof.
  intros Ht Hi. destruct (sequential_done can_create "wcseq" 3 (mapF table) reduceF inputs fs
    (wc_job_ok "wcseq" 3 inputs fs ltac:(lia) Ht Hi)) as (mr & fs' & E & _ & (keys & (Hs & Hnd & Hk) & Hout) & _).
  exists mr, fs', keys. split; [done|]. split; [done|]. split; [done|]. split.
  - intros w. rewrite Hk, values_nil_iff, wc_emitted. setoid_rewrite list_elem_of_fmap. split.
    + intros (v & x & [= -> ->] & Hx). done.
    + intros Hx. exists "1", w. done.
  - change "mrtmp.wcseq" with ("mrtmp." +:+ "wcseq"). rewrite Hout. unfold job_output. do 2 f_equal.
    apply list_fmap_ext. intros _ w _. unfold reduceF, cnt, len. rewrite wc_emitted, wc_values.
    by rewrite length_fmap.
Qed.
End wc.

(** ** An example *)

Definition demo_inputs : list (string * string) := [("f1", "a b a"); ("f2", "b, c!")].
Definition demo_fs : FS := {["f1" := "a b a"; "f2" := "b, c!"]}.
Definition no_table (r : N) : bool := false.

Lemma demo_not_job_file job M n f c : (f, c) ∈ demo_inputs -> ~ job_file job M n f.
Proof.
  unfold demo_inputs. rewrite !elem_of_cons, elem_of_nil.
  intros [[= -> ->]|[[= -> ->]|[]]]; intros [(? & ? & _ & _ & [=])|[(? & _ & [=])|[=]]].
Qed.

Lemma demo_fs_lookup f c : (f, c) ∈ demo_inputs -> demo_fs !! f = Some c.
Proof. unfold demo_inputs. rewrite !elem_of_cons, elem_of_nil. by intros [[= -> ->]|[[= -> ->]|[]]]. Qed.

Lemma demo_inputs_ok job n : inputs_ok (fun _ => true) job n demo_inputs demo_fs.
Proof.
  split; [|done]. intros f c Hin. split; [by apply demo_fs_lookup|by eapply demo_not_job_file].
Qed.

Lemma wc_counts_witness :
  exists mr fs' keys,
    Sequential (fun _ => true) "wcseq" ["f1"; "f2"] 3 (mapF no_table) reduceF demo_fs = Ret (mr, fs') /\
    StronglySorted String.le keys /\ NoDup keys /\ (forall w, w ∈ keys <-> w ∈ all_words no_table demo_inputs) /\
    fs' !! "mrtmp.wcseq" = Some (concat_strings
      ((fun w => outline w (Itoa (Z.of_nat (cnt (fun x => x = w) (all_words no_table demo_inputs))))) <$> keys)).
Proof.
  apply (wc_counts (fun _ => true) no_table demo_inputs demo_fs); [reflexivity|apply demo_inputs_ok].
Defined.

(** The same job, run. *)
Example wc_runs :
  match Sequential (fun _ => true) "wcseq" ["f1"; "f2"] 3 (mapF no_table) reduceF demo_fs with
  | Ret (_, fs) => fs !! "mrtmp.wcseq"
  | Panic => None
  end = Some (outline "a" "2" +:+ outline "b" "2" +:+ outline "c" "1").
Proof. vm_compute. reflexivity. Qed.

(** Instances of the properties of MRJobs.v. *)
Lemma demo_job_ok n :
  0 < n -> job_ok (fun _ => true) "wcseq" n (mapF no_table) reduceF demo_inputs demo_fs.
Proof. intros Hn. apply wc_job_ok; [done|reflexivity|apply demo_inputs_ok]. Qed.

Lemma sequential_correct_witness :
  exists mr fs' keys,
    Sequential (fun _ => true) "wcseq" demo_inputs.*1 3 (mapF no_table) reduceF demo_fs = Ret (mr, fs') /\
    StronglySorted String.le keys /\ NoDup keys /\
    (forall k, k ∈ keys <-> exists v, {| Key := k; Value := v |} ∈ emitted (mapF no_table) demo_inputs) /\
    fs' !! ("mrtmp." +:+ "wcseq") = Some (concat_strings
      ((fun k => outline k (reduceF k (values k (emitted (mapF no_table) demo_inputs)))) <$> keys)) /\
    forall p, ~ job_file "wcseq" 2 3 p -> fs' !! p = demo_fs !! p.
Proof. apply (sequential_correct (fun _ => true)). apply demo_job_ok. lia. Defined.

Lemma cleanup_restores_witness :
  exists mr fs', Sequential (fun _ => true) "wcseq" demo_inputs.*1 3 (mapF no_table) reduceF demo_fs
                 = Ret (mr, fs') /\ CleanupFiles mr fs' = Ret demo_fs.
Proof.
  apply (cleanup_restores (fun _ => true)); [apply demo_job_ok; lia|].
  intros p [(m & r & _ & _ & ->)|[(r & _ & ->)| ->]]; reflexivity.
Defined.
