(* ===== verification/InvertedIndex.v ===== *)
(** * InvertedIndex: the inverted-index program (src/main/ii.go)

    A sequential job of the MapReduce library: for every word the documents that
    contain it. *)

From S2P Require Import Prelude Utf8 MapReduce MRFacts MRTheory MRJobs WordCount.
From stdpp Require Import pretty sorting.
Local Open Scope Z_scope.

(** The loop that writes the documents, separated by commas. *)
Fixpoint write_documents (nDocument i : Z) (values : list string) : string :=
  match values with
  | [] => ""
  | document :: values =>
      document +:+ (if i =? nDocument - 1 then "" else ",") +:+ write_documents nDocument (i + 1) values
  end.

Definition reduceF (key : string) (values : list string) : string :=
  let nDocument := len values in
  let values := merge_sort String.le values in
  Itoa (len values) +:+ " " +:+ write_documents nDocument 0 values.

(** The loop that stores the words of a document as the keys of a map. *)
Definition wordsMap (words : list string) (document : string) : gmap string string :=
  foldl (fun m w => <[w := document]> m) ∅ words.

Section ii.
Context `{!JsonCodec, !GoMapOrder} (can_create : string -> bool) (table : N -> bool).

Definition mapF (document value : string) : list KeyValue :=
  (fun kv => {| Key := kv.1; Value := kv.2 |}) <$> range_map 0 (wordsMap (words_of table value) document).

(** The documents that contain a word, in the order of the inputs. *)
Definition documents (w : string) (inputs : list (string * string)) : list string :=
  (filter (fun fc => w ∈ words_of table fc.2) inputs).*1.

(** The names, with commas between them. *)
Fixpoint comma_separated (l : list string) : string :=
  match l with
  | [] => ""
  | [d] => d
  | d :: l => d +:+ "," +:+ comma_separated l
  end.

Lemma write_documents_spec l i : write_documents (i + len l) i l = comma_separated l.
Proof.
  revert i. induction l as [|d l IH]; intros i; [done|]. cbn [write_documents].
  replace (i + len (d :: l)) with (i + 1 + len l) by (unfold len; cbn [length]; lia).
  rewrite IH. destruct l as [|d' l].
  - destruct (Z.eqb_spec i (i + 1 + len (@nil string) - 1)); [|unfold len in *; cbn in *; lia].
    cbn. by rewrite append_nil_r.
  - destruct (Z.eqb_spec i (i + 1 + len (d' :: l) - 1)); [unfold len in *; cbn [length] in *; lia|done].
Qed.

Lemma wordsMap_lookup words d (m : gmap string string) (w : string) :
  foldl (fun m w => <[w := d]> m) m words !! w = if decide (w ∈ words) then Some d else m !! w.
Proof.
  revert m. induction words as [|x words IH]; intros m; [done|]. cbn [foldl]. rewrite IH.
  destruct (decide (w ∈ words)) as [Hw|Hw].
  - rewrite decide_True; [done|]. by right.
  - destruct (decide (w = x)) as [->|Hne].
    + rewrite lookup_insert_eq, decide_True; [done|]. by left.
    + rewrite lookup_insert_ne, decide_False; [done| |done]. by intros [?|?]%elem_of_cons.
Qed.

(** At most one pair of a map for each key. *)
Lemma values_of_map (m : gmap string string) (l : list (string * string)) w :
  l ≡ₚ map_to_list m ->
  values w ((fun kv => {| Key := kv.1; Value := kv.2 |}) <$> l) = option_list (m !! w).
Proof.
  intros Hp. assert (NoDup l.*1) as Hnd by (rewrite Hp; apply NoDup_fst_map_to_list).
  assert (list_to_map l = m) as <-.
  { rewrite (list_to_map_proper _ (map_to_list m)) by done. apply list_to_map_to_list. }
  clear Hp. induction l as [|[k v] l IH]; [done|]. cbn in Hnd. apply NoDup_cons in Hnd as [Hni Hnd].
  rewrite fmap_cons, values_cons, IH by done. cbn [Key Value fst snd]. case_decide as Hk.
  - subst. change (list_to_map ((w, v) :: l)) with (<[w := v]> (list_to_map l : gmap string string)).
    rewrite lookup_insert_eq, not_elem_of_list_to_map_1 by done. done.
  - change (list_to_map ((k, v) :: l)) with (<[k := v]> (list_to_map l : gmap string string)).
    by rewrite lookup_insert_ne by done.
Qed.

Lemma ii_values w inputs : values w (emitted mapF inputs) = documents w inputs.
Proof.
  unfold emitted, outs_of, documents. induction inputs as [|[d c] inputs IH]; [done|].
  rewrite fmap_cons. cbn [concat]. rewrite values_app, IH, filter_cons. cbn [fst snd]. unfold mapF.
  rewrite (values_of_map (wordsMap (words_of table c) d)) by apply range_map_perm.
  unfold wordsMap. rewrite wordsMap_lookup, lookup_empty. by case_decide.
Qed.

Lemma ii_emitted_valid inputs :
  table RuneError = false -> (forall f c, (f, c) ∈ inputs -> ValidString f = true) ->
  Forall valid_kv (emitted mapF inputs).
Proof.
  intros Ht Hv. apply Forall_concat, Forall_forall. intros out Hout.
  apply list_elem_of_fmap in Hout as ([d c] & -> & Hin). apply Forall_forall. intros kv Hkv. cbn in Hkv.
  apply list_elem_of_fmap in Hkv as ([w d'] & -> & Hw). rewrite range_map_perm in Hw.
  apply elem_of_map_to_list in Hw. unfold wordsMap in Hw. rewrite wordsMap_lookup, lookup_empty in Hw.
  case_decide; [|done]. injection Hw as <-. split; [by eapply words_of_valid|by eapply Hv].
Qed.

Lemma comma_separated_valid l :
  (forall d, d ∈ l -> ValidString d = true) -> ValidString (comma_separated l) = true.
Proof.
  induction l as [|d l IH]; intros Hl; [done|]. destruct l as [|d' l]; [apply Hl; by left|].
  cbn [comma_separated]. apply ValidString_app; [apply Hl; by left|].
  apply ValidString_app; [done|]. apply IH. intros x Hx. apply Hl. by right.
Qed.

Lemma reduceF_spec key l :
  reduceF key l = Itoa (len l) +:+ " " +:+ comma_separated (merge_sort String.le l).
Proof.
  unfold reduceF. assert (len (merge_sort String.le l) = len l) as E.
  { unfold len. by rewrite (merge_sort_Permutation String.le l). }
  rewrite E. rewrite <- (write_documents_spec _ 0), E. done.
Qed.

Lemma ii_job_ok inputs fs :
  table RuneError = false -> inputs_ok can_create "iiseq" 3 inputs fs ->
  (forall f c, (f, c) ∈ inputs -> ValidString f = true) ->
  job_ok can_create "iiseq" 3 mapF reduceF inputs fs.
Proof.
  intros Ht [Hin Hcc] Hv. split; [lia|done|done|by apply ii_emitted_valid|].
  intros k _. rewrite ii_values, reduceF_spec. apply ValidString_app; [apply Itoa_valid, len_nonneg|].
  apply ValidString_app; [done|]. apply comma_separated_valid. intros d.
  rewrite (merge_sort_Permutation String.le). unfold documents.
  intros ([f c] & -> & [_ Hf]%list_elem_of_filter)%list_elem_of_fmap. by eapply Hv.
Qed.

(** Inverted index: [ii] writes one line for each word of its input files, in
    ascending order: the number of documents that contain it and their names,
    sorted and separated by commas. *)
Theorem ii_index inputs fs :
  table RuneError = false -> inputs_ok can_create "iiseq" 3 inputs fs ->
  (forall f c, (f, c) ∈ inputs -> ValidString f = true) ->
  exists mr fs' keys,
    Sequential can_create "iiseq" inputs.*1 3 mapF reduceF fs = Ret (mr, fs') /\
    StronglySorted String.le keys /\ NoDup keys /\
    (forall w, w ∈ keys <-> w ∈ all_words table inputs) /\
    fs' !! "mrtmp.iiseq" = Some (concat_strings
      ((fun w => outline w (Itoa (len (documents w inputs)) +:+ " " +:+
          comma_separated (merge_sort String.le (documents w inputs)))) <$> keys)).
Proof.
  intros Ht Hi Hv. destruct (sequential_done can_create "iiseq" 3 mapF reduceF inputs fs
    (ii_job_ok inputs fs Ht Hi Hv)) as (mr & fs' & E & _ & (keys & (Hs & Hnd & Hk) & Hout) & _).
  exists mr, fs', keys. split; [done|]. split; [done|]. split; [done|]. split.
  - intros w. rewrite Hk, ii_values. unfold documents, all_words.
    rewrite list_elem_of_In, in_concat. setoid_rewrite <- list_elem_of_In.
    setoid_rewrite list_elem_of_fmap. split.
    + intros Hne. destruct (filter _ inputs) as [|fc l] eqn:Ef; [done|].
      assert (fc ∈ filter (fun fc => w ∈ words_of table fc.2) inputs) as [? ?]%list_elem_of_filter
        by (rewrite Ef; by left). eauto.
    + intros (l & (fc & -> & Hin) & Hw) Hnil. apply fmap_nil_inv in Hnil.
      assert (fc ∈ filter (fun fc => w ∈ words_of table fc.2) inputs) as Hf by (by apply list_elem_of_filter).
      rewrite Hnil in Hf. by apply elem_of_nil in Hf.
  - change "mrtmp.iiseq" with ("mrtmp." +:+ "iiseq"). rewrite Hout. unfold job_output. do 2 f_equal.
    apply list_fmap_ext. intros _ w _. by rewrite ii_values, reduceF_spec.
Qed.
End ii.

Lemma ii_index_witness :
  exists mr fs' keys,
    Sequential (fun _ => true) "iiseq" ["f1"; "f2"] 3 (mapF no_table) reduceF demo_fs = Ret (mr, fs') /\
    StronglySorted String.le keys /\ NoDup keys /\
    (forall w, w ∈ keys <-> w ∈ all_words no_table demo_inputs) /\
    fs' !! "mrtmp.iiseq" = Some (concat_strings
      ((fun w => outline w (Itoa (len (documents no_table w demo_inputs)) +:+ " " +:+
          comma_separated (merge_sort String.le (documents no_table w demo_inputs)))) <$> keys)).
Proof.
  apply (ii_index (fun _ => true) no_table demo_inputs demo_fs); [reflexivity|apply demo_inputs_ok|].
  intros f c. unfold demo_inputs. rewrite !elem_of_cons, elem_of_nil. by intros [[= -> ->]|[[= -> ->]|[]]].
Defined.

(** The job, run. *)
Example ii_runs :
  match Sequential (fun _ => true) "iiseq" ["f1"; "f2"] 3 (mapF no_table) reduceF demo_fs with
  | Ret (_, fs) => fs !! "mrtmp.iiseq"
  | Panic => None
  end = Some (outline "a" "1 f1" +:+ outline "b" "2 f1,f2" +:+ outline "c" "1 f2").
Proof. vm_compute. reflexivity. Qed.
