(* ===== verification/Schedule.v ===== *)
(** * Schedule: tasks on workers (src/mapreduce/schedule.go, worker.go, master.go)

    [schedule] starts a goroutine per task.  A goroutine takes a worker from the
    channel, calls [DoTask] on it, puts the worker back and repeats until a call
    succeeds.  [forwardRegistrations] sends every worker that has registered to
    the channel.  The goroutines, the processes of the workers and the files are the
    state [Sched] of a step relation; a worker may be unreachable, its reply may be
    lost, or it may die in the middle of a task, leaving the files of that task in
    any state.  A worker may start and register under a name that is already
    registered: [Register] appends any name, and the new process takes over the
    socket of the old one.  [call] has no timeout in the code (its comment asks to
    assume one), so it does not return before the handler ends or its process
    dies. *)

From S2P Require Import Prelude Utf8 MapReduce MRFacts MRTheory.
Local Open Scope Z_scope.

(** ** Tasks of a phase (src/mapreduce/common_rpc.go, schedule.go) *)

Record DoTaskArgs := {
  JobName : string; File : string; Phase : jobPhase; TaskNumber : Z; NumOtherPhase : Z
}.

(** [ntasks] and [nother] *)
Definition phase_counts (mapFiles : list string) (nReduce : Z) (phase : jobPhase) : Z * Z :=
  match phase with
  | mapPhase => (len mapFiles, nReduce)
  | reducePhase => (nReduce, len mapFiles)
  end.

(** The arguments of the goroutines that [schedule] starts. *)
Definition schedule_args (jobName : string) (mapFiles : list string) (nReduce : Z) (phase : jobPhase)
    : res (list DoTaskArgs) :=
  let '(ntasks, nother) := phase_counts mapFiles nReduce phase in
  for_range ntasks (fun i args =>
    f ← idx mapFiles i;
    Ret (args ++ [{| JobName := jobName; File := f; Phase := phase; TaskNumber := i;
                     NumOtherPhase := nother |}])) [].

(** ** Workers (src/mapreduce/worker.go) *)

Record Parallelism := { now : Z; pmax : Z }.

(** Where [RunWorker] is after [net.Listen]: in [register], before the test of
    [nRPC], in [Accept], or after [wk.l.Close()]. *)
Inductive WLoop := LRegister | LTest | LAccept | LExit.

Record Worker := { nRPC : Z; nTasks : Z; concurrent : Z; loop : WLoop }.

Definition newWorker (nrpc : Z) : Worker := {| nRPC := nrpc; nTasks := 0; concurrent := 0; loop := LRegister |}.

(** [DoTask] up to the test of [nc], which is returned with the new state. *)
Definition DoTask_begin (wk : Worker) : Worker * Z :=
  let wk := {| nRPC := wk.(nRPC); nTasks := wk.(nTasks) + 1; concurrent := wk.(concurrent) + 1;
               loop := wk.(loop) |} in
  (wk, wk.(concurrent)).

(** The bookkeeping of parallelism at the start; [true] when the worker pauses. *)
Definition parallelism_begin (p : option Parallelism) : option Parallelism * bool :=
  match p with
  | None => (None, false)
  | Some p =>
      let n := p.(now) + 1 in
      let m := if p.(pmax) <? n then n else p.(pmax) in
      (Some {| now := n; pmax := m |}, m <? 2)
  end.
Definition parallelism_end (p : option Parallelism) : option Parallelism :=
  match p with
  | None => None
  | Some p => Some {| now := p.(now) - 1; pmax := p.(pmax) |}
  end.

Definition DoTask_end (wk : Worker) : Worker :=
  {| nRPC := wk.(nRPC); nTasks := wk.(nTasks); concurrent := wk.(concurrent) - 1; loop := wk.(loop) |}.

(** The handler [Worker.Shutdown]: the reply is the number of tasks. *)
Definition Shutdown (wk : Worker) : Worker * Z :=
  ({| nRPC := 1; nTasks := wk.(nTasks); concurrent := wk.(concurrent); loop := wk.(loop) |}, wk.(nTasks)).

(** [register] returns, whatever its call did; the test at the head of the loop of
    [RunWorker], and at its end the socket is closed. *)
Definition loop_test (wk : Worker) : Worker :=
  match wk.(loop) with
  | LRegister => {| nRPC := wk.(nRPC); nTasks := wk.(nTasks); concurrent := wk.(concurrent); loop := LTest |}
  | LTest =>
      {| nRPC := wk.(nRPC); nTasks := wk.(nTasks); concurrent := wk.(concurrent);
         loop := if wk.(nRPC) =? 0 then LExit else LAccept |}
  | _ => wk
  end.

(** [Accept] of a connection: it is served, and the loop goes on. *)
Definition accept (wk : Worker) : option Worker :=
  match wk.(loop) with
  | LAccept =>
      Some {| nRPC := wk.(nRPC) - 1; nTasks := wk.(nTasks); concurrent := wk.(concurrent); loop := LTest |}
  | _ => None
  end.

Section schedule.
Context `{!JsonCodec, !GoMapOrder} (can_create : string -> bool)
        (mapF : string -> string -> list KeyValue) (reduceF : string -> list string -> string).

(** The switch of [DoTask]. *)
Definition run_task (arg : DoTaskArgs) (fs : FS) : res FS :=
  match arg.(Phase) with
  | mapPhase => doMap can_create arg.(JobName) arg.(TaskNumber) arg.(File) arg.(NumOtherPhase) mapF fs
  | reducePhase =>
      doReduce can_create arg.(JobName) arg.(TaskNumber) (mergeName arg.(JobName) arg.(TaskNumber))
        arg.(NumOtherPhase) reduceF fs
  end.

(** The files a task writes. *)
Definition task_file (arg : DoTaskArgs) (p : string) : Prop :=
  match arg.(Phase) with
  | mapPhase => exists r, 0 <= r < arg.(NumOtherPhase) /\ p = reduceName arg.(JobName) arg.(TaskNumber) r
  | reducePhase => p = mergeName arg.(JobName) arg.(TaskNumber)
  end.

(** ** The state of a phase *)

(** A goroutine of [schedule]: at the channel; in [call] to the name [w], before
    [rpc.Dial], connected to the process [p] that listened under that name, or with
    the handler of [p] running; or finished. *)
Inductive gostate :=
| Waiting
| Calling (w : string)
| Dialed (w : string) (p : nat)
| Running (w : string) (p : nat)
| Finished.

(** The processes of workers are numbered in the order in which they called
    [net.Listen].  A name may be that of several processes: the last one to listen has
    the socket, and the earlier ones go on. *)
Record Sched := {
  args : list DoTaskArgs;          (* one per goroutine *)
  tasks : list gostate;
  chan : list string;              (* senders and values of registerChan *)
  registered : list string;        (* mr.workers *)
  forwarded : nat;                 (* i of forwardRegistrations *)
  procs : list string;             (* the name of each process *)
  sock : gmap string nat;          (* the process that listens on a socket *)
  wks : gmap nat Worker;           (* the processes that run *)
  store : FS;
  fatal : bool                     (* a process saw two tasks at once *)
}.

Definition schedule_init (args : list DoTaskArgs) (workers procs : list string) (sock : gmap string nat)
    (wks : gmap nat Worker) (fs : FS) : Sched :=
  {| args := args; tasks := replicate (length args) Waiting; chan := []; registered := workers;
     forwarded := 0; procs := procs; sock := sock; wks := wks; store := fs; fatal := false |}.

Definition set_task (t : nat) (g : gostate) (ch : list string) (ws : gmap nat Worker) (fs : FS)
    (f : bool) (s : Sched) : Sched :=
  {| args := s.(args); tasks := <[t := g]> s.(tasks); chan := ch; registered := s.(registered);
     forwarded := s.(forwarded); procs := s.(procs); sock := s.(sock); wks := ws; store := fs; fatal := f |}.

Definition set_wks (ws : gmap nat Worker) (so : gmap string nat) (s : Sched) : Sched :=
  {| args := s.(args); tasks := s.(tasks); chan := s.(chan); registered := s.(registered);
     forwarded := s.(forwarded); procs := s.(procs); sock := so; wks := ws; store := s.(store); fatal := s.(fatal) |}.

(** The beginning of [RunWorker]: [os.Remove(me)] and [net.Listen("unix", me)]. *)
Definition RunWorker (me : string) (nrpc : Z) (s : Sched) : Sched :=
  {| args := s.(args); tasks := s.(tasks); chan := s.(chan); registered := s.(registered);
     forwarded := s.(forwarded); procs := s.(procs) ++ [me]; sock := <[me := length s.(procs)]> s.(sock);
     wks := <[length s.(procs) := newWorker nrpc]> s.(wks); store := s.(store); fatal := s.(fatal) |}.

(** [Register]: any name, as often as it comes. *)
Definition register (w : string) (s : Sched) : Sched :=
  {| args := s.(args); tasks := s.(tasks); chan := s.(chan); registered := s.(registered) ++ [w];
     forwarded := s.(forwarded); procs := s.(procs); sock := s.(sock); wks := s.(wks);
     store := s.(store); fatal := s.(fatal) |}.

(** One turn of the loop of [forwardRegistrations], with worker [w] at position
    [i]: a goroutine that sends it. *)
Definition forwardRegistrations (w : string) (s : Sched) : Sched :=
  {| args := s.(args); tasks := s.(tasks); chan := s.(chan) ++ [w];
     registered := s.(registered); forwarded := S s.(forwarded); procs := s.(procs); sock := s.(sock);
     wks := s.(wks); store := s.(store); fatal := s.(fatal) |}.

(** The loop of process [p], with the name [w], goes on; [wk.l.Close()] removes the
    file of the socket, whoever listens there. *)
Definition worker_loop (p : nat) (w : string) (wk : Worker) (s : Sched) : Sched :=
  set_wks (<[p := loop_test wk]> s.(wks))
    (match (loop_test wk).(loop) with LExit => delete w s.(sock) | _ => s.(sock) end) s.

Inductive sstep : Sched -> Sched -> Prop :=
(** A worker starts to listen, under any name. *)
| S_start s w nrpc : sstep s (RunWorker w nrpc s)
(** A worker registers. *)
| S_register s w : sstep s (register w s)
(** The next worker goes to the channel. *)
| S_forward s w :
    s.(registered) !! s.(forwarded) = Some w -> sstep s (forwardRegistrations w s)
(** [worker := <-registerChan] *)
| S_take s t k w :
    s.(tasks) !! t = Some Waiting -> s.(chan) !! k = Some w ->
    sstep s (set_task t (Calling w) (delete k s.(chan)) s.(wks) s.(store) s.(fatal) s)
(** The loop of a worker goes from [register] to its test, from there to [Accept], or
    ends. *)
| S_loop s p w wk :
    s.(wks) !! p = Some wk -> s.(procs) !! p = Some w -> wk.(loop) <> LExit -> sstep s (worker_loop p w wk s)
(** [rpc.Dial] reaches the process that has the socket. *)
| S_dial s t w p :
    s.(tasks) !! t = Some (Calling w) -> s.(sock) !! w = Some p ->
    sstep s (set_task t (Dialed w p) s.(chan) s.(wks) s.(store) s.(fatal) s)
(** The worker accepts the connection of the call, the handler begins. *)
| S_begin s t w p wk0 wk :
    s.(tasks) !! t = Some (Dialed w p) -> s.(wks) !! p = Some wk0 -> accept wk0 = Some wk ->
    (DoTask_begin wk).2 <= 1 ->
    sstep s (set_task t (Running w p) s.(chan) (<[p := (DoTask_begin wk).1]> s.(wks)) s.(store) s.(fatal) s)
(** ... and finds another task in progress: [log.Fatal] ends the process, [call]
    returns false. *)
| S_fatal s t w p wk0 wk :
    s.(tasks) !! t = Some (Dialed w p) -> s.(wks) !! p = Some wk0 -> accept wk0 = Some wk ->
    1 < (DoTask_begin wk).2 ->
    sstep s (set_task t Waiting (s.(chan) ++ [w]) (delete p s.(wks)) s.(store) true s)
(** The handler ends, [call] returns true; the worker goes back to the channel. *)
| S_end s t w p wk arg fs' :
    s.(tasks) !! t = Some (Running w p) -> s.(wks) !! p = Some wk ->
    s.(args) !! t = Some arg -> run_task arg s.(store) = Ret fs' ->
    sstep s (set_task t Finished (s.(chan) ++ [w]) (<[p := DoTask_end wk]> s.(wks)) fs' s.(fatal) s)
(** The worker cannot be reached, [call] returns false. *)
| S_unreachable s t w g :
    s.(tasks) !! t = Some g -> g = Calling w \/ (exists p, g = Dialed w p) ->
    sstep s (set_task t Waiting (s.(chan) ++ [w]) s.(wks) s.(store) s.(fatal) s)
(** The handler ends but its reply is lost, [call] returns false. *)
| S_lost s t w p wk arg fs' :
    s.(tasks) !! t = Some (Running w p) -> s.(wks) !! p = Some wk ->
    s.(args) !! t = Some arg -> run_task arg s.(store) = Ret fs' ->
    sstep s (set_task t Waiting (s.(chan) ++ [w]) (<[p := DoTask_end wk]> s.(wks)) fs' s.(fatal) s)
(** The process dies during the task, or has died, [call] returns false. *)
| S_die s t w p arg fs' :
    s.(tasks) !! t = Some (Running w p) -> s.(args) !! t = Some arg ->
    (forall q, ~ task_file arg q -> fs' !! q = s.(store) !! q) ->
    sstep s (set_task t Waiting (s.(chan) ++ [w]) (delete p s.(wks)) fs' s.(fatal) s).

Definition ssteps : Sched -> Sched -> Prop := rtc sstep.

(** A step in which no worker starts or registers. *)
Definition quiet (s s' : Sched) : Prop :=
  sstep s s' /\ s'.(registered) = s.(registered) /\ s'.(procs) = s.(procs).

(** [wg.Wait()] returns. *)
Definition all_finished (s : Sched) : Prop := Forall (eq Finished) s.(tasks).
End schedule.

(** Evaluates the state a run has reached. *)
Ltac norm_state :=
  match goal with
  | |- rtc _ ?x _ => let x' := eval vm_compute in x in replace x with x' by (vm_compute; reflexivity)
  end.
