(* ===== verification/ScheduleTheory.v ===== *)
(** * ScheduleTheory: properties of the distributed MapReduce master

    No worker gets two tasks at once unless a name is registered twice, a phase that
    ends has the files of the sequential phase, and a phase can always be completed
    while a worker is alive. *)

From S2P Require Import Prelude Utf8 MapReduce MRFacts MRTheory MRJobs Schedule WordCount.
Local Open Scope Z_scope.

(** ** Goroutines and the workers they hold *)

Definition busy (g : gostate) : option string :=
  match g with Calling w | Dialed w _ | Running w _ => Some w | _ => None end.
Definition held (l : list gostate) : list string := omap busy l.

Global Instance gostate_eq_dec : EqDecision gostate.
Proof. solve_decision. Defined.

(** The handler of process [p] runs for the goroutine. *)
Definition runs_on (p : nat) (g : gostate) : Prop := match g with Running _ q => q = p | _ => False end.
Global Instance runs_on_dec p g : Decision (runs_on p g).
Proof. destruct g; cbn; apply _. Defined.

(** The process a goroutine is connected to. *)
Definition connected (g : gostate) : option (string * nat) :=
  match g with Dialed w p | Running w p => Some (w, p) | _ => None end.

Definition running (p : nat) (l : list gostate) : Z := Z.of_nat (cnt (runs_on p) l).

Lemma held_delete l t g : l !! t = Some g -> held l ≡ₚ option_list (busy g) ++ held (delete t l).
Proof.
  intros Ht. rewrite <- (take_drop_middle l t g Ht) at 1. rewrite delete_take_drop.
  unfold held. rewrite !omap_app. cbn. destruct (busy g); cbn; [|done].
  by rewrite Permutation_middle.
Qed.

Lemma held_insert l t g g' :
  l !! t = Some g -> held (<[t := g']> l) ≡ₚ option_list (busy g') ++ held (delete t l).
Proof.
  intros Ht. rewrite (held_delete _ t g'), delete_insert_list; [done|].
  apply list_lookup_insert_eq. by eapply lookup_lt_Some.
Qed.

Lemma held_only l t g g' :
  held l = [] -> l !! t = Some g -> busy g = None -> held (<[t := g']> l) = option_list (busy g').
Proof.
  intros Hh Ht Hb. pose proof (held_delete _ _ _ Ht) as Hp. rewrite Hh, Hb in Hp. cbn in Hp.
  apply Permutation_nil in Hp. pose proof (held_insert _ _ _ g' Ht) as Hi. rewrite Hp, app_nil_r in Hi.
  destruct (busy g'); [by apply Permutation_singleton_r in Hi|by apply Permutation_nil_r in Hi].
Qed.

Lemma running_update p l t g g' :
  l !! t = Some g ->
  running p (<[t := g']> l) = running p l - (if decide (runs_on p g) then 1 else 0)
                                + (if decide (runs_on p g') then 1 else 0).
Proof.
  intros Ht. unfold running. rewrite (cnt_delete _ l t g Ht).
  rewrite (cnt_delete _ (<[t := g']> l) t g'), delete_insert_list;
    [repeat case_decide; lia|]. apply list_lookup_insert_eq. by eapply lookup_lt_Some.
Qed.

Lemma running_zero p l : (forall t w, l !! t <> Some (Running w p)) -> running p l = 0.
Proof.
  intros Hn. unfold running. rewrite (proj2 (cnt_zero _ l)); [done|].
  intros g [t Ht]%list_elem_of_lookup Hr. destruct g as [| | |w q|]; try done. cbn in Hr. subst q. by apply (Hn t w).
Qed.

(** Two goroutines that hold the same name. *)
Lemma held_twice l t t' g g' w :
  NoDup (held l) -> l !! t = Some g -> l !! t' = Some g' -> busy g = Some w -> busy g' = Some w -> t = t'.
Proof.
  intros Hnd Ht Ht' Hb Hb'. destruct (decide (t = t')) as [|Hne]; [done|]. exfalso.
  rewrite (held_delete _ _ _ Ht), Hb in Hnd. cbn in Hnd. apply NoDup_cons in Hnd as [Hni _].
  apply Hni. apply list_elem_of_omap. exists g'. split; [|done]. rewrite list_elem_of_lookup.
  destruct (decide (t' < t)%nat).
  - exists t'. by rewrite list_lookup_delete_lt.
  - exists (pred t'). rewrite list_lookup_delete_ge by lia. by replace (S (pred t')) with t' by lia.
Qed.

(** ** Processes and their tasks *)

Record sched_inv (s : Sched) : Prop := {
  si_perm : s.(chan) ++ held s.(tasks) ≡ₚ take s.(forwarded) s.(registered);
  si_wks : forall p wk, s.(wks) !! p = Some wk ->
    (p < length s.(procs))%nat /\ concurrent wk = running p s.(tasks);
  si_conn : forall t g w p, s.(tasks) !! t = Some g -> connected g = Some (w, p) -> s.(procs) !! p = Some w;
  si_sock : forall w p, s.(sock) !! w = Some p -> s.(procs) !! p = Some w;
  si_fwd : (s.(forwarded) <= length s.(registered))%nat;
  si_args : length s.(tasks) = length s.(args);
  si_fatal : NoDup s.(registered) -> s.(fatal) = false
}.

Section exclusive.
Context `{!JsonCodec, !GoMapOrder} (can_create : string -> bool)
        (mapF : string -> string -> list KeyValue) (reduceF : string -> list string -> string).
Local Abbreviation step := (sstep can_create mapF reduceF).
Local Abbreviation steps := (ssteps can_create mapF reduceF).

Lemma held_nodup s : sched_inv s -> NoDup s.(registered) -> NoDup (held s.(tasks)).
Proof.
  intros Hi Hnd. assert (NoDup (s.(chan) ++ held s.(tasks))) as Hn; [|by apply NoDup_app in Hn as (_ & _ & ?)].
  rewrite (si_perm s Hi). rewrite <- (take_drop s.(forwarded) s.(registered)) in Hnd.
  by apply NoDup_app in Hnd as [? _].
Qed.

(** When no name is registered twice, a process that a goroutine is connected to runs
    nothing for another. *)
Lemma connected_once s t g w p :
  sched_inv s -> NoDup s.(registered) -> s.(tasks) !! t = Some g -> connected g = Some (w, p) ->
  running p s.(tasks) = if decide (runs_on p g) then 1 else 0.
Proof.
  intros Hi Hnd Ht Hg. pose proof (held_nodup s Hi Hnd) as Hh.
  assert (busy g = Some w) as Hb by (destruct g; cbn in *; by simplify_eq).
  pose proof (running_update p _ t g Waiting Ht) as Hu. rewrite (running_zero p (<[t := Waiting]> _)) in Hu.
  - rewrite (decide_False (P := runs_on p Waiting)) in Hu by (cbn; tauto). case_decide; lia.
  - intros t' w' Ht'. destruct (decide (t = t')) as [<-|Hne].
    { rewrite list_lookup_insert_eq in Ht' by (by eapply lookup_lt_Some). done. }
    rewrite list_lookup_insert_ne in Ht' by done. apply Hne.
    assert (w' = w) as ->.
    { pose proof (si_conn s Hi _ _ _ _ Ht Hg). pose proof (si_conn s Hi _ _ _ _ Ht' eq_refl). congruence. }
    by eapply held_twice.
Qed.

Lemma running_le_one s p : sched_inv s -> NoDup s.(registered) -> 0 <= running p s.(tasks) <= 1.
Proof.
  intros Hi Hnd. split; [unfold running; lia|].
  destruct (decide (Exists (runs_on p) s.(tasks))) as [(g & [t Ht]%list_elem_of_lookup & Hg)%Exists_exists|Hn].
  - destruct g as [| | |w q|]; try done. cbn in Hg. subst q.
    rewrite (connected_once s t _ w p Hi Hnd Ht eq_refl). by case_decide.
  - rewrite running_zero; [lia|]. intros t w Ht. apply Hn, Exists_exists. exists (Running w p).
    split; [by eapply list_elem_of_lookup_2|done].
Qed.

Lemma perm_update s t g g' ch :
  s.(tasks) !! t = Some g -> sched_inv s ->
  ch ++ option_list (busy g') ≡ₚ s.(chan) ++ option_list (busy g) ->
  ch ++ held (<[t := g']> s.(tasks)) ≡ₚ take s.(forwarded) s.(registered).
Proof.
  intros Ht Hi Hp. rewrite <- (si_perm s Hi), (held_insert _ _ _ _ Ht), (held_delete _ _ _ Ht).
  by rewrite !app_assoc, Hp.
Qed.

(** A goroutine goes on from [g] to [g']. *)
Lemma inv_update s t g g' ch (ws : gmap nat Worker) fs' f :
  s.(tasks) !! t = Some g -> sched_inv s ->
  ch ++ option_list (busy g') ≡ₚ s.(chan) ++ option_list (busy g) ->
  (forall p wk, ws !! p = Some wk -> exists wk0, s.(wks) !! p = Some wk0 /\
     concurrent wk = concurrent wk0 - (if decide (runs_on p g) then 1 else 0)
                       + (if decide (runs_on p g') then 1 else 0)) ->
  (forall w p, connected g' = Some (w, p) -> s.(procs) !! p = Some w) ->
  (NoDup s.(registered) -> f = false) ->
  sched_inv (set_task t g' ch ws fs' f s).
Proof.
  intros Ht Hi Hp Hws Hc Hf. pose proof Hi as [_ Hw Hcn Hso Hfw Ha _].
  split; cbn [args tasks chan registered forwarded procs sock wks store fatal set_task]; try done.
  - by eapply perm_update.
  - intros p wk Hwk. destruct (Hws p wk Hwk) as (wk0 & Hw0 & E). destruct (Hw p wk0 Hw0) as [? E0].
    split; [done|]. rewrite (running_update _ _ _ _ _ Ht). lia.
  - intros t' x w p Ht' Hx. destruct (decide (t = t')) as [<-|Hne].
    + rewrite list_lookup_insert_eq in Ht' by (by eapply lookup_lt_Some). injection Ht' as <-. by apply Hc.
    + rewrite list_lookup_insert_ne in Ht' by done. by eapply Hcn.
  - by rewrite length_insert.
Qed.

Lemma inv_start s w nrpc : sched_inv s -> sched_inv (RunWorker w nrpc s).
Proof.
  intros [Hp Hw Hcn Hso Hfw Ha Hf].
  split; cbn [RunWorker args tasks chan registered forwarded procs sock wks store fatal]; try done.
  - intros p wk. rewrite lookup_insert, length_app. cbn. case_decide as Hpp.
    + subst p. intros [= <-]. split; [lia|]. cbn. symmetry. apply running_zero. intros t x Ht.
      pose proof (Hcn t _ x (length (procs s)) Ht eq_refl) as Hx%lookup_lt_Some. lia.
    + intros [? ?]%Hw. split; [lia|done].
  - intros t g x p Ht Hg. apply lookup_app_l_Some. by eapply Hcn.
  - intros x p. rewrite lookup_insert. case_decide as Hx.
    + intros [= <-]. subst x. by rewrite lookup_app_r, Nat.sub_diag by lia.
    + intros E. by apply lookup_app_l_Some, Hso.
Qed.

Lemma inv_register s w : sched_inv s -> sched_inv (register w s).
Proof.
  intros [Hp Hw Hcn Hso Hfw Ha Hf].
  split; cbn [register args tasks chan registered forwarded procs sock wks store fatal]; try done.
  - by rewrite take_app_le.
  - rewrite length_app. lia.
  - intros [Hnd _]%NoDup_app. by apply Hf.
Qed.

Lemma inv_forward s w :
  sched_inv s -> s.(registered) !! s.(forwarded) = Some w -> sched_inv (forwardRegistrations w s).
Proof.
  intros [Hp Hw Hcn Hso Hfw Ha Hf] Hr.
  split; cbn [forwardRegistrations args tasks chan registered forwarded procs sock wks store fatal]; try done.
  - rewrite (take_S_r _ _ _ Hr), <- Hp, <- !app_assoc. apply Permutation_app_head, Permutation_app_comm.
  - by apply lookup_lt_Some in Hr.
Qed.

Lemma chan_delete (ch : list string) k w : ch !! k = Some w -> delete k ch ++ [w] ≡ₚ ch.
Proof. intros Hk. rewrite Permutation_app_comm. symmetry. by apply delete_Permutation. Qed.

Lemma not_running p (g : gostate) : (forall w q, g <> Running w q) -> ~ runs_on p g.
Proof. intros Hn. destruct g; cbn; try tauto. by edestruct Hn. Qed.

(** A goroutine whose process runs no handler for it goes on in such a state. *)
Lemma inv_idle s t g g' ch (ws : gmap nat Worker) f :
  s.(tasks) !! t = Some g -> sched_inv s ->
  (forall w q, g <> Running w q) -> (forall w q, g' <> Running w q) ->
  ch ++ option_list (busy g') ≡ₚ s.(chan) ++ option_list (busy g) ->
  ws ⊆ s.(wks) -> (forall w p, connected g' = Some (w, p) -> s.(procs) !! p = Some w) ->
  (NoDup s.(registered) -> f = false) ->
  sched_inv (set_task t g' ch ws s.(store) f s).
Proof.
  intros Ht Hi Hg Hg' Hp Hws Hc Hf. apply (inv_update s t g); try done.
  intros p wk Hwk. exists wk. split; [by eapply lookup_weaken|].
  rewrite !decide_False by (by apply not_running). lia.
Qed.

(** A handler ends and its goroutine goes on, whatever [call] returns. *)
Lemma inv_handler_end s t w p wk g' fs' :
  s.(tasks) !! t = Some (Running w p) -> s.(wks) !! p = Some wk -> sched_inv s -> g' = Waiting \/ g' = Finished ->
  sched_inv (set_task t g' (s.(chan) ++ [w]) (<[p := DoTask_end wk]> s.(wks)) fs' s.(fatal) s).
Proof.
  intros Ht Hwk Hi Hg. assert (busy g' = None /\ connected g' = None /\ forall q, ~ runs_on q g') as (Hb & Hc & Hr)
    by (destruct Hg as [->| ->]; repeat split; intros q Hq; exact Hq).
  apply (inv_update s t (Running w p)); [done|done|..].
  - rewrite Hb. cbn. by rewrite app_nil_r.
  - intros q wk' Hw'. rewrite (decide_False (P := runs_on q g')) by done.
    rewrite lookup_insert in Hw'. case_decide as Hqp.
    + subst. injection Hw' as <-. exists wk. split; [done|]. rewrite decide_True by done. cbn. lia.
    + exists wk'. split; [done|]. rewrite decide_False by done. lia.
  - intros x q. by rewrite Hc.
  - apply Hi.
Qed.

Lemma loop_test_concurrent wk : concurrent (loop_test wk) = concurrent wk.
Proof. unfold loop_test. by destruct (loop wk). Qed.

Lemma accept_concurrent wk wk' : accept wk = Some wk' -> concurrent wk' = concurrent wk.
Proof. unfold accept. destruct (loop wk); [done|done|by intros [= <-]|done]. Qed.

(** Processes may die, and change in everything but the number of their tasks;
    sockets may go. *)
Lemma inv_wks s (ws : gmap nat Worker) (so : gmap string nat) :
  sched_inv s ->
  (forall p wk, ws !! p = Some wk -> exists wk0, s.(wks) !! p = Some wk0 /\ concurrent wk = concurrent wk0) ->
  so ⊆ s.(sock) -> sched_inv (set_wks ws so s).
Proof.
  intros [Hp Hw Hcn Hso Hfw Ha Hf] Hws Hsub.
  split; cbn [set_wks args tasks chan registered forwarded procs sock wks store fatal]; try done.
  - intros p wk (wk0 & Hw0 & ->)%Hws. by apply Hw.
  - intros w p Hx. apply Hso. by eapply lookup_weaken.
Qed.

Lemma inv_wks_insert s p wk wk' (so : gmap string nat) :
  sched_inv s -> s.(wks) !! p = Some wk -> concurrent wk' = concurrent wk -> so ⊆ s.(sock) ->
  sched_inv (set_wks (<[p := wk']> s.(wks)) so s).
Proof.
  intros Hi Hwk E Hso. apply inv_wks; [done| |done]. intros x y [[<- <-]|[_ Hx]]%lookup_insert_Some; eauto.
Qed.

Lemma inv_loop s p w wk : sched_inv s -> s.(wks) !! p = Some wk -> sched_inv (worker_loop p w wk s).
Proof.
  intros Hi Hwk. apply (inv_wks_insert _ _ wk); [done|done|apply loop_test_concurrent|].
  destruct (loop (loop_test wk)); try done. apply delete_subseteq.
Qed.

Lemma sched_inv_step s s' : step s s' -> sched_inv s -> sched_inv s'.
Proof.
  intros Hs Hi. pose proof (si_fatal s Hi) as Hf.
  destruct Hs as [s w nrpc|s w|s w Hr|s t k w Ht Hk|s p w wk Hwk Hp _|s t w p Ht Hso|s t w p wk0 wk Ht Hwk Hac Hnc
                 |s t w p wk0 wk Ht Hwk Hac Hnc|s t w p wk arg fs' Ht Hwk _ _
                 |s t w g Ht Hg|s t w p wk arg fs' Ht Hwk _ _|s t w p arg fs' Ht _ _].
  - by apply inv_start.
  - by apply inv_register.
  - by apply inv_forward.
  - apply (inv_idle s t Waiting); try done. cbn. by rewrite app_nil_r, chan_delete.
  - by apply inv_loop.
  - apply (inv_idle s t (Calling w)); try done. intros x q [= <- <-]. by apply Hi.
  - apply (inv_update s t (Dialed w p)); [done|done|done| | |done].
    + intros q wk' Hw'. rewrite (decide_False (P := runs_on q (Dialed _ _))) by (cbn; tauto).
      rewrite lookup_insert in Hw'. case_decide as Hqp.
      * subst. injection Hw' as <-. exists wk0. split; [done|]. rewrite decide_True by done. cbn.
        rewrite (accept_concurrent _ _ Hac). lia.
      * exists wk'. split; [done|]. rewrite decide_False by done. lia.
    + intros x q [= <- <-]. by eapply si_conn.
  - apply (inv_idle s t (Dialed w p)); try done; [cbn; by rewrite app_nil_r|apply delete_subseteq|].
    intros Hnd. exfalso. pose proof (connected_once s t _ w p Hi Hnd Ht eq_refl) as Hr.
    rewrite decide_False in Hr by (cbn; tauto). destruct (si_wks s Hi p wk0 Hwk) as [_ Hc].
    cbn in Hnc. rewrite (accept_concurrent _ _ Hac) in Hnc. lia.
  - apply inv_handler_end; auto.
  - apply (inv_idle s t g); try done; destruct Hg as [->|[p ->]]; try done; cbn; by rewrite app_nil_r.
  - apply inv_handler_end; auto.
  - apply (inv_update s t (Running w p)); [done|done| |..|done].
    + cbn. by rewrite app_nil_r.
    + intros q wk' [Hne Hw']%lookup_delete_Some. exists wk'. split; [done|].
      rewrite !decide_False by (cbn; congruence || tauto). lia.
    + done.
Qed.

Lemma sched_inv_steps s s' : steps s s' -> sched_inv s -> sched_inv s'.
Proof. induction 1; eauto using sched_inv_step. Qed.

(** Workers that have just registered, or have finished a phase. *)
Record idle_workers (procs : list string) (sock : gmap string nat) (ws : gmap nat Worker) : Prop := {
  iw_wks : forall p wk, ws !! p = Some wk -> (p < length procs)%nat /\ concurrent wk = 0;
  iw_sock : forall w p, sock !! w = Some p -> procs !! p = Some w
}.

Lemma sched_inv_init a workers procs sock ws fs :
  idle_workers procs sock ws -> sched_inv (schedule_init a workers procs sock ws fs).
Proof.
  intros [Hw Hso]. split; cbn [schedule_init args tasks chan registered forwarded Schedule.procs Schedule.sock wks store fatal]; try done.
  - cbn. assert (held (replicate (length a) Waiting) = []) as ->; [|done].
    unfold held. induction (length a); cbn; [done|]. done.
  - intros p wk E. rewrite running_zero; [by apply Hw|]. intros t w [? _]%lookup_replicate. done.
  - intros t g w p [-> _]%lookup_replicate. done.
  - lia.
  - by rewrite length_replicate.
Qed.
End exclusive.

(** ** The files of a phase *)

Section phase.
Context `{!JsonCodec, !GoMapOrder} (can_create : string -> bool)
        (mapF : string -> string -> list KeyValue) (reduceF : string -> list string -> string).
Local Abbreviation step := (sstep can_create mapF reduceF).
Local Abbreviation steps := (ssteps can_create mapF reduceF).

(** The phase has tasks [a]; it takes the files [fs0] to [fs1]. *)
Context (a : list DoTaskArgs) (fs0 fs1 : FS).

Definition outside (p : string) : Prop := forall t arg, a !! t = Some arg -> ~ task_file arg p.

Context (Hrun : forall t arg fs, a !! t = Some arg -> (forall p, outside p -> fs !! p = fs0 !! p) ->
          exists fs', run_task can_create mapF reduceF arg fs = Ret fs' /\
            (forall p, task_file arg p -> fs' !! p = fs1 !! p) /\
            (forall p, ~ task_file arg p -> fs' !! p = fs !! p))
        (Hdisj : forall t t' arg arg' p, a !! t = Some arg -> a !! t' = Some arg' ->
          task_file arg p -> task_file arg' p -> t = t')
        (Hrest : forall p, outside p -> fs1 !! p = fs0 !! p).

Record files_inv (s : Sched) : Prop := {
  fi_args : s.(args) = a;
  fi_frame : forall p, outside p -> s.(store) !! p = fs0 !! p;
  fi_done : forall t arg p, a !! t = Some arg -> s.(tasks) !! t = Some Finished ->
    task_file arg p -> s.(store) !! p = fs1 !! p
}.

Lemma files_inv_init workers procs sock ws : files_inv (schedule_init a workers procs sock ws fs0).
Proof.
  split; cbn [schedule_init args tasks store]; [done|done|].
  intros t arg p _ [? _]%lookup_replicate. done.
Qed.

(** What the goroutines and the files do not change. *)
Lemma files_inv_same s s' :
  s'.(args) = s.(args) -> s'.(tasks) = s.(tasks) -> s'.(store) = s.(store) -> files_inv s -> files_inv s'.
Proof. intros E1 E2 E3 [Ha Hf Hd]. split; by rewrite ?E1, ?E2, ?E3. Qed.

(** A task that does not finish keeps the files of the finished ones. *)
Lemma files_inv_update s t g g' ch ws fs' f :
  s.(tasks) !! t = Some g -> g <> Finished -> g' <> Finished -> files_inv s ->
  (forall arg p, a !! t = Some arg -> ~ task_file arg p -> fs' !! p = s.(store) !! p) ->
  (a !! t = None -> fs' = s.(store)) ->
  files_inv (set_task t g' ch ws fs' f s).
Proof.
  intros Ht Hg Hg' [Ha Hf Hd] Hfs Hnone.
  split; cbn [set_task args tasks store]; [done| |].
  - intros p Hp. destruct (a !! t) as [arg|] eqn:Eat; [|by rewrite Hnone; [apply Hf|]].
    rewrite (Hfs arg); [by apply Hf|done|by apply (Hp t)].
  - intros t' arg' p Hat' Ht' Hp. destruct (decide (t = t')) as [<-|Hne].
    { rewrite list_lookup_insert_eq in Ht' by (by eapply lookup_lt_Some). congruence. }
    rewrite list_lookup_insert_ne in Ht' by done.
    destruct (a !! t) as [arg|] eqn:Eat; [|rewrite Hnone by done; eauto].
    rewrite (Hfs arg); [by eapply Hd|done|]. intros Hp'. apply Hne. by eapply Hdisj.
Qed.

Lemma files_inv_end s t w p ws arg fs' ch :
  s.(tasks) !! t = Some (Running w p) -> s.(args) !! t = Some arg ->
  run_task can_create mapF reduceF arg s.(store) = Ret fs' -> files_inv s ->
  files_inv (set_task t Finished ch ws fs' s.(fatal) s).
Proof.
  intros Ht Harg Hrt Hi. pose proof Hi as [Ha Hf Hd]. rewrite Ha in Harg.
  destruct (Hrun t arg s.(store) Harg Hf) as (fs'' & E & Hw & Hk). rewrite Hrt in E. injection E as <-.
  split; cbn [set_task args tasks store]; [done| |].
  - intros q Hq. rewrite Hk; [by apply Hf|by apply (Hq t)].
  - intros t' arg' q Hat' Ht' Hq. destruct (decide (t = t')) as [<-|Hne].
    + rewrite Harg in Hat'. injection Hat' as <-. by apply Hw.
    + rewrite list_lookup_insert_ne in Ht' by done. rewrite Hk; [by eapply Hd|].
      intros Hq'. apply Hne. by eapply Hdisj.
Qed.

Lemma files_inv_step s s' : step s s' -> files_inv s -> files_inv s'.
Proof.
  intros Hs Hi.
  destruct Hs as [s w nrpc|s w|s w Hr|s t k w Ht Hk|s p w wk Hwk Hp _|s t w p Ht Hso|s t w p wk0 wk Ht Hwk Hac Hnc
                 |s t w p wk0 wk Ht Hwk Hac Hnc|s t w p wk arg fs' Ht Hwk Harg Hrt
                 |s t w g Ht Hg|s t w p wk arg fs' Ht Hwk Harg Hrt|s t w p arg fs' Ht Harg Hfs];
    try (by apply (files_inv_same s)); try (by eapply files_inv_update).
  - by eapply files_inv_end.
  - eapply files_inv_update; try done. by destruct Hg as [->|[p ->]].
  - rewrite (fi_args s Hi) in Harg.
    destruct (Hrun t arg s.(store) Harg (fi_frame s Hi)) as (fs'' & E & _ & Hk). rewrite Hrt in E. injection E as <-.
    apply (files_inv_update s t (Running w p)); try done.
    + intros arg' q E. rewrite Harg in E. injection E as <-. apply Hk.
    + congruence.
  - rewrite (fi_args s Hi) in Harg. apply (files_inv_update s t (Running w p)); try done.
    + intros arg' q E. rewrite Harg in E. injection E as <-. apply Hfs.
    + congruence.
Qed.

Lemma files_inv_steps s s' : steps s s' -> files_inv s -> files_inv s'.
Proof. induction 1; eauto using files_inv_step. Qed.

(** When all tasks have finished the files are [fs1]. *)
Lemma finished_files s : sched_inv s -> files_inv s -> all_finished s -> s.(store) = fs1.
Proof.
  intros Hsi [Ha Hf Hd] Hall. apply map_eq. intros p.
  destruct (decide (s.(store) !! p = fs1 !! p)) as [|Hne]; [done|]. exfalso.
  assert (outside p) as Hout.
  { intros t arg Hat Hp. apply Hne. eapply Hd; [done| |done].
    destruct (lookup_lt_is_Some_2 s.(tasks) t) as [g Hg].
    { rewrite (si_args s Hsi), Ha. by eapply lookup_lt_Some. }
    rewrite Hg. unfold all_finished in Hall. rewrite Forall_forall in Hall.
    by rewrite (Hall g) by (by eapply list_elem_of_lookup_2). }
  apply Hne. by rewrite Hf, Hrest.
Qed.

(** ** A phase can be completed, without new workers *)

Local Abbreviation quiet := (quiet can_create mapF reduceF).
Local Abbreviation qsteps := (rtc quiet).

(** A worker without a limit on its connections, before any [Shutdown]. *)
Definition unlimited (wk : Worker) : Prop := nRPC wk < 0 /\ loop wk <> LExit.

(** A worker that has registered, and whose process listens under its name. *)
Definition alive (w0 : string) (s : Sched) : Prop :=
  w0 ∈ s.(registered) /\ exists p wk, s.(sock) !! w0 = Some p /\ s.(wks) !! p = Some wk /\ unlimited wk.

Definition good (w0 : string) (s : Sched) : Prop := sched_inv s /\ files_inv s /\ alive w0 s.

Lemma good_step w0 s s' : step s s' -> (alive w0 s -> alive w0 s') -> good w0 s -> good w0 s'.
Proof.
  intros Hs Hw (Hsi & Hi & Ha). split; [by eapply sched_inv_step|]. split; [by eapply files_inv_step|auto].
Qed.

(** A step that changes one process keeps the others alive. *)
Lemma alive_insert w0 s s' p wk wk' :
  s.(wks) !! p = Some wk -> s'.(registered) = s.(registered) -> s'.(sock) = s.(sock) ->
  s'.(wks) = <[p := wk']> s.(wks) -> (unlimited wk -> unlimited wk') -> alive w0 s -> alive w0 s'.
Proof.
  intros Hw Er Es E Hu (Hr & q & x & Hq & Hx & Hux). unfold alive. rewrite Er, Es, E. split; [done|]. exists q.
  destruct (decide (p = q)) as [->|].
  - exists wk'. rewrite lookup_insert_eq. split; [done|]. simplify_eq. auto.
  - exists x. by rewrite lookup_insert_ne.
Qed.

Lemma loop_test_unlimited wk : unlimited wk -> unlimited (loop_test wk) /\ loop (loop_test wk) <> LRegister.
Proof.
  unfold unlimited, loop_test. intros [Hn Hl]. destruct (loop wk) eqn:E; cbn; rewrite ?E; try done.
  by rewrite (proj2 (Z.eqb_neq _ _)) by lia.
Qed.

(** A handler that runs ends, and its task is finished. *)
Lemma run_to_end w0 s t w p wk :
  good w0 s -> s.(tasks) !! t = Some (Running w p) -> s.(wks) !! p = Some wk ->
  exists s', quiet s s' /\ good w0 s' /\ s'.(tasks) = <[t := Finished]> s.(tasks) /\
    s'.(chan) = s.(chan) ++ [w] /\ s'.(registered) = s.(registered) /\ s'.(forwarded) = s.(forwarded).
Proof.
  intros Hg Ht Hwk. pose proof Hg as (Hsi & Hi & _).
  destruct (lookup_lt_is_Some_2 s.(args) t) as [arg Harg].
  { rewrite <- (si_args s Hsi). by eapply lookup_lt_Some. }
  destruct (Hrun t arg s.(store)) as (fs' & Hrt & _); [by rewrite <- (fi_args s Hi)|apply Hi|].
  pose proof (S_end can_create mapF reduceF s t w p wk arg fs' Ht Hwk Harg Hrt) as Hs.
  eexists. split; [by split; [exact Hs|]|]. split; [|done]. eapply good_step; [exact Hs| |done].
  by apply (alive_insert _ _ _ p wk (DoTask_end wk)).
Qed.

(** The loop of the worker that is alive goes on. *)
Lemma loop_once w0 s p wk :
  good w0 s -> s.(sock) !! w0 = Some p -> s.(wks) !! p = Some wk -> unlimited wk ->
  exists s', quiet s s' /\ good w0 s' /\ s'.(tasks) = s.(tasks) /\ s'.(chan) = s.(chan) /\
    s'.(registered) = s.(registered) /\ s'.(forwarded) = s.(forwarded) /\ s'.(sock) = s.(sock) /\
    s'.(wks) !! p = Some (loop_test wk).
Proof.
  intros Hg Hso Hwk Hu. pose proof Hg as (Hsi & _). pose proof (si_sock s Hsi _ _ Hso) as Hp.
  pose proof (S_loop can_create mapF reduceF s p w0 wk Hwk Hp ltac:(apply Hu)) as Hs.
  destruct (loop_test_unlimited wk Hu) as [[_ Hx] _].
  assert (sock (worker_loop p w0 wk s) = sock s) as Es by (unfold worker_loop; cbn; by destruct (loop (loop_test wk))).
  exists (worker_loop p w0 wk s). split; [by split; [exact Hs|]|]. split.
  - eapply good_step; [exact Hs| |done]. apply (alive_insert _ _ _ p wk (loop_test wk)); try done.
    intros. by apply loop_test_unlimited.
  - repeat split; try done. cbn. by rewrite lookup_insert_eq.
Qed.

(** ... until it is in [Accept]. *)
Lemma loop_to_accept w0 s p wk :
  good w0 s -> s.(sock) !! w0 = Some p -> s.(wks) !! p = Some wk -> unlimited wk ->
  exists s' wk', qsteps s s' /\ good w0 s' /\ s'.(tasks) = s.(tasks) /\ s'.(chan) = s.(chan) /\
    s'.(registered) = s.(registered) /\ s'.(forwarded) = s.(forwarded) /\ s'.(sock) = s.(sock) /\
    s'.(wks) !! p = Some wk' /\ unlimited wk' /\ loop wk' = LAccept.
Proof.
  intros Hg Hso Hwk Hu.
  destruct (loop_once w0 s p wk Hg Hso Hwk Hu) as (s1 & Hs1 & Hg1 & T1 & C1 & R1 & F1 & S1 & W1).
  destruct (loop_test_unlimited wk Hu) as [Hu1 Hn1].
  destruct (loop_once w0 s1 p (loop_test wk) Hg1 ltac:(by rewrite S1) W1 Hu1)
    as (s2 & Hs2 & Hg2 & T2 & C2 & R2 & F2 & S2 & W2).
  exists s2, (loop_test (loop_test wk)). split; [eapply rtc_l; [exact Hs1|by apply rtc_once]|].
  split; [done|]. split; [by rewrite T2|]. split; [by rewrite C2|]. split; [by rewrite R2|]. split; [by rewrite F2|].
  split; [by rewrite S2|]. split; [done|]. split; [by apply loop_test_unlimited|].
  destruct Hu1 as [Hn Hx]. destruct (loop (loop_test wk)) eqn:El; try done.
  - unfold loop_test at 1. rewrite El. cbn. by rewrite (proj2 (Z.eqb_neq _ _)) by lia.
  - unfold loop_test at 1. by rewrite El.
Qed.

(** A call to the worker that is alive, when no other goroutine holds a worker, runs the
    task to its end. *)
Lemma call_to_end w0 s t :
  good w0 s -> s.(tasks) !! t = Some (Calling w0) -> held s.(tasks) = [w0] ->
  exists s', qsteps s s' /\ good w0 s' /\ s'.(tasks) = <[t := Finished]> s.(tasks) /\
    s'.(chan) = s.(chan) ++ [w0] /\ s'.(registered) = s.(registered) /\ s'.(forwarded) = s.(forwarded).
Proof.
  intros Hg Ht Hh. pose proof Hg as (Hsi & _ & _ & p & wk & Hso & Hwk & Hu).
  destruct (loop_to_accept w0 s p wk Hg Hso Hwk Hu) as (s1 & wk1 & Q1 & Hg1 & T1 & C1 & R1 & F1 & S1 & W1 & Hu1 & Hl1).
  rewrite <- T1 in Ht. rewrite <- S1 in Hso.
  pose proof (S_dial can_create mapF reduceF s1 t w0 p Ht Hso) as Hs2.
  match type of Hs2 with sstep _ _ _ _ ?x => set (s2 := x) in * end.
  assert (good w0 s2) as Hg2 by (by eapply good_step; [exact Hs2| |]).
  assert (Ht2 : tasks s2 !! t = Some (Dialed w0 p)) by (apply list_lookup_insert_eq; by eapply lookup_lt_Some).
  destruct (accept wk1) as [wk2|] eqn:Hac; [|unfold accept in Hac; by rewrite Hl1 in Hac].
  assert (unlimited wk2) as Hu2.
  { unfold accept in Hac. rewrite Hl1 in Hac. injection Hac as <-. destruct Hu1. split; cbn; [lia|done]. }
  assert ((DoTask_begin wk2).2 <= 1) as Hnc.
  { cbn. rewrite (accept_concurrent _ _ Hac). destruct Hg2 as (Hsi2 & _). destruct (si_wks s2 Hsi2 p wk1 W1) as [_ ->].
    assert (held (tasks s2) ≡ₚ [w0]) as Hh2.
    { cbn. rewrite (held_insert _ _ _ _ Ht). cbn. rewrite <- Hh, <- T1, (held_delete _ _ _ Ht). done. }
    rewrite running_zero; [lia|]. intros t' w' Ht'.
    assert (w' = w0) as ->.
    { apply list_elem_of_singleton. rewrite <- Hh2. apply list_elem_of_omap. exists (Running w' p).
      split; [by eapply list_elem_of_lookup_2|done]. }
    assert (t' = t) as -> by (by eapply (held_twice (tasks s2)); [rewrite Hh2; apply NoDup_singleton|..]).
    congruence. }
  pose proof (S_begin can_create mapF reduceF s2 t w0 p wk1 wk2 Ht2 W1 Hac Hnc) as Hs3.
  match type of Hs3 with sstep _ _ _ _ ?x => set (s3 := x) in * end.
  assert (good w0 s3) as Hg3.
  { eapply good_step; [exact Hs3| |done]. by apply (alive_insert _ _ _ p wk1 (DoTask_begin wk2).1). }
  assert (Ht3 : tasks s3 !! t = Some (Running w0 p)) by (apply list_lookup_insert_eq; by eapply lookup_lt_Some).
  destruct (run_to_end w0 s3 t w0 p (DoTask_begin wk2).1 Hg3 Ht3) as (s' & Hs' & Hg' & Htk & Hc & Hr & Hf).
  { cbn. by rewrite lookup_insert_eq. }
  exists s'. split.
  { etrans; [exact Q1|]. eapply rtc_l; [by split; [exact Hs2|]|]. eapply rtc_l; [by split; [exact Hs3|]|]. by apply rtc_once. }
  split; [done|]. split; [|rewrite Hc, Hr, Hf; cbn; by rewrite C1, R1, F1]. rewrite Htk. cbn. by rewrite !list_insert_insert_eq, T1.
Qed.

(** A call that has not begun its handler fails; a handler ends, or its process has
    died. *)
Lemma release_one w0 s t g w :
  good w0 s -> s.(tasks) !! t = Some g -> busy g = Some w ->
  exists s' g', quiet s s' /\ good w0 s' /\ s'.(tasks) = <[t := g']> s.(tasks) /\ busy g' = None.
Proof.
  intros Hg Ht Hb.
  assert (forall w, g = Calling w \/ (exists p, g = Dialed w p) -> exists s' g', quiet s s' /\ good w0 s' /\
    s'.(tasks) = <[t := g']> s.(tasks) /\ busy g' = None) as Hfail.
  { intros x Hx. pose proof (S_unreachable can_create mapF reduceF s t x g Ht Hx) as Hs.
    eexists _, Waiting. split; [by split; [exact Hs|]|]. by split; [eapply good_step; [exact Hs| |]|]. }
  destruct g as [|w'|w' p|w' p|]; try done; [by apply (Hfail w'); left|by apply (Hfail w'); right; exists p|].
  destruct (s.(wks) !! p) as [wk|] eqn:Hwk.
  { destruct (run_to_end w0 s t w' p wk Hg Ht Hwk) as (s' & Hs & Hg' & Htk & _). by exists s', Finished. }
  pose proof Hg as (Hsi & _). destruct (lookup_lt_is_Some_2 s.(args) t) as [arg Harg].
  { rewrite <- (si_args s Hsi). by eapply lookup_lt_Some. }
  pose proof (S_die can_create mapF reduceF s t w' p arg s.(store) Ht Harg (fun _ _ => eq_refl)) as Hs.
  eexists _, Waiting. split; [by split; [exact Hs|]|]. split; [|done]. eapply good_step; [exact Hs| |done].
  unfold alive. cbn. by rewrite delete_id.
Qed.

(** Every call returns. *)
Lemma flush w0 k s :
  good w0 s -> length (held s.(tasks)) = k ->
  exists s', qsteps s s' /\ good w0 s' /\ held s'.(tasks) = [].
Proof.
  revert s. induction k as [k IH] using lt_wf_ind. intros s Hg Hk.
  destruct (held s.(tasks)) as [|w ws] eqn:Eh; [exists s; done|].
  assert (exists t g, s.(tasks) !! t = Some g /\ busy g = Some w) as (t & g & Ht & Hb).
  { assert (w ∈ held s.(tasks)) as Hw by (rewrite Eh; by left).
    apply list_elem_of_omap in Hw as (g & Hg' & Hb). apply list_elem_of_lookup_1 in Hg' as [t Ht]. eauto. }
  destruct (release_one w0 s t g w Hg Ht Hb) as (s1 & g1 & Hs1 & Hg1 & Ht1 & Hb1).
  destruct (IH (length (held s1.(tasks)))) with (s := s1) as (s' & Hs' & ? & ?);
    [|done|done|exists s'; split; [by eapply rtc_l|done]].
  rewrite Ht1, <- Hk, <- Eh, (held_insert _ _ _ _ Ht), (held_delete _ _ _ Ht), Hb, Hb1. cbn. lia.
Qed.

(** Every worker is forwarded. *)
Lemma forward_all w0 k s :
  good w0 s -> held s.(tasks) = [] -> (length s.(registered) - s.(forwarded) = k)%nat ->
  exists s', qsteps s s' /\ good w0 s' /\ held s'.(tasks) = [] /\ s'.(forwarded) = length s'.(registered).
Proof.
  revert s. induction k as [|k IH]; intros s Hg Hh Hk.
  - exists s. split; [done|]. split; [done|]. split; [done|]. destruct Hg as (Hsi & _).
    pose proof (si_fwd s Hsi). lia.
  - destruct (lookup_lt_is_Some_2 s.(registered) s.(forwarded)) as [w Hw]; [lia|].
    pose proof (S_forward can_create mapF reduceF s w Hw) as Hs.
    edestruct IH as (s' & Hs' & ?); [by eapply good_step|exact Hh|cbn; lia|].
    exists s'. split; [eapply rtc_l; [by split; [exact Hs|]|done]|done].
Qed.

(** Every task that waits is done by [w0]. *)
Lemma finish_all w0 k s :
  good w0 s -> held s.(tasks) = [] -> s.(forwarded) = length s.(registered) ->
  cnt (fun g => g = Waiting) s.(tasks) = k ->
  exists s', qsteps s s' /\ good w0 s' /\ all_finished s'.
Proof.
  revert s. induction k as [|k IH]; intros s Hg Hh Hf Hk.
  - exists s. split; [done|]. split; [done|]. apply Forall_forall. intros g Hg'.
    rewrite cnt_zero in Hk. specialize (Hk g Hg'). assert (busy g <> None -> False) as Hb.
    { intros Hb. destruct (busy g) as [w|] eqn:Eb; [|done].
      assert (w ∈ held s.(tasks)) as Hin by (apply list_elem_of_omap; eauto).
      rewrite Hh in Hin. by apply elem_of_nil in Hin. }
    destruct g; cbn in Hb; [done|by destruct Hb..|done].
  - assert (exists t, s.(tasks) !! t = Some Waiting) as [t Ht].
    { destruct (decide (Waiting ∈ s.(tasks))) as [Hin|Hn]; [by apply list_elem_of_lookup_1|].
      assert (cnt (fun g => g = Waiting) s.(tasks) = 0%nat) as E; [|lia].
      apply cnt_zero. by intros g Hg' ->. }
    pose proof Hg as (Hsi & _ & Hreg & _).
    assert (w0 ∈ s.(chan)) as Hin.
    { pose proof (si_perm s Hsi) as Hp. rewrite Hh, app_nil_r in Hp. by rewrite Hp, Hf, firstn_all. }
    apply list_elem_of_lookup_1 in Hin as [j Hj].
    pose proof (S_take can_create mapF reduceF s t j w0 Ht Hj) as Hs.
    destruct (call_to_end w0 _ t (good_step w0 _ _ Hs (fun H => H) Hg)) as (s1 & Hs1 & Hg1 & Ht1 & _ & Hr1 & Hf1).
    { cbn. apply list_lookup_insert_eq. by eapply lookup_lt_Some. }
    { by apply (held_only _ t Waiting). }
    cbn [set_task tasks] in Ht1. rewrite list_insert_insert_eq in Ht1.
    destruct (IH s1) as (s' & Hs' & ?); [done| | | |exists s'; split; [|done]].
    + rewrite Ht1. by apply (held_only _ t Waiting).
    + by rewrite Hf1, Hr1.
    + rewrite Ht1, (cnt_delete _ _ t Finished), delete_insert_list, decide_False by
        (done || (apply list_lookup_insert_eq; by eapply lookup_lt_Some)).
      rewrite (cnt_delete _ _ t Waiting Ht), decide_True in Hk by done. lia.
    + eapply rtc_l; [by split; [exact Hs|]|]. by etrans.
Qed.

Lemma can_finish w0 s : good w0 s -> exists s', qsteps s s' /\ good w0 s' /\ all_finished s'.
Proof.
  intros Hg. destruct (flush w0 _ s Hg eq_refl) as (s1 & Hs1 & Hg1 & Hh1).
  destruct (forward_all w0 _ s1 Hg1 Hh1 eq_refl) as (s2 & Hs2 & Hg2 & Hh2 & Hf2).
  destruct (finish_all w0 _ s2 Hg2 Hh2 Hf2 eq_refl) as (s3 & Hs3 & ?).
  exists s3. split; [|done]. etrans; [done|]. by etrans.
Qed.
End phase.
