(* ===== verification/MRMaster.v ===== *)
(** * MRMaster: a distributed job from start to end (src/mapreduce/master.go, master_rpc.go)

    [Distributed] starts the RPC server of the master and runs the job: both phases
    with [schedule], then [killWorkers], [stopRPCServer], [merge], and the signal
    to [Wait].  Meanwhile workers start, connect and register, under names that may
    have been registered before, serve connections until their loop ends, and die.  A
    state is where [run] is, the phase of Schedule.v,
    the server, and the connections whose [Register] has not got the lock yet.

    The goroutines a phase leaves behind ([forwardRegistrations] and the senders of
    its channel) have no receiver any more, and are not in the state of the next. *)

From S2P Require Import Prelude Utf8 MapReduce Schedule.
Local Open Scope Z_scope.

(** ** The RPC server (src/mapreduce/master_rpc.go) *)

(** The goroutine of [startRPCServer]: at the [select], in [Accept], ended. *)
Inductive SLoop := SSelect | SAccept | SDone.

(** [closed]: the channel [mr.shutdown]; [listening]: the listener [mr.l]. *)
Record Server := mkServer { closed : bool; listening : bool; srv : SLoop }.

(** [net.Listen] may fail, which ends the process. *)
Definition startRPCServer (listen_ok : bool) : res Server :=
  if listen_ok then Ret (mkServer false true SSelect) else Panic.

Definition server_select (sv : Server) : Server :=
  match sv.(srv) with
  | SSelect => mkServer sv.(closed) sv.(listening) (if sv.(closed) then SDone else SAccept)
  | _ => sv
  end.

(** [Accept] returns a connection, which a goroutine serves. *)
Definition accept_conn (sv : Server) : option Server :=
  match sv.(srv), sv.(listening) with
  | SAccept, true => Some (mkServer sv.(closed) true SSelect)
  | _, _ => None
  end.

(** [Accept] fails; [break] leaves the loop. *)
Definition accept_error (sv : Server) : option Server :=
  match sv.(srv), sv.(listening) with
  | SAccept, false => Some (mkServer sv.(closed) false SDone)
  | _, _ => None
  end.

(** The handler [Master.Shutdown]: closing a closed channel panics. *)
Definition Master_Shutdown (sv : Server) : res Server :=
  if sv.(closed) then Panic else Ret (mkServer true false sv.(srv)).

(** ** The job *)

(** Where [run] is; [killWorkers] has the list of the workers that are left, and
    the process that it is connected to, or whose [Shutdown] is being served. *)
Inductive Stage :=
| JPhase (phase : jobPhase)
| JKill (todo : list string)
| JDialed (p : nat) (todo : list string)
| JKilling (p : nat) (todo : list string)
| JStop
| JStopping
| JMerge
| JSend
| JDone
| JCrash.

Record Job := mkJob {
  stage : Stage;
  sched : Sched;
  server : Server;
  pending : list string;           (* accepted connections: the name to register *)
  jstats : list Z;
}.

(** [killWorkers] holds the lock of the master. *)
Definition locked (st : Stage) : bool :=
  match st with JKill _ | JDialed _ _ | JKilling _ _ => true | _ => false end.

Definition set_stage (st : Stage) (j : Job) : Job := mkJob st j.(sched) j.(server) j.(pending) j.(jstats).
Definition set_sched (s : Sched) (j : Job) : Job := mkJob j.(stage) s j.(server) j.(pending) j.(jstats).
Definition set_server (sv : Server) (j : Job) : Job := mkJob j.(stage) j.(sched) sv j.(pending) j.(jstats).
Definition set_pending (l : list string) (j : Job) : Job := mkJob j.(stage) j.(sched) j.(server) l j.(jstats).
Definition set_jstats (l : list Z) (j : Job) : Job := mkJob j.(stage) j.(sched) j.(server) j.(pending) l.

Definition set_worker (p : nat) (wk : Worker) (j : Job) : Job :=
  set_sched (set_wks (<[p := wk]> j.(sched).(wks)) j.(sched).(sock) j.(sched)) j.
Definition set_store (fs : FS) (s : Sched) : Sched :=
  {| args := s.(args); tasks := s.(tasks); chan := s.(chan); registered := s.(registered);
     forwarded := s.(forwarded); procs := s.(procs); sock := s.(sock); wks := s.(wks); store := fs; fatal := s.(fatal) |}.

(** The listener of a process is open while it runs and has not left its loop. *)
Definition serving (s : Sched) (p : nat) : bool :=
  match s.(wks) !! p with
  | Some wk => match wk.(loop) with LExit => false | _ => true end
  | None => false
  end.

(** The process that [rpc.Dial] of a name reaches. *)
Definition dial (s : Sched) (w : string) : option nat :=
  p ← s.(sock) !! w; if serving s p then Some p else None.

Section job.
Context `{!JsonCodec, !GoMapOrder} (can_create : string -> bool)
        (mapF : string -> string -> list KeyValue) (reduceF : string -> list string -> string)
        (address job : string) (inputs : list string) (nreduce : Z).

(** The fields of the master. *)
Definition job_master (j : Job) : Master :=
  {| MapReduce.address := address; workers := j.(sched).(registered); jobName := job;
     files := inputs; nReduce := nreduce; stats := j.(jstats) |}.

(** [Distributed] until [run] waits in the map phase. *)
Definition Distributed (listen_ok : bool) (fs : FS) : res Job :=
  sv ← startRPCServer listen_ok;
  a ← schedule_args job inputs nreduce mapPhase;
  Ret (mkJob (JPhase mapPhase) (schedule_init a [] [] ∅ ∅ fs) sv [] []).

Inductive jstep : Job -> Job -> Prop :=
(** A step of the phase. *)
| J_sched j p s' :
    j.(stage) = JPhase p -> quiet can_create mapF reduceF j.(sched) s' -> jstep j (set_sched s' j)
(** The loop of the server. *)
| J_select j : jstep j (set_server (server_select j.(server)) j)
| J_accept_error j sv :
    accept_error j.(server) = Some sv -> jstep j (set_server sv j)
(** A worker starts to listen. *)
| J_start j w nrpc : jstep j (set_sched (RunWorker w nrpc j.(sched)) j)
(** A worker connects to register, under any name. *)
| J_dial j w sv :
    accept_conn j.(server) = Some sv -> jstep j (set_pending (j.(pending) ++ [w]) (set_server sv j))
(** [Register] gets the lock. *)
| J_register j k w :
    j.(pending) !! k = Some w -> locked j.(stage) = false ->
    jstep j (set_pending (delete k j.(pending)) (set_sched (register w j.(sched)) j))
(** [RunWorker] of a process goes on. *)
| J_loop j p w wk :
    j.(sched).(wks) !! p = Some wk -> j.(sched).(procs) !! p = Some w -> wk.(loop) <> LExit ->
    jstep j (set_sched (worker_loop p w wk j.(sched)) j)
(** A process dies. *)
| J_die j p : jstep j (set_sched (set_wks (delete p j.(sched).(wks)) j.(sched).(sock) j.(sched)) j)
(** [schedule] returns. *)
| J_map_done j a :
    j.(stage) = JPhase mapPhase -> all_finished j.(sched) ->
    schedule_args job inputs nreduce reducePhase = Ret a ->
    jstep j (set_stage (JPhase reducePhase)
               (set_sched (schedule_init a j.(sched).(registered) j.(sched).(procs) j.(sched).(sock) j.(sched).(wks)
                             j.(sched).(store)) j))
| J_map_panic j :
    j.(stage) = JPhase mapPhase -> all_finished j.(sched) ->
    schedule_args job inputs nreduce reducePhase = Panic -> jstep j (set_stage JCrash j)
| J_reduce_done j :
    j.(stage) = JPhase reducePhase -> all_finished j.(sched) ->
    jstep j (set_stage (JKill j.(sched).(registered)) (set_jstats [] j))
(** [killWorkers]: a process listens on the socket, or none does; it accepts the
    connection; its handler answers; it closes its listener before it accepts, or dies
    before it answers. *)
| J_kill_dial j w todo p :
    j.(stage) = JKill (w :: todo) -> dial j.(sched) w = Some p -> jstep j (set_stage (JDialed p todo) j)
| J_kill_fail j w todo :
    j.(stage) = JKill (w :: todo) -> dial j.(sched) w = None -> jstep j (set_stage (JKill todo) j)
| J_kill j p todo wk wk' :
    j.(stage) = JDialed p todo -> j.(sched).(wks) !! p = Some wk -> accept wk = Some wk' ->
    jstep j (set_stage (JKilling p todo) (set_worker p wk' j))
| J_kill_reset j p todo :
    j.(stage) = JDialed p todo -> serving j.(sched) p = false -> jstep j (set_stage (JKill todo) j)
| J_killed j p todo wk :
    j.(stage) = JKilling p todo -> j.(sched).(wks) !! p = Some wk ->
    jstep j (set_stage (JKill todo)
               (set_jstats (j.(jstats) ++ [(Shutdown wk).2]) (set_worker p (Shutdown wk).1 j)))
| J_kill_lost j p todo :
    j.(stage) = JKilling p todo -> j.(sched).(wks) !! p = None -> jstep j (set_stage (JKill todo) j)
| J_kill_end j : j.(stage) = JKill [] -> jstep j (set_stage JStop j)
(** [stopRPCServer]: the connection is accepted, the handler runs; or there is no
    listener. *)
| J_stop j sv :
    j.(stage) = JStop -> accept_conn j.(server) = Some sv -> jstep j (set_stage JStopping (set_server sv j))
| J_stopped j sv :
    j.(stage) = JStopping -> Master_Shutdown j.(server) = Ret sv -> jstep j (set_stage JMerge (set_server sv j))
| J_stop_panic j :
    j.(stage) = JStopping -> Master_Shutdown j.(server) = Panic -> jstep j (set_stage JCrash j)
| J_stop_fail j :
    j.(stage) = JStop -> j.(server).(listening) = false -> jstep j (set_stage JMerge j)
(** [merge], and the signal that [Wait] receives. *)
| J_merge j fs' :
    j.(stage) = JMerge -> MapReduce.merge can_create (job_master j) j.(sched).(store) = Ret fs' ->
    jstep j (set_stage JSend (set_sched (set_store fs' j.(sched)) j))
| J_merge_panic j :
    j.(stage) = JMerge -> MapReduce.merge can_create (job_master j) j.(sched).(store) = Panic ->
    jstep j (set_stage JCrash j)
| J_wait j : j.(stage) = JSend -> jstep j (set_stage JDone j).

Definition jsteps : Job -> Job -> Prop := rtc jstep.
End job.
