(* ===== verification/Distributed.v ===== *)
(** * Distributed: a distributed MapReduce job is the sequential one

    Both phases of a job, run by [schedule] on workers that come, fail and are
    tried again, leave the files of the sequential phases; [merge] then writes
    the same result.  With more reduce tasks than input files [schedule]
    panics. *)

From S2P Require Import Prelude Utf8 MapReduce MRFacts MRTheory MRJobs Schedule ScheduleTheory WordCount.
From stdpp Require Import pretty sorting.
Local Open Scope Z_scope.

(** ** The arguments of the goroutines *)

Definition task_args (job : string) (mapFiles : list string) (phase : jobPhase) (k : nat) (nother : Z)
    : list DoTaskArgs :=
  imap (fun i f => {| JobName := job; File := f; Phase := phase; TaskNumber := Z.of_nat i;
                      NumOtherPhase := nother |}) (take k mapFiles).

Lemma schedule_args_Ret job mapFiles n phase :
  let '(ntasks, nother) := phase_counts mapFiles n phase in
  0 <= ntasks <= len mapFiles ->
  schedule_args job mapFiles n phase = Ret (task_args job mapFiles phase (Z.to_nat ntasks) nother).
Proof.
  destruct (phase_counts mapFiles n phase) as [ntasks nother] eqn:Ec. intros Hn.
  unfold schedule_args. rewrite Ec.
  destruct (for_range_inv (fun i a => a = task_args job mapFiles phase (Z.to_nat i) nother) ntasks
    (fun i args => f ← idx mapFiles i;
       Ret (args ++ [{| JobName := job; File := f; Phase := phase; TaskNumber := i;
                        NumOtherPhase := nother |}])) []) as (a & E & ->); [lia|done| |exact E].
  intros i a Hi ->. destruct (idx_in_range mapFiles i) as [f Hf]; [lia|]. rewrite Hf. cbn [mbind res_bind].
  eexists. split; [reflexivity|]. apply idx_Ret in Hf as [_ Hf].
  replace (Z.to_nat (i + 1)) with (S (Z.to_nat i)) by lia. unfold task_args.
  rewrite (take_S_r _ _ _ Hf), imap_app. cbn. do 3 f_equal.
  apply lookup_lt_Some in Hf. rewrite length_take, Nat.add_0_r. lia.
Qed.

Lemma for_loop_panic {S} (body : Z -> S -> res S) k i j s :
  i <= j < i + Z.of_nat k -> (forall s, body j s = Panic) -> for_loop k i body s = Panic.
Proof.
  revert i s. induction k as [|k IH]; intros i s Hj Hp; [lia|]. cbn [for_loop].
  destruct (decide (i = j)) as [->|Hne]; [by rewrite Hp|].
  destruct (body i s); [|done]. cbn. apply IH; [lia|done].
Qed.

Lemma task_args_lookup job mapFiles phase k nother t arg :
  task_args job mapFiles phase k nother !! t = Some arg ->
  (t < k)%nat /\ exists f, mapFiles !! t = Some f /\
    arg = {| JobName := job; File := f; Phase := phase; TaskNumber := Z.of_nat t; NumOtherPhase := nother |}.
Proof.
  unfold task_args. rewrite list_lookup_imap. destruct (take k mapFiles !! t) as [f|] eqn:E; [|done].
  intros [= <-]. apply lookup_take_Some in E as [E Hk]. split; [done|]. by exists f.
Qed.

(** ** The phases of a job *)

(** Tasks [a] take the files [fs0] to [fs1], in any order. *)
Record phase_ok `{!JsonCodec, !GoMapOrder} (can_create : string -> bool)
    (mapF : string -> string -> list KeyValue) (reduceF : string -> list string -> string)
    (a : list DoTaskArgs) (fs0 fs1 : FS) : Prop := {
  po_run : forall t arg fs, a !! t = Some arg -> (forall p, outside a p -> fs !! p = fs0 !! p) ->
    exists fs', run_task can_create mapF reduceF arg fs = Ret fs' /\
      (forall p, task_file arg p -> fs' !! p = fs1 !! p) /\
      (forall p, ~ task_file arg p -> fs' !! p = fs !! p);
  po_disj : forall t t' arg arg' p, a !! t = Some arg -> a !! t' = Some arg' ->
    task_file arg p -> task_file arg' p -> t = t';
  po_rest : forall p, outside a p -> fs1 !! p = fs0 !! p
}.

Section job.
Context `{!JsonCodec, !GoMapOrder} (can_create : string -> bool) (job : string) (n : Z)
        (mapF : string -> string -> list KeyValue) (reduceF : string -> list string -> string)
        (inputs : list (string * string)) (fs : FS)
        (Hok : job_ok can_create job n mapF reduceF inputs fs).

Local Abbreviation map_args := (task_args job inputs.*1 mapPhase (length inputs) n).
Local Abbreviation reduce_args := (task_args job inputs.*1 reducePhase (Z.to_nat n) (len inputs)).

Lemma map_schedule : schedule_args job inputs.*1 n mapPhase = Ret map_args.
Proof.
  pose proof (schedule_args_Ret job inputs.*1 n mapPhase) as E. cbn [phase_counts] in E. rewrite E.
  - unfold len. by rewrite Nat2Z.id, length_fmap.
  - unfold len. lia.
Qed.

Lemma reduce_schedule :
  n <= len inputs -> schedule_args job inputs.*1 n reducePhase = Ret reduce_args.
Proof.
  intros Hn. pose proof (schedule_args_Ret job inputs.*1 n reducePhase) as E. cbn [phase_counts] in E.
  rewrite E; rewrite len_inputs; [done|]. destruct Hok. lia.
Qed.

(** The names of the intermediate files of map task [t]. *)
Lemma map_arg t arg :
  map_args !! t = Some arg -> exists f c, inputs !! t = Some (f, c) /\
    arg = {| JobName := job; File := f; Phase := mapPhase; TaskNumber := Z.of_nat t; NumOtherPhase := n |}.
Proof.
  intros (_ & f & Hf & ->)%task_args_lookup. rewrite list_lookup_fmap in Hf.
  destruct (inputs !! t) as [[f' c]|] eqn:E; [|done]. injection Hf as <-. eauto.
Qed.

Lemma map_outside p : outside map_args p <->
  forall m r, 0 <= m < len inputs -> 0 <= r < n -> p <> reduceName job m r.
Proof.
  split.
  - intros Ho m r Hm Hr ->. unfold len in Hm.
    destruct (lookup_lt_is_Some_2 inputs (Z.to_nat m)) as [[f c] Hfc]; [lia|].
    apply (Ho (Z.to_nat m) {| JobName := job; File := f; Phase := mapPhase; TaskNumber := m; NumOtherPhase := n |}).
    + unfold task_args. rewrite list_lookup_imap, lookup_take_lt, list_lookup_fmap, Hfc by lia. cbn.
      by rewrite Z2Nat.id by lia.
    + cbn. eauto.
  - intros Hp t arg (f & c & Hfc & ->)%map_arg (r & Hr & ->). cbn in *.
    apply lookup_lt_Some in Hfc. apply (Hp (Z.of_nat t) r); [unfold len; lia|done|done].
Qed.

Lemma map_phase_ok fs1 :
  mapped job n mapF inputs fs (len inputs) fs1 -> phase_ok can_create mapF reduceF map_args fs fs1.
Proof.
  intros [Hw Hf]. destruct Hok as [Hn Hin Hcc _ _]. split.
  - intros t arg fs' (f & c & Hfc & ->)%map_arg Hfr. pose proof (lookup_lt_Some _ _ _ Hfc) as Hlt.
    destruct (Hin f c) as [Hfs Hnj]; [by eapply list_elem_of_lookup_2|]. unfold run_task. cbn.
    destruct (doMap_spec can_create job (Z.of_nat t) f n mapF fs' c) as (fs'' & E & Hw' & Hf');
      [lia|done| | |].
    + rewrite Hfr; [done|]. apply map_outside. intros m r Hm Hr ->. apply Hnj. left. eauto 6.
    + intros r Hr. apply Hcc. left. exists (Z.of_nat t), r. unfold len. split; [lia|done].
    + exists fs''. split; [done|]. split.
      * intros p (r & Hr & ->). cbn in *. rewrite Hw' by done. symmetry. apply Hw; [|unfold len; lia|done].
        unfold outs_of. by rewrite list_lookup_fmap, Hfc.
      * intros p Hp. apply Hf'. intros r Hr ->. apply Hp. exists r. done.
  - intros t t' arg arg' p (f & c & _ & ->)%map_arg (f' & c' & _ & ->)%map_arg (r & _ & ->) (r' & _ & E).
    cbn in E. apply reduceName_inj in E; lia.
  - intros p Hp. apply Hf. by apply map_outside.
Qed.

Lemma reduce_outside p : n <= len inputs ->
  (outside reduce_args p <-> forall r, 0 <= r < n -> p <> mergeName job r).
Proof.
  intros Hn. unfold len in Hn. split.
  - intros Ho r Hr ->. destruct (lookup_lt_is_Some_2 inputs.*1 (Z.to_nat r)) as [f Hf];
      [rewrite length_fmap; lia|].
    apply (Ho (Z.to_nat r) {| JobName := job; File := f; Phase := reducePhase; TaskNumber := r;
      NumOtherPhase := len inputs |}); [|done].
    unfold task_args. rewrite list_lookup_imap, lookup_take_lt, Hf by lia. cbn. by rewrite Z2Nat.id by lia.
  - intros Hp t arg (Ht & f & _ & ->)%task_args_lookup E. cbn in E. apply (Hp (Z.of_nat t)); [lia|done].
Qed.

Lemma reduce_phase_ok fs1 fs2 :
  n <= len inputs -> mapped job n mapF inputs fs (len inputs) fs1 ->
  (forall r, 0 <= r < n -> fs2 !! mergeName job r =
     Some (encode_kvs (reduced reduceF r (groups (in_bin n r (emitted mapF inputs)))))) ->
  (forall p, (forall r, 0 <= r < n -> p <> mergeName job r) -> fs2 !! p = fs1 !! p) ->
  phase_ok can_create mapF reduceF reduce_args fs1 fs2.
Proof.
  intros Hle [Hw _] Hw2 Hf2. destruct Hok as [Hn _ Hcc Hv _]. split.
  - intros t arg fs' (Ht & f & _ & ->)%task_args_lookup Hfr. unfold run_task. cbn.
    assert (len inputs = len (outs_of mapF inputs)) as El by (unfold len, outs_of; by rewrite length_fmap).
    rewrite El, (doReduce_spec can_create job (Z.of_nat t) _ n reduceF fs' (outs_of mapF inputs)).
    + eexists. split; [reflexivity|]. unfold task_file. cbn. split.
      * intros p ->. rewrite lookup_insert_eq, Hw2 by lia. done.
      * intros p Hp. by rewrite lookup_insert_ne by done.
    + intros m out Hm. rewrite Hfr; [apply Hw; [done| |lia]|].
      * apply lookup_lt_Some in Hm. unfold len in *. lia.
      * apply reduce_outside; [done|]. intros r' _. apply reduceName_mergeName. lia.
    + done.
    + apply Hcc. right. left. exists (Z.of_nat t). split; [lia|done].
  - intros t t' arg arg' p (_ & f & _ & ->)%task_args_lookup (_ & f' & _ & ->)%task_args_lookup.
    unfold task_file. cbn. intros -> E%mergeName_inj. lia.
  - intros p Hp. apply Hf2. by apply reduce_outside.
Qed.

(** Workers are idle again when a phase has ended. *)
Lemma idle_after s : sched_inv s -> all_finished s -> idle_workers s.(procs) s.(sock) s.(wks).
Proof.
  intros Hi Hall. split; [|by apply Hi]. intros p wk Hw. destruct (si_wks s Hi p wk Hw) as [? ->].
  split; [done|]. apply running_zero. intros t w Ht. unfold all_finished in Hall. rewrite Forall_forall in Hall.
  apply list_elem_of_lookup_2 in Ht. by apply Hall in Ht.
Qed.

(** The tasks of the phases, the files after each of them, and those [merge] leaves:
    they are the files of the sequential job. *)
Record job_files (a1 a2 : list DoTaskArgs) (fs1 fs2 fs' : FS) : Prop := {
  jf_map : schedule_args job inputs.*1 n mapPhase = Ret a1;
  jf_reduce : schedule_args job inputs.*1 n reducePhase = Ret a2;
  jf_map_ok : phase_ok can_create mapF reduceF a1 fs fs1;
  jf_reduce_ok : phase_ok can_create mapF reduceF a2 fs1 fs2;
  jf_merge : forall mr, jobName mr = job -> nReduce mr = n -> MapReduce.merge can_create mr fs2 = Ret fs';
}.

Lemma job_phases : n <= len inputs -> exists a1 a2 fs1 fs2 mr fs',
  Sequential can_create job inputs.*1 n mapF reduceF fs = Ret (mr, fs') /\ job_files a1 a2 fs1 fs2 fs'.
Proof.
  intros Hn. destruct (map_phase can_create job n mapF reduceF inputs fs Hok []) as (fs1 & E1 & Hm).
  destruct (reduce_phase can_create job n mapF reduceF inputs fs Hok [] fs1 Hm) as (fs2 & E2 & Hw2 & Hf2).
  destruct (sequential_done can_create job n mapF reduceF inputs fs Hok) as (mr & fs' & E & Hmr & _).
  exists map_args, reduce_args, fs1, fs2, mr, fs'. split; [done|].
  split; [apply map_schedule|by apply reduce_schedule|by apply map_phase_ok|by apply reduce_phase_ok|].
  intros mr' Ej En.
  unfold Sequential, run in E. cbn [address MapReduce.workers jobName files nReduce stats newMaster] in E.
  rewrite E1 in E. cbn [mbind res_bind] in E. rewrite E2 in E. cbn [mbind res_bind] in E.
  unfold MapReduce.merge in *. cbn [jobName nReduce] in E. rewrite Ej, En.
  destruct (for_range n _ ∅) as [kvs|]; [|done]. cbn [mbind res_bind] in *.
  destruct (create _ _ _ _); [|done]. cbn in E. by injection E as _ <-.
Qed.
End job.

(** ** The properties *)

Section properties.
Context `{!JsonCodec, !GoMapOrder} (can_create : string -> bool)
        (mapF : string -> string -> list KeyValue) (reduceF : string -> list string -> string).
Local Abbreviation steps := (ssteps can_create mapF reduceF).

(** C28. A worker never has two tasks at once: whatever workers start, register (each
    name once), fail or die, [DoTask] finds at most one task in progress, so the check
    that stops the worker's process never fires. *)
Theorem worker_exclusive a workers procs sock ws fs s :
  idle_workers procs sock ws -> steps (schedule_init a workers procs sock ws fs) s -> NoDup (registered s) ->
  fatal s = false /\ forall p wk, wks s !! p = Some wk -> 0 <= concurrent wk <= 1.
Proof.
  intros Hid Hs Hnd.
  pose proof (sched_inv_steps can_create mapF reduceF _ _ Hs (sched_inv_init a workers procs sock ws fs Hid)) as Hi.
  split; [by apply Hi|]. intros p wk Hw. destruct (si_wks s Hi p wk Hw) as [_ ->].
  by apply running_le_one.
Qed.

(** A name that is registered twice is sent two tasks at once: a worker that is started
    again under its old name registers again, [forwardRegistrations] sends the name
    twice to the channel, two goroutines call [DoTask] on the new process, and it ends
    with the message that [schedule] should never do that. *)
Theorem restarted_worker_fatal a1 a2 fs :
  exists s, steps (schedule_init [a1; a2] [] [] ∅ ∅ fs) s /\ registered s = ["w"; "w"] /\ fatal s = true.
Proof.
  eexists. split.
  - eapply rtc_l; [apply (S_start _ _ _ _ "w" (-1))|].
    eapply rtc_l; [apply (S_register _ _ _ _ "w")|].
    eapply rtc_l; [apply (S_start _ _ _ _ "w" (-1))|].
    eapply rtc_l; [apply (S_register _ _ _ _ "w")|]. norm_state.
    do 2 (eapply rtc_l; [by apply (S_forward _ _ _ _ "w")|]).
    do 2 (eapply rtc_l; [by eapply (S_loop _ _ _ _ 1 "w")|]; norm_state).
    eapply rtc_l; [by apply (S_take _ _ _ _ 0 0 "w")|].
    eapply rtc_l; [by apply (S_take _ _ _ _ 1 0 "w")|]. norm_state.
    eapply rtc_l; [by apply (S_dial _ _ _ _ 0 "w" 1)|].
    eapply rtc_l; [by apply (S_dial _ _ _ _ 1 "w" 1)|]. norm_state.
    eapply rtc_l; [by eapply (S_begin _ _ _ _ 0 "w" 1)|]. norm_state.
    eapply rtc_l; [by eapply (S_loop _ _ _ _ 1 "w")|]. norm_state.
    eapply rtc_l; [by eapply (S_fatal _ _ _ _ 1 "w" 1)|]. norm_state.
    apply rtc_refl.
  - by split.
Qed.
End properties.

(** [schedule] panics in the reduce phase exactly when there are more reduce
    tasks than input files: it reads the name of an input file for every task. *)
Theorem schedule_reduce_panics job mapFiles nReduce :
  schedule_args job mapFiles nReduce reducePhase = Panic <-> len mapFiles < nReduce.
Proof.
  destruct (Z.lt_ge_cases (len mapFiles) nReduce) as [Hlt|Hge].
  - split; [done|]. intros _. unfold schedule_args, for_range. cbn [phase_counts].
    pose proof (len_nonneg mapFiles).
    apply (for_loop_panic _ _ _ (len mapFiles)); [lia|]. intros s.
    destruct (idx mapFiles (len mapFiles)) as [f|] eqn:E; [|done]. apply idx_range in E. lia.
  - split; [|lia]. destruct (Z.lt_ge_cases nReduce 0) as [Hneg|Hnn].
    + unfold schedule_args, for_range. cbn [phase_counts]. by replace (Z.to_nat nReduce) with 0%nat by lia.
    + pose proof (schedule_args_Ret job mapFiles nReduce reducePhase) as E. cbn [phase_counts] in E. by rewrite E by lia.
Qed.

(** ** Examples: two input files, two reduce tasks, one worker *)

Definition demo_args : list DoTaskArgs :=
  task_args "wcseq" ["f1"; "f2"] mapPhase 2 2.
Definition demo_wks : gmap nat Worker := {[0%nat := newWorker (-1)]}.
Definition demo_sock : gmap string nat := {["w" := 0%nat]}.

Definition demo_s0 : Sched := schedule_init demo_args ["w"] ["w"] demo_sock demo_wks demo_fs.
(** The worker runs the first task. *)
Definition demo_wk : Worker := {| nRPC := -2; nTasks := 1; concurrent := 1; loop := LTest |}.
Definition demo_s3 : Sched :=
  {| args := demo_args; tasks := [Running "w" 0; Waiting]; chan := []; registered := ["w"];
     forwarded := 1; procs := ["w"]; sock := demo_sock; wks := {[0%nat := demo_wk]}; store := demo_fs; fatal := false |}.

Lemma demo_steps : ssteps (fun _ => true) (mapF no_table) reduceF demo_s0 demo_s3.
Proof.
  eapply rtc_l; [by apply (S_forward _ _ _ _ "w")|].
  eapply rtc_l; [by apply (S_take _ _ _ _ 0 0 "w")|].
  eapply rtc_l; [by apply (S_dial _ _ _ _ 0 "w" 0)|].
  eapply rtc_l; [by apply (S_loop _ _ _ _ 0 "w" (newWorker (-1)))|].
  eapply rtc_l; [by apply (S_loop _ _ _ _ 0 "w" (loop_test (newWorker (-1))))|].
  eapply rtc_l; [by eapply (S_begin _ _ _ _ 0 "w" 0 (loop_test (loop_test (newWorker (-1)))))|].
  apply rtc_refl.
Qed.

Lemma demo_idle : idle_workers ["w"] demo_sock demo_wks.
Proof.
  split.
  - unfold demo_wks. intros p wk [<- <-]%lookup_singleton_Some. split; [cbn; lia|done].
  - unfold demo_sock. by intros w p [<- <-]%lookup_singleton_Some.
Qed.

Lemma worker_exclusive_witness :
  fatal demo_s3 = false /\ forall p wk, wks demo_s3 !! p = Some wk -> 0 <= concurrent wk <= 1.
Proof.
  apply (worker_exclusive (fun _ => true) (mapF no_table) reduceF demo_args ["w"] ["w"] demo_sock demo_wks demo_fs).
  - apply demo_idle.
  - apply demo_steps.
  - apply NoDup_singleton.
Defined.
