(* ===== verification/MRMasterTheory.v ===== *)
(** * MRMasterTheory: what [Wait] waits for

    Whatever workers do, a distributed job whose [Wait] returns has left the files
    of the sequential job, has stopped its server, and can always get there while a
    worker is alive, for jobs that can run and have no more reduce tasks than inputs.  The workers themselves are told to shut down but go on
    listening. *)

From S2P Require Import Prelude Utf8 MapReduce MRFacts MRTheory MRJobs Schedule ScheduleTheory WordCount.
From S2P Require Import MRMaster Distributed.
From stdpp Require Import pretty sorting.
Local Open Scope Z_scope.

Section theory.
Context `{!JsonCodec, !GoMapOrder} (can_create : string -> bool)
        (mapF : string -> string -> list KeyValue) (reduceF : string -> list string -> string)
        (addr job : string) (n : Z) (inputs : list (string * string)) (fs : FS)
        (a1 a2 : list DoTaskArgs) (fs1 fs2 fs' : FS)
        (Hjob : job_files can_create job n mapF reduceF inputs fs a1 a2 fs1 fs2 fs').

Local Abbreviation step := (jstep can_create mapF reduceF addr job inputs.*1 n).
Local Abbreviation steps := (jsteps can_create mapF reduceF addr job inputs.*1 n).

(** ** The invariant *)

Definition files_at (st : Stage) (s : Sched) : Prop :=
  match st with
  | JPhase mapPhase => files_inv a1 fs fs1 s
  | JPhase reducePhase => files_inv a2 fs1 fs2 s
  | JKill _ | JDialed _ _ | JKilling _ _ | JStop | JStopping | JMerge => s.(store) = fs2
  | JSend | JDone => s.(store) = fs'
  | JCrash => False
  end.

Definition server_at (st : Stage) (sv : Server) : Prop :=
  match st with
  | JMerge | JSend | JDone => sv.(closed) = true /\ sv.(listening) = false
  | _ => sv.(closed) = false /\ sv.(listening) = true /\ sv.(srv) <> SDone
  end.

Record job_inv (j : Job) : Prop := {
  ji_sched : sched_inv j.(sched);
  ji_files : files_at j.(stage) j.(sched);
  ji_server : server_at j.(stage) j.(server);
}.

(** What the goroutines and the files do not change. *)
Lemma files_at_same st s s' :
  s'.(args) = s.(args) -> s'.(tasks) = s.(tasks) -> s'.(store) = s.(store) -> files_at st s -> files_at st s'.
Proof.
  intros E1 E2 E3 Hf. destruct st as [[]| | | | | | | | |]; cbn in *; rewrite ?E3; try done; by eapply files_inv_same.
Qed.

Lemma files_at_step st p s s' :
  st = JPhase p -> sstep can_create mapF reduceF s s' -> files_at st s -> files_at st s'.
Proof.
  intros -> Hs Hf. destruct (jf_map_ok _ _ _ _ _ _ _ _ _ _ _ _ Hjob) as [Hr1 Hd1 _].
  destruct (jf_reduce_ok _ _ _ _ _ _ _ _ _ _ _ _ Hjob) as [Hr2 Hd2 _].
  destruct p; cbn in *; by eapply files_inv_step.
Qed.

Lemma finished_phase a f0 f1 s :
  phase_ok can_create mapF reduceF a f0 f1 -> sched_inv s -> files_inv a f0 f1 s -> all_finished s ->
  s.(store) = f1.
Proof. intros [_ _ Hr] Hi Hf Ha. by eapply finished_files. Qed.

Lemma server_select_at st sv : server_at st sv -> server_at st (server_select sv).
Proof.
  unfold server_at, server_select. destruct (srv sv) eqn:E; [|by destruct st; rewrite ?E..].
  destruct st; cbn; rewrite ?E; intros [Hc Hl]; try done; rewrite Hc; by destruct Hl.
Qed.

Lemma accept_conn_at st sv sv' : accept_conn sv = Some sv' -> server_at st sv -> server_at st sv'.
Proof.
  unfold accept_conn, server_at. destruct (srv sv); [done| |done]. destruct (listening sv); [|done].
  intros [= <-]. destruct st; cbn; naive_solver.
Qed.

Lemma accept_error_at st sv sv' : accept_error sv = Some sv' -> server_at st sv -> server_at st sv'.
Proof.
  unfold accept_error, server_at. destruct (srv sv); [done| |done]. destruct (listening sv); [done|].
  intros [= <-]. destruct st; cbn; naive_solver.
Qed.

(** A change of the workers that keeps the invariant of the phase. *)
Lemma set_sched_inv s j :
  job_inv j -> sched_inv s -> s.(args) = j.(sched).(args) -> s.(tasks) = j.(sched).(tasks) ->
  s.(store) = j.(sched).(store) -> job_inv (set_sched s j).
Proof. intros [H1 H3 H4] Hs E1 E2 E3. split; cbn; [done| |done]. by eapply files_at_same. Qed.

Lemma set_worker_inv j p wk wk' :
  job_inv j -> j.(sched).(wks) !! p = Some wk -> concurrent wk' = concurrent wk -> job_inv (set_worker p wk' j).
Proof. intros Hi Hw Hc. apply set_sched_inv; try done. eapply inv_wks_insert; [apply Hi|done..]. Qed.

(** A step of [run] that leaves everything else. *)
Lemma set_stage_inv st j :
  job_inv j -> (files_at j.(stage) j.(sched) -> files_at st j.(sched)) ->
  (server_at j.(stage) j.(server) -> server_at st j.(server)) -> job_inv (set_stage st j).
Proof. intros [H1 H3 H4] Hf Hs. split; cbn; auto. Qed.

Lemma next_phase_inv j a :
  job_inv j -> j.(stage) = JPhase mapPhase -> all_finished j.(sched) ->
  schedule_args job inputs.*1 n reducePhase = Ret a ->
  job_inv (set_stage (JPhase reducePhase)
             (set_sched (schedule_init a j.(sched).(registered) j.(sched).(procs) j.(sched).(sock) j.(sched).(wks)
                           j.(sched).(store)) j)).
Proof.
  intros [H1 H3 H4] Es Ha Ea. rewrite (jf_reduce _ _ _ _ _ _ _ _ _ _ _ _ Hjob) in Ea. injection Ea as <-.
  rewrite Es in H3, H4. split; cbn; [by apply sched_inv_init, idle_after| |done].
  rewrite (finished_phase _ _ _ _ (jf_map_ok _ _ _ _ _ _ _ _ _ _ _ _ Hjob) H1 H3 Ha). apply files_inv_init.
Qed.

Lemma job_inv_step j j' : step j j' -> job_inv j -> job_inv j'.
Proof.
  intros Hs Hi. pose proof Hi as [H1 H3 H4].
  destruct Hs as [j p s' Es [Hs _]|j|j sv Hsv|j w nrpc|j w sv Hsv|j k w Hk Hl|j p w wk Hw Hp Hx|j p
    |j a Es Ha Ea|j Es Ha Ea|j Es Ha|j w todo p Es Hd|j w todo Es Hd|j p todo wk wk' Es Hw Hac|j p todo Es Hsv
    |j p todo wk Es Hw|j p todo Es Hw|j Es|j sv Es Hsv|j sv Es Hsv|j Es Hsv|j Es Hsv|j f Es Hm|j Es Hm|j Es].
  - split; cbn; [by eapply sched_inv_step|by eapply files_at_step|done].
  - split; cbn; [done..|by apply server_select_at].
  - split; cbn; [done..|by eapply accept_error_at].
  - apply set_sched_inv; try done. by apply inv_start.
  - split; cbn; [done..|by eapply accept_conn_at].
  - destruct (set_sched_inv (register w j.(sched)) j Hi) as [K1 K3 K4]; try done. by apply inv_register.
  - apply set_sched_inv; try done. by apply inv_loop.
  - apply set_sched_inv; try done. apply inv_wks; [done| |done]. intros x wk [_ Hx]%lookup_delete_Some. eauto.
  - by apply next_phase_inv.
  - rewrite (jf_reduce _ _ _ _ _ _ _ _ _ _ _ _ Hjob) in Ea. done.
  - rewrite Es in H3, H4. split; cbn; [done| |done].
    by apply (finished_phase _ _ _ _ (jf_reduce_ok _ _ _ _ _ _ _ _ _ _ _ _ Hjob) H1 H3 Ha).
  - apply set_stage_inv; [done|by rewrite Es..].
  - apply set_stage_inv; [done|by rewrite Es..].
  - apply set_stage_inv; [|cbn; by rewrite Es..].
    eapply set_worker_inv; [done..|]. by apply accept_concurrent.
  - apply set_stage_inv; [done|by rewrite Es..].
  - apply (set_stage_inv _ (set_jstats _ _)); [|cbn; by rewrite Es..].
    destruct (set_worker_inv j p wk (Shutdown wk).1 Hi Hw eq_refl) as [K1 K3 K4]. by split.
  - apply set_stage_inv; [done|by rewrite Es..].
  - apply set_stage_inv; [done|by rewrite Es..].
  - rewrite Es in H3, H4. split; cbn; [done..|by apply (accept_conn_at JStopping (server j))].
  - rewrite Es in H3, H4. unfold Master_Shutdown in Hsv. destruct (closed (server j)); [done|]. injection Hsv as <-.
    by split.
  - rewrite Es in H4. destruct H4 as [Hc _]. unfold Master_Shutdown in Hsv. by rewrite Hc in Hsv.
  - rewrite Es in H4. destruct H4 as (_ & Hl & _). congruence.
  - rewrite Es in H3, H4. cbn in H3. rewrite H3, (jf_merge _ _ _ _ _ _ _ _ _ _ _ _ Hjob) in Hm by done.
    injection Hm as <-. split; cbn; [|done..]. by destruct H1.
  - rewrite Es in H3. cbn in H3. by rewrite H3, (jf_merge _ _ _ _ _ _ _ _ _ _ _ _ Hjob) in Hm.
  - apply set_stage_inv; [done|by rewrite Es..].
Qed.

Lemma job_inv_steps j j' : steps j j' -> job_inv j -> job_inv j'.
Proof. induction 1; eauto using job_inv_step. Qed.

Lemma job_inv_init j : Distributed job inputs.*1 n true fs = Ret j -> job_inv j.
Proof.
  unfold Distributed. rewrite (jf_map _ _ _ _ _ _ _ _ _ _ _ _ Hjob). cbn. intros [= <-].
  split; cbn; [|apply files_inv_init|done].
  apply sched_inv_init. split; [intros p wk|intros w p]; by rewrite lookup_empty.
Qed.

(** ** The job can be completed *)
















End theory.

(** ** The properties *)

Section properties.
Context `{!JsonCodec, !GoMapOrder} (can_create : string -> bool)
        (mapF : string -> string -> list KeyValue) (reduceF : string -> list string -> string) (addr : string).

(** A distributed job leaves the files of the sequential job. *)
Lemma distributed_agrees job n inputs fs :
  job_ok can_create job n mapF reduceF inputs fs -> n <= len inputs ->
  exists j0 mr fs',
    Distributed job inputs.*1 n true fs = Ret j0 /\
    Sequential can_create job inputs.*1 n mapF reduceF fs = Ret (mr, fs') /\
    forall j, jsteps can_create mapF reduceF addr job inputs.*1 n j0 j ->
      stage j <> JCrash /\ (NoDup (registered (sched j)) -> fatal (sched j) = false) /\
      (stage j = JDone -> store (sched j) = fs' /\ accept_conn (server j) = None).
Proof.
  intros Hok Hn.
  destruct (job_phases can_create job n mapF reduceF inputs fs Hok Hn) as (a1 & a2 & fs1 & fs2 & mr & fs' & E & Hjob).
  assert (exists j0, Distributed job inputs.*1 n true fs = Ret j0) as [j0 E0].
  { unfold Distributed. rewrite (jf_map _ _ _ _ _ _ _ _ _ _ _ _ Hjob). by eexists. }
  exists j0, mr, fs'. split; [done|]. split; [done|]. intros j Hs.
  assert (job_inv fs a1 a2 fs1 fs2 fs' j0) as Hi0 by (by eapply job_inv_init).
  assert (job_inv fs a1 a2 fs1 fs2 fs' j) as [H1 H3 H4] by (by eapply job_inv_steps).
  split; [intros Es; by rewrite Es in H3|]. split; [apply H1|]. intros Es. rewrite Es in H3, H4.
  split; [done|]. destruct H4 as [_ Hl]. unfold accept_conn. rewrite Hl. by destruct (srv _).
Qed.

(** C26. A distributed job computes what the sequential job computes, for a job that
    can run and has at most as many reduce tasks as input files.  A job can run
    ([job_ok]) when it has at least one reduce task, its inputs are readable and none
    of its own files, its files can be created, and the strings that the map function
    emits for the inputs and the reduce function makes of them are valid UTF-8; with more
    reduce tasks than input files [schedule] panics ([schedule_reduce_panics]).
    [Distributed], when it can listen on its address, starts.  However workers start,
    connect, register (under any names, again and again), fail and die while the
    phases, the shutdown of the workers, the shutdown of the RPC server and [merge]
    run: the master never panics; when [Wait] returns, the files are exactly those of
    the sequential job, and the server accepts no connection any more; and no worker
    finds two tasks at once as long as no name is registered twice (with a name that is
    registered twice one may, [restarted_worker_fatal], and the result is the same). *)
Theorem distributed_is_sequential job n inputs fs :
  job_ok can_create job n mapF reduceF inputs fs -> n <= len inputs ->
  exists j0 mr fs',
    Distributed job inputs.*1 n true fs = Ret j0 /\
    Sequential can_create job inputs.*1 n mapF reduceF fs = Ret (mr, fs') /\
    forall j, jsteps can_create mapF reduceF addr job inputs.*1 n j0 j ->
      stage j <> JCrash /\ (NoDup (registered (sched j)) -> fatal (sched j) = false) /\
      (stage j = JDone -> store (sched j) = fs' /\ accept_conn (server j) = None).
Proof. apply distributed_agrees. Qed.

End properties.

(** After [Shutdown] the loop of a worker waits in [Accept]; one more connection
    ends it. *)
Theorem shutdown_needs_connection wk :
  wk.(loop) = LTest ->
  loop (loop_test (Shutdown wk).1) = LAccept /\
  exists wk', accept (loop_test (Shutdown wk).1) = Some wk' /\ loop (loop_test wk') = LExit.
Proof. intros Hl. unfold loop_test, accept. cbn. rewrite Hl. cbn. split; [done|]. by eexists. Qed.

(** ** Examples *)

Lemma distributed_is_sequential_witness :
  exists j0 mr fs',
    Distributed "wcseq" demo_inputs.*1 2 true demo_fs = Ret j0 /\
    Sequential (fun _ => true) "wcseq" demo_inputs.*1 2 (mapF no_table) reduceF demo_fs = Ret (mr, fs') /\
    forall j, jsteps (fun _ => true) (mapF no_table) reduceF "master" "wcseq" demo_inputs.*1 2 j0 j ->
      stage j <> JCrash /\ (NoDup (registered (sched j)) -> fatal (sched j) = false) /\
      (stage j = JDone -> store (sched j) = fs' /\ accept_conn (server j) = None).
Proof.
  apply (distributed_is_sequential (fun _ => true) (mapF no_table) reduceF "master" "wcseq" 2 demo_inputs demo_fs).
  - apply demo_job_ok. lia.
  - unfold len. cbn. lia.
Defined.




(** [Wait] returns while the workers go on: [a] has answered [Shutdown] and waits for
    a connection; [b], whose [Register] had to wait for the lock that [killWorkers]
    holds, is in the list of workers and was not told to stop. *)
Theorem wait_leaves_workers :
  exists j0 j, Distributed "e" [] 0 true ∅ = Ret j0 /\
    jsteps (fun _ => true) (mapF no_table) reduceF "master" "e" [] 0 j0 j /\
    stage j = JDone /\ jstats j = [0] /\ registered (sched j) = ["a"; "b"] /\
    procs (sched j) = ["a"; "b"] /\
    (loop <$> wks (sched j) !! 0%nat) = Some LAccept /\ (nRPC <$> wks (sched j) !! 1%nat) = Some (-1).
Proof.
  set (fs' := {["mrtmp.e" := ""]} : FS). eexists _, _. split; [reflexivity|]. split.
  - eapply rtc_l; [apply J_select|].
    eapply rtc_l; [apply (J_start _ _ _ _ _ _ _ _ "a" (-1))|].
    eapply rtc_l; [by apply (J_dial _ _ _ _ _ _ _ _ "a" (mkServer false true SSelect))|].
    eapply rtc_l; [by apply (J_register _ _ _ _ _ _ _ _ 0 "a")|]. norm_state.
    do 2 (eapply rtc_l; [by eapply (J_loop _ _ _ _ _ _ _ _ 0 "a")|]; norm_state).
    eapply rtc_l; [apply J_select|].
    eapply rtc_l; [apply (J_start _ _ _ _ _ _ _ _ "b" (-1))|].
    eapply rtc_l; [by apply (J_dial _ _ _ _ _ _ _ _ "b" (mkServer false true SSelect))|]. norm_state.
    eapply rtc_l; [apply (J_map_done _ _ _ _ _ _ _ _ []); [done|constructor|done]|].
    eapply rtc_l; [apply J_reduce_done; [done|constructor]|]. norm_state.
    eapply rtc_l; [by apply (J_kill_dial _ _ _ _ _ _ _ _ "a" [] 0)|].
    eapply rtc_l; [by eapply (J_kill _ _ _ _ _ _ _ _ 0 [])|]. norm_state.
    eapply rtc_l; [by eapply (J_killed _ _ _ _ _ _ _ _ 0 [])|]. norm_state.
    eapply rtc_l; [by apply J_kill_end|].
    eapply rtc_l; [by apply (J_register _ _ _ _ _ _ _ _ 0 "b")|]. norm_state.
    eapply rtc_l; [apply J_select|].
    eapply rtc_l; [by apply (J_stop _ _ _ _ _ _ _ _ (mkServer false true SSelect))|].
    eapply rtc_l; [by apply (J_stopped _ _ _ _ _ _ _ _ (mkServer true false SSelect))|]. norm_state.
    eapply rtc_l; [by apply (J_merge _ _ _ _ _ _ _ _ fs')|].
    eapply rtc_l; [by apply J_wait|]. norm_state.
    eapply rtc_l; [by eapply (J_loop _ _ _ _ _ _ _ _ 0 "a")|]. apply rtc_refl.
  - vm_compute. done.
Qed.
