(* ===== verification/Programs.v ===== *)
(** * Programs: the commands wc and ii (main of src/main/wc.go and src/main/ii.go)

    [main] reads the command line: a sequential job, the master of a distributed
    job, or a worker.  Run as master, the command writes the same result in both
    modes; of [wc] it is the count of the words. *)

From S2P Require Import Prelude Utf8 MapReduce MRFacts MRTheory MRJobs WordCount InvertedIndex.
From S2P Require Import Schedule ScheduleTheory MRMaster Distributed MRMasterTheory.
From stdpp Require Import pretty sorting.
Local Open Scope Z_scope.

(** What a command does: the sequential job has run, the master of a distributed
    job has started (its steps are those of MRMaster.v, and [Wait] returns in stage
    [JDone]), a worker is about to register. *)
Inductive Program :=
| Usage
| Local (r : res (Master * FS))
| MasterOf (address : string) (r : res Job)
| WorkerOf (master me : string) (wk : Worker).

Section main.
Context `{!JsonCodec, !GoMapOrder} (can_create : string -> bool).

(** The two programs differ in the name of the job and in the functions. *)
Definition main_with (job : string) (mapF : string -> string -> list KeyValue)
    (reduceF : string -> list string -> string) (listen_ok : bool) (args : list string) (fs : FS) : Program :=
  match args with
  | _ :: mode :: target :: file :: rest =>
      if decide (mode = "master") then
        if decide (target = "sequential")
        then Local (Sequential can_create job (file :: rest) 3 mapF reduceF fs)
        else MasterOf target (MRMaster.Distributed job (file :: rest) 3 listen_ok fs)
      else WorkerOf target file (newWorker 100)
  | _ => Usage
  end.

Definition wc_main (table : N -> bool) : bool -> list string -> FS -> Program :=
  main_with "wcseq" (WordCount.mapF table) WordCount.reduceF.
Definition ii_main (table : N -> bool) : bool -> list string -> FS -> Program :=
  main_with "iiseq" (InvertedIndex.mapF table) InvertedIndex.reduceF.

(** Whatever mode the command is run in, a job that finishes leaves [content] in
    the file [path]; the master never crashes, and no worker finds two tasks as long as
    every worker registers under a name of its own. *)
Definition writes (main : bool -> list string -> FS -> Program)
    (step : string -> Job -> Job -> Prop) (name : string) (inputs : list string) (fs : FS)
    (path content : string) : Prop :=
  (exists mr fs', main true (name :: "master" :: "sequential" :: inputs) fs = Local (Ret (mr, fs')) /\
     fs' !! path = Some content) /\
  forall address, address <> "sequential" ->
    exists j0, main true (name :: "master" :: address :: inputs) fs = MasterOf address (Ret j0) /\
      forall j, step address j0 j -> stage j <> JCrash /\ (NoDup (registered (sched j)) -> fatal (sched j) = false) /\
        (stage j = JDone -> store (sched j) !! path = Some content).

Lemma main_writes job mapF reduceF inputs fs mr fs' name path content :
  job_ok can_create job 3 mapF reduceF inputs fs -> 3 <= len inputs ->
  Sequential can_create job inputs.*1 3 mapF reduceF fs = Ret (mr, fs') -> fs' !! path = Some content ->
  writes (main_with job mapF reduceF) (fun address => jsteps can_create mapF reduceF address job inputs.*1 3)
    name inputs.*1 fs path content.
Proof.
  intros Hok Hlen E Hp. assert (exists f rest, inputs.*1 = f :: rest) as (f & rest & Ein).
  { destruct inputs as [|[f c] rest]; [unfold len in Hlen; cbn in Hlen; lia|]. cbn. eauto. }
  split.
  - exists mr, fs'. split; [|done]. unfold main_with. rewrite Ein. rewrite Ein in E.
    rewrite !decide_True by done. by rewrite E.
  - intros address Ha.
    destruct (distributed_agrees can_create mapF reduceF address job 3 inputs fs Hok Hlen)
      as (j0 & mr' & fs2 & E0 & E1 & Hj). rewrite E in E1. injection E1 as <- <-. exists j0. split.
    + unfold main_with. rewrite Ein. rewrite Ein in E0. rewrite decide_True, decide_False by done. by rewrite E0.
    + intros j Hs. destruct (Hj j Hs) as (H1 & H2 & H3). split; [done|]. split; [done|]. intros Hd.
      destruct (H3 Hd) as [-> _]. done.
Qed.

(** C40. The command [wc], run with at least three readable files, as a sequential job
    or as the master of a distributed job (however its workers come, fail and die),
    writes when it finishes one line for each word of the files, in ascending order,
    with the number of times the word occurs in all of them. *)
Theorem wc_main_counts table inputs fs name :
  table RuneError = false -> inputs_ok can_create "wcseq" 3 inputs fs -> 3 <= len inputs ->
  exists keys, StronglySorted String.le keys /\ NoDup keys /\ (forall w, w ∈ keys <-> w ∈ all_words table inputs) /\
    writes (wc_main table)
      (fun address => jsteps can_create (WordCount.mapF table) WordCount.reduceF address "wcseq" inputs.*1 3)
      name inputs.*1 fs "mrtmp.wcseq" (concat_strings
        ((fun w => outline w (Itoa (Z.of_nat (cnt (fun x => x = w) (all_words table inputs))))) <$> keys)).
Proof.
  intros Ht Hi Hlen. destruct (wc_counts can_create table inputs fs Ht Hi) as (mr & fs' & keys & E & H1 & H2 & H3 & H4).
  exists keys. split; [done|]. split; [done|]. split; [done|].
  eapply main_writes; [|done|done|done]. apply wc_job_ok; [lia|done|done].
Qed.

(** The command [ii], likewise: for each word the documents that contain it. *)
Theorem ii_main_indexes table inputs fs name :
  table RuneError = false -> inputs_ok can_create "iiseq" 3 inputs fs -> 3 <= len inputs ->
  (forall f c, (f, c) ∈ inputs -> ValidString f = true) ->
  exists keys, StronglySorted String.le keys /\ NoDup keys /\ (forall w, w ∈ keys <-> w ∈ all_words table inputs) /\
    writes (ii_main table)
      (fun address => jsteps can_create (InvertedIndex.mapF table) InvertedIndex.reduceF address "iiseq" inputs.*1 3)
      name inputs.*1 fs "mrtmp.iiseq" (concat_strings
        ((fun w => outline w (Itoa (len (documents table w inputs)) +:+ " " +:+
            comma_separated (merge_sort String.le (documents table w inputs)))) <$> keys)).
Proof.
  intros Ht Hi Hlen Hv.
  destruct (ii_index can_create table inputs fs Ht Hi Hv) as (mr & fs' & keys & E & H1 & H2 & H3 & H4).
  exists keys. split; [done|]. split; [done|]. split; [done|].
  eapply main_writes; [|done|done|done]. by apply ii_job_ok.
Qed.
End main.

(** ** An example *)

Definition wc_inputs : list (string * string) := [("f1", "a b a"); ("f2", "b, c!"); ("f3", "")].
Definition wc_fs : FS := {["f1" := "a b a"; "f2" := "b, c!"; "f3" := ""]}.

Lemma wc_inputs_ok job n : inputs_ok (fun _ => true) job n wc_inputs wc_fs.
Proof.
  split; [|done]. unfold wc_inputs. intros f c. rewrite !elem_of_cons, elem_of_nil.
  intros [[= -> ->]|[[= -> ->]|[[= -> ->]|[]]]]; (split; [reflexivity|]);
    intros [(? & ? & _ & _ & [=])|[(? & _ & [=])|[=]]].
Qed.

Lemma wc_main_counts_witness :
  exists keys, StronglySorted String.le keys /\ NoDup keys /\
    (forall w, w ∈ keys <-> w ∈ all_words no_table wc_inputs) /\
    writes (wc_main (fun _ => true) no_table)
      (fun address => jsteps (fun _ => true) (WordCount.mapF no_table) WordCount.reduceF address "wcseq" wc_inputs.*1 3)
      "wc" wc_inputs.*1 wc_fs "mrtmp.wcseq" (concat_strings
        ((fun w => outline w (Itoa (Z.of_nat (cnt (fun x => x = w) (all_words no_table wc_inputs))))) <$> keys)).
Proof.
  apply (wc_main_counts (fun _ => true) no_table wc_inputs wc_fs "wc");
    [reflexivity|apply wc_inputs_ok|unfold len; cbn; lia].
Defined.

(** Too few arguments print the usage line; with two files the master starts, and
    the reduce phase panics later ([schedule_reduce_panics]). *)
Example wc_usage : wc_main (fun _ => true) no_table true ["wc"; "master"; "sequential"] wc_fs = Usage.
Proof. reflexivity. Qed.
